(** * The peer-to-peer pool of mako (src/node/pool.c): framer, peers, pool

    A shallow embedding of the functions of [src/node/pool.c] that the
    networking specification talks about, and the properties of the
    specification proved (or refuted) on them.

    Conventions of the embedding.
    - Signed C integers ([int], [int32_t], [int64_t]) are [Z]; the code never
      relies on signed wrap-around (undefined in C), so arithmetic on them is
      plain arithmetic on [Z].  Unsigned quantities read off the wire are [Z]
      with the reduction modulo [2^32] written out where the code has one.
    - Bytes are [Byte.byte]; buffers and 32-byte hashes are [list byte].
    - [CHECK(e)] aborts the process when [e] is false: a function that runs a
      [CHECK] returns [option], [None] standing for the abort.
    - [btc_ms()] is an input: every handler takes the clock value [now].
    - Collaborators that live outside [pool.c] (the chain, the mempool, the
      address manager, the sockets of the event loop) appear through the
      answers they give to the calls that [pool.c] makes. *)

From Stdlib Require Import ZArith List Lia Bool.
From Stdlib.Strings Require Import Byte.
From stdpp Require Import base option list gmap.
Import ListNotations.
Local Open Scope Z_scope.

(** ** Bytes and little-endian words *)

Definition byte_to_Z (b : byte) : Z := Z.of_N (Byte.to_N b).

Definition byte_of_Z (z : Z) : byte :=
  match Byte.of_N (Z.to_N (z mod 256)) with
  | Some b => b
  | None => x00
  end.

#[global] Instance byte_eq_dec : EqDecision byte := Byte.byte_eq_dec.
#[global] Instance byte_countable : Countable byte :=
  inj_countable Byte.to_N Byte.of_N Byte.of_to_N.

(** [read32le]: the four bytes at the front of [data], least significant
    first (bytes missing from a short buffer read as zero). *)
Definition nth_byte (data : list byte) (i : nat) : Z :=
  byte_to_Z (nth i data x00).

Definition read32le (data : list byte) : Z :=
  nth_byte data 0 + 256 * nth_byte data 1 + 65536 * nth_byte data 2
  + 16777216 * nth_byte data 3.

(** [btc_uint32_write]: the value is converted to [uint32_t] first. *)
Definition btc_uint32_write (x : Z) : list byte :=
  let x := x mod 2 ^ 32 in
  [byte_of_Z x; byte_of_Z (x / 256); byte_of_Z (x / 65536);
   byte_of_Z (x / 16777216)].

(** ** Double SHA-256 *)

Module SHA256.

Definition mask32 : Z := 2 ^ 32 - 1.
Definition add32 (a b : Z) : Z := (a + b) mod 2 ^ 32.
Definition rotr (n x : Z) : Z :=
  Z.lor (Z.shiftr x n) (Z.land (Z.shiftl x (32 - n)) mask32).
Definition Ch (x y z : Z) : Z :=
  Z.lxor (Z.land x y) (Z.land (Z.lxor x mask32) z).
Definition Maj (x y z : Z) : Z :=
  Z.lxor (Z.lxor (Z.land x y) (Z.land x z)) (Z.land y z).
Definition Sigma0 (x : Z) : Z :=
  Z.lxor (Z.lxor (rotr 2 x) (rotr 13 x)) (rotr 22 x).
Definition Sigma1 (x : Z) : Z :=
  Z.lxor (Z.lxor (rotr 6 x) (rotr 11 x)) (rotr 25 x).
Definition sigma0 (x : Z) : Z :=
  Z.lxor (Z.lxor (rotr 7 x) (rotr 18 x)) (Z.shiftr x 3).
Definition sigma1 (x : Z) : Z :=
  Z.lxor (Z.lxor (rotr 17 x) (rotr 19 x)) (Z.shiftr x 10).

(** The constants of FIPS 180-4 are derived as the standard defines them:
    the first 32 bits of the fractional parts of the cube roots (for [K]) and
    of the square roots (for [H0]) of the first primes. *)
Definition is_prime (n : Z) : bool :=
  forallb (fun d => negb (n mod Z.of_nat d =? 0)) (seq 2 (Z.to_nat n - 2)).

Definition primes : list Z :=
  List.filter is_prime (map Z.of_nat (seq 2 310)).

(** The integer cube root of [n], one bit at a time from 2^[bits - 1]
    down. *)
Fixpoint cube_root (bits : nat) (n r : Z) : Z :=
  match bits with
  | O => r
  | S b =>
      let r' := r + 2 ^ Z.of_nat b in
      cube_root b n (if r' * r' * r' <=? n then r' else r)
  end.

Definition K : list Z :=
  map (fun p => cube_root 36 (p * 2 ^ 96) 0 mod 2 ^ 32) (firstn 64 primes).

Definition H0 : list Z :=
  map (fun p => Z.sqrt (p * 2 ^ 64) mod 2 ^ 32) (firstn 8 primes).

(** Big-endian 32-bit words of a block. *)
Fixpoint words_be (bs : list byte) : list Z :=
  match bs with
  | a :: b :: c :: d :: rest =>
      (16777216 * byte_to_Z a + 65536 * byte_to_Z b
       + 256 * byte_to_Z c + byte_to_Z d) :: words_be rest
  | _ => []
  end.

Definition word_be_bytes (w : Z) : list byte :=
  [byte_of_Z (w / 16777216); byte_of_Z (w / 65536); byte_of_Z (w / 256);
   byte_of_Z w].

(** The message schedule: [n] further words from a window of sixteen. *)
Fixpoint schedule (n : nat) (win : list Z) : list Z :=
  match n with
  | O => []
  | S n' =>
      let w := add32 (add32 (sigma1 (nth 14 win 0)) (nth 9 win 0))
                     (add32 (sigma0 (nth 1 win 0)) (nth 0 win 0)) in
      w :: schedule n' (tl win ++ [w])
  end.

Definition round (st : list Z) (kw : Z * Z) : list Z :=
  match st with
  | [a; b; c; d; e; f; g; h] =>
      let t1 := add32 (add32 (add32 h (Sigma1 e)) (add32 (Ch e f g) (fst kw)))
                      (snd kw) in
      let t2 := add32 (Sigma0 a) (Maj a b c) in
      [add32 t1 t2; a; b; c; add32 d t1; e; f; g]
  | _ => st
  end.

Definition add_state (x y : list Z) : list Z :=
  map (fun p => add32 (fst p) (snd p)) (combine x y).

Definition compress (st : list Z) (block : list byte) : list Z :=
  let w16 := words_be block in
  let w := w16 ++ schedule 48 w16 in
  add_state st (fold_left round (combine K w) st).

Fixpoint blocks (n : nat) (st : list Z) (bs : list byte) : list Z :=
  match n with
  | O => st
  | S n' => blocks n' (compress st (firstn 64 bs)) (skipn 64 bs)
  end.

Definition pad (msg : list byte) : list byte :=
  let len := Z.of_nat (length msg) in
  let zeros := Z.to_nat ((55 - len) mod 64) in
  let bits := 8 * len in
  msg ++ [byte_of_Z 128] ++ repeat x00 zeros
      ++ word_be_bytes (bits / 2 ^ 32) ++ word_be_bytes bits.

Definition sha256 (msg : list byte) : list byte :=
  let p := pad msg in
  concat (map word_be_bytes (blocks (length p / 64) H0 p)).

End SHA256.

(** Modelled from the spec: [btc_hash256] (satoshi/crypto/hash.h) is not among
    the sources; the specification names it: the checksum is taken from the
    double SHA-256 of the payload. *)
Definition btc_hash256 (data : list byte) : list byte :=
  SHA256.sha256 (SHA256.sha256 data).

Definition bytes_of_Zs (l : list Z) : list byte := map byte_of_Z l.

(** * The framer ([btc_parser_t]) *)

(** Modelled from the spec: the constant [BTC_NET_MAX_MESSAGE] is declared in
    satoshi/net.h, which is not among the sources; the specification gives the
    bound on a payload as 32 MiB. *)
Definition BTC_NET_MAX_MESSAGE : Z := 32 * 2 ^ 20.

(** [btc_parser_t].  The buffer [pending] is kept as the list of its [total]
    live bytes ([alloc] is its capacity and decides nothing); [cmd] is the C
    string held in the 12-byte array. *)
Record btc_parser := {
  magic : Z;
  pending : list byte;
  waiting : Z;
  closed : bool;
  cmd : list byte;
  has_header : bool;
  checksum : Z
}.

Definition total (p : btc_parser) : Z := Z.of_nat (length (pending p)).

Definition btc_parser_init (magic : Z) : btc_parser :=
  {| magic := magic; pending := []; waiting := 24; closed := false;
     cmd := []; has_header := false; checksum := 0 |}.

Definition set_pending (v : list byte) (p : btc_parser) : btc_parser :=
  {| magic := magic p; pending := v; waiting := waiting p; closed := closed p;
     cmd := cmd p; has_header := has_header p; checksum := checksum p |}.

Definition set_waiting (v : Z) (p : btc_parser) : btc_parser :=
  {| magic := magic p; pending := pending p; waiting := v; closed := closed p;
     cmd := cmd p; has_header := has_header p; checksum := checksum p |}.

Definition set_closed (v : bool) (p : btc_parser) : btc_parser :=
  {| magic := magic p; pending := pending p; waiting := waiting p; closed := v;
     cmd := cmd p; has_header := has_header p; checksum := checksum p |}.

Definition set_cmd (v : list byte) (p : btc_parser) : btc_parser :=
  {| magic := magic p; pending := pending p; waiting := waiting p;
     closed := closed p; cmd := v; has_header := has_header p;
     checksum := checksum p |}.

Definition set_has_header (v : bool) (p : btc_parser) : btc_parser :=
  {| magic := magic p; pending := pending p; waiting := waiting p;
     closed := closed p; cmd := cmd p; has_header := v;
     checksum := checksum p |}.

Definition set_checksum (v : Z) (p : btc_parser) : btc_parser :=
  {| magic := magic p; pending := pending p; waiting := waiting p;
     closed := closed p; cmd := cmd p; has_header := has_header p;
     checksum := v |}.

(** [for (i = 0; data[i + 4] != 0 && i < 12; i++);] run on the bytes from
    [data + 4] on: the index of the first NUL, at most [n]. *)
Fixpoint cmd_scan (n : nat) (bytes : list byte) : nat :=
  match n, bytes with
  | S n', b :: rest => if byte_to_Z b =? 0 then O else S (cmd_scan n' rest)
  | _, _ => O
  end.

(** [ch < 32 || ch > 126] fails. *)
Definition cmd_char_ok (b : byte) : bool :=
  (32 <=? byte_to_Z b) && (byte_to_Z b <=? 126).

Definition btc_parser_parse_header (p : btc_parser) (data : list byte)
  : bool * btc_parser :=
  if negb (read32le data =? magic p) then (false, p)
  else
    let i := cmd_scan 12 (skipn 4 data) in
    if Nat.eqb i 12 then (false, p)
    else
      let p := set_cmd (firstn i (skipn 4 data)) p in
      if negb (forallb cmd_char_ok (cmd p)) then (false, p)
      else
        let size := read32le (skipn 16 data) in
        if size >? BTC_NET_MAX_MESSAGE then (false, p)
        else
          (true, set_has_header true
                   (set_checksum (read32le (skipn 20 data))
                      (set_waiting size p))).

(** What a run of the framer ends in: a state, the abort of a failed [CHECK],
    or the loop bound of the model reached. *)
Inductive result (A : Type) : Type :=
| Ok (a : A)
| Abort
| Fuel.
Arguments Ok {A} a.
Arguments Abort {A}.
Arguments Fuel {A}.

Section Framer.
(** The parser is a field of the structure [arg] that its callbacks receive
    (a [btc_peer_t] in [pool.c]): [St] is the state the callbacks act on,
    [parser_of] and [with_parser] read and write the parser inside it. *)
Context {M St : Type}.
(** [btc_msg_set_cmd], [btc_msg_alloc] and [btc_msg_import] (satoshi/netmsg.h):
    the decoder of a payload for the latched command. *)
Variable btc_msg_import : list byte -> list byte -> option M.
Variable parser_of : St -> btc_parser.
Variable with_parser : btc_parser -> St -> St.
(** The callbacks; a callback that runs into a failed [CHECK] aborts. *)
Variable on_msg : M -> St -> option St.
Variable on_error : St -> option St.

Definition btc_parser_append (s : St) (data : list byte) : St :=
  let p := parser_of s in
  if closed p then s
  else with_parser (set_pending (pending p ++ data) p) s.

Definition btc_parser_parse (s : St) (data : list byte)
  : option (bool * St) :=
  let p := parser_of s in
  if Z.of_nat (length data) >? BTC_NET_MAX_MESSAGE then None
  else if negb (has_header p) then
    if negb (Nat.eqb (length data) 24) then None
    else
      let '(ok, p') := btc_parser_parse_header p data in
      Some (ok, with_parser p' s)
  else
    let s1 := with_parser (set_has_header false (set_waiting 24 p)) s in
    if negb (read32le (btc_hash256 data) =? checksum p) then Some (false, s1)
    else
      match btc_msg_import (cmd p) data with
      | None => Some (false, s1)
      | Some m =>
          match on_msg m s1 with
          | Some s2 => Some (true, s2)
          | None => None
          end
      end.

(** One turn of the [while] loop of [btc_parser_feed] on the unread bytes
    [ptr] (of which there are [len]): the chunk is parsed, the error
    callback runs on failure unless the parser was closed meanwhile, and
    the chunk is skipped. *)
Definition btc_parser_feed_step (s : St) (ptr : list byte)
  : option (St * list byte) :=
  let wait := Z.to_nat (waiting (parser_of s)) in
  match btc_parser_parse s (firstn wait ptr) with
  | None => None
  | Some (ok, s1) =>
      let s2 := if ok then Some s1
                else if closed (parser_of s1) then Some s1
                else on_error s1 in
      match s2 with
      | Some s2 => Some (s2, skipn wait ptr)
      | None => None
      end
  end.

Fixpoint btc_parser_feed_loop (fuel : nat) (s : St) (ptr : list byte)
  : result (St * list byte) :=
  let p := parser_of s in
  if closed p || (Z.of_nat (length ptr) <? waiting p) then Ok (s, ptr)
  else
    match fuel with
    | O => Fuel
    | S fuel' =>
        match btc_parser_feed_step s ptr with
        | None => Abort
        | Some (s2, rest) => btc_parser_feed_loop fuel' s2 rest
        end
    end.

(** Every turn that starts without a header consumes 24 bytes and every
    turn that starts with one ends without: [2 * len + 2] turns are more
    than the loop can take. *)
Definition btc_parser_feed (s : St) (data : list byte) : result St :=
  let s0 := btc_parser_append s data in
  let ptr := pending (parser_of s0) in
  match btc_parser_feed_loop (2 * length ptr + 2) s0 ptr with
  | Ok (s1, rest) => Ok (with_parser (set_pending rest (parser_of s1)) s1)
  | Abort => Abort
  | Fuel => Fuel
  end.

End Framer.

(** The encoder of [btc_peer_send]: magic, the command padded with NUL to 12
    bytes, the length of the body, the first four bytes of its hash, the body.
    ([msg->cmd] is a C string in a 12-byte array: [cmd] has at most 11
    bytes.) *)
Definition btc_frame (magic : Z) (cmd body : list byte) : list byte :=
  btc_uint32_write magic
  ++ cmd ++ repeat x00 (12 - length cmd)
  ++ btc_uint32_write (Z.of_nat (length body))
  ++ firstn 4 (btc_hash256 body)
  ++ body.

(** The framer on its own, with callbacks that only record what they are
    called with. *)
Inductive parser_event (M : Type) : Type :=
| Emitted (m : M)
| Failed.
Arguments Emitted {M} m.
Arguments Failed {M}.

Definition trace_feed {M : Type} (import : list byte -> list byte -> option M)
  (s : btc_parser * list (parser_event M)) (data : list byte)
  : result (btc_parser * list (parser_event M)) :=
  btc_parser_feed import fst (fun p s => (p, snd s))
    (fun m s => Some (fst s, snd s ++ [Emitted m]))
    (fun s => Some (fst s, snd s ++ [Failed])) s data.

(** * The data of the pool *)

(** A 32-byte hash; [btc_hash_init] fills it with zeros. *)
Definition hash : Type := list byte.
Definition btc_hash_zero : hash := repeat x00 32.
Definition btc_hash_equal (a b : hash) : bool := bool_decide (a = b).

Inductive btc_peer_state : Set :=
| BTC_PEER_CONNECTING
| BTC_PEER_WAIT_VERSION
| BTC_PEER_WAIT_VERACK
| BTC_PEER_CONNECTED
| BTC_PEER_DEAD.

Definition state_eqb (a b : btc_peer_state) : bool :=
  match a, b with
  | BTC_PEER_CONNECTING, BTC_PEER_CONNECTING
  | BTC_PEER_WAIT_VERSION, BTC_PEER_WAIT_VERSION
  | BTC_PEER_WAIT_VERACK, BTC_PEER_WAIT_VERACK
  | BTC_PEER_CONNECTED, BTC_PEER_CONNECTED
  | BTC_PEER_DEAD, BTC_PEER_DEAD => true
  | _, _ => false
  end.

(** The type of an inventory item.  The numeric codes are declared outside
    the sources; a code that is none of the named ones is [INV_OTHER]. *)
Inductive btc_invtype : Set :=
| BTC_INV_TX
| BTC_INV_BLOCK
| BTC_INV_FILTERED_BLOCK
| BTC_INV_CMPCT_BLOCK
| BTC_INV_WITNESS_TX
| BTC_INV_WITNESS_BLOCK
| BTC_INV_WITNESS_FILTERED_BLOCK
| INV_OTHER (code : Z).

Record btc_invitem := { inv_type : btc_invtype; inv_hash : hash }.

(** A block header, as far as [pool.c] looks at it: the field [prev_block],
    and the answers of [btc_header_hash] and [btc_header_verify]
    (satoshi/header.h), which are functions of the header alone. *)
Record btc_header := {
  hdr_prev_block : hash;
  hdr_hash : hash;
  hdr_verify : bool
}.

Record btc_checkpoint := { chk_height : Z; chk_hash : hash }.

(** [btc_hdrnode_t]; the [next] pointers are the order of the list that
    holds the nodes. *)
Record btc_hdrnode := { node_hash : hash; node_height : Z }.

(** A pointer to a node of the headers chain that is not [NULL].
    [HDR_LIVE k] is the node at position [k] of the chain.  [HDR_FREED ns]
    is a node that [btc_pool_shift_header] has freed since the pointer was
    set: [ns] are the freed nodes from it on along [next], the [next] of the
    last of them being the head of the chain.  A freed node is read as it
    was left ([btc_hdrentry_destroy] is outside the sources). *)
Inductive hdr_ref : Type :=
| HDR_LIVE (k : nat)
| HDR_FREED (ns : list btc_hdrnode).

(** [btc_network_t], the fields read by [pool.c]. *)
Record btc_network := {
  net_magic : Z;
  net_port : Z;
  net_checkpoints : list btc_checkpoint;
  net_last_checkpoint : Z;
  net_request_mempool : bool
}.

(** [btc_netaddr_t]: the address proper ([na_raw], [na_port]), the advertised
    services, and the answers of [btc_netaddr_is_valid] and
    [btc_netaddr_is_onion]. *)
Record btc_netaddr := {
  na_raw : list byte;
  na_port : Z;
  na_services : Z;
  na_is_valid : bool;
  na_is_onion : bool
}.

(** The key of the address map of the peers: host and port. *)
Definition netaddr_eqb (a b : btc_netaddr) : bool :=
  bool_decide (na_raw a = na_raw b) && (na_port a =? na_port b).

(** Blocks and transactions are carried, not inspected. *)
Record btc_block := { blk_hash : hash; blk_raw : list byte }.
Record btc_tx := { tx_hash : hash; tx_raw : list byte }.

(** ** The collaborators *)

(** A chain entry ([btc_entry_t]).  Entries are unique per hash in the
    index of the chain: the pointer comparison [entry == stop] is the
    comparison of their hashes. *)
Record btc_entry := {
  entry_hash : hash;
  entry_height : Z;
  entry_header : btc_header
}.

Definition entry_eqb (a b : btc_entry) : bool :=
  btc_hash_equal (entry_hash a) (entry_hash b).

(** CHAIN, through its answers: [entry_next e] is [e->next], the successor
    on the main chain. *)
Record btc_chain := {
  btc_chain_synced : bool;
  btc_chain_tip : btc_entry;
  btc_chain_height : Z;
  btc_chain_by_hash : hash -> option btc_entry;
  btc_chain_find_locator : list hash -> option btc_entry;
  entry_next : btc_entry -> option btc_entry;
  btc_chain_get_locator : option hash -> list hash;
  btc_chain_has_hash : hash -> bool;
  btc_chain_has_orphan : hash -> bool;
  btc_chain_has_invalid : hash -> bool;
  btc_chain_get_orphan_root : hash -> option hash;
  btc_chain_get_block : btc_entry -> option btc_block;
  btc_chain_get_raw_block : btc_entry -> option (list byte)
}.

(** MEMPOOL: the entries in iteration order. *)
Record btc_mempool := {
  mp_entries : list btc_tx;
  btc_mempool_has_reject : hash -> bool
}.

Definition btc_mempool_get (mp : btc_mempool) (h : hash) : option btc_tx :=
  find (fun t => btc_hash_equal (tx_hash t) h) (mp_entries mp).

Definition btc_mempool_has (mp : btc_mempool) (h : hash) : bool :=
  bool_decide (is_Some (btc_mempool_get mp h)).

(** ADDRMAN: [am_get i] is the entry that the [i]-th call of
    [btc_addrman_get] of one search returns; [am_banned] the addresses handed
    to [btc_addrman_ban], latest first; [am_removed] and [am_attempts]
    those handed to [btc_addrman_remove] and [btc_addrman_mark_attempt]. *)
Record btc_addrent := { ae_addr : btc_netaddr; ae_last_attempt : Z }.

Record btc_addrman := {
  am_get : nat -> option btc_addrent;
  am_size : Z;
  am_local : list btc_netaddr;
  am_banned : list btc_netaddr;
  am_removed : list btc_netaddr;
  am_attempts : list btc_netaddr
}.

Definition set_am_banned (v : list btc_netaddr) (p : btc_addrman) : btc_addrman :=
  {| am_get := am_get p; am_size := am_size p; am_local := am_local p;
     am_banned := v; am_removed := am_removed p;
     am_attempts := am_attempts p |}.

Definition set_am_removed (v : list btc_netaddr) (p : btc_addrman) : btc_addrman :=
  {| am_get := am_get p; am_size := am_size p; am_local := am_local p;
     am_banned := am_banned p; am_removed := v;
     am_attempts := am_attempts p |}.

Definition set_am_attempts (v : list btc_netaddr) (p : btc_addrman) : btc_addrman :=
  {| am_get := am_get p; am_size := am_size p; am_local := am_local p;
     am_banned := am_banned p; am_removed := am_removed p;
     am_attempts := v |}.


Definition btc_addrman_ban (am : btc_addrman) (a : btc_netaddr) : btc_addrman :=
  set_am_banned (a :: am_banned am) am.
Definition btc_addrman_remove (am : btc_addrman) (a : btc_netaddr)
  : btc_addrman :=
  set_am_removed (a :: am_removed am) am.
Definition btc_addrman_mark_attempt (am : btc_addrman) (a : btc_netaddr)
  : btc_addrman :=
  set_am_attempts (a :: am_attempts am) am.
Definition btc_addrman_is_banned (am : btc_addrman) (a : btc_netaddr) : bool :=
  existsb (netaddr_eqb a) (am_banned am).
Definition btc_addrman_has_local (am : btc_addrman) (a : btc_netaddr) : bool :=
  existsb (netaddr_eqb a) (am_local am).

(** A socket of the event loop: the [n]-th [btc_socket_write] returns
    [sock_rc n] (-1 for an error), after [n] writes [btc_socket_buffered]
    answers [sock_buffered n]; [sock_written] holds the buffers of the writes
    that did not fail, oldest first. *)

Record btc_socket := {
  sock_closed : bool;
  sock_written : list (list byte);
  sock_nwrites : nat;
  sock_rc : nat -> Z;
  sock_buffered : nat -> Z
}.

Definition set_sock_closed (v : bool) (p : btc_socket) : btc_socket :=
  {| sock_closed := v; sock_written := sock_written p;
     sock_nwrites := sock_nwrites p; sock_rc := sock_rc p;
     sock_buffered := sock_buffered p |}.

Definition set_sock_written (v : list (list byte)) (p : btc_socket) : btc_socket :=
  {| sock_closed := sock_closed p; sock_written := v;
     sock_nwrites := sock_nwrites p; sock_rc := sock_rc p;
     sock_buffered := sock_buffered p |}.

Definition set_sock_nwrites (v : nat) (p : btc_socket) : btc_socket :=
  {| sock_closed := sock_closed p; sock_written := sock_written p;
     sock_nwrites := v; sock_rc := sock_rc p;
     sock_buffered := sock_buffered p |}.


Definition btc_socket_close (s : btc_socket) : btc_socket :=
  set_sock_closed true s.

Definition btc_socket_write (s : btc_socket) (data : list byte)
  : Z * btc_socket :=
  let rc := sock_rc s (sock_nwrites s) in
  let s1 := set_sock_nwrites (S (sock_nwrites s)) s in
  (rc, if rc =? -1 then s1 else set_sock_written (sock_written s ++ [data]) s1).

Definition btc_socket_buffered (s : btc_socket) : Z :=
  sock_buffered s (sock_nwrites s).

(** ** Messages *)

(** The messages that the handlers below receive or send. *)
Inductive btc_msg : Type :=
| BTC_MSG_INV (items : list btc_invitem)
| BTC_MSG_GETDATA (items : list btc_invitem)
| BTC_MSG_NOTFOUND (items : list btc_invitem)
| BTC_MSG_GETBLOCKS (locator : list hash) (stop : hash)
| BTC_MSG_GETHEADERS (locator : list hash) (stop : hash)
| BTC_MSG_HEADERS (items : list btc_header)
| BTC_MSG_MEMPOOL
| BTC_MSG_FEEFILTER (rate : Z)
| BTC_MSG_BLOCK_BASE (block : btc_block)
| BTC_MSG_CMPCTBLOCK (block : btc_block)
| BTC_MSG_CMPCTBLOCK_BASE (block : btc_block)
| BTC_MSG_TX (tx : btc_tx)
| BTC_MSG_TX_BASE (tx : btc_tx).

(** MSG_CODEC (satoshi/netmsg.h): the command of a message ([msg->cmd]), its
    serialization ([btc_msg_export], whose length is [btc_msg_size]) and the
    decoder used by the framer. *)
Record msg_codec := {
  msg_cmd : btc_msg -> list byte;
  btc_msg_export : btc_msg -> list byte;
  btc_msg_import : list byte -> list byte -> option btc_msg
}.

(** Protocol constants declared outside the sources (satoshi/net.h,
    satoshi/consensus.h). *)
Record btc_consts := {
  BTC_NET_PONG_VERSION : Z;
  BTC_NET_COMPACT_VERSION : Z;
  BTC_NET_COMPACT_WITNESS_VERSION : Z;
  BTC_NET_SERVICE_BLOOM : Z;
  BTC_NET_SERVICE_WITNESS : Z;
  BTC_NET_MAX_INV : Z;
  BTC_NET_MAX_BLOCK_REQUEST : Z;
  BTC_NET_MAX_TX_REQUEST : Z;
  BTC_MAX_MONEY : Z
}.

(** ** Peers and the pool *)

(** [btc_peer_t].  [peer_sending] is the queue [sending] from head to tail;
    [peer_inv_filter] lists what was added to the approximate set
    [inv_filter], latest first; [peer_compact_map] keeps, for each partial
    compact block, its [now] stamp. *)

Record btc_peer := {
  peer_network : btc_network;
  peer_socket : btc_socket;
  peer_parser : btc_parser;
  peer_sending : list btc_invitem;
  peer_state : btc_peer_state;
  peer_id : Z;
  peer_outbound : bool;
  peer_loader : bool;
  peer_addr : btc_netaddr;
  peer_nonce : Z;
  peer_time : Z;
  peer_last_send : Z;
  peer_last_recv : Z;
  peer_ban_score : Z;
  peer_version : Z;
  peer_services : Z;
  peer_hash_continue : hash;
  peer_fee_rate : Z;
  peer_compact_mode : Z;
  peer_compact_witness : bool;
  peer_syncing : bool;
  peer_challenge : Z;
  peer_last_ping : Z;
  peer_block_time : Z;
  peer_gb_time : Z;
  peer_gh_time : Z;
  peer_inv_filter : list hash;
  peer_block_map : gmap hash Z;
  peer_tx_map : gmap hash Z;
  peer_compact_map : gmap hash Z
}.

Definition set_peer_socket (v : btc_socket) (p : btc_peer) : btc_peer :=
  {| peer_network := peer_network p; peer_socket := v;
     peer_parser := peer_parser p; peer_sending := peer_sending p;
     peer_state := peer_state p; peer_id := peer_id p;
     peer_outbound := peer_outbound p; peer_loader := peer_loader p;
     peer_addr := peer_addr p; peer_nonce := peer_nonce p;
     peer_time := peer_time p; peer_last_send := peer_last_send p;
     peer_last_recv := peer_last_recv p; peer_ban_score := peer_ban_score p;
     peer_version := peer_version p; peer_services := peer_services p;
     peer_hash_continue := peer_hash_continue p;
     peer_fee_rate := peer_fee_rate p;
     peer_compact_mode := peer_compact_mode p;
     peer_compact_witness := peer_compact_witness p;
     peer_syncing := peer_syncing p; peer_challenge := peer_challenge p;
     peer_last_ping := peer_last_ping p;
     peer_block_time := peer_block_time p; peer_gb_time := peer_gb_time p;
     peer_gh_time := peer_gh_time p; peer_inv_filter := peer_inv_filter p;
     peer_block_map := peer_block_map p; peer_tx_map := peer_tx_map p;
     peer_compact_map := peer_compact_map p |}.

Definition set_peer_parser (v : btc_parser) (p : btc_peer) : btc_peer :=
  {| peer_network := peer_network p; peer_socket := peer_socket p;
     peer_parser := v; peer_sending := peer_sending p;
     peer_state := peer_state p; peer_id := peer_id p;
     peer_outbound := peer_outbound p; peer_loader := peer_loader p;
     peer_addr := peer_addr p; peer_nonce := peer_nonce p;
     peer_time := peer_time p; peer_last_send := peer_last_send p;
     peer_last_recv := peer_last_recv p; peer_ban_score := peer_ban_score p;
     peer_version := peer_version p; peer_services := peer_services p;
     peer_hash_continue := peer_hash_continue p;
     peer_fee_rate := peer_fee_rate p;
     peer_compact_mode := peer_compact_mode p;
     peer_compact_witness := peer_compact_witness p;
     peer_syncing := peer_syncing p; peer_challenge := peer_challenge p;
     peer_last_ping := peer_last_ping p;
     peer_block_time := peer_block_time p; peer_gb_time := peer_gb_time p;
     peer_gh_time := peer_gh_time p; peer_inv_filter := peer_inv_filter p;
     peer_block_map := peer_block_map p; peer_tx_map := peer_tx_map p;
     peer_compact_map := peer_compact_map p |}.

Definition set_peer_sending (v : list btc_invitem) (p : btc_peer) : btc_peer :=
  {| peer_network := peer_network p; peer_socket := peer_socket p;
     peer_parser := peer_parser p; peer_sending := v;
     peer_state := peer_state p; peer_id := peer_id p;
     peer_outbound := peer_outbound p; peer_loader := peer_loader p;
     peer_addr := peer_addr p; peer_nonce := peer_nonce p;
     peer_time := peer_time p; peer_last_send := peer_last_send p;
     peer_last_recv := peer_last_recv p; peer_ban_score := peer_ban_score p;
     peer_version := peer_version p; peer_services := peer_services p;
     peer_hash_continue := peer_hash_continue p;
     peer_fee_rate := peer_fee_rate p;
     peer_compact_mode := peer_compact_mode p;
     peer_compact_witness := peer_compact_witness p;
     peer_syncing := peer_syncing p; peer_challenge := peer_challenge p;
     peer_last_ping := peer_last_ping p;
     peer_block_time := peer_block_time p; peer_gb_time := peer_gb_time p;
     peer_gh_time := peer_gh_time p; peer_inv_filter := peer_inv_filter p;
     peer_block_map := peer_block_map p; peer_tx_map := peer_tx_map p;
     peer_compact_map := peer_compact_map p |}.

Definition set_peer_state (v : btc_peer_state) (p : btc_peer) : btc_peer :=
  {| peer_network := peer_network p; peer_socket := peer_socket p;
     peer_parser := peer_parser p; peer_sending := peer_sending p;
     peer_state := v; peer_id := peer_id p; peer_outbound := peer_outbound p;
     peer_loader := peer_loader p; peer_addr := peer_addr p;
     peer_nonce := peer_nonce p; peer_time := peer_time p;
     peer_last_send := peer_last_send p; peer_last_recv := peer_last_recv p;
     peer_ban_score := peer_ban_score p; peer_version := peer_version p;
     peer_services := peer_services p;
     peer_hash_continue := peer_hash_continue p;
     peer_fee_rate := peer_fee_rate p;
     peer_compact_mode := peer_compact_mode p;
     peer_compact_witness := peer_compact_witness p;
     peer_syncing := peer_syncing p; peer_challenge := peer_challenge p;
     peer_last_ping := peer_last_ping p;
     peer_block_time := peer_block_time p; peer_gb_time := peer_gb_time p;
     peer_gh_time := peer_gh_time p; peer_inv_filter := peer_inv_filter p;
     peer_block_map := peer_block_map p; peer_tx_map := peer_tx_map p;
     peer_compact_map := peer_compact_map p |}.

Definition set_peer_outbound (v : bool) (p : btc_peer) : btc_peer :=
  {| peer_network := peer_network p; peer_socket := peer_socket p;
     peer_parser := peer_parser p; peer_sending := peer_sending p;
     peer_state := peer_state p; peer_id := peer_id p; peer_outbound := v;
     peer_loader := peer_loader p; peer_addr := peer_addr p;
     peer_nonce := peer_nonce p; peer_time := peer_time p;
     peer_last_send := peer_last_send p; peer_last_recv := peer_last_recv p;
     peer_ban_score := peer_ban_score p; peer_version := peer_version p;
     peer_services := peer_services p;
     peer_hash_continue := peer_hash_continue p;
     peer_fee_rate := peer_fee_rate p;
     peer_compact_mode := peer_compact_mode p;
     peer_compact_witness := peer_compact_witness p;
     peer_syncing := peer_syncing p; peer_challenge := peer_challenge p;
     peer_last_ping := peer_last_ping p;
     peer_block_time := peer_block_time p; peer_gb_time := peer_gb_time p;
     peer_gh_time := peer_gh_time p; peer_inv_filter := peer_inv_filter p;
     peer_block_map := peer_block_map p; peer_tx_map := peer_tx_map p;
     peer_compact_map := peer_compact_map p |}.

Definition set_peer_loader (v : bool) (p : btc_peer) : btc_peer :=
  {| peer_network := peer_network p; peer_socket := peer_socket p;
     peer_parser := peer_parser p; peer_sending := peer_sending p;
     peer_state := peer_state p; peer_id := peer_id p;
     peer_outbound := peer_outbound p; peer_loader := v;
     peer_addr := peer_addr p; peer_nonce := peer_nonce p;
     peer_time := peer_time p; peer_last_send := peer_last_send p;
     peer_last_recv := peer_last_recv p; peer_ban_score := peer_ban_score p;
     peer_version := peer_version p; peer_services := peer_services p;
     peer_hash_continue := peer_hash_continue p;
     peer_fee_rate := peer_fee_rate p;
     peer_compact_mode := peer_compact_mode p;
     peer_compact_witness := peer_compact_witness p;
     peer_syncing := peer_syncing p; peer_challenge := peer_challenge p;
     peer_last_ping := peer_last_ping p;
     peer_block_time := peer_block_time p; peer_gb_time := peer_gb_time p;
     peer_gh_time := peer_gh_time p; peer_inv_filter := peer_inv_filter p;
     peer_block_map := peer_block_map p; peer_tx_map := peer_tx_map p;
     peer_compact_map := peer_compact_map p |}.

Definition set_peer_addr (v : btc_netaddr) (p : btc_peer) : btc_peer :=
  {| peer_network := peer_network p; peer_socket := peer_socket p;
     peer_parser := peer_parser p; peer_sending := peer_sending p;
     peer_state := peer_state p; peer_id := peer_id p;
     peer_outbound := peer_outbound p; peer_loader := peer_loader p;
     peer_addr := v; peer_nonce := peer_nonce p; peer_time := peer_time p;
     peer_last_send := peer_last_send p; peer_last_recv := peer_last_recv p;
     peer_ban_score := peer_ban_score p; peer_version := peer_version p;
     peer_services := peer_services p;
     peer_hash_continue := peer_hash_continue p;
     peer_fee_rate := peer_fee_rate p;
     peer_compact_mode := peer_compact_mode p;
     peer_compact_witness := peer_compact_witness p;
     peer_syncing := peer_syncing p; peer_challenge := peer_challenge p;
     peer_last_ping := peer_last_ping p;
     peer_block_time := peer_block_time p; peer_gb_time := peer_gb_time p;
     peer_gh_time := peer_gh_time p; peer_inv_filter := peer_inv_filter p;
     peer_block_map := peer_block_map p; peer_tx_map := peer_tx_map p;
     peer_compact_map := peer_compact_map p |}.

Definition set_peer_nonce (v : Z) (p : btc_peer) : btc_peer :=
  {| peer_network := peer_network p; peer_socket := peer_socket p;
     peer_parser := peer_parser p; peer_sending := peer_sending p;
     peer_state := peer_state p; peer_id := peer_id p;
     peer_outbound := peer_outbound p; peer_loader := peer_loader p;
     peer_addr := peer_addr p; peer_nonce := v; peer_time := peer_time p;
     peer_last_send := peer_last_send p; peer_last_recv := peer_last_recv p;
     peer_ban_score := peer_ban_score p; peer_version := peer_version p;
     peer_services := peer_services p;
     peer_hash_continue := peer_hash_continue p;
     peer_fee_rate := peer_fee_rate p;
     peer_compact_mode := peer_compact_mode p;
     peer_compact_witness := peer_compact_witness p;
     peer_syncing := peer_syncing p; peer_challenge := peer_challenge p;
     peer_last_ping := peer_last_ping p;
     peer_block_time := peer_block_time p; peer_gb_time := peer_gb_time p;
     peer_gh_time := peer_gh_time p; peer_inv_filter := peer_inv_filter p;
     peer_block_map := peer_block_map p; peer_tx_map := peer_tx_map p;
     peer_compact_map := peer_compact_map p |}.

Definition set_peer_time (v : Z) (p : btc_peer) : btc_peer :=
  {| peer_network := peer_network p; peer_socket := peer_socket p;
     peer_parser := peer_parser p; peer_sending := peer_sending p;
     peer_state := peer_state p; peer_id := peer_id p;
     peer_outbound := peer_outbound p; peer_loader := peer_loader p;
     peer_addr := peer_addr p; peer_nonce := peer_nonce p; peer_time := v;
     peer_last_send := peer_last_send p; peer_last_recv := peer_last_recv p;
     peer_ban_score := peer_ban_score p; peer_version := peer_version p;
     peer_services := peer_services p;
     peer_hash_continue := peer_hash_continue p;
     peer_fee_rate := peer_fee_rate p;
     peer_compact_mode := peer_compact_mode p;
     peer_compact_witness := peer_compact_witness p;
     peer_syncing := peer_syncing p; peer_challenge := peer_challenge p;
     peer_last_ping := peer_last_ping p;
     peer_block_time := peer_block_time p; peer_gb_time := peer_gb_time p;
     peer_gh_time := peer_gh_time p; peer_inv_filter := peer_inv_filter p;
     peer_block_map := peer_block_map p; peer_tx_map := peer_tx_map p;
     peer_compact_map := peer_compact_map p |}.

Definition set_peer_last_send (v : Z) (p : btc_peer) : btc_peer :=
  {| peer_network := peer_network p; peer_socket := peer_socket p;
     peer_parser := peer_parser p; peer_sending := peer_sending p;
     peer_state := peer_state p; peer_id := peer_id p;
     peer_outbound := peer_outbound p; peer_loader := peer_loader p;
     peer_addr := peer_addr p; peer_nonce := peer_nonce p;
     peer_time := peer_time p; peer_last_send := v;
     peer_last_recv := peer_last_recv p; peer_ban_score := peer_ban_score p;
     peer_version := peer_version p; peer_services := peer_services p;
     peer_hash_continue := peer_hash_continue p;
     peer_fee_rate := peer_fee_rate p;
     peer_compact_mode := peer_compact_mode p;
     peer_compact_witness := peer_compact_witness p;
     peer_syncing := peer_syncing p; peer_challenge := peer_challenge p;
     peer_last_ping := peer_last_ping p;
     peer_block_time := peer_block_time p; peer_gb_time := peer_gb_time p;
     peer_gh_time := peer_gh_time p; peer_inv_filter := peer_inv_filter p;
     peer_block_map := peer_block_map p; peer_tx_map := peer_tx_map p;
     peer_compact_map := peer_compact_map p |}.

Definition set_peer_last_recv (v : Z) (p : btc_peer) : btc_peer :=
  {| peer_network := peer_network p; peer_socket := peer_socket p;
     peer_parser := peer_parser p; peer_sending := peer_sending p;
     peer_state := peer_state p; peer_id := peer_id p;
     peer_outbound := peer_outbound p; peer_loader := peer_loader p;
     peer_addr := peer_addr p; peer_nonce := peer_nonce p;
     peer_time := peer_time p; peer_last_send := peer_last_send p;
     peer_last_recv := v; peer_ban_score := peer_ban_score p;
     peer_version := peer_version p; peer_services := peer_services p;
     peer_hash_continue := peer_hash_continue p;
     peer_fee_rate := peer_fee_rate p;
     peer_compact_mode := peer_compact_mode p;
     peer_compact_witness := peer_compact_witness p;
     peer_syncing := peer_syncing p; peer_challenge := peer_challenge p;
     peer_last_ping := peer_last_ping p;
     peer_block_time := peer_block_time p; peer_gb_time := peer_gb_time p;
     peer_gh_time := peer_gh_time p; peer_inv_filter := peer_inv_filter p;
     peer_block_map := peer_block_map p; peer_tx_map := peer_tx_map p;
     peer_compact_map := peer_compact_map p |}.

Definition set_peer_ban_score (v : Z) (p : btc_peer) : btc_peer :=
  {| peer_network := peer_network p; peer_socket := peer_socket p;
     peer_parser := peer_parser p; peer_sending := peer_sending p;
     peer_state := peer_state p; peer_id := peer_id p;
     peer_outbound := peer_outbound p; peer_loader := peer_loader p;
     peer_addr := peer_addr p; peer_nonce := peer_nonce p;
     peer_time := peer_time p; peer_last_send := peer_last_send p;
     peer_last_recv := peer_last_recv p; peer_ban_score := v;
     peer_version := peer_version p; peer_services := peer_services p;
     peer_hash_continue := peer_hash_continue p;
     peer_fee_rate := peer_fee_rate p;
     peer_compact_mode := peer_compact_mode p;
     peer_compact_witness := peer_compact_witness p;
     peer_syncing := peer_syncing p; peer_challenge := peer_challenge p;
     peer_last_ping := peer_last_ping p;
     peer_block_time := peer_block_time p; peer_gb_time := peer_gb_time p;
     peer_gh_time := peer_gh_time p; peer_inv_filter := peer_inv_filter p;
     peer_block_map := peer_block_map p; peer_tx_map := peer_tx_map p;
     peer_compact_map := peer_compact_map p |}.

Definition set_peer_hash_continue (v : hash) (p : btc_peer) : btc_peer :=
  {| peer_network := peer_network p; peer_socket := peer_socket p;
     peer_parser := peer_parser p; peer_sending := peer_sending p;
     peer_state := peer_state p; peer_id := peer_id p;
     peer_outbound := peer_outbound p; peer_loader := peer_loader p;
     peer_addr := peer_addr p; peer_nonce := peer_nonce p;
     peer_time := peer_time p; peer_last_send := peer_last_send p;
     peer_last_recv := peer_last_recv p; peer_ban_score := peer_ban_score p;
     peer_version := peer_version p; peer_services := peer_services p;
     peer_hash_continue := v; peer_fee_rate := peer_fee_rate p;
     peer_compact_mode := peer_compact_mode p;
     peer_compact_witness := peer_compact_witness p;
     peer_syncing := peer_syncing p; peer_challenge := peer_challenge p;
     peer_last_ping := peer_last_ping p;
     peer_block_time := peer_block_time p; peer_gb_time := peer_gb_time p;
     peer_gh_time := peer_gh_time p; peer_inv_filter := peer_inv_filter p;
     peer_block_map := peer_block_map p; peer_tx_map := peer_tx_map p;
     peer_compact_map := peer_compact_map p |}.

Definition set_peer_fee_rate (v : Z) (p : btc_peer) : btc_peer :=
  {| peer_network := peer_network p; peer_socket := peer_socket p;
     peer_parser := peer_parser p; peer_sending := peer_sending p;
     peer_state := peer_state p; peer_id := peer_id p;
     peer_outbound := peer_outbound p; peer_loader := peer_loader p;
     peer_addr := peer_addr p; peer_nonce := peer_nonce p;
     peer_time := peer_time p; peer_last_send := peer_last_send p;
     peer_last_recv := peer_last_recv p; peer_ban_score := peer_ban_score p;
     peer_version := peer_version p; peer_services := peer_services p;
     peer_hash_continue := peer_hash_continue p; peer_fee_rate := v;
     peer_compact_mode := peer_compact_mode p;
     peer_compact_witness := peer_compact_witness p;
     peer_syncing := peer_syncing p; peer_challenge := peer_challenge p;
     peer_last_ping := peer_last_ping p;
     peer_block_time := peer_block_time p; peer_gb_time := peer_gb_time p;
     peer_gh_time := peer_gh_time p; peer_inv_filter := peer_inv_filter p;
     peer_block_map := peer_block_map p; peer_tx_map := peer_tx_map p;
     peer_compact_map := peer_compact_map p |}.

Definition set_peer_syncing (v : bool) (p : btc_peer) : btc_peer :=
  {| peer_network := peer_network p; peer_socket := peer_socket p;
     peer_parser := peer_parser p; peer_sending := peer_sending p;
     peer_state := peer_state p; peer_id := peer_id p;
     peer_outbound := peer_outbound p; peer_loader := peer_loader p;
     peer_addr := peer_addr p; peer_nonce := peer_nonce p;
     peer_time := peer_time p; peer_last_send := peer_last_send p;
     peer_last_recv := peer_last_recv p; peer_ban_score := peer_ban_score p;
     peer_version := peer_version p; peer_services := peer_services p;
     peer_hash_continue := peer_hash_continue p;
     peer_fee_rate := peer_fee_rate p;
     peer_compact_mode := peer_compact_mode p;
     peer_compact_witness := peer_compact_witness p; peer_syncing := v;
     peer_challenge := peer_challenge p; peer_last_ping := peer_last_ping p;
     peer_block_time := peer_block_time p; peer_gb_time := peer_gb_time p;
     peer_gh_time := peer_gh_time p; peer_inv_filter := peer_inv_filter p;
     peer_block_map := peer_block_map p; peer_tx_map := peer_tx_map p;
     peer_compact_map := peer_compact_map p |}.

Definition set_peer_block_time (v : Z) (p : btc_peer) : btc_peer :=
  {| peer_network := peer_network p; peer_socket := peer_socket p;
     peer_parser := peer_parser p; peer_sending := peer_sending p;
     peer_state := peer_state p; peer_id := peer_id p;
     peer_outbound := peer_outbound p; peer_loader := peer_loader p;
     peer_addr := peer_addr p; peer_nonce := peer_nonce p;
     peer_time := peer_time p; peer_last_send := peer_last_send p;
     peer_last_recv := peer_last_recv p; peer_ban_score := peer_ban_score p;
     peer_version := peer_version p; peer_services := peer_services p;
     peer_hash_continue := peer_hash_continue p;
     peer_fee_rate := peer_fee_rate p;
     peer_compact_mode := peer_compact_mode p;
     peer_compact_witness := peer_compact_witness p;
     peer_syncing := peer_syncing p; peer_challenge := peer_challenge p;
     peer_last_ping := peer_last_ping p; peer_block_time := v;
     peer_gb_time := peer_gb_time p; peer_gh_time := peer_gh_time p;
     peer_inv_filter := peer_inv_filter p;
     peer_block_map := peer_block_map p; peer_tx_map := peer_tx_map p;
     peer_compact_map := peer_compact_map p |}.

Definition set_peer_gb_time (v : Z) (p : btc_peer) : btc_peer :=
  {| peer_network := peer_network p; peer_socket := peer_socket p;
     peer_parser := peer_parser p; peer_sending := peer_sending p;
     peer_state := peer_state p; peer_id := peer_id p;
     peer_outbound := peer_outbound p; peer_loader := peer_loader p;
     peer_addr := peer_addr p; peer_nonce := peer_nonce p;
     peer_time := peer_time p; peer_last_send := peer_last_send p;
     peer_last_recv := peer_last_recv p; peer_ban_score := peer_ban_score p;
     peer_version := peer_version p; peer_services := peer_services p;
     peer_hash_continue := peer_hash_continue p;
     peer_fee_rate := peer_fee_rate p;
     peer_compact_mode := peer_compact_mode p;
     peer_compact_witness := peer_compact_witness p;
     peer_syncing := peer_syncing p; peer_challenge := peer_challenge p;
     peer_last_ping := peer_last_ping p;
     peer_block_time := peer_block_time p; peer_gb_time := v;
     peer_gh_time := peer_gh_time p; peer_inv_filter := peer_inv_filter p;
     peer_block_map := peer_block_map p; peer_tx_map := peer_tx_map p;
     peer_compact_map := peer_compact_map p |}.

Definition set_peer_gh_time (v : Z) (p : btc_peer) : btc_peer :=
  {| peer_network := peer_network p; peer_socket := peer_socket p;
     peer_parser := peer_parser p; peer_sending := peer_sending p;
     peer_state := peer_state p; peer_id := peer_id p;
     peer_outbound := peer_outbound p; peer_loader := peer_loader p;
     peer_addr := peer_addr p; peer_nonce := peer_nonce p;
     peer_time := peer_time p; peer_last_send := peer_last_send p;
     peer_last_recv := peer_last_recv p; peer_ban_score := peer_ban_score p;
     peer_version := peer_version p; peer_services := peer_services p;
     peer_hash_continue := peer_hash_continue p;
     peer_fee_rate := peer_fee_rate p;
     peer_compact_mode := peer_compact_mode p;
     peer_compact_witness := peer_compact_witness p;
     peer_syncing := peer_syncing p; peer_challenge := peer_challenge p;
     peer_last_ping := peer_last_ping p;
     peer_block_time := peer_block_time p; peer_gb_time := peer_gb_time p;
     peer_gh_time := v; peer_inv_filter := peer_inv_filter p;
     peer_block_map := peer_block_map p; peer_tx_map := peer_tx_map p;
     peer_compact_map := peer_compact_map p |}.

Definition set_peer_inv_filter (v : list hash) (p : btc_peer) : btc_peer :=
  {| peer_network := peer_network p; peer_socket := peer_socket p;
     peer_parser := peer_parser p; peer_sending := peer_sending p;
     peer_state := peer_state p; peer_id := peer_id p;
     peer_outbound := peer_outbound p; peer_loader := peer_loader p;
     peer_addr := peer_addr p; peer_nonce := peer_nonce p;
     peer_time := peer_time p; peer_last_send := peer_last_send p;
     peer_last_recv := peer_last_recv p; peer_ban_score := peer_ban_score p;
     peer_version := peer_version p; peer_services := peer_services p;
     peer_hash_continue := peer_hash_continue p;
     peer_fee_rate := peer_fee_rate p;
     peer_compact_mode := peer_compact_mode p;
     peer_compact_witness := peer_compact_witness p;
     peer_syncing := peer_syncing p; peer_challenge := peer_challenge p;
     peer_last_ping := peer_last_ping p;
     peer_block_time := peer_block_time p; peer_gb_time := peer_gb_time p;
     peer_gh_time := peer_gh_time p; peer_inv_filter := v;
     peer_block_map := peer_block_map p; peer_tx_map := peer_tx_map p;
     peer_compact_map := peer_compact_map p |}.

Definition set_peer_block_map (v : gmap hash Z) (p : btc_peer) : btc_peer :=
  {| peer_network := peer_network p; peer_socket := peer_socket p;
     peer_parser := peer_parser p; peer_sending := peer_sending p;
     peer_state := peer_state p; peer_id := peer_id p;
     peer_outbound := peer_outbound p; peer_loader := peer_loader p;
     peer_addr := peer_addr p; peer_nonce := peer_nonce p;
     peer_time := peer_time p; peer_last_send := peer_last_send p;
     peer_last_recv := peer_last_recv p; peer_ban_score := peer_ban_score p;
     peer_version := peer_version p; peer_services := peer_services p;
     peer_hash_continue := peer_hash_continue p;
     peer_fee_rate := peer_fee_rate p;
     peer_compact_mode := peer_compact_mode p;
     peer_compact_witness := peer_compact_witness p;
     peer_syncing := peer_syncing p; peer_challenge := peer_challenge p;
     peer_last_ping := peer_last_ping p;
     peer_block_time := peer_block_time p; peer_gb_time := peer_gb_time p;
     peer_gh_time := peer_gh_time p; peer_inv_filter := peer_inv_filter p;
     peer_block_map := v; peer_tx_map := peer_tx_map p;
     peer_compact_map := peer_compact_map p |}.

Definition set_peer_tx_map (v : gmap hash Z) (p : btc_peer) : btc_peer :=
  {| peer_network := peer_network p; peer_socket := peer_socket p;
     peer_parser := peer_parser p; peer_sending := peer_sending p;
     peer_state := peer_state p; peer_id := peer_id p;
     peer_outbound := peer_outbound p; peer_loader := peer_loader p;
     peer_addr := peer_addr p; peer_nonce := peer_nonce p;
     peer_time := peer_time p; peer_last_send := peer_last_send p;
     peer_last_recv := peer_last_recv p; peer_ban_score := peer_ban_score p;
     peer_version := peer_version p; peer_services := peer_services p;
     peer_hash_continue := peer_hash_continue p;
     peer_fee_rate := peer_fee_rate p;
     peer_compact_mode := peer_compact_mode p;
     peer_compact_witness := peer_compact_witness p;
     peer_syncing := peer_syncing p; peer_challenge := peer_challenge p;
     peer_last_ping := peer_last_ping p;
     peer_block_time := peer_block_time p; peer_gb_time := peer_gb_time p;
     peer_gh_time := peer_gh_time p; peer_inv_filter := peer_inv_filter p;
     peer_block_map := peer_block_map p; peer_tx_map := v;
     peer_compact_map := peer_compact_map p |}.

Definition set_peer_compact_map (v : gmap hash Z) (p : btc_peer) : btc_peer :=
  {| peer_network := peer_network p; peer_socket := peer_socket p;
     peer_parser := peer_parser p; peer_sending := peer_sending p;
     peer_state := peer_state p; peer_id := peer_id p;
     peer_outbound := peer_outbound p; peer_loader := peer_loader p;
     peer_addr := peer_addr p; peer_nonce := peer_nonce p;
     peer_time := peer_time p; peer_last_send := peer_last_send p;
     peer_last_recv := peer_last_recv p; peer_ban_score := peer_ban_score p;
     peer_version := peer_version p; peer_services := peer_services p;
     peer_hash_continue := peer_hash_continue p;
     peer_fee_rate := peer_fee_rate p;
     peer_compact_mode := peer_compact_mode p;
     peer_compact_witness := peer_compact_witness p;
     peer_syncing := peer_syncing p; peer_challenge := peer_challenge p;
     peer_last_ping := peer_last_ping p;
     peer_block_time := peer_block_time p; peer_gb_time := peer_gb_time p;
     peer_gh_time := peer_gh_time p; peer_inv_filter := peer_inv_filter p;
     peer_block_map := peer_block_map p; peer_tx_map := peer_tx_map p;
     peer_compact_map := v |}.


Definition set_peer_version (v : Z) (p : btc_peer) : btc_peer :=
  {| peer_network := peer_network p; peer_socket := peer_socket p;
     peer_parser := peer_parser p; peer_sending := peer_sending p;
     peer_state := peer_state p; peer_id := peer_id p;
     peer_outbound := peer_outbound p; peer_loader := peer_loader p;
     peer_addr := peer_addr p; peer_nonce := peer_nonce p;
     peer_time := peer_time p; peer_last_send := peer_last_send p;
     peer_last_recv := peer_last_recv p; peer_ban_score := peer_ban_score p;
     peer_version := v; peer_services := peer_services p;
     peer_hash_continue := peer_hash_continue p;
     peer_fee_rate := peer_fee_rate p;
     peer_compact_mode := peer_compact_mode p;
     peer_compact_witness := peer_compact_witness p;
     peer_syncing := peer_syncing p; peer_challenge := peer_challenge p;
     peer_last_ping := peer_last_ping p;
     peer_block_time := peer_block_time p; peer_gb_time := peer_gb_time p;
     peer_gh_time := peer_gh_time p; peer_inv_filter := peer_inv_filter p;
     peer_block_map := peer_block_map p; peer_tx_map := peer_tx_map p;
     peer_compact_map := peer_compact_map p |}.

Definition set_peer_challenge (v : Z) (p : btc_peer) : btc_peer :=
  {| peer_network := peer_network p; peer_socket := peer_socket p;
     peer_parser := peer_parser p; peer_sending := peer_sending p;
     peer_state := peer_state p; peer_id := peer_id p;
     peer_outbound := peer_outbound p; peer_loader := peer_loader p;
     peer_addr := peer_addr p; peer_nonce := peer_nonce p;
     peer_time := peer_time p; peer_last_send := peer_last_send p;
     peer_last_recv := peer_last_recv p; peer_ban_score := peer_ban_score p;
     peer_version := peer_version p; peer_services := peer_services p;
     peer_hash_continue := peer_hash_continue p;
     peer_fee_rate := peer_fee_rate p;
     peer_compact_mode := peer_compact_mode p;
     peer_compact_witness := peer_compact_witness p;
     peer_syncing := peer_syncing p; peer_challenge := v;
     peer_last_ping := peer_last_ping p;
     peer_block_time := peer_block_time p; peer_gb_time := peer_gb_time p;
     peer_gh_time := peer_gh_time p; peer_inv_filter := peer_inv_filter p;
     peer_block_map := peer_block_map p; peer_tx_map := peer_tx_map p;
     peer_compact_map := peer_compact_map p |}.

Definition set_peer_last_ping (v : Z) (p : btc_peer) : btc_peer :=
  {| peer_network := peer_network p; peer_socket := peer_socket p;
     peer_parser := peer_parser p; peer_sending := peer_sending p;
     peer_state := peer_state p; peer_id := peer_id p;
     peer_outbound := peer_outbound p; peer_loader := peer_loader p;
     peer_addr := peer_addr p; peer_nonce := peer_nonce p;
     peer_time := peer_time p; peer_last_send := peer_last_send p;
     peer_last_recv := peer_last_recv p; peer_ban_score := peer_ban_score p;
     peer_version := peer_version p; peer_services := peer_services p;
     peer_hash_continue := peer_hash_continue p;
     peer_fee_rate := peer_fee_rate p;
     peer_compact_mode := peer_compact_mode p;
     peer_compact_witness := peer_compact_witness p;
     peer_syncing := peer_syncing p; peer_challenge := peer_challenge p;
     peer_last_ping := v; peer_block_time := peer_block_time p;
     peer_gb_time := peer_gb_time p; peer_gh_time := peer_gh_time p;
     peer_inv_filter := peer_inv_filter p;
     peer_block_map := peer_block_map p; peer_tx_map := peer_tx_map p;
     peer_compact_map := peer_compact_map p |}.

(** [struct btc_pool_s].  [pool_peers] is the list of the peers from
    [peers.head] on; [pool_load] is [peers.load], a peer named by its id;
    [pool_outbound] and [pool_inbound] are the counters of [btc_peers_t].
    The headers chain is the list [pool_header_chain] from [header_head] to
    [header_tail]; [pool_header_next] is the pointer [header_next], [None]
    for [NULL]. *)

Record btc_pool := {
  pool_network : btc_network;
  pool_chain : btc_chain;
  pool_mempool : btc_mempool;
  pool_addrman : btc_addrman;
  pool_peers : list btc_peer;
  pool_load : option Z;
  pool_inbound : Z;
  pool_outbound : Z;
  pool_nonces : list Z;
  pool_block_map : gset hash;
  pool_tx_map : gset hash;
  pool_compact_map : gset hash;
  pool_checkpoints_enabled : bool;
  pool_bip37_enabled : bool;
  pool_bip152_enabled : bool;
  pool_block_mode : Z;
  pool_checkpoints : bool;
  pool_header_tip : option btc_checkpoint;
  pool_header_chain : list btc_hdrnode;
  pool_header_next : option hdr_ref;
  pool_id : Z;
  pool_required_services : Z;
  pool_max_outbound : Z;
  pool_synced : bool
}.

Definition set_pool_addrman (v : btc_addrman) (p : btc_pool) : btc_pool :=
  {| pool_network := pool_network p; pool_chain := pool_chain p;
     pool_mempool := pool_mempool p; pool_addrman := v;
     pool_peers := pool_peers p; pool_load := pool_load p;
     pool_inbound := pool_inbound p; pool_outbound := pool_outbound p;
     pool_nonces := pool_nonces p; pool_block_map := pool_block_map p;
     pool_tx_map := pool_tx_map p; pool_compact_map := pool_compact_map p;
     pool_checkpoints_enabled := pool_checkpoints_enabled p;
     pool_bip37_enabled := pool_bip37_enabled p;
     pool_bip152_enabled := pool_bip152_enabled p;
     pool_block_mode := pool_block_mode p;
     pool_checkpoints := pool_checkpoints p;
     pool_header_tip := pool_header_tip p;
     pool_header_chain := pool_header_chain p;
     pool_header_next := pool_header_next p; pool_id := pool_id p;
     pool_required_services := pool_required_services p;
     pool_max_outbound := pool_max_outbound p;
     pool_synced := pool_synced p |}.

Definition set_pool_peers (v : list btc_peer) (p : btc_pool) : btc_pool :=
  {| pool_network := pool_network p; pool_chain := pool_chain p;
     pool_mempool := pool_mempool p; pool_addrman := pool_addrman p;
     pool_peers := v; pool_load := pool_load p;
     pool_inbound := pool_inbound p; pool_outbound := pool_outbound p;
     pool_nonces := pool_nonces p; pool_block_map := pool_block_map p;
     pool_tx_map := pool_tx_map p; pool_compact_map := pool_compact_map p;
     pool_checkpoints_enabled := pool_checkpoints_enabled p;
     pool_bip37_enabled := pool_bip37_enabled p;
     pool_bip152_enabled := pool_bip152_enabled p;
     pool_block_mode := pool_block_mode p;
     pool_checkpoints := pool_checkpoints p;
     pool_header_tip := pool_header_tip p;
     pool_header_chain := pool_header_chain p;
     pool_header_next := pool_header_next p; pool_id := pool_id p;
     pool_required_services := pool_required_services p;
     pool_max_outbound := pool_max_outbound p;
     pool_synced := pool_synced p |}.

Definition set_pool_load (v : option Z) (p : btc_pool) : btc_pool :=
  {| pool_network := pool_network p; pool_chain := pool_chain p;
     pool_mempool := pool_mempool p; pool_addrman := pool_addrman p;
     pool_peers := pool_peers p; pool_load := v;
     pool_inbound := pool_inbound p; pool_outbound := pool_outbound p;
     pool_nonces := pool_nonces p; pool_block_map := pool_block_map p;
     pool_tx_map := pool_tx_map p; pool_compact_map := pool_compact_map p;
     pool_checkpoints_enabled := pool_checkpoints_enabled p;
     pool_bip37_enabled := pool_bip37_enabled p;
     pool_bip152_enabled := pool_bip152_enabled p;
     pool_block_mode := pool_block_mode p;
     pool_checkpoints := pool_checkpoints p;
     pool_header_tip := pool_header_tip p;
     pool_header_chain := pool_header_chain p;
     pool_header_next := pool_header_next p; pool_id := pool_id p;
     pool_required_services := pool_required_services p;
     pool_max_outbound := pool_max_outbound p;
     pool_synced := pool_synced p |}.

Definition set_pool_inbound (v : Z) (p : btc_pool) : btc_pool :=
  {| pool_network := pool_network p; pool_chain := pool_chain p;
     pool_mempool := pool_mempool p; pool_addrman := pool_addrman p;
     pool_peers := pool_peers p; pool_load := pool_load p; pool_inbound := v;
     pool_outbound := pool_outbound p; pool_nonces := pool_nonces p;
     pool_block_map := pool_block_map p; pool_tx_map := pool_tx_map p;
     pool_compact_map := pool_compact_map p;
     pool_checkpoints_enabled := pool_checkpoints_enabled p;
     pool_bip37_enabled := pool_bip37_enabled p;
     pool_bip152_enabled := pool_bip152_enabled p;
     pool_block_mode := pool_block_mode p;
     pool_checkpoints := pool_checkpoints p;
     pool_header_tip := pool_header_tip p;
     pool_header_chain := pool_header_chain p;
     pool_header_next := pool_header_next p; pool_id := pool_id p;
     pool_required_services := pool_required_services p;
     pool_max_outbound := pool_max_outbound p;
     pool_synced := pool_synced p |}.

Definition set_pool_outbound (v : Z) (p : btc_pool) : btc_pool :=
  {| pool_network := pool_network p; pool_chain := pool_chain p;
     pool_mempool := pool_mempool p; pool_addrman := pool_addrman p;
     pool_peers := pool_peers p; pool_load := pool_load p;
     pool_inbound := pool_inbound p; pool_outbound := v;
     pool_nonces := pool_nonces p; pool_block_map := pool_block_map p;
     pool_tx_map := pool_tx_map p; pool_compact_map := pool_compact_map p;
     pool_checkpoints_enabled := pool_checkpoints_enabled p;
     pool_bip37_enabled := pool_bip37_enabled p;
     pool_bip152_enabled := pool_bip152_enabled p;
     pool_block_mode := pool_block_mode p;
     pool_checkpoints := pool_checkpoints p;
     pool_header_tip := pool_header_tip p;
     pool_header_chain := pool_header_chain p;
     pool_header_next := pool_header_next p; pool_id := pool_id p;
     pool_required_services := pool_required_services p;
     pool_max_outbound := pool_max_outbound p;
     pool_synced := pool_synced p |}.

Definition set_pool_nonces (v : list Z) (p : btc_pool) : btc_pool :=
  {| pool_network := pool_network p; pool_chain := pool_chain p;
     pool_mempool := pool_mempool p; pool_addrman := pool_addrman p;
     pool_peers := pool_peers p; pool_load := pool_load p;
     pool_inbound := pool_inbound p; pool_outbound := pool_outbound p;
     pool_nonces := v; pool_block_map := pool_block_map p;
     pool_tx_map := pool_tx_map p; pool_compact_map := pool_compact_map p;
     pool_checkpoints_enabled := pool_checkpoints_enabled p;
     pool_bip37_enabled := pool_bip37_enabled p;
     pool_bip152_enabled := pool_bip152_enabled p;
     pool_block_mode := pool_block_mode p;
     pool_checkpoints := pool_checkpoints p;
     pool_header_tip := pool_header_tip p;
     pool_header_chain := pool_header_chain p;
     pool_header_next := pool_header_next p; pool_id := pool_id p;
     pool_required_services := pool_required_services p;
     pool_max_outbound := pool_max_outbound p;
     pool_synced := pool_synced p |}.

Definition set_pool_block_map (v : gset hash) (p : btc_pool) : btc_pool :=
  {| pool_network := pool_network p; pool_chain := pool_chain p;
     pool_mempool := pool_mempool p; pool_addrman := pool_addrman p;
     pool_peers := pool_peers p; pool_load := pool_load p;
     pool_inbound := pool_inbound p; pool_outbound := pool_outbound p;
     pool_nonces := pool_nonces p; pool_block_map := v;
     pool_tx_map := pool_tx_map p; pool_compact_map := pool_compact_map p;
     pool_checkpoints_enabled := pool_checkpoints_enabled p;
     pool_bip37_enabled := pool_bip37_enabled p;
     pool_bip152_enabled := pool_bip152_enabled p;
     pool_block_mode := pool_block_mode p;
     pool_checkpoints := pool_checkpoints p;
     pool_header_tip := pool_header_tip p;
     pool_header_chain := pool_header_chain p;
     pool_header_next := pool_header_next p; pool_id := pool_id p;
     pool_required_services := pool_required_services p;
     pool_max_outbound := pool_max_outbound p;
     pool_synced := pool_synced p |}.

Definition set_pool_tx_map (v : gset hash) (p : btc_pool) : btc_pool :=
  {| pool_network := pool_network p; pool_chain := pool_chain p;
     pool_mempool := pool_mempool p; pool_addrman := pool_addrman p;
     pool_peers := pool_peers p; pool_load := pool_load p;
     pool_inbound := pool_inbound p; pool_outbound := pool_outbound p;
     pool_nonces := pool_nonces p; pool_block_map := pool_block_map p;
     pool_tx_map := v; pool_compact_map := pool_compact_map p;
     pool_checkpoints_enabled := pool_checkpoints_enabled p;
     pool_bip37_enabled := pool_bip37_enabled p;
     pool_bip152_enabled := pool_bip152_enabled p;
     pool_block_mode := pool_block_mode p;
     pool_checkpoints := pool_checkpoints p;
     pool_header_tip := pool_header_tip p;
     pool_header_chain := pool_header_chain p;
     pool_header_next := pool_header_next p; pool_id := pool_id p;
     pool_required_services := pool_required_services p;
     pool_max_outbound := pool_max_outbound p;
     pool_synced := pool_synced p |}.

Definition set_pool_compact_map (v : gset hash) (p : btc_pool) : btc_pool :=
  {| pool_network := pool_network p; pool_chain := pool_chain p;
     pool_mempool := pool_mempool p; pool_addrman := pool_addrman p;
     pool_peers := pool_peers p; pool_load := pool_load p;
     pool_inbound := pool_inbound p; pool_outbound := pool_outbound p;
     pool_nonces := pool_nonces p; pool_block_map := pool_block_map p;
     pool_tx_map := pool_tx_map p; pool_compact_map := v;
     pool_checkpoints_enabled := pool_checkpoints_enabled p;
     pool_bip37_enabled := pool_bip37_enabled p;
     pool_bip152_enabled := pool_bip152_enabled p;
     pool_block_mode := pool_block_mode p;
     pool_checkpoints := pool_checkpoints p;
     pool_header_tip := pool_header_tip p;
     pool_header_chain := pool_header_chain p;
     pool_header_next := pool_header_next p; pool_id := pool_id p;
     pool_required_services := pool_required_services p;
     pool_max_outbound := pool_max_outbound p;
     pool_synced := pool_synced p |}.

Definition set_pool_checkpoints (v : bool) (p : btc_pool) : btc_pool :=
  {| pool_network := pool_network p; pool_chain := pool_chain p;
     pool_mempool := pool_mempool p; pool_addrman := pool_addrman p;
     pool_peers := pool_peers p; pool_load := pool_load p;
     pool_inbound := pool_inbound p; pool_outbound := pool_outbound p;
     pool_nonces := pool_nonces p; pool_block_map := pool_block_map p;
     pool_tx_map := pool_tx_map p; pool_compact_map := pool_compact_map p;
     pool_checkpoints_enabled := pool_checkpoints_enabled p;
     pool_bip37_enabled := pool_bip37_enabled p;
     pool_bip152_enabled := pool_bip152_enabled p;
     pool_block_mode := pool_block_mode p; pool_checkpoints := v;
     pool_header_tip := pool_header_tip p;
     pool_header_chain := pool_header_chain p;
     pool_header_next := pool_header_next p; pool_id := pool_id p;
     pool_required_services := pool_required_services p;
     pool_max_outbound := pool_max_outbound p;
     pool_synced := pool_synced p |}.

Definition set_pool_header_tip (v : option btc_checkpoint) (p : btc_pool) : btc_pool :=
  {| pool_network := pool_network p; pool_chain := pool_chain p;
     pool_mempool := pool_mempool p; pool_addrman := pool_addrman p;
     pool_peers := pool_peers p; pool_load := pool_load p;
     pool_inbound := pool_inbound p; pool_outbound := pool_outbound p;
     pool_nonces := pool_nonces p; pool_block_map := pool_block_map p;
     pool_tx_map := pool_tx_map p; pool_compact_map := pool_compact_map p;
     pool_checkpoints_enabled := pool_checkpoints_enabled p;
     pool_bip37_enabled := pool_bip37_enabled p;
     pool_bip152_enabled := pool_bip152_enabled p;
     pool_block_mode := pool_block_mode p;
     pool_checkpoints := pool_checkpoints p; pool_header_tip := v;
     pool_header_chain := pool_header_chain p;
     pool_header_next := pool_header_next p; pool_id := pool_id p;
     pool_required_services := pool_required_services p;
     pool_max_outbound := pool_max_outbound p;
     pool_synced := pool_synced p |}.

Definition set_pool_header_chain (v : list btc_hdrnode) (p : btc_pool) : btc_pool :=
  {| pool_network := pool_network p; pool_chain := pool_chain p;
     pool_mempool := pool_mempool p; pool_addrman := pool_addrman p;
     pool_peers := pool_peers p; pool_load := pool_load p;
     pool_inbound := pool_inbound p; pool_outbound := pool_outbound p;
     pool_nonces := pool_nonces p; pool_block_map := pool_block_map p;
     pool_tx_map := pool_tx_map p; pool_compact_map := pool_compact_map p;
     pool_checkpoints_enabled := pool_checkpoints_enabled p;
     pool_bip37_enabled := pool_bip37_enabled p;
     pool_bip152_enabled := pool_bip152_enabled p;
     pool_block_mode := pool_block_mode p;
     pool_checkpoints := pool_checkpoints p;
     pool_header_tip := pool_header_tip p; pool_header_chain := v;
     pool_header_next := pool_header_next p; pool_id := pool_id p;
     pool_required_services := pool_required_services p;
     pool_max_outbound := pool_max_outbound p;
     pool_synced := pool_synced p |}.

Definition set_pool_header_next (v : option hdr_ref) (p : btc_pool)
  : btc_pool :=
  {| pool_network := pool_network p; pool_chain := pool_chain p;
     pool_mempool := pool_mempool p; pool_addrman := pool_addrman p;
     pool_peers := pool_peers p; pool_load := pool_load p;
     pool_inbound := pool_inbound p; pool_outbound := pool_outbound p;
     pool_nonces := pool_nonces p; pool_block_map := pool_block_map p;
     pool_tx_map := pool_tx_map p; pool_compact_map := pool_compact_map p;
     pool_checkpoints_enabled := pool_checkpoints_enabled p;
     pool_bip37_enabled := pool_bip37_enabled p;
     pool_bip152_enabled := pool_bip152_enabled p;
     pool_block_mode := pool_block_mode p;
     pool_checkpoints := pool_checkpoints p;
     pool_header_tip := pool_header_tip p;
     pool_header_chain := pool_header_chain p; pool_header_next := v;
     pool_id := pool_id p;
     pool_required_services := pool_required_services p;
     pool_max_outbound := pool_max_outbound p;
     pool_synced := pool_synced p |}.

Definition set_pool_id (v : Z) (p : btc_pool) : btc_pool :=
  {| pool_network := pool_network p; pool_chain := pool_chain p;
     pool_mempool := pool_mempool p; pool_addrman := pool_addrman p;
     pool_peers := pool_peers p; pool_load := pool_load p;
     pool_inbound := pool_inbound p; pool_outbound := pool_outbound p;
     pool_nonces := pool_nonces p; pool_block_map := pool_block_map p;
     pool_tx_map := pool_tx_map p; pool_compact_map := pool_compact_map p;
     pool_checkpoints_enabled := pool_checkpoints_enabled p;
     pool_bip37_enabled := pool_bip37_enabled p;
     pool_bip152_enabled := pool_bip152_enabled p;
     pool_block_mode := pool_block_mode p;
     pool_checkpoints := pool_checkpoints p;
     pool_header_tip := pool_header_tip p;
     pool_header_chain := pool_header_chain p;
     pool_header_next := pool_header_next p; pool_id := v;
     pool_required_services := pool_required_services p;
     pool_max_outbound := pool_max_outbound p;
     pool_synced := pool_synced p |}.

(** * Peers *)

Definition find_peer (id : Z) (pl : btc_pool) : option btc_peer :=
  find (fun q => peer_id q =? id) (pool_peers pl).

(** A write through the pointer [peer]: the peer of that id is updated in
    the list that holds it. *)
Definition upd_peer (id : Z) (f : btc_peer -> btc_peer) (pl : btc_pool)
  : btc_pool :=
  set_pool_peers
    (map (fun q => if peer_id q =? id then f q else q) (pool_peers pl)) pl.

(** [btc_peers_get]: the peer registered under an address. *)
Definition btc_peers_get (pl : btc_pool) (addr : btc_netaddr)
  : option btc_peer :=
  find (fun q => netaddr_eqb (peer_addr q) addr) (pool_peers pl).

Definition btc_peers_has (pl : btc_pool) (addr : btc_netaddr) : bool :=
  bool_decide (is_Some (btc_peers_get pl addr)).

Definition btc_peer_close (p : btc_peer) : btc_peer :=
  set_peer_parser (set_closed true (peer_parser p))
    (set_peer_state BTC_PEER_DEAD
       (set_peer_socket (btc_socket_close (peer_socket p)) p)).

Definition btc_pool_ban (pl : btc_pool) (addr : btc_netaddr) : btc_pool :=
  let peer := btc_peers_get pl addr in
  let pl :=
    set_pool_addrman
      (btc_addrman_remove (btc_addrman_ban (pool_addrman pl) addr) addr) pl in
  match peer with
  | Some q => upd_peer (peer_id q) btc_peer_close pl
  | None => pl
  end.

Definition btc_peer_increase_ban (pl : btc_pool) (id : Z) (score : Z)
  : bool * btc_pool :=
  let pl := upd_peer id (fun p => set_peer_ban_score (peer_ban_score p + score) p)
                     pl in
  match find_peer id pl with
  | Some p =>
      if peer_ban_score p >=? 100 then (true, btc_pool_ban pl (peer_addr p))
      else (false, pl)
  | None => (false, pl)
  end.

(** The reason logged by [btc_peer_maybe_timeout] when it closes a peer. *)
Inductive stall : Set :=
| STALL_INV
| STALL_HEADERS
| STALL_BLOCK
| STALL_TX
| STALL_BLOCKTXN
| STALL_NO_MESSAGE
| STALL_SEND
| STALL_RECV
| STALL_PING.

Section Peer.
Variable K : btc_consts.
Variable C : msg_codec.

Definition btc_peer_write (now : Z) (p : btc_peer) (data : list byte)
  : Z * btc_peer :=
  let '(rc, s) := btc_socket_write (peer_socket p) data in
  let p := set_peer_socket s p in
  if rc =? -1 then (0, btc_peer_close p)
  else (rc, set_peer_last_send now p).

Definition btc_peer_send (now : Z) (p : btc_peer) (msg : btc_msg)
  : Z * btc_peer :=
  btc_peer_write now p
    (btc_frame (net_magic (peer_network p)) (msg_cmd C msg)
       (btc_msg_export C msg)).

(** [btc_peer_sendmsg] where the caller drops the return code. *)
Definition btc_peer_sendmsg (now : Z) (p : btc_peer) (msg : btc_msg)
  : btc_peer :=
  snd (btc_peer_send now p msg).

Definition btc_peer_send_getblocks (now : Z) (p : btc_peer)
  (locator : list hash) (stop : option hash) : btc_peer :=
  let stop := match stop with Some h => h | None => btc_hash_zero end in
  btc_peer_sendmsg now (set_peer_gb_time now p)
    (BTC_MSG_GETBLOCKS locator stop).

Definition btc_peer_send_getheaders (now : Z) (p : btc_peer)
  (locator : list hash) (stop : option hash) : btc_peer :=
  let stop := match stop with Some h => h | None => btc_hash_zero end in
  btc_peer_sendmsg now (set_peer_gh_time now p)
    (BTC_MSG_GETHEADERS locator stop).

Definition btc_peer_send_getheaders_1 (now : Z) (p : btc_peer)
  (h : hash) (stop : option hash) : btc_peer :=
  btc_peer_send_getheaders now p [h] stop.

Definition btc_peer_send_mempool (now : Z) (p : btc_peer) : btc_peer :=
  if Z.land (peer_services p) (BTC_NET_SERVICE_BLOOM K) =? 0 then p
  else btc_peer_sendmsg now p BTC_MSG_MEMPOOL.

Definition btc_peer_send_inv (now : Z) (p : btc_peer)
  (items : list btc_invitem) : btc_peer :=
  let filter :=
    fold_left (fun f item => inv_hash item :: f) items (peer_inv_filter p) in
  btc_peer_sendmsg now (set_peer_inv_filter filter p) (BTC_MSG_INV items).

Definition btc_peer_send_inv_1 (now : Z) (p : btc_peer)
  (type : btc_invtype) (h : hash) : btc_peer :=
  btc_peer_sendmsg now (set_peer_inv_filter (h :: peer_inv_filter p) p)
    (BTC_MSG_INV [{| inv_type := type; inv_hash := h |}]).

Definition btc_peer_send_getdata (now : Z) (p : btc_peer)
  (items : list btc_invitem) : btc_peer :=
  btc_peer_sendmsg now p (BTC_MSG_GETDATA items).

Definition btc_peer_send_notfound (now : Z) (p : btc_peer)
  (items : list btc_invitem) : btc_peer :=
  btc_peer_sendmsg now p (BTC_MSG_NOTFOUND items).

Definition btc_peer_send_headers (now : Z) (p : btc_peer)
  (items : list btc_header) : btc_peer :=
  btc_peer_sendmsg now p (BTC_MSG_HEADERS items).

Definition btc_peer_send_cmpctblock (now : Z) (p : btc_peer)
  (block : btc_block) : btc_peer :=
  btc_peer_sendmsg now p
    (if peer_compact_witness p then BTC_MSG_CMPCTBLOCK block
     else BTC_MSG_CMPCTBLOCK_BASE block).

Definition btc_peer_has_compact_support (p : btc_peer) : bool :=
  if peer_version p <? BTC_NET_COMPACT_VERSION K then false
  else if Z.land (peer_services p) (BTC_NET_SERVICE_WITNESS K) =? 0
  then false
  else peer_version p >=? BTC_NET_COMPACT_WITNESS_VERSION K.

Definition btc_peer_has_compact (p : btc_peer) : bool :=
  if peer_compact_mode p =? -1 then false
  else if negb (peer_compact_witness p) then false
  else true.

Definition btc_peer_block_type (bip152_enabled : bool) (p : btc_peer)
  : btc_invtype :=
  if bip152_enabled && btc_peer_has_compact_support p
     && btc_peer_has_compact p
  then BTC_INV_CMPCT_BLOCK
  else if negb (Z.land (peer_services p) (BTC_NET_SERVICE_WITNESS K) =? 0)
  then BTC_INV_WITNESS_BLOCK
  else BTC_INV_BLOCK.

Definition btc_peer_tx_type (p : btc_peer) : btc_invtype :=
  if negb (Z.land (peer_services p) (BTC_NET_SERVICE_WITNESS K) =? 0)
  then BTC_INV_WITNESS_TX
  else BTC_INV_TX.

(** ** Serving [getdata] *)

(** The [switch] in the loop of [btc_peer_flush_data]: the item is served,
    or pushed on the not-found list [nf]. *)
Definition btc_peer_flush_serve (ch : btc_chain) (mp : btc_mempool)
  (now : Z) (p : btc_peer) (nf : list btc_invitem) (item : btc_invitem)
  : btc_peer * list btc_invitem :=
  let entry := btc_chain_by_hash ch (inv_hash item) in
  let type :=
    match inv_type item, entry with
    | BTC_INV_CMPCT_BLOCK, Some e =>
        if entry_height e <? btc_chain_height ch - 10
        then if peer_compact_witness p then BTC_INV_WITNESS_BLOCK
             else BTC_INV_BLOCK
        else BTC_INV_CMPCT_BLOCK
    | t, _ => t
    end in
  match type with
  | BTC_INV_BLOCK =>
      match entry with
      | None => (p, nf ++ [item])
      | Some e =>
          match btc_chain_get_block ch e with
          | None => (p, nf ++ [item])
          | Some b => (btc_peer_sendmsg now p (BTC_MSG_BLOCK_BASE b), nf)
          end
      end
  | BTC_INV_WITNESS_BLOCK =>
      match entry with
      | None => (p, nf ++ [item])
      | Some e =>
          match btc_chain_get_raw_block ch e with
          | None => (p, nf ++ [item])
          | Some data => (snd (btc_peer_write now p data), nf)
          end
      end
  | BTC_INV_CMPCT_BLOCK =>
      match entry with
      | None => (p, nf ++ [item])
      | Some e =>
          match btc_chain_get_block ch e with
          | None => (p, nf ++ [item])
          | Some b => (btc_peer_send_cmpctblock now p b, nf)
          end
      end
  | BTC_INV_TX =>
      match btc_mempool_get mp (inv_hash item) with
      | None => (p, nf ++ [item])
      | Some t => (btc_peer_sendmsg now p (BTC_MSG_TX_BASE t), nf)
      end
  | BTC_INV_WITNESS_TX =>
      match btc_mempool_get mp (inv_hash item) with
      | None => (p, nf ++ [item])
      | Some t => (btc_peer_sendmsg now p (BTC_MSG_TX t), nf)
      end
  | _ => (p, nf ++ [item])
  end.

(** The body of the loop of [btc_peer_flush_data] for one item: after the
    [switch], an item whose hash is the continuation hash triggers an [inv]
    of the tip, and the continuation hash is cleared. *)
Definition btc_peer_flush_item (ch : btc_chain) (mp : btc_mempool)
  (now : Z) (p : btc_peer) (nf : list btc_invitem) (item : btc_invitem)
  : btc_peer * list btc_invitem :=
  let '(p1, nf1) := btc_peer_flush_serve ch mp now p nf item in
  let p2 :=
    if btc_hash_equal (inv_hash item) (peer_hash_continue p1)
    then set_peer_hash_continue btc_hash_zero
           (btc_peer_send_inv_1 now p1 BTC_INV_BLOCK
              (entry_hash (btc_chain_tip ch)))
    else p1 in
  (p2, nf1).

(** The loop: it stops, leaving the rest queued, once 10 MiB are buffered
    or the peer is dead. *)
Fixpoint btc_peer_flush_loop (ch : btc_chain) (mp : btc_mempool) (now : Z)
  (p : btc_peer) (nf : list btc_invitem) (queue : list btc_invitem)
  : btc_peer * list btc_invitem * bool :=
  match queue with
  | [] => (p, nf, true)
  | item :: next =>
      let size := btc_socket_buffered (peer_socket p)
                  + Z.of_nat (length nf) * 36 in
      if (size >=? 10 * 2 ^ 20) || state_eqb (peer_state p) BTC_PEER_DEAD
      then (p, nf, false)
      else
        let '(p1, nf1) := btc_peer_flush_item ch mp now p nf item in
        btc_peer_flush_loop ch mp now (set_peer_sending next p1) nf1 next
  end.

Definition btc_peer_flush_data (ch : btc_chain) (mp : btc_mempool)
  (now : Z) (p : btc_peer) : bool * btc_peer :=
  if negb (state_eqb (peer_state p) BTC_PEER_CONNECTED) then (true, p)
  else if Nat.eqb (length (peer_sending p)) 0 then (true, p)
  else
    let '(p1, nf, ret) :=
      btc_peer_flush_loop ch mp now p [] (peer_sending p) in
    let p2 := if Nat.ltb 0 (length nf) then btc_peer_send_notfound now p1 nf
              else p1 in
    (ret, p2).

(** ** Timeouts *)

Definition stalled (now : Z) (limit : Z) (m : gmap hash Z) : bool :=
  existsb (fun kv => now >? snd kv + limit) (map_to_list m).

Definition btc_peer_maybe_timeout (synced : bool) (now : Z) (p : btc_peer)
  : option stall * btc_peer :=
  if negb synced && negb (peer_gb_time p =? -1)
     && (now >? peer_gb_time p + 30000)
  then (Some STALL_INV, btc_peer_close p)
  else if negb (peer_gh_time p =? -1) && (now >? peer_gh_time p + 60000)
  then (Some STALL_HEADERS, btc_peer_close p)
  else if peer_syncing p && peer_loader p && negb synced
          && (now >? peer_block_time p + 120000)
  then (Some STALL_BLOCK, btc_peer_close p)
  else if (synced || negb (peer_syncing p))
          && stalled now 120000 (peer_block_map p)
  then (Some STALL_BLOCK, btc_peer_close p)
  else if (synced || negb (peer_syncing p))
          && stalled now 120000 (peer_tx_map p)
  then (Some STALL_TX, btc_peer_close p)
  else if (synced || negb (peer_syncing p))
          && stalled now 30000 (peer_compact_map p)
  then (Some STALL_BLOCKTXN, btc_peer_close p)
  else if now >? peer_time p + 60000 then
    let mult := if peer_version p <=? BTC_NET_PONG_VERSION K then 4 else 1 in
    if (peer_last_recv p =? 0) || (peer_last_send p =? 0)
    then (Some STALL_NO_MESSAGE, btc_peer_close p)
    else if now >? peer_last_send p + 20 * 60000
    then (Some STALL_SEND, btc_peer_close p)
    else if now >? peer_last_recv p + 20 * 60000 * mult
    then (Some STALL_RECV, btc_peer_close p)
    else if negb (peer_challenge p =? 0)
            && (now >? peer_last_ping p + 20 * 60000)
    then (Some STALL_PING, btc_peer_close p)
    else (None, p)
  else (None, p).

(** ** Requests served from the chain and the mempool *)

Definition is_stop (stop : option btc_entry) (e : btc_entry) : bool :=
  match stop with
  | Some s => entry_eqb e s
  | None => false
  end.

(** The [while] loop of [btc_pool_on_getblocks]; it pushes one item a
    turn and leaves at 500 items, so that 500 turns are all it can take. *)
Fixpoint getblocks_loop (ch : btc_chain) (stop : option btc_entry)
  (fuel : nat) (entry : option btc_entry) (blocks : list btc_invitem)
  (hash_continue : hash) : list btc_invitem * hash :=
  match fuel, entry with
  | S fuel', Some e =>
      if is_stop stop e then (blocks, hash_continue)
      else
        let blocks :=
          blocks ++ [{| inv_type := BTC_INV_BLOCK;
                        inv_hash := entry_hash e |}] in
        if Nat.eqb (length blocks) 500 then (blocks, entry_hash e)
        else getblocks_loop ch stop fuel' (entry_next ch e) blocks
               hash_continue
  | _, _ => (blocks, hash_continue)
  end.

Definition btc_pool_on_getblocks (ch : btc_chain) (now : Z) (p : btc_peer)
  (locator : list hash) (stop : hash) : btc_peer :=
  if negb (btc_chain_synced ch) then p
  else
    let entry :=
      match btc_chain_find_locator ch locator with
      | Some e => entry_next ch e
      | None => None
      end in
    let stop := btc_chain_by_hash ch stop in
    let '(blocks, hc) :=
      getblocks_loop ch stop 500 entry [] (peer_hash_continue p) in
    btc_peer_send_inv now (set_peer_hash_continue hc p) blocks.

Fixpoint getheaders_loop (ch : btc_chain) (stop : option btc_entry)
  (fuel : nat) (entry : option btc_entry) (blocks : list btc_header)
  : list btc_header :=
  match fuel, entry with
  | S fuel', Some e =>
      let blocks := blocks ++ [entry_header e] in
      if is_stop stop e then blocks
      else if Nat.eqb (length blocks) 2000 then blocks
      else getheaders_loop ch stop fuel' (entry_next ch e) blocks
  | _, _ => blocks
  end.

Definition btc_pool_on_getheaders (ch : btc_chain) (now : Z) (p : btc_peer)
  (locator : list hash) (stop : hash) : btc_peer :=
  if negb (btc_chain_synced ch) then p
  else
    let '(entry, stop) :=
      if Nat.ltb 0 (length locator) then
        (match btc_chain_find_locator ch locator with
         | Some e => entry_next ch e
         | None => None
         end, btc_chain_by_hash ch stop)
      else (btc_chain_by_hash ch stop, btc_chain_by_hash ch stop) in
    btc_peer_send_headers now p (getheaders_loop ch stop 2000 entry []).

Fixpoint mempool_loop (now : Z) (p : btc_peer) (entries : list btc_tx)
  (items : list btc_invitem) : btc_peer * list btc_invitem :=
  match entries with
  | [] => (p, items)
  | t :: rest =>
      let items :=
        items ++ [{| inv_type := BTC_INV_TX; inv_hash := tx_hash t |}] in
      if Nat.eqb (length items) 1000
      then mempool_loop now (btc_peer_send_inv now p items) rest []
      else mempool_loop now p rest items
  end.

Definition btc_pool_on_mempool (ch : btc_chain) (mp : btc_mempool)
  (bip37_enabled : bool) (now : Z) (p : btc_peer) : btc_peer :=
  if negb (btc_chain_synced ch) then p
  else if negb bip37_enabled then btc_peer_close p
  else
    let '(p1, items) := mempool_loop now p (mp_entries mp) [] in
    if Nat.ltb 0 (length items) then btc_peer_send_inv now p1 items
    else p1.

End Peer.

(** * The pool *)

Section Pool.
Variable K : btc_consts.
Variable C : msg_codec.


Definition btc_peer_on_feefilter (pl : btc_pool) (id : Z) (rate : Z)
  : btc_pool :=
  if (rate <? 0) || (rate >? BTC_MAX_MONEY K)
  then snd (btc_peer_increase_ban pl id 100)
  else upd_peer id (set_peer_fee_rate rate) pl.

(** ** Outstanding requests *)

(** The loop of [btc_pool_request_blocks] and of [btc_pool_request_txs]:
    [set] is the set of the pool, [tab] the table of the peer, [step] what
    is added to [now] for an item when the chain is synced. *)
Fixpoint request_loop (synced : bool) (step : Z) (type : btc_invtype)
  (hashes : list hash) (set : gset hash) (tab : gmap hash Z) (now : Z)
  (inv : list btc_invitem)
  : gset hash * gmap hash Z * list btc_invitem :=
  match hashes with
  | [] => (set, tab, inv)
  | h :: rest =>
      if bool_decide (h ∈ set)
      then request_loop synced step type rest set tab now inv
      else
        request_loop synced step type rest ({[h]} ∪ set) (<[h := now]> tab)
          (if synced then now + step else now)
          (inv ++ [{| inv_type := type; inv_hash := h |}])
  end.

Definition btc_pool_request_blocks (pl : btc_pool) (id : Z)
  (hashes : list hash) (now : Z) : btc_pool :=
  match find_peer id pl with
  | None => pl
  | Some p =>
      if negb (state_eqb (peer_state p) BTC_PEER_CONNECTED) then pl
      else
        let '(set, tab, inv) :=
          request_loop (btc_chain_synced (pool_chain pl)) 100
            (btc_peer_block_type K (pool_bip152_enabled pl) p) hashes
            (pool_block_map pl) (peer_block_map p) now [] in
        let pl := set_pool_block_map set
                    (upd_peer id (set_peer_block_map tab) pl) in
        if Nat.eqb (length inv) 0 then pl
        else if Z.of_nat (size tab) >=? BTC_NET_MAX_BLOCK_REQUEST K
        then upd_peer id btc_peer_close pl
        else upd_peer id (fun q => btc_peer_send_getdata C now q inv) pl
  end.

Definition btc_pool_request_txs (pl : btc_pool) (id : Z)
  (hashes : list hash) (now : Z) : btc_pool :=
  match find_peer id pl with
  | None => pl
  | Some p =>
      if negb (state_eqb (peer_state p) BTC_PEER_CONNECTED) then pl
      else
        let '(set, tab, inv) :=
          request_loop (btc_chain_synced (pool_chain pl)) 50
            (btc_peer_tx_type K p) hashes
            (pool_tx_map pl) (peer_tx_map p) now [] in
        let pl := set_pool_tx_map set
                    (upd_peer id (set_peer_tx_map tab) pl) in
        if Nat.eqb (length inv) 0 then pl
        else if Z.of_nat (size tab) >=? BTC_NET_MAX_TX_REQUEST K
        then upd_peer id btc_peer_close pl
        else upd_peer id (fun q => btc_peer_send_getdata C now q inv) pl
  end.

(** [btc_pool_resolve_block].  The key deleted from the table of the peer is
    the pointer that the set of the pool holds (both were put together):
    the [CHECK] is that the set has the hash. *)
Definition btc_pool_resolve_block (pl : btc_pool) (id : Z) (h : hash)
  : option (bool * btc_pool) :=
  match find_peer id pl with
  | None => Some (false, pl)
  | Some p =>
      match peer_block_map p !! h with
      | None => Some (false, pl)
      | Some _ =>
          if bool_decide (h ∈ pool_block_map pl)
          then Some (true,
                     set_pool_block_map (pool_block_map pl ∖ {[h]})
                       (upd_peer id
                          (set_peer_block_map (delete h (peer_block_map p)))
                          pl))
          else None
      end
  end.

Definition btc_pool_resolve_tx (pl : btc_pool) (id : Z) (h : hash)
  : option (bool * btc_pool) :=
  match find_peer id pl with
  | None => Some (false, pl)
  | Some p =>
      match peer_tx_map p !! h with
      | None => Some (false, pl)
      | Some _ =>
          if bool_decide (h ∈ pool_tx_map pl)
          then Some (true,
                     set_pool_tx_map (pool_tx_map pl ∖ {[h]})
                       (upd_peer id
                          (set_peer_tx_map (delete h (peer_tx_map p))) pl))
          else None
      end
  end.

Definition btc_pool_resolve_item (pl : btc_pool) (id : Z)
  (item : btc_invitem) : option (bool * btc_pool) :=
  match inv_type item with
  | BTC_INV_TX | BTC_INV_WITNESS_TX =>
      btc_pool_resolve_tx pl id (inv_hash item)
  | BTC_INV_BLOCK | BTC_INV_FILTERED_BLOCK | BTC_INV_CMPCT_BLOCK
  | BTC_INV_WITNESS_BLOCK | BTC_INV_WITNESS_FILTERED_BLOCK =>
      btc_pool_resolve_block pl id (inv_hash item)
  | INV_OTHER _ => Some (false, pl)
  end.

Fixpoint btc_pool_on_notfound (pl : btc_pool) (id : Z)
  (items : list btc_invitem) : option btc_pool :=
  match items with
  | [] => Some pl
  | item :: rest =>
      match btc_pool_resolve_item pl id item with
      | None => None
      | Some (true, pl1) => btc_pool_on_notfound pl1 id rest
      | Some (false, pl1) => Some (upd_peer id btc_peer_close pl1)
      end
  end.

(** ** Compact blocks: the places that touch the request tables *)

(** [btc_pool_on_cmpctblock], lines 3680-3699: a compact block that this
    peer was not asked for is refused unless the pool runs in block mode 1,
    where it is entered in the block tables. *)
Definition cmpctblock_unrequested (pl : btc_pool) (id : Z) (h : hash)
  (now : Z) : option btc_pool :=
  match find_peer id pl with
  | None => Some pl
  | Some p =>
      match peer_block_map p !! h with
      | Some _ => Some pl
      | None =>
          if negb (pool_block_mode pl =? 1)
          then Some (upd_peer id btc_peer_close pl)
          else if bool_decide (h ∈ pool_block_map pl) then None
          else
            Some (set_pool_block_map ({[h]} ∪ pool_block_map pl)
                    (upd_peer id
                       (fun q =>
                          set_peer_block_map (<[h := now]> (peer_block_map q))
                            (set_peer_inv_filter (h :: peer_inv_filter q) q))
                       pl))
      end
  end.

(** [btc_pool_on_cmpctblock], lines 3666-3678 and 3745-3754: a block that
    could not be filled from the mempool is stored, unless the peer or the
    pool waits for it already or the peer has 15 of them. *)
Definition cmpctblock_store (pl : btc_pool) (id : Z) (h : hash) (now : Z)
  : option btc_pool :=
  match find_peer id pl with
  | None => Some pl
  | Some p =>
      if bool_decide (is_Some (peer_compact_map p !! h)) then Some pl
      else if bool_decide (h ∈ pool_compact_map pl) then Some pl
      else if Z.of_nat (size (peer_compact_map p)) >=? 15
      then Some (upd_peer id btc_peer_close pl)
      else
        Some (set_pool_compact_map ({[h]} ∪ pool_compact_map pl)
                (upd_peer id
                   (set_peer_compact_map (<[h := now]> (peer_compact_map p)))
                   pl))
  end.

(** [btc_pool_on_blocktxn], lines 3813-3823. *)
Definition blocktxn_take (pl : btc_pool) (id : Z) (h : hash)
  : option btc_pool :=
  match find_peer id pl with
  | None => Some pl
  | Some p =>
      match peer_compact_map p !! h with
      | None => Some pl
      | Some _ =>
          if bool_decide (h ∈ pool_compact_map pl)
          then Some (set_pool_compact_map (pool_compact_map pl ∖ {[h]})
                       (upd_peer id
                          (set_peer_compact_map
                             (delete h (peer_compact_map p))) pl))
          else None
      end
  end.

(** ** The headers chain *)

(** [btc_pool_next_tip]; [None] is [btc_abort()]. *)
Definition btc_pool_next_tip (pl : btc_pool) (height : Z)
  : option btc_checkpoint :=
  find (fun chk => chk_height chk >? height)
       (net_checkpoints (pool_network pl)).

Definition btc_pool_clear_chain (pl : btc_pool) : btc_pool :=
  set_pool_header_next None
    (set_pool_header_chain []
       (set_pool_header_tip None (set_pool_checkpoints false pl))).

Definition btc_pool_reset_chain (pl : btc_pool) : option btc_pool :=
  if negb (pool_checkpoints_enabled pl) then Some pl
  else if Nat.eqb (length (net_checkpoints (pool_network pl))) 0
  then Some pl
  else
    let pl := btc_pool_clear_chain pl in
    let tip := btc_chain_tip (pool_chain pl) in
    if entry_height tip <? net_last_checkpoint (pool_network pl) then
      match btc_pool_next_tip pl (entry_height tip) with
      | None => None
      | Some chk =>
          Some (set_pool_header_chain
                  [{| node_hash := entry_hash tip;
                      node_height := entry_height tip |}]
                  (set_pool_header_tip (Some chk)
                     (set_pool_checkpoints true pl)))
      end
    else Some pl.

(** [btc_pool_shift_header].  The head is freed, whether [header_next]
    points to it or not, and [header_next] is reset only when no node is
    left: it stays on a head that was freed while others remain.  An empty
    chain has no head to read [next] from. *)
Definition btc_pool_shift_header (pl : btc_pool) : option btc_pool :=
  match pool_header_chain pl with
  | [] => None
  | _ :: [] =>
      Some (set_pool_header_next None (set_pool_header_chain [] pl))
  | head :: rest =>
      let next :=
        match pool_header_next pl with
        | None => None
        | Some (HDR_LIVE O) => Some (HDR_FREED [head])
        | Some (HDR_LIVE (S k)) => Some (HDR_LIVE k)
        | Some (HDR_FREED ns) => Some (HDR_FREED (ns ++ [head]))
        end in
      Some (set_pool_header_next next (set_pool_header_chain rest pl))
  end.

(** The nodes that are met along [next] from a pointer on, each with the
    pointer to it: the nodes of the chain from the position [pos] on, and
    before them the freed ones. *)
Fixpoint live_from (pos : nat) (nodes : list btc_hdrnode)
  : list (btc_hdrnode * hdr_ref) :=
  match nodes with
  | [] => []
  | n :: rest => (n, HDR_LIVE pos) :: live_from (S pos) rest
  end.

Fixpoint freed_from (ns : list btc_hdrnode) : list (btc_hdrnode * hdr_ref) :=
  match ns with
  | [] => []
  | n :: rest => (n, HDR_FREED (n :: rest)) :: freed_from rest
  end.

Definition nodes_from (pl : btc_pool) (r : hdr_ref)
  : list (btc_hdrnode * hdr_ref) :=
  match r with
  | HDR_LIVE k => live_from k (skipn k (pool_header_chain pl))
  | HDR_FREED ns => freed_from ns ++ live_from 0 (pool_header_chain pl)
  end.

(** The loop of [btc_pool_resolve_headers] over the nodes from
    [header_next] on; [header_next] follows it. *)
Fixpoint resolve_headers_loop (nodes : list (btc_hdrnode * hdr_ref))
  (items : list hash) (next : option hdr_ref)
  : list hash * option hdr_ref :=
  match nodes with
  | [] => (items, next)
  | (n, r) :: rest =>
      let items := items ++ [node_hash n] in
      if Z.of_nat (length items) =? BTC_NET_MAX_INV K then (items, Some r)
      else resolve_headers_loop rest items (Some r)
  end.

Definition btc_pool_resolve_headers (pl : btc_pool) (id : Z) (now : Z)
  : btc_pool :=
  let '(items, next) :=
    match pool_header_next pl with
    | None => ([], None)
    | Some r => resolve_headers_loop (nodes_from pl r) [] (Some r)
    end in
  btc_pool_request_blocks (set_pool_header_next next pl) id items now.

(** How the loop over the headers of a [headers] message ends. *)
Inductive headers_end : Type :=
| Returned (pl : btc_pool)
| Appended (pl : btc_pool) (checkpoint : bool) (node : btc_hdrnode).

(** The loop of [btc_pool_on_headers]; [node] is the node created
    last. *)
Fixpoint headers_loop (pl : btc_pool) (id : Z) (items : list btc_header)
  (checkpoint : bool) (node : btc_hdrnode) : option headers_end :=
  match items with
  | [] => Some (Appended pl checkpoint node)
  | hdr :: rest =>
      match last (pool_header_chain pl) with
      | None => None
      | Some tail =>
          let height := node_height tail + 1 in
          if negb (hdr_verify hdr)
          then Some (Returned (snd (btc_peer_increase_ban pl id 100)))
          else if negb (btc_hash_equal (hdr_prev_block hdr) (node_hash tail))
          then Some (Returned (upd_peer id btc_peer_close pl))
          else
            match pool_header_tip pl with
            | None => None
            | Some tip =>
                if (height =? chk_height tip)
                   && negb (btc_hash_equal (hdr_hash hdr) (chk_hash tip))
                then Some (Returned (upd_peer id btc_peer_close pl))
                else
                  let checkpoint :=
                    checkpoint || (height =? chk_height tip) in
                  let node := {| node_hash := hdr_hash hdr;
                                 node_height := height |} in
                  let next :=
                    match pool_header_next pl with
                    | None => Some (HDR_LIVE (length (pool_header_chain pl)))
                    | Some r => Some r
                    end in
                  headers_loop
                    (set_pool_header_chain (pool_header_chain pl ++ [node])
                       (set_pool_header_next next pl))
                    id rest checkpoint node
            end
      end
  end.

Definition btc_pool_on_headers (pl : btc_pool) (id : Z)
  (msg : list btc_header) (now : Z) : option btc_pool :=
  match find_peer id pl with
  | None => Some pl
  | Some p =>
      let pl := upd_peer id (set_peer_gh_time (-1)) pl in
      if negb (pool_checkpoints pl) then Some pl
      else if negb (peer_loader p) then Some pl
      else if Nat.eqb (length msg) 0 then Some pl
      else if Nat.ltb 2000 (length msg)
      then Some (snd (btc_peer_increase_ban pl id 100))
      else
        match pool_header_chain pl with
        | [] => None
        | head :: _ =>
            match headers_loop pl id msg false head with
            | None => None
            | Some (Returned pl1) => Some pl1
            | Some (Appended pl1 checkpoint node) =>
                let pl2 := upd_peer id (set_peer_block_time now) pl1 in
                if checkpoint then
                  match btc_pool_shift_header pl2 with
                  | None => None
                  | Some pl3 => Some (btc_pool_resolve_headers pl3 id now)
                  end
                else
                  Some (upd_peer id
                          (fun q =>
                             btc_peer_send_getheaders_1 C now q
                               (node_hash node)
                               (option_map chk_hash (pool_header_tip pl2)))
                          pl2)
            end
        end
  end.

Definition btc_pool_getblocks (pl : btc_pool) (id : Z) (tip : hash)
  (stop : option hash) (now : Z) : btc_pool :=
  upd_peer id
    (fun q =>
       btc_peer_send_getblocks C now q
         (btc_chain_get_locator (pool_chain pl) (Some tip)) stop) pl.

Definition btc_pool_resolve_orphan (pl : btc_pool) (id : Z) (orphan : hash)
  (now : Z) : option btc_pool :=
  match btc_chain_get_orphan_root (pool_chain pl) orphan with
  | None => None
  | Some root =>
      Some (upd_peer id
              (fun q =>
                 btc_peer_send_getblocks C now q
                   (btc_chain_get_locator (pool_chain pl) None) (Some root))
              pl)
  end.

(** [btc_pool_resolve_chain], called for a block that the chain took. *)
Definition btc_pool_resolve_chain (pl : btc_pool) (id : Z) (h : hash)
  (now : Z) : option btc_pool :=
  match find_peer id pl with
  | None => Some pl
  | Some p =>
      if negb (pool_checkpoints pl) then Some pl
      else if negb (peer_loader p) then Some pl
      else if negb (state_eqb (peer_state p) BTC_PEER_CONNECTED) then Some pl
      else
        match pool_header_chain pl with
        | [] => None
        | node :: _ =>
            if negb (btc_hash_equal h (node_hash node))
            then Some (upd_peer id btc_peer_close pl)
            else if node_height node
                    <? net_last_checkpoint (pool_network pl) then
              match pool_header_tip pl with
              | None => None
              | Some tip =>
                  if node_height node =? chk_height tip then
                    match btc_pool_next_tip pl (node_height node) with
                    | None => None
                    | Some chk =>
                        Some (upd_peer id
                                (fun q =>
                                   btc_peer_send_getheaders_1 C now q h
                                     (Some (chk_hash chk)))
                                (set_pool_header_tip (Some chk) pl))
                    end
                  else
                    match btc_pool_shift_header pl with
                    | None => None
                    | Some pl1 =>
                        Some (btc_pool_resolve_headers pl1 id now)
                    end
              end
            else
              Some (btc_pool_getblocks (btc_pool_clear_chain pl) id h None
                      now)
        end
  end.

(** ** Inventory *)

(** The loop of [btc_pool_on_blockinv]; [n] hashes are still to come after
    the one at the front. *)
Fixpoint blockinv_loop (pl : btc_pool) (id : Z) (hashes : list hash)
  (out : list hash) (now : Z) : option (btc_pool * list hash) :=
  match hashes with
  | [] => Some (pl, out)
  | h :: rest =>
      let ch := pool_chain pl in
      if btc_chain_has_invalid ch h then blockinv_loop pl id rest out now
      else if btc_chain_has_orphan ch h then
        match btc_pool_resolve_orphan pl id h now with
        | None => None
        | Some pl1 => blockinv_loop pl1 id rest out now
        end
      else if negb (btc_chain_has_hash ch h)
      then blockinv_loop pl id rest (out ++ [h]) now
      else if Nat.eqb (length rest) 0
      then blockinv_loop (btc_pool_getblocks pl id h None now) id rest out
             now
      else blockinv_loop pl id rest out now
  end.

Definition btc_pool_on_blockinv (pl : btc_pool) (id : Z)
  (hashes : list hash) (now : Z) : option btc_pool :=
  match find_peer id pl with
  | None => Some pl
  | Some p =>
      if Nat.eqb (length hashes) 0 then None
      else
        let pl := upd_peer id (set_peer_gb_time (-1)) pl in
        if negb (btc_chain_synced (pool_chain pl)) && negb (peer_loader p)
        then Some pl
        else if pool_checkpoints pl then Some pl
        else
          match blockinv_loop pl id hashes [] now with
          | None => None
          | Some (pl1, out) =>
              Some (btc_pool_request_blocks pl1 id out now)
          end
  end.

Definition btc_pool_has_tx (pl : btc_pool) (h : hash) : bool :=
  if btc_mempool_has (pool_mempool pl) h then true
  else if btc_mempool_has_reject (pool_mempool pl) h then true
  else false.

Definition btc_pool_on_txinv (pl : btc_pool) (id : Z) (hashes : list hash)
  (now : Z) : option btc_pool :=
  if Nat.eqb (length hashes) 0 then None
  else if negb (btc_chain_synced (pool_chain pl)) then Some pl
  else
    Some (btc_pool_request_txs pl id
            (List.filter (fun h => negb (btc_pool_has_tx pl h)) hashes) now).

Definition inv_hashes (type : btc_invtype) (items : list btc_invitem)
  : list hash :=
  map inv_hash
    (List.filter (fun item =>
               match inv_type item, type with
               | BTC_INV_BLOCK, BTC_INV_BLOCK => true
               | BTC_INV_TX, BTC_INV_TX => true
               | _, _ => false
               end) items).

Definition btc_pool_on_inv (pl : btc_pool) (id : Z)
  (items : list btc_invitem) (now : Z) : option btc_pool :=
  if Z.of_nat (length items) >? BTC_NET_MAX_INV K
  then Some (snd (btc_peer_increase_ban pl id 100))
  else
    let blocks := inv_hashes BTC_INV_BLOCK items in
    let txs := inv_hashes BTC_INV_TX items in
    let pl :=
      upd_peer id
        (fun q =>
           set_peer_inv_filter
             (fold_left (fun f item => inv_hash item :: f) items
                (peer_inv_filter q)) q) pl in
    match (if Nat.ltb 0 (length blocks)
           then btc_pool_on_blockinv pl id blocks now else Some pl) with
    | None => None
    | Some pl1 =>
        if Nat.ltb 0 (length txs) then btc_pool_on_txinv pl1 id txs now
        else Some pl1
    end.

Definition btc_pool_on_getdata (pl : btc_pool) (id : Z)
  (items : list btc_invitem) (now : Z) : btc_pool :=
  if Z.of_nat (length items) >? BTC_NET_MAX_INV K
  then snd (btc_peer_increase_ban pl id 100)
  else
    upd_peer id
      (fun q =>
         snd (btc_peer_flush_data C (pool_chain pl) (pool_mempool pl) now
                (set_peer_sending (peer_sending q ++ items) q))) pl.

(** ** The loader *)

Definition btc_pool_is_syncable (pl : btc_pool) (p : btc_peer) : bool :=
  if negb (state_eqb (peer_state p) BTC_PEER_CONNECTED) then false
  else if negb (Z.land (peer_services p) (pool_required_services pl)
                =? pool_required_services pl)
  then false
  else if negb (peer_loader p) && negb (btc_chain_synced (pool_chain pl))
  then false
  else true.

Definition btc_pool_send_locator (pl : btc_pool) (id : Z)
  (locator : list hash) (now : Z) : option (bool * btc_pool) :=
  match find_peer id pl with
  | None => Some (false, pl)
  | Some p =>
      if negb (btc_pool_is_syncable pl p) then Some (false, pl)
      else
        let p1 :=
          if net_request_mempool (pool_network pl)
             && (peer_loader p && btc_chain_synced (pool_chain pl))
          then btc_peer_send_mempool K C now p
          else p in
        let p2 := set_peer_block_time now (set_peer_syncing true p1) in
        if pool_checkpoints pl then
          match pool_header_tip pl with
          | None => None
          | Some tip =>
              Some (true,
                    upd_peer id
                      (fun _ =>
                         btc_peer_send_getheaders C now p2 locator
                           (Some (chk_hash tip))) pl)
          end
        else
          Some (true,
                upd_peer id
                  (fun _ => btc_peer_send_getblocks C now p2 locator None)
                  pl)
  end.

Definition btc_pool_send_sync (pl : btc_pool) (id : Z) (now : Z)
  : option (bool * btc_pool) :=
  match find_peer id pl with
  | None => Some (false, pl)
  | Some p =>
      if peer_syncing p then Some (false, pl)
      else if negb (btc_pool_is_syncable pl p) then Some (false, pl)
      else
        match btc_pool_send_locator pl id
                (btc_chain_get_locator (pool_chain pl) None) now with
        | None => None
        | Some (_, pl1) => Some (true, pl1)
        end
  end.

Definition btc_pool_set_loader (pl : btc_pool) (id : Z) (now : Z)
  : option btc_pool :=
  match find_peer id pl with
  | None => None
  | Some p =>
      if negb (peer_outbound p) then None
      else if bool_decide (is_Some (pool_load pl)) then None
      else if peer_loader p then None
      else
        match btc_pool_send_sync
                (set_pool_load (Some id)
                   (upd_peer id (set_peer_loader true) pl)) id now with
        | None => None
        | Some (_, pl1) => Some pl1
        end
  end.

(** The loop of [btc_pool_get_addr]: [n] candidates are still to be
    asked for, the next is the [i]-th; [tnow] is [btc_timedata_now]. *)
Fixpoint get_addr_loop (pl : btc_pool) (tnow : Z) (n i : nat)
  : option btc_netaddr :=
  match n with
  | O => None
  | S n' =>
      match am_get (pool_addrman pl) i with
      | None => None
      | Some entry =>
          let addr := ae_addr entry in
          if btc_peers_has pl addr
             || btc_addrman_has_local (pool_addrman pl) addr
             || btc_addrman_is_banned (pool_addrman pl) addr
             || negb (na_is_valid addr)
             || negb (Z.land (na_services addr) (pool_required_services pl)
                      =? pool_required_services pl)
             || na_is_onion addr
             || (Nat.ltb i 30 && (tnow - ae_last_attempt entry <? 600))
             || (Nat.ltb i 50
                 && negb (na_port addr =? net_port (pool_network pl)))
          then get_addr_loop pl tnow n' (S i)
          else Some addr
      end
  end.

Definition btc_pool_get_addr (pl : btc_pool) (tnow : Z)
  : option btc_netaddr :=
  get_addr_loop pl tnow 100 0.

(** What the event loop and the random generator answer to one dial:
    the socket of [btc_loop_connect] ([None] for [NULL]) and the values
    that [btc_nonce] draws. *)
Record dial := { dial_socket : option btc_socket; dial_nonces : list Z }.

(** A peer without a socket holds [NULL] there. *)
Definition no_socket : btc_socket :=
  {| sock_closed := true; sock_written := []; sock_nwrites := O;
     sock_rc := fun _ => -1; sock_buffered := fun _ => 0 |}.

Definition no_addr : btc_netaddr :=
  {| na_raw := []; na_port := 0; na_services := 0; na_is_valid := false;
     na_is_onion := false |}.

(** [btc_peer_create]: the memory is zeroed, then the fields that differ
    are set; [version] is unsigned. *)
Definition btc_peer_create (pl : btc_pool) : btc_peer * btc_pool :=
  ({| peer_network := pool_network pl; peer_socket := no_socket;
      peer_parser := btc_parser_init (net_magic (pool_network pl));
      peer_sending := []; peer_state := BTC_PEER_DEAD;
      peer_id := pool_id pl; peer_outbound := false; peer_loader := false;
      peer_addr := no_addr; peer_nonce := 0; peer_time := 0;
      peer_last_send := 0; peer_last_recv := 0; peer_ban_score := 0;
      peer_version := 2 ^ 32 - 1; peer_services := 0;
      peer_hash_continue := btc_hash_zero; peer_fee_rate := -1;
      peer_compact_mode := -1; peer_compact_witness := false;
      peer_syncing := false; peer_challenge := 0; peer_last_ping := -1;
      peer_block_time := -1; peer_gb_time := -1; peer_gh_time := -1;
      peer_inv_filter := []; peer_block_map := ∅; peer_tx_map := ∅;
      peer_compact_map := ∅ |},
   set_pool_id ((pool_id pl + 1) mod 2 ^ 32) pl).

(** [btc_nonces_alloc] draws until the value is new to the set. *)
Definition btc_nonces_alloc (nonces : list Z) (draws : list Z) : option Z :=
  find (fun n => negb (bool_decide (n ∈ nonces))) draws.

(** [btc_pool_create_outbound] with [btc_peer_open]: [Some None] is the
    [NULL] of a failed connection; no result at all when the draws run out
    before a fresh nonce is found. *)
Definition btc_pool_create_outbound (pl : btc_pool) (addr : btc_netaddr)
  (d : dial) (now : Z) : option (option btc_peer * btc_pool) :=
  let '(peer, pl1) := btc_peer_create pl in
  let pl2 := set_pool_addrman
               (btc_addrman_mark_attempt (pool_addrman pl1) addr) pl1 in
  match dial_socket d with
  | None => Some (None, pl2)
  | Some socket =>
      match btc_nonces_alloc (pool_nonces pl2) (dial_nonces d) with
      | None => None
      | Some nonce =>
          Some (Some (set_peer_nonce nonce
                        (set_peer_time now
                           (set_peer_outbound true
                              (set_peer_addr addr
                                 (set_peer_socket socket
                                    (set_peer_state BTC_PEER_CONNECTING
                                       peer)))))),
                set_pool_nonces (nonce :: pool_nonces pl2) pl2)
      end
  end.

Definition btc_peers_add (pl : btc_pool) (peer : btc_peer)
  : option btc_pool :=
  if btc_peers_has pl (peer_addr peer) then None
  else if bool_decide (is_Some (find_peer (peer_id peer) pl)) then None
  else
    let pl1 := set_pool_peers (pool_peers pl ++ [peer]) pl in
    Some (if peer_outbound peer
          then set_pool_outbound (pool_outbound pl1 + 1) pl1
          else set_pool_inbound (pool_inbound pl1 + 1) pl1).

Definition btc_pool_add_loader (pl : btc_pool) (tnow : Z) (d : dial)
  (now : Z) : option (bool * btc_pool) :=
  if bool_decide (is_Some (pool_load pl)) then None
  else
    match find peer_outbound (pool_peers pl) with
    | Some peer =>
        match btc_pool_set_loader pl (peer_id peer) now with
        | None => None
        | Some pl1 => Some (true, pl1)
        end
    | None =>
        match btc_pool_get_addr pl tnow with
        | None => Some (false, pl)
        | Some addr =>
            match btc_pool_create_outbound pl addr d now with
            | None => None
            | Some (None, pl1) => Some (false, pl1)
            | Some (Some peer, pl1) =>
                match btc_peers_add pl1 peer with
                | None => None
                | Some pl2 =>
                    match btc_pool_set_loader pl2 (peer_id peer) now with
                    | None => None
                    | Some pl3 => Some (true, pl3)
                    end
                end
            end
        end
    end.

Definition btc_pool_add_outbound (pl : btc_pool) (tnow : Z) (d : dial)
  (now : Z) : option (bool * btc_pool) :=
  if pool_outbound pl >=? pool_max_outbound pl then Some (false, pl)
  else if negb (bool_decide (is_Some (pool_load pl))) then Some (false, pl)
  else
    match btc_pool_get_addr pl tnow with
    | None => Some (false, pl)
    | Some addr =>
        match btc_pool_create_outbound pl addr d now with
        | None => None
        | Some (None, pl1) => Some (false, pl1)
        | Some (Some peer, pl1) =>
            match btc_peers_add pl1 peer with
            | None => None
            | Some pl2 => Some (true, pl2)
            end
        end
    end.

(** The [for] loop of [btc_pool_fill_outbound]: [need] dials, the next of
    which is the [i]-th. *)
Fixpoint fill_loop (pl : btc_pool) (tnow : Z) (dials : nat -> dial)
  (now : Z) (need i : nat) : option btc_pool :=
  match need with
  | O => Some pl
  | S need' =>
      match btc_pool_add_outbound pl tnow (dials i) now with
      | None => None
      | Some (_, pl1) => fill_loop pl1 tnow dials now need' (S i)
      end
  end.

(** [btc_pool_fill_outbound]; [dials 0] answers the dial of the loader. *)
Definition btc_pool_fill_outbound (pl : btc_pool) (tnow : Z)
  (dials : nat -> dial) (now : Z) : option (bool * btc_pool) :=
  let total := am_size (pool_addrman pl) in
  match (if bool_decide (is_Some (pool_load pl)) then Some (true, pl)
         else btc_pool_add_loader pl tnow (dials O) now) with
  | None => None
  | Some (false, pl1) => Some (false, pl1)
  | Some (true, pl1) =>
      if pool_outbound pl1 >=? pool_max_outbound pl1 then Some (true, pl1)
      else
        let need := pool_max_outbound pl1 - pool_outbound pl1 in
        let need := if need >? total then total else need in
        if need =? 0 then Some (false, pl1)
        else
          match fill_loop pl1 tnow dials now (Z.to_nat need) 1 with
          | None => None
          | Some pl2 => Some (true, pl2)
          end
  end.

(** The loop of [btc_pool_resync] over the peers, named by their ids. *)
Fixpoint resync_loop (pl : btc_pool) (force : bool) (locator : list hash)
  (now : Z) (ids : list Z) : option btc_pool :=
  match ids with
  | [] => Some pl
  | id :: rest =>
      match find_peer id pl with
      | None => resync_loop pl force locator now rest
      | Some p =>
          if negb (peer_outbound p)
          then resync_loop pl force locator now rest
          else if negb force && peer_syncing p
          then resync_loop pl force locator now rest
          else
            match btc_pool_send_locator pl id locator now with
            | None => None
            | Some (_, pl1) => resync_loop pl1 force locator now rest
            end
      end
  end.

Definition btc_pool_resync (pl : btc_pool) (force : bool) (now : Z)
  : option btc_pool :=
  resync_loop pl force (btc_chain_get_locator (pool_chain pl) None) now
    (map peer_id (pool_peers pl)).

(** ** Disconnection *)

(** [btc_peers_remove]; its first [CHECK]s are that the address map and
    the id map hold this peer. *)
Definition btc_peers_remove (pl : btc_pool) (id : Z) : option btc_pool :=
  match find_peer id pl with
  | None => None
  | Some p =>
      if negb (bool_decide
                 (peer_id <$> btc_peers_get pl (peer_addr p) = Some id))
      then None
      else
      let pl1 :=
        set_pool_peers
          (List.filter (fun q => negb (peer_id q =? id)) (pool_peers pl)) pl in
      match (if bool_decide (pool_load pl = Some id)
             then if peer_loader p then Some (set_pool_load None pl1)
                  else None
             else Some pl1) with
      | None => None
      | Some pl2 =>
          Some (if peer_outbound p
                then set_pool_outbound (pool_outbound pl2 - 1) pl2
                else set_pool_inbound (pool_inbound pl2 - 1) pl2)
      end
  end.

(** Deleting the keys of a table of a peer from the set of the pool; every
    deletion is [CHECK]ed. *)
Definition remove_keys (tab : gmap hash Z) (set : gset hash)
  : option (gset hash) :=
  if bool_decide (dom tab ⊆ set) then Some (set ∖ dom tab) else None.

Definition btc_pool_remove_peer (pl : btc_pool) (id : Z) : option btc_pool :=
  match find_peer id pl with
  | None => None
  | Some p =>
      match btc_peers_remove pl id with
      | None => None
      | Some pl1 =>
          match remove_keys (peer_block_map p) (pool_block_map pl1),
                remove_keys (peer_tx_map p) (pool_tx_map pl1),
                remove_keys (peer_compact_map p) (pool_compact_map pl1) with
          | Some bm, Some tm, Some cm =>
              Some (set_pool_compact_map cm
                      (set_pool_tx_map tm (set_pool_block_map bm pl1)))
          | _, _, _ => None
          end
      end
  end.

Definition btc_pool_on_disconnect (pl : btc_pool) (id : Z) (now : Z)
  : option btc_pool :=
  match find_peer id pl with
  | None => None
  | Some p =>
      let loader := peer_loader p in
      let size := size (peer_block_map p) in
      match btc_pool_remove_peer pl id with
      | None => None
      | Some pl1 =>
          match (if loader && pool_checkpoints pl1
                 then btc_pool_reset_chain pl1 else Some pl1) with
          | None => None
          | Some pl2 =>
              let pl3 :=
                set_pool_nonces
                  (List.filter (fun n => negb (n =? peer_nonce p))
                     (pool_nonces pl2)) pl2 in
              if btc_chain_synced (pool_chain pl3) && Nat.ltb 0 size
              then btc_pool_resync pl3 true now
              else Some pl3
          end
      end
  end.

(** ** Dispatch *)

(** [btc_pool_on_msg] and [btc_peer_on_msg] on the messages above; [other]
    stands for the handlers of incoming blocks, transactions and compact
    blocks. *)
Variable other : btc_msg -> btc_pool -> Z -> Z -> option btc_pool.

Definition peer_is_dead (pl : btc_pool) (id : Z) : bool :=
  match find_peer id pl with
  | Some p => state_eqb (peer_state p) BTC_PEER_DEAD
  | None => true
  end.

Definition btc_pool_on_msg (pl : btc_pool) (id : Z) (msg : btc_msg)
  (now : Z) : option btc_pool :=
  if peer_is_dead pl id then Some pl
  else
    match msg with
    | BTC_MSG_INV items => btc_pool_on_inv pl id items now
    | BTC_MSG_GETDATA items => Some (btc_pool_on_getdata pl id items now)
    | BTC_MSG_NOTFOUND items => btc_pool_on_notfound pl id items
    | BTC_MSG_GETBLOCKS locator stop =>
        Some (upd_peer id
                (fun q =>
                   btc_pool_on_getblocks C (pool_chain pl) now q locator
                     stop) pl)
    | BTC_MSG_GETHEADERS locator stop =>
        Some (upd_peer id
                (fun q =>
                   btc_pool_on_getheaders C (pool_chain pl) now q locator
                     stop) pl)
    | BTC_MSG_HEADERS items => btc_pool_on_headers pl id items now
    | BTC_MSG_MEMPOOL =>
        Some (upd_peer id
                (btc_pool_on_mempool C (pool_chain pl) (pool_mempool pl)
                   (pool_bip37_enabled pl) now) pl)
    | BTC_MSG_FEEFILTER _ => Some pl
    | _ => other msg pl id now
    end.

Definition btc_peer_on_msg (pl : btc_pool) (id : Z) (msg : btc_msg)
  (now : Z) : option btc_pool :=
  if peer_is_dead pl id then Some pl
  else
    let pl1 :=
      match msg with
      | BTC_MSG_FEEFILTER rate => btc_peer_on_feefilter pl id rate
      | _ => pl
      end in
    btc_pool_on_msg pl1 id msg now.

(** The parser of a peer, inside the pool. *)
Definition parser_of (id : Z) (pl : btc_pool) : btc_parser :=
  match find_peer id pl with
  | Some p => peer_parser p
  | None => set_closed true (btc_parser_init 0)
  end.





End Pool.

(** * Sample data *)

Module Sample.

(** The constants with the values of the Bitcoin protocol. *)
Definition consts : btc_consts :=
  {| BTC_NET_PONG_VERSION := 60000;
     BTC_NET_COMPACT_VERSION := 70014;
     BTC_NET_COMPACT_WITNESS_VERSION := 70015;
     BTC_NET_SERVICE_BLOOM := 4;
     BTC_NET_SERVICE_WITNESS := 8;
     BTC_NET_MAX_INV := 50000;
     BTC_NET_MAX_BLOCK_REQUEST := 16;
     BTC_NET_MAX_TX_REQUEST := 16;
     BTC_MAX_MONEY := 2100000000000000 |}.

Definition ascii (l : list Z) : list byte := bytes_of_Zs l.
Definition cmd_mempool : list byte := ascii [109; 101; 109; 112; 111; 111; 108].
Definition cmd_feefilter : list byte :=
  ascii [102; 101; 101; 102; 105; 108; 116; 101; 114].

Fixpoint write_le (n : nat) (x : Z) : list byte :=
  match n with
  | O => []
  | S n' => byte_of_Z x :: write_le n' (x / 256)
  end.

Fixpoint read_le (bs : list byte) : Z :=
  match bs with
  | [] => 0
  | b :: rest => byte_to_Z b + 256 * read_le rest
  end.

(** A codec for the two messages with the simplest bodies: [mempool] has
    none, [feefilter] carries a signed 64-bit rate, least significant byte
    first.  The other messages are outside this sample. *)
Definition codec : msg_codec :=
  {| msg_cmd := fun m =>
       match m with
       | BTC_MSG_MEMPOOL => cmd_mempool
       | BTC_MSG_FEEFILTER _ => cmd_feefilter
       | _ => []
       end;
     btc_msg_export := fun m =>
       match m with
       | BTC_MSG_FEEFILTER rate => write_le 8 (rate mod 2 ^ 64)
       | _ => []
       end;
     btc_msg_import := fun cmd body =>
       if bool_decide (cmd = cmd_mempool) then
         match body with [] => Some BTC_MSG_MEMPOOL | _ => None end
       else if bool_decide (cmd = cmd_feefilter) then
         if Nat.eqb (length body) 8 then
           let u := read_le body in
           Some (BTC_MSG_FEEFILTER (if u <? 2 ^ 63 then u else u - 2 ^ 64))
         else None
       else None |}.

(** The magic of the main network. *)
Definition magic_main : Z := 0xd9b4bef9.

(** A hash for every number below 65536, none of them the zero hash. *)
Definition hash_n (n : Z) : hash :=
  byte_of_Z n :: byte_of_Z (n / 256) :: repeat xff 30.

Definition network : btc_network :=
  {| net_magic := magic_main; net_port := 8333;
     net_checkpoints := [{| chk_height := 3; chk_hash := hash_n 3 |};
                         {| chk_height := 6; chk_hash := hash_n 6 |}];
     net_last_checkpoint := 6; net_request_mempool := false |}.

(** A header with a valid proof of work. *)
Definition header (prev h : hash) : btc_header :=
  {| hdr_prev_block := prev; hdr_hash := h; hdr_verify := true |}.

(** The entry at height [n] of a chain whose block at height [n] has the
    hash [hash_n n]. *)
Definition entry (n : Z) : btc_entry :=
  {| entry_hash := hash_n n; entry_height := n;
     entry_header := header (hash_n (n - 1)) (hash_n n) |}.

(** A main chain of the heights 0 to [height], all blocks stored. *)
Definition chain (synced : bool) (height : Z) : btc_chain :=
  let known h := find (fun e => btc_hash_equal (entry_hash e) h)
                      (map (fun i => entry (Z.of_nat i))
                           (seq 0 (S (Z.to_nat height)))) in
  {| btc_chain_synced := synced;
     btc_chain_tip := entry height;
     btc_chain_height := height;
     btc_chain_by_hash := known;
     btc_chain_find_locator := fun locator =>
       match List.filter (fun h => bool_decide (is_Some (known h))) locator
       with
       | h :: _ => known h
       | [] => Some (entry 0)
       end;
     entry_next := fun e =>
       if entry_height e <? height then Some (entry (entry_height e + 1))
       else None;
     btc_chain_get_locator := fun _ => [hash_n height; hash_n 0];
     btc_chain_has_hash := fun h => bool_decide (is_Some (known h));
     btc_chain_has_orphan := fun _ => false;
     btc_chain_has_invalid := fun _ => false;
     btc_chain_get_orphan_root := fun _ => None;
     btc_chain_get_block := fun e =>
       Some {| blk_hash := entry_hash e; blk_raw := entry_hash e |};
     btc_chain_get_raw_block := fun e => Some (entry_hash e) |}.

Definition mempool : btc_mempool :=
  {| mp_entries := []; btc_mempool_has_reject := fun _ => false |}.

Definition addrman : btc_addrman :=
  {| am_get := fun _ => None; am_size := 0; am_local := [];
     am_banned := []; am_removed := []; am_attempts := [] |}.

(** A socket that takes every write at once. *)
Definition socket : btc_socket :=
  {| sock_closed := false; sock_written := []; sock_nwrites := O;
     sock_rc := fun _ => 1; sock_buffered := fun _ => 0 |}.

Definition addr (n : Z) : btc_netaddr :=
  {| na_raw := [byte_of_Z n]; na_port := 8333; na_services := 9;
     na_is_valid := true; na_is_onion := false |}.

(** A peer at address [addr id], connected at time 1000, that was last
    written to and heard from at time 2000. *)
Definition peer (id : Z) (outbound : bool) (state : btc_peer_state)
  : btc_peer :=
  {| peer_network := network; peer_socket := socket;
     peer_parser := btc_parser_init magic_main; peer_sending := [];
     peer_state := state; peer_id := id; peer_outbound := outbound;
     peer_loader := false; peer_addr := addr id; peer_nonce := id + 100;
     peer_time := 1000; peer_last_send := 2000; peer_last_recv := 2000;
     peer_ban_score := 0; peer_version := 70015; peer_services := 9;
     peer_hash_continue := btc_hash_zero; peer_fee_rate := -1;
     peer_compact_mode := -1; peer_compact_witness := false;
     peer_syncing := false; peer_challenge := 0; peer_last_ping := -1;
     peer_block_time := -1; peer_gb_time := -1; peer_gh_time := -1;
     peer_inv_filter := []; peer_block_map := ∅; peer_tx_map := ∅;
     peer_compact_map := ∅ |}.

Definition pool (peers : list btc_peer) (ch : btc_chain) : btc_pool :=
  {| pool_network := network; pool_chain := ch; pool_mempool := mempool;
     pool_addrman := addrman; pool_peers := peers; pool_load := None;
     pool_inbound :=
       Z.of_nat (length (List.filter (fun q => negb (peer_outbound q)) peers));
     pool_outbound := Z.of_nat (length (List.filter peer_outbound peers));
     pool_nonces := map peer_nonce peers;
     pool_block_map := ∅; pool_tx_map := ∅; pool_compact_map := ∅;
     pool_checkpoints_enabled := true; pool_bip37_enabled := false;
     pool_bip152_enabled := false; pool_block_mode := 0;
     pool_checkpoints := false; pool_header_tip := None;
     pool_header_chain := []; pool_header_next := None;
     pool_id := Z.of_nat (length peers); pool_required_services := 9;
     pool_max_outbound := 8; pool_synced := btc_chain_synced ch |}.

(** No handler for incoming blocks and transactions. *)
Definition other (_ : btc_msg) (pl : btc_pool) (_ _ : Z)
  : option btc_pool := Some pl.

(** A peer that speaks the protocol version [BTC_NET_PONG_VERSION], connected
    at time 1000 and heard from a second ago, to which nothing was sent since
    time 2000. *)
Definition old_peer (now : Z) : btc_peer :=
  set_peer_version 60000
    (set_peer_last_recv (now - 1000) (peer 0 true BTC_PEER_CONNECTED)).

(** The same peer when it was written to a second ago and last heard from
    at time 2000. *)
Definition silent_peer (now : Z) : btc_peer :=
  set_peer_last_send (now - 1000) (set_peer_last_recv 2000 (old_peer now)).

(** One outbound peer, connected, on a synced chain of height 5. *)
Definition pool1 : btc_pool :=
  pool [peer 0 true BTC_PEER_CONNECTED] (chain true 5).

(** The same peer while the chain, of height 2, is not synced. *)
Definition pool2 : btc_pool :=
  pool [peer 0 true BTC_PEER_CONNECTED] (chain false 2).

(** A pool in checkpoint mode, as [btc_pool_reset_chain] leaves it on a chain
    of height 0: the headers chain holds the tip, the next checkpoint is the
    one of height 3, and the peer 0 is the loader. *)
Definition loader_pool : btc_pool :=
  set_pool_header_chain [{| node_hash := hash_n 0; node_height := 0 |}]
    (set_pool_header_tip (Some {| chk_height := 3; chk_hash := hash_n 3 |})
       (set_pool_checkpoints true
          (set_pool_load (Some 0)
             (pool [set_peer_loader true (peer 0 true BTC_PEER_CONNECTED)]
                (chain false 0))))).

(** Three headers on top of the tip: the third, at the height of the
    checkpoint, has a valid proof of work and links to the second, but its
    hash is not the one of the checkpoint. *)
Definition wrong_checkpoint : list btc_header :=
  [header (hash_n 0) (hash_n 1); header (hash_n 1) (hash_n 2);
   header (hash_n 2) (hash_n 33)].

(** The pool of the loader once the blocks up to the checkpoint of height 3
    have come: the node of the checkpoint is the head and the tail of the
    headers chain, [header_next] was left on it by the last walk, and the
    checkpoint aimed at is the one of height 6.  The headers of the next
    three blocks. *)
Definition checkpoint_pool : btc_pool :=
  set_pool_header_next (Some (HDR_LIVE 0))
    (set_pool_header_chain [{| node_hash := hash_n 3; node_height := 3 |}]
       (set_pool_header_tip (Some {| chk_height := 6; chk_hash := hash_n 6 |})
          loader_pool)).

Definition next_headers : list btc_header :=
  [header (hash_n 3) (hash_n 4); header (hash_n 4) (hash_n 5);
   header (hash_n 5) (hash_n 6)].

(** Two outbound peers and no loader: the first is still connecting, the
    second is connected. *)
Definition waiting_pool : btc_pool :=
  pool [peer 0 true BTC_PEER_CONNECTING; peer 1 true BTC_PEER_CONNECTED]
    (chain false 0).

(** A pool that one outbound peer has joined, on a synced chain of
    height 5, and the same pool once the blocks 7 and 8 are requested from
    that peer. *)
Definition joined_pool : btc_pool :=
  let pl := pool [] (chain true 5) in
  let pl1 :=
    set_pool_peers (pool_peers pl ++ [peer 0 true BTC_PEER_CONNECTED]) pl in
  set_pool_outbound (pool_outbound pl1 + 1) pl1.

Definition requested_pool : btc_pool :=
  btc_pool_request_blocks consts codec joined_pool 0 [hash_n 7; hash_n 8]
    5000.

(** An address manager that knows the addresses [addr 0], [addr 1], ... in
    this order, none of them tried before, and has banned [addr 1]. *)
Definition addrman_many : btc_addrman :=
  {| am_get := fun j => Some {| ae_addr := addr (Z.of_nat j);
                                ae_last_attempt := 0 |};
     am_size := 100; am_local := []; am_banned := [addr 1];
     am_removed := []; am_attempts := [] |}.

(** The pool of the peer 0, with these addresses to dial. *)
Definition dialing_pool : btc_pool :=
  set_pool_addrman addrman_many pool1.

(** Every dial gets a socket, and the [n]-th draws the nonce [1000 + n]. *)
Definition dials (n : nat) : dial :=
  {| dial_socket := Some socket; dial_nonces := [1000 + Z.of_nat n] |}.

(** A second outbound peer joins [joined_pool], and the block 7 is
    requested from the first. *)
Definition two_pool : btc_pool :=
  let pl1 :=
    set_pool_peers (pool_peers joined_pool ++ [peer 1 true BTC_PEER_CONNECTED])
      joined_pool in
  set_pool_outbound (pool_outbound pl1 + 1) pl1.

Definition shared_pool : btc_pool :=
  btc_pool_request_blocks consts codec two_pool 0 [hash_n 7] 5000.

(** 24 bytes that are no header (the magic is wrong), then the frame of
    [feefilter 1000]. *)
Definition junk_then_feefilter : list byte :=
  repeat x00 24
  ++ btc_frame magic_main (msg_cmd codec (BTC_MSG_FEEFILTER 1000))
       (btc_msg_export codec (BTC_MSG_FEEFILTER 1000)).

End Sample.

(** * Predicates of the specification *)


(** [l] is a segment of the chain that starts at [e]: its first entry is [e]
    and each further one is the successor of the one before. *)
Fixpoint linked (ch : btc_chain) (e : option btc_entry) (l : list btc_entry)
  : Prop :=
  match l with
  | [] => True
  | x :: rest => e = Some x /\ linked ch (entry_next ch x) rest
  end.



(** A command that [btc_peer_send] can frame and the framer accepts: at most
    11 bytes (the array has 12, the last one for the NUL), printable ASCII. *)
Definition cmd_well_formed (c : list byte) : Prop :=
  (length c <= 11)%nat /\ Forall (fun b => 32 <= byte_to_Z b <= 126) c.


(** The headers [hdrs] link up behind the hash [prev]: the [prev_block] of
    each is the hash of the one before, of [prev] for the first. *)
Fixpoint chained (prev : hash) (hdrs : list btc_header) : Prop :=
  match hdrs with
  | [] => True
  | h :: rest => hdr_prev_block h = prev /\ chained (hdr_hash h) rest
  end.

(** The nodes that headers appended behind a node of height [height] get. *)
Fixpoint nodes_of (height : Z) (hdrs : list btc_header) : list btc_hdrnode :=
  match hdrs with
  | [] => []
  | h :: rest =>
      {| node_hash := hdr_hash h; node_height := height + 1 |}
      :: nodes_of (height + 1) rest
  end.

(** The pool after [nodes] were appended to its headers chain. *)
Definition append_nodes (pl : btc_pool) (nodes : list btc_hdrnode)
  : btc_pool :=
  match nodes with
  | [] => pl
  | _ :: _ =>
      set_pool_header_chain (pool_header_chain pl ++ nodes)
        (set_pool_header_next
           (match pool_header_next pl with
            | None => Some (HDR_LIVE (length (pool_header_chain pl)))
            | Some r => Some r
            end) pl)
  end.




(** The state of the headers-first download: the [checkpoints] flag, the
    checkpoint aimed at, the headers chain and the pointer [header_next]. *)
Definition headers_state (pl : btc_pool)
  : bool * option btc_checkpoint * list btc_hdrnode * option hdr_ref :=
  (pool_checkpoints pl, pool_header_tip pl, pool_header_chain pl,
   pool_header_next pl).


(** ** The request tables *)

(** The three pairs of a set of the pool and a table of each peer. *)
Inductive table : Set := BLOCKS | TXS | COMPACT.

Definition pool_set (t : table) (pl : btc_pool) : gset hash :=
  match t with
  | BLOCKS => pool_block_map pl
  | TXS => pool_tx_map pl
  | COMPACT => pool_compact_map pl
  end.

(** The keys of a table of a peer. *)
Definition peer_tab (t : table) (p : btc_peer) : gset hash :=
  match t with
  | BLOCKS => dom (peer_block_map p)
  | TXS => dom (peer_tx_map p)
  | COMPACT => dom (peer_compact_map p)
  end.

(** What the correspondence sees of a peer, and of the peers of a pool. *)
Definition view (t : table) (p : btc_peer) : Z * gset hash :=
  (peer_id p, peer_tab t p).

Definition views (t : table) (pl : btc_pool) : list (Z * gset hash) :=
  map (view t) (pool_peers pl).

(** The write through the pointer [peer], as the views see it. *)
Definition upd_view (id : Z) (v : Z * gset hash)
  (vs : list (Z * gset hash)) : list (Z * gset hash) :=
  map (fun w => if fst w =? id then v else w) vs.

(** The correspondence between a set of the pool and the tables of the
    peers: the ids of the peers differ, the set holds the keys of the tables
    and nothing else, and no key is in the tables of two peers. *)
Definition corr (set : gset hash) (vs : list (Z * gset hash)) : Prop :=
  List.NoDup (map fst vs)
  /\ (forall h, h ∈ set <-> exists v, In v vs /\ h ∈ snd v)
  /\ (forall h v w,
         In v vs -> In w vs -> h ∈ snd v -> h ∈ snd w -> fst v = fst w).

Definition tables_ok (pl : btc_pool) : Prop :=
  forall t, corr (pool_set t pl) (views t pl).

(** Two pools that the correspondence cannot tell apart. *)
Definition same_tables (pl pl' : btc_pool) : Prop :=
  forall t, pool_set t pl' = pool_set t pl /\ views t pl' = views t pl.

(** The hash [h] is a key of the table [t] of exactly one peer. *)
Definition one_owner (t : table) (pl : btc_pool) (h : hash) : Prop :=
  exists p,
    In p (pool_peers pl) /\ h ∈ peer_tab t p
    /\ forall q, In q (pool_peers pl) -> h ∈ peer_tab t q -> q = p.

Section Reach.
Variable K : btc_consts.
Variable C : msg_codec.

(** The steps of the pool that go through the request tables: a peer is
    added with the empty tables that [btc_peer_create] gives it, hashes are
    requested, resolved or found missing, compact blocks come and go, a peer
    is removed; [step_other] is any step that leaves the sets of the pool
    and the ids and the keys of the peers as they are. *)
Inductive table_step : btc_pool -> btc_pool -> Prop :=
| step_add (pl pl' : btc_pool) (peer : btc_peer) :
    (forall t, peer_tab t peer = ∅) ->
    btc_peers_add pl peer = Some pl' -> table_step pl pl'
| step_request_blocks (pl : btc_pool) (id : Z) (hashes : list hash)
    (now : Z) :
    table_step pl (btc_pool_request_blocks K C pl id hashes now)
| step_request_txs (pl : btc_pool) (id : Z) (hashes : list hash) (now : Z) :
    table_step pl (btc_pool_request_txs K C pl id hashes now)
| step_inv (pl pl' : btc_pool) (id : Z) (items : list btc_invitem)
    (now : Z) :
    btc_pool_on_inv K C pl id items now = Some pl' -> table_step pl pl'
| step_resolve_block (pl pl' : btc_pool) (id : Z) (h : hash) (b : bool) :
    btc_pool_resolve_block pl id h = Some (b, pl') -> table_step pl pl'
| step_resolve_tx (pl pl' : btc_pool) (id : Z) (h : hash) (b : bool) :
    btc_pool_resolve_tx pl id h = Some (b, pl') -> table_step pl pl'
| step_notfound (pl pl' : btc_pool) (id : Z) (items : list btc_invitem) :
    btc_pool_on_notfound pl id items = Some pl' -> table_step pl pl'
| step_cmpctblock_unrequested (pl pl' : btc_pool) (id : Z) (h : hash)
    (now : Z) :
    cmpctblock_unrequested pl id h now = Some pl' -> table_step pl pl'
| step_cmpctblock_store (pl pl' : btc_pool) (id : Z) (h : hash) (now : Z) :
    cmpctblock_store pl id h now = Some pl' -> table_step pl pl'
| step_blocktxn (pl pl' : btc_pool) (id : Z) (h : hash) :
    blocktxn_take pl id h = Some pl' -> table_step pl pl'
| step_remove (pl pl' : btc_pool) (id : Z) :
    btc_pool_remove_peer pl id = Some pl' -> table_step pl pl'
| step_disconnect (pl pl' : btc_pool) (id now : Z) :
    btc_pool_on_disconnect K C pl id now = Some pl' -> table_step pl pl'
| step_other (pl pl' : btc_pool) :
    same_tables pl pl' -> table_step pl pl'.

(** The states of the pool: [btc_pool_create] leaves no peer and empty
    sets. *)
Inductive reachable : btc_pool -> Prop :=
| reach_init (pl : btc_pool) :
    pool_peers pl = [] -> (forall t, pool_set t pl = ∅) -> reachable pl
| reach_step (pl pl' : btc_pool) :
    reachable pl -> table_step pl pl' -> reachable pl'.

End Reach.

(** * More of the pool: predicates and models *)

(** ** The list of peers *)

(** The counters of the list agree with the list, and no two peers share an
    id. *)
Definition peers_ok (pl : btc_pool) : Prop :=
  List.NoDup (map peer_id (pool_peers pl))
  /\ pool_outbound pl
     = Z.of_nat (length (List.filter peer_outbound (pool_peers pl)))
  /\ pool_inbound pl
     = Z.of_nat (length (List.filter (fun q => negb (peer_outbound q))
                           (pool_peers pl))).

(** The loader flag and [peers.load] agree: a peer has the flag exactly when
    the pool points to it, and the pool points to a peer of the list. *)
Definition loader_ok (pl : btc_pool) : Prop :=
  List.NoDup (map peer_id (pool_peers pl))
  /\ (forall q, In q (pool_peers pl) ->
                (peer_loader q = true <-> pool_load pl = Some (peer_id q)))
  /\ (forall id, pool_load pl = Some id ->
                 exists q, In q (pool_peers pl) /\ peer_id q = id).

(** What the two invariants look at in a peer, and two pools that they
    cannot tell apart. *)
Definition peer_flags (p : btc_peer) : Z * bool * bool :=
  (peer_id p, peer_outbound p, peer_loader p).

Definition same_flags (pl pl' : btc_pool) : Prop :=
  map peer_flags (pool_peers pl') = map peer_flags (pool_peers pl)
  /\ pool_outbound pl' = pool_outbound pl
  /\ pool_inbound pl' = pool_inbound pl
  /\ pool_max_outbound pl' = pool_max_outbound pl
  /\ pool_load pl' = pool_load pl.

Section Complete.
Variable K : btc_consts.
Variable C : msg_codec.

(** [btc_pool_on_complete], lines 2465-2485: an outbound peer whose
    handshake is complete starts the sync; a loader that is not connected
    gives way to it, and a pool without a loader takes this peer.  (What
    [btc_addrman_mark_ack] notes of the address is not part of the address
    manager of this model.)  [peers.load] pointing to no peer has no defined
    outcome. *)
Definition on_complete_sync (pl : btc_pool) (id : Z) (now : Z)
  : option btc_pool :=
  match find_peer id pl with
  | None => Some pl
  | Some p =>
      if negb (peer_outbound p) then Some pl
      else
        match btc_pool_send_sync K C pl id now with
        | None => None
        | Some (_, pl1) =>
            match find_peer id pl1 with
            | None => None
            | Some p1 =>
                let dropped :=
                  if negb (peer_loader p1) then
                    match pool_load pl1 with
                    | None => Some pl1
                    | Some lid =>
                        match find_peer lid pl1 with
                        | None => None
                        | Some l =>
                            if negb (state_eqb (peer_state l)
                                       BTC_PEER_CONNECTED)
                            then Some (set_pool_load None
                                         (upd_peer lid
                                            (set_peer_loader false) pl1))
                            else Some pl1
                        end
                    end
                  else Some pl1 in
                match dropped with
                | None => None
                | Some pl2 =>
                    if bool_decide (is_Some (pool_load pl2)) then Some pl2
                    else btc_pool_set_loader K C pl2 id now
                end
            end
        end
  end.

End Complete.

(** The walk that a [getheaders] asks for: the entries from [e] on along
    [entry_next], up to [n] of them, up to and with the entry [stop]. *)
Fixpoint header_walk (ch : btc_chain) (stop : option btc_entry) (n : nat)
  (e : option btc_entry) : list btc_entry :=
  match n, e with
  | S n', Some x =>
      x :: (if is_stop stop x then []
            else header_walk ch stop n' (entry_next ch x))
  | _, _ => []
  end.

(** What [btc_parser_init] sets up and the framer keeps: the parser waits
    for the 24 bytes of a header, or for a body of the size the header
    gave, at most 32 MiB. *)
Definition parser_ok (p : btc_parser) : Prop :=
  0 <= waiting p <= BTC_NET_MAX_MESSAGE
  /\ (has_header p = false -> waiting p = 24).

(** The turns of the loop of [btc_parser_feed] left for the bytes [ptr]: a
    header takes 24 of them, and a body follows a header. *)
Definition turns {M : Type} (s : btc_parser * list (parser_event M))
  (ptr : list byte) : nat :=
  2 * length ptr + (if has_header (fst s) then 1 else 0).

(** The [inv] messages that announce the items [l] in batches of [n], with
    [acc] the batch that is being filled. *)
Fixpoint inv_batches (n : nat) (acc l : list btc_invitem)
  : list (list btc_invitem) :=
  match l with
  | [] => if Nat.ltb 0 (length acc) then [acc] else []
  | x :: rest =>
      if Nat.eqb (length (acc ++ [x])) n
      then (acc ++ [x]) :: inv_batches n [] rest
      else inv_batches n (acc ++ [x]) rest
  end.

Definition tx_item (t : btc_tx) : btc_invitem :=
  {| inv_type := BTC_INV_TX; inv_hash := tx_hash t |}.



(** The peer [p'] is the peer [p] after the writes [frames], all of them
    taken by the socket: they are on the socket behind what was there, and
    what decides the next writes is as it was. *)
Definition wrote (p p' : btc_peer) (frames : list (list byte)) : Prop :=
  sock_written (peer_socket p') = sock_written (peer_socket p) ++ frames
  /\ sock_nwrites (peer_socket p')
     = (sock_nwrites (peer_socket p) + length frames)%nat
  /\ sock_rc (peer_socket p') = sock_rc (peer_socket p)
  /\ sock_buffered (peer_socket p') = sock_buffered (peer_socket p)
  /\ peer_state p' = peer_state p
  /\ peer_network p' = peer_network p
  /\ peer_compact_witness p' = peer_compact_witness p
  /\ peer_id p' = peer_id p.

(** The socket takes every write. *)
Definition accepting (p : btc_peer) : Prop :=
  forall n, sock_rc (peer_socket p) n <> -1.

(** * Properties *)

(** ** Bytes *)

Example sha256_abc :
  SHA256.sha256 (bytes_of_Zs [97; 98; 99]) =
  bytes_of_Zs [0xba; 0x78; 0x16; 0xbf; 0x8f; 0x01; 0xcf; 0xea; 0x41; 0x41;
               0x40; 0xde; 0x5d; 0xae; 0x22; 0x23; 0xb0; 0x03; 0x61; 0xa3;
               0x96; 0x17; 0x7a; 0x9c; 0xb4; 0x10; 0xff; 0x61; 0xf2; 0x00;
               0x15; 0xad].
Proof. vm_compute. reflexivity. Qed.

Example hash256_empty_checksum : read32le (btc_hash256 []) = 0xe2e0f65d.
Proof. vm_compute. reflexivity. Qed.

Lemma byte_to_of_Z (z : Z) : byte_to_Z (byte_of_Z z) = z mod 256.
Proof.
  unfold byte_to_Z, byte_of_Z.
  assert (Hr : 0 <= z mod 256 < 256) by (apply Z.mod_pos_bound; lia).
  destruct (Byte.of_N (Z.to_N (z mod 256))) as [b|] eqn:E.
  - apply Byte.to_of_N in E. rewrite E. apply Z2N.id. lia.
  - apply Byte.of_N_None_iff in E. lia.
Qed.

Lemma byte_to_Z_range (b : byte) : 0 <= byte_to_Z b < 256.
Proof.
  unfold byte_to_Z. pose proof (Byte.to_N_bounded b). lia.
Qed.

Lemma read32le_app (a b c d : byte) (rest : list byte) :
  read32le (a :: b :: c :: d :: rest) =
  byte_to_Z a + 256 * byte_to_Z b + 65536 * byte_to_Z c
  + 16777216 * byte_to_Z d.
Proof. reflexivity. Qed.

Lemma read32le_write (x : Z) (rest : list byte) :
  read32le (btc_uint32_write x ++ rest) = x mod 2 ^ 32.
Proof.
  unfold btc_uint32_write. cbn [app]. rewrite read32le_app.
  rewrite !byte_to_of_Z.
  assert (Hr : 0 <= x mod 2 ^ 32 < 2 ^ 32) by (apply Z.mod_pos_bound; lia).
  set (y := x mod 2 ^ 32) in *. clearbody y.
  Z.div_mod_to_equations. lia.
Qed.

Lemma read32le_firstn (l : list byte) : read32le (firstn 4 l) = read32le l.
Proof.
  destruct l as [|a [|b [|c [|d l]]]]; reflexivity.
Qed.

(** ** The checksum has 32 bytes *)

Lemma round_length (st : list Z) (kw : Z * Z) :
  length (SHA256.round st kw) = length st.
Proof.
  unfold SHA256.round.
  destruct st as [|a [|b [|c [|d [|e [|f [|g [|h [|i st]]]]]]]]]; reflexivity.
Qed.

Lemma fold_round_length (kws : list (Z * Z)) (st : list Z) :
  length (fold_left SHA256.round kws st) = length st.
Proof.
  revert st. induction kws as [|kw kws IH]; intros st; cbn [fold_left].
  - reflexivity.
  - rewrite IH. apply round_length.
Qed.

Lemma compress_length (st : list Z) (block : list byte) :
  length (SHA256.compress st block) = length st.
Proof.
  unfold SHA256.compress, SHA256.add_state.
  rewrite length_map, length_combine, fold_round_length. lia.
Qed.

Lemma blocks_length (n : nat) (st : list Z) (bs : list byte) :
  length (SHA256.blocks n st bs) = length st.
Proof.
  revert st bs. induction n as [|n IH]; intros st bs; cbn [SHA256.blocks].
  - reflexivity.
  - rewrite IH. apply compress_length.
Qed.

Lemma concat_words_length (ws : list Z) :
  length (concat (map SHA256.word_be_bytes ws)) = (4 * length ws)%nat.
Proof.
  induction ws as [|w ws IH]; cbn [map concat length].
  - reflexivity.
  - rewrite length_app, IH. cbn [SHA256.word_be_bytes length]. lia.
Qed.

Lemma sha256_length (msg : list byte) : length (SHA256.sha256 msg) = 32%nat.
Proof.
  unfold SHA256.sha256. rewrite concat_words_length, blocks_length.
  reflexivity.
Qed.

Lemma hash256_length (data : list byte) : length (btc_hash256 data) = 32%nat.
Proof. apply sha256_length. Qed.

(** ** The header of a frame *)

Lemma cmd_scan_app (n : nat) (c rest : list byte) :
  Forall (fun b => 32 <= byte_to_Z b <= 126) c ->
  (length c < n)%nat ->
  cmd_scan n (c ++ x00 :: rest) = length c.
Proof.
  revert n. induction c as [|b c IH]; intros n Hc Hn.
  - destruct n; [lia|]. reflexivity.
  - destruct n; [cbn in Hn; lia|].
    inversion Hc as [|? ? Hb Hc']; subst.
    cbn [app cmd_scan length].
    destruct (byte_to_Z b =? 0) eqn:E; [lia|].
    rewrite IH; [reflexivity|assumption|cbn in Hn; lia].
Qed.

Lemma forallb_cmd_char_ok (c : list byte) :
  Forall (fun b => 32 <= byte_to_Z b <= 126) c ->
  forallb cmd_char_ok c = true.
Proof.
  induction 1 as [|b c Hb _ IH]; cbn [forallb]; [reflexivity|].
  rewrite IH. unfold cmd_char_ok.
  destruct (32 <=? byte_to_Z b) eqn:E1; destruct (byte_to_Z b <=? 126) eqn:E2;
    try reflexivity; lia.
Qed.

Lemma skipn_app_exact {A : Type} (n : nat) (l1 l2 : list A) :
  length l1 = n -> skipn n (l1 ++ l2) = l2.
Proof.
  intros <-. rewrite skipn_app, skipn_all, Nat.sub_diag. reflexivity.
Qed.

Lemma firstn_app_exact {A : Type} (n : nat) (l1 l2 : list A) :
  length l1 = n -> firstn n (l1 ++ l2) = l1.
Proof.
  intros <-. rewrite firstn_app, firstn_all, Nat.sub_diag.
  cbn [firstn]. apply app_nil_r.
Qed.

Lemma uint32_write_length (x : Z) : length (btc_uint32_write x) = 4%nat.
Proof. reflexivity. Qed.

(** The header that [btc_peer_send] writes is the one that
    [btc_parser_parse_header] accepts. *)
Lemma parse_header_frame (p : btc_parser) (c body : list byte) :
  0 <= magic p < 2 ^ 32 ->
  cmd_well_formed c ->
  Z.of_nat (length body) <= BTC_NET_MAX_MESSAGE ->
  btc_parser_parse_header p (firstn 24 (btc_frame (magic p) c body)) =
  (true,
   set_has_header true
     (set_checksum (read32le (btc_hash256 body))
        (set_waiting (Z.of_nat (length body)) (set_cmd c p)))).
Proof.
  intros Hm [Hlen Hc] Hb.
  assert (Hz : (12 - length c = S (11 - length c))%nat) by lia.
  assert (Hhead :
    firstn 24 (btc_frame (magic p) c body) =
    btc_uint32_write (magic p)
    ++ (c ++ x00 :: repeat x00 (11 - length c))
    ++ btc_uint32_write (Z.of_nat (length body))
    ++ firstn 4 (btc_hash256 body)).
  { unfold btc_frame. rewrite Hz. cbn [repeat].
    rewrite !app_assoc. apply firstn_app_exact.
    rewrite !length_app, !uint32_write_length, length_firstn, hash256_length.
    cbn [length]. rewrite repeat_length. lia. }
  rewrite Hhead. unfold btc_parser_parse_header.
  rewrite read32le_write, Z.mod_small by lia. rewrite Z.eqb_refl. cbn [negb].
  rewrite (skipn_app_exact 4) by reflexivity.
  rewrite <- app_assoc. cbn [app].
  rewrite cmd_scan_app by (assumption || lia).
  destruct (Nat.eqb (length c) 12) eqn:E12; [apply Nat.eqb_eq in E12; lia|].
  rewrite firstn_app_exact by reflexivity.
  cbn [cmd set_cmd]. rewrite forallb_cmd_char_ok by assumption. cbn [negb].
  replace (btc_uint32_write (magic p)
           ++ c ++ x00 :: repeat x00 (11 - length c)
           ++ btc_uint32_write (Z.of_nat (length body))
           ++ firstn 4 (btc_hash256 body))
    with ((btc_uint32_write (magic p) ++ c ++ x00 :: repeat x00 (11 - length c))
          ++ btc_uint32_write (Z.of_nat (length body))
          ++ firstn 4 (btc_hash256 body))
    by (rewrite <- !app_assoc; reflexivity).
  assert (H16 : length (btc_uint32_write (magic p) ++ c
                        ++ x00 :: repeat x00 (11 - length c)) = 16%nat).
  { rewrite !length_app, uint32_write_length. cbn [length].
    rewrite repeat_length. lia. }
  rewrite (skipn_app_exact 16) by exact H16.
  rewrite read32le_write.
  assert (HM : BTC_NET_MAX_MESSAGE < 2 ^ 32) by (unfold BTC_NET_MAX_MESSAGE; lia).
  rewrite Z.mod_small by lia.
  destruct (Z.of_nat (length body) >? BTC_NET_MAX_MESSAGE) eqn:Eb;
    [apply Z.gtb_lt in Eb; lia|].
  rewrite app_assoc. rewrite (skipn_app_exact 20).
  2:{ rewrite length_app, H16, uint32_write_length. reflexivity. }
  rewrite read32le_firstn. reflexivity.
Qed.

(** ** The loop of the framer *)

Section FeedLoop.
Context {M St : Type}.
Variable import : list byte -> list byte -> option M.
Variable parser_of : St -> btc_parser.
Variable with_parser : btc_parser -> St -> St.
Variable on_msg : M -> St -> option St.
Variable on_error : St -> option St.

Lemma feed_loop_done (fuel : nat) (s : St) (ptr : list byte) :
  closed (parser_of s) = true
  \/ Z.of_nat (length ptr) < waiting (parser_of s) ->
  btc_parser_feed_loop import parser_of with_parser on_msg on_error fuel s ptr
  = Ok (s, ptr).
Proof.
  intros H.
  assert (E : closed (parser_of s)
              || (Z.of_nat (length ptr) <? waiting (parser_of s)) = true).
  { destruct H as [-> | H]; [reflexivity|].
    apply orb_true_iff. right. apply Z.ltb_lt. exact H. }
  destruct fuel; cbn [btc_parser_feed_loop]; rewrite E; reflexivity.
Qed.

Lemma feed_loop_turn (fuel : nat) (s : St) (ptr : list byte) :
  closed (parser_of s) = false ->
  waiting (parser_of s) <= Z.of_nat (length ptr) ->
  btc_parser_feed_loop import parser_of with_parser on_msg on_error
    (S fuel) s ptr =
  match btc_parser_feed_step import parser_of with_parser on_msg on_error
          s ptr with
  | None => Abort
  | Some (s2, rest) =>
      btc_parser_feed_loop import parser_of with_parser on_msg on_error
        fuel s2 rest
  end.
Proof.
  intros Hc Hw. cbn [btc_parser_feed_loop]. rewrite Hc.
  destruct (Z.of_nat (length ptr) <? waiting (parser_of s)) eqn:E;
    [lia|reflexivity].
Qed.

End FeedLoop.

(** C4.  The frame that [btc_peer_send] builds for a well-formed message (a
    command of at most 11 printable bytes, a body of at most 32 MiB that the
    decoder maps back to the message), fed to a fresh parser with the same
    magic, makes the parser emit exactly this message, no error, and leaves
    it waiting for the next header of 24 bytes with nothing pending. *)
Theorem framing_round_trip {M : Type} (cmd_of export : M -> list byte)
  (import : list byte -> list byte -> option M) (magic : Z) (m : M) :
  0 <= magic < 2 ^ 32 ->
  cmd_well_formed (cmd_of m) ->
  Z.of_nat (length (export m)) <= BTC_NET_MAX_MESSAGE ->
  import (cmd_of m) (export m) = Some m ->
  exists p,
    trace_feed import (btc_parser_init magic, [])
      (btc_frame magic (cmd_of m) (export m)) = Ok (p, [Emitted m])
    /\ waiting p = 24 /\ has_header p = false /\ pending p = []
    /\ closed p = false.
Proof.
  intros Hm Hc Hb Hi.
  set (frame := btc_frame magic (cmd_of m) (export m)).
  assert (Hframe : exists hd, frame = hd ++ export m /\ length hd = 24%nat
                              /\ firstn 24 frame = hd).
  { exists (btc_uint32_write magic
       ++ cmd_of m ++ repeat x00 (12 - length (cmd_of m))
       ++ btc_uint32_write (Z.of_nat (length (export m)))
       ++ firstn 4 (btc_hash256 (export m))).
    assert (E : frame =
      (btc_uint32_write magic
       ++ cmd_of m ++ repeat x00 (12 - length (cmd_of m))
       ++ btc_uint32_write (Z.of_nat (length (export m)))
       ++ firstn 4 (btc_hash256 (export m))) ++ export m).
    { unfold frame, btc_frame. rewrite <- !app_assoc. reflexivity. }
    assert (L : length (btc_uint32_write magic
       ++ cmd_of m ++ repeat x00 (12 - length (cmd_of m))
       ++ btc_uint32_write (Z.of_nat (length (export m)))
       ++ firstn 4 (btc_hash256 (export m))) = 24%nat).
    { rewrite !length_app, !uint32_write_length, length_firstn,
        hash256_length, repeat_length. destruct Hc. lia. }
    split; [exact E|]. split; [exact L|].
    rewrite E. apply firstn_app_exact. exact L. }
  destruct Hframe as (hd & Ef & Lhd & Efirst).
  exists (set_pending []
            (set_has_header false
               (set_waiting 24
                  (set_has_header true
                     (set_checksum (read32le (btc_hash256 (export m)))
                        (set_waiting (Z.of_nat (length (export m)))
                           (set_cmd (cmd_of m)
                              (set_pending frame
                                 (btc_parser_init magic))))))))).

  split.
  - unfold trace_feed, btc_parser_feed, btc_parser_append.
    cbn [fst snd closed btc_parser_init pending set_pending app].
    fold frame.
    replace (2 * length frame + 2)%nat with (S (S (2 * length frame))) by lia.
    (* first turn: the header *)
    rewrite feed_loop_turn.
    2:{ reflexivity. }
    2:{ cbn [fst waiting set_pending btc_parser_init].
        rewrite Ef, length_app, Lhd, Nat2Z.inj_add. lia. }
    unfold btc_parser_feed_step at 1, btc_parser_parse at 1.
    cbn [fst snd waiting set_pending btc_parser_init has_header negb].
    change (Z.to_nat 24) with 24%nat.
    rewrite Efirst, Lhd. cbn [Nat.eqb negb].
    destruct (Z.of_nat 24 >? BTC_NET_MAX_MESSAGE) eqn:E24;
      [apply Z.gtb_lt in E24; unfold BTC_NET_MAX_MESSAGE in E24; lia|].
    assert (Ehd : btc_parser_parse_header
                    (set_pending frame (btc_parser_init magic)) hd
                  = (true,
                     set_has_header true
                       (set_checksum (read32le (btc_hash256 (export m)))
                          (set_waiting (Z.of_nat (length (export m)))
                             (set_cmd (cmd_of m)
                                (set_pending frame
                                   (btc_parser_init magic))))))).
    { rewrite <- Efirst.
      exact (parse_header_frame (set_pending frame (btc_parser_init magic))
               (cmd_of m) (export m) Hm Hc Hb). }
    rewrite Ehd.
    replace (skipn 24 frame) with (export m)
      by (rewrite Ef; symmetry; apply skipn_app_exact; exact Lhd).
    (* second turn: the payload *)
    rewrite feed_loop_turn.
    2:{ reflexivity. }
    2:{ cbn. lia. }
    unfold btc_parser_feed_step at 1, btc_parser_parse at 1.
    cbn [fst snd waiting has_header set_has_header set_checksum set_waiting
         set_cmd set_pending btc_parser_init negb checksum cmd].
    rewrite Nat2Z.id, firstn_all, skipn_all.
    destruct (Z.of_nat (length (export m)) >? BTC_NET_MAX_MESSAGE) eqn:Eb;
      [apply Z.gtb_lt in Eb; lia|].
    rewrite Z.eqb_refl. cbn [negb]. rewrite Hi.
    (* the loop ends *)
    rewrite feed_loop_done by (right; cbn; lia).
    cbn [fst snd app]. reflexivity.
  - cbn. repeat split; reflexivity.
Qed.

Lemma framing_round_trip_witness :
  exists p,
    trace_feed (btc_msg_import Sample.codec)
      (btc_parser_init Sample.magic_main, [])
      (btc_frame Sample.magic_main
         (msg_cmd Sample.codec (BTC_MSG_FEEFILTER 1000))
         (btc_msg_export Sample.codec (BTC_MSG_FEEFILTER 1000)))
    = Ok (p, [Emitted (BTC_MSG_FEEFILTER 1000)])
    /\ waiting p = 24 /\ has_header p = false /\ pending p = []
    /\ closed p = false.
Proof.
  apply (framing_round_trip (msg_cmd Sample.codec)
           (btc_msg_export Sample.codec) (btc_msg_import Sample.codec)
           Sample.magic_main (BTC_MSG_FEEFILTER 1000)).
  - unfold Sample.magic_main. lia.
  - split; [cbn; lia|].
    repeat constructor; vm_compute; discriminate.
  - vm_compute. discriminate.
  - vm_compute. reflexivity.
Defined.

(** The frame of [mempool] on the main network, byte for byte. *)
Example frame_mempool :
  btc_frame Sample.magic_main (msg_cmd Sample.codec BTC_MSG_MEMPOOL)
    (btc_msg_export Sample.codec BTC_MSG_MEMPOOL) =
  bytes_of_Zs [0xf9; 0xbe; 0xb4; 0xd9;
               0x6d; 0x65; 0x6d; 0x70; 0x6f; 0x6f; 0x6c; 0; 0; 0; 0; 0;
               0; 0; 0; 0; 0x5d; 0xf6; 0xe0; 0xe2].
Proof. vm_compute. reflexivity. Qed.

(** ** Peers in the pool *)

Lemma find_map_pres {A : Type} (P : A -> bool) (g : A -> A) (l : list A) :
  (forall x, P (g x) = P x) ->
  find P (map g l) = option_map g (find P l).
Proof.
  intros Hg. induction l as [|x l IH]; cbn [map find option_map].
  - reflexivity.
  - rewrite Hg. destruct (P x); [reflexivity|exact IH].
Qed.

Lemma find_peer_upd (id id' : Z) (f : btc_peer -> btc_peer) (pl : btc_pool) :
  (forall q, peer_id (f q) = peer_id q) ->
  find_peer id' (upd_peer id f pl) =
  option_map (fun q => if peer_id q =? id then f q else q) (find_peer id' pl).
Proof.
  intros Hf. unfold find_peer, upd_peer. cbn [pool_peers set_pool_peers].
  apply find_map_pres. intros x.
  destruct (peer_id x =? id); [rewrite Hf|]; reflexivity.
Qed.

Lemma find_peer_id (id : Z) (pl : btc_pool) (p : btc_peer) :
  find_peer id pl = Some p -> peer_id p = id.
Proof.
  unfold find_peer. intros H. apply find_some in H. destruct H as [_ H].
  apply Z.eqb_eq in H. exact H.
Qed.

Lemma find_peer_upd_same (id : Z) (f : btc_peer -> btc_peer) (pl : btc_pool)
  (p : btc_peer) :
  (forall q, peer_id (f q) = peer_id q) ->
  find_peer id pl = Some p ->
  find_peer id (upd_peer id f pl) = Some (f p).
Proof.
  intros Hf Hp. rewrite find_peer_upd by exact Hf. rewrite Hp.
  cbn [option_map]. rewrite (find_peer_id _ _ _ Hp), Z.eqb_refl. reflexivity.
Qed.

Lemma peers_get_upd (id : Z) (f : btc_peer -> btc_peer) (pl : btc_pool)
  (a : btc_netaddr) :
  (forall q, peer_addr (f q) = peer_addr q) ->
  btc_peers_get (upd_peer id f pl) a =
  option_map (fun q => if peer_id q =? id then f q else q) (btc_peers_get pl a).
Proof.
  intros Hf. unfold btc_peers_get, upd_peer.
  cbn [pool_peers set_pool_peers].
  apply find_map_pres. intros x.
  destruct (peer_id x =? id); [rewrite Hf|]; reflexivity.
Qed.

(** ** Parse errors *)


(** What the ban of a live, registered peer does to it. *)
Lemma increase_ban_registered (pl : btc_pool) (id : Z) (p : btc_peer)
  (score : Z) :
  find_peer id pl = Some p ->
  btc_peers_get pl (peer_addr p) = Some p ->
  find_peer id (snd (btc_peer_increase_ban pl id score)) =
  Some (if peer_ban_score p + score >=? 100
        then btc_peer_close (set_peer_ban_score (peer_ban_score p + score) p)
        else set_peer_ban_score (peer_ban_score p + score) p).
Proof.
  intros Hp Hreg. unfold btc_peer_increase_ban.
  pose proof (find_peer_id _ _ _ Hp) as Hid.
  set (f := fun q => set_peer_ban_score (peer_ban_score q + score) q).
  assert (Hf : find_peer id (upd_peer id f pl) = Some (f p))
    by (apply find_peer_upd_same; [reflexivity|assumption]).
  rewrite Hf.
  change (peer_ban_score (f p)) with (peer_ban_score p + score).
  change (peer_addr (f p)) with (peer_addr p).
  change (set_peer_ban_score (peer_ban_score p + score) p) with (f p).
  destruct (peer_ban_score p + score >=? 100) eqn:E; cbn [snd].
  - unfold btc_pool_ban.
    rewrite (peers_get_upd id f) by reflexivity. rewrite Hreg.
    cbn [option_map]. rewrite Hid, Z.eqb_refl.
    replace (peer_id (f p)) with id by (symmetry; exact Hid).
    match goal with
    | |- find_peer id (upd_peer id ?g (set_pool_addrman ?a ?q)) = _ =>
        change (find_peer id (upd_peer id g (set_pool_addrman a q)))
          with (find_peer id (upd_peer id g q))
    end.
    apply (find_peer_upd_same id btc_peer_close _ (f p)); [reflexivity|].
    exact Hf.
  - exact Hf.
Qed.

Lemma parser_of_upd (id : Z) (q : btc_parser) (pl : btc_pool) (p : btc_peer) :
  find_peer id pl = Some p ->
  parser_of id (upd_peer id (set_peer_parser q) pl) = q.
Proof.
  intros Hp. unfold parser_of.
  rewrite (find_peer_upd_same id _ pl p) by (reflexivity || assumption).
  reflexivity.
Qed.





(** ** Ban score *)

Lemma increase_ban_addrman (pl : btc_pool) (id : Z) (p : btc_peer)
  (score : Z) :
  find_peer id pl = Some p ->
  pool_addrman (snd (btc_peer_increase_ban pl id score)) =
  if peer_ban_score p + score >=? 100
  then btc_addrman_remove (btc_addrman_ban (pool_addrman pl) (peer_addr p))
         (peer_addr p)
  else pool_addrman pl.
Proof.
  intros Hp. unfold btc_peer_increase_ban.
  set (f := fun q => set_peer_ban_score (peer_ban_score q + score) q).
  assert (Hf : find_peer id (upd_peer id f pl) = Some (f p))
    by (apply find_peer_upd_same; [reflexivity|assumption]).
  rewrite Hf.
  change (peer_ban_score (f p)) with (peer_ban_score p + score).
  change (peer_addr (f p)) with (peer_addr p).
  destruct (peer_ban_score p + score >=? 100); cbn [snd]; [|reflexivity].
  unfold btc_pool_ban.
  destruct (btc_peers_get (upd_peer id f pl) (peer_addr p)); reflexivity.
Qed.

(** C9.  A [feefilter] whose rate is negative or above the money supply adds
    100 to the ban score of the peer, which closes the peer and bans its
    address, and leaves its fee rate alone; any other rate becomes the fee
    rate of the peer, exactly, and nothing else about the peer changes. *)
Theorem feefilter_rate_or_ban (K : btc_consts) (pl : btc_pool) (id : Z)
  (p : btc_peer) (rate : Z) :
  find_peer id pl = Some p ->
  btc_peers_get pl (peer_addr p) = Some p ->
  0 <= peer_ban_score p ->
  (rate < 0 \/ BTC_MAX_MONEY K < rate ->
   exists p',
     find_peer id (btc_peer_on_feefilter K pl id rate) = Some p'
     /\ peer_ban_score p' = peer_ban_score p + 100
     /\ peer_state p' = BTC_PEER_DEAD
     /\ closed (peer_parser p') = true
     /\ sock_closed (peer_socket p') = true
     /\ peer_fee_rate p' = peer_fee_rate p
     /\ am_banned (pool_addrman (btc_peer_on_feefilter K pl id rate))
        = peer_addr p :: am_banned (pool_addrman pl))
  /\ (0 <= rate <= BTC_MAX_MONEY K ->
      find_peer id (btc_peer_on_feefilter K pl id rate)
      = Some (set_peer_fee_rate rate p)
      /\ pool_addrman (btc_peer_on_feefilter K pl id rate) = pool_addrman pl).
Proof.
  intros Hp Hreg Hb. unfold btc_peer_on_feefilter. split.
  - intros Hr.
    assert (E : ((rate <? 0) || (rate >? BTC_MAX_MONEY K)) = true).
    { apply orb_true_iff. destruct Hr as [Hr|Hr];
        [left; apply Z.ltb_lt|right; apply Z.gtb_lt]; exact Hr. }
    rewrite E.
    rewrite (increase_ban_registered pl id p 100 Hp Hreg).
    rewrite (increase_ban_addrman pl id p 100 Hp).
    assert (E2 : (peer_ban_score p + 100 >=? 100) = true)
      by (apply Z.geb_le; lia).
    rewrite E2. eexists. split; [reflexivity|]. cbn. repeat split.
  - intros Hr.
    assert (E : ((rate <? 0) || (rate >? BTC_MAX_MONEY K)) = false).
    { apply orb_false_iff. split; [apply Z.ltb_ge|]; [lia|].
      destruct (rate >? BTC_MAX_MONEY K) eqn:E; [|reflexivity].
      apply Z.gtb_lt in E. lia. }
    rewrite E. split; [|reflexivity].
    apply find_peer_upd_same; [reflexivity|assumption].
Qed.

Lemma feefilter_rate_or_ban_witness :
  (-1 < 0 \/ BTC_MAX_MONEY Sample.consts < -1 ->
   exists p',
     find_peer 0 (btc_peer_on_feefilter Sample.consts Sample.pool1 0 (-1))
     = Some p'
     /\ peer_ban_score p'
        = peer_ban_score (Sample.peer 0 true BTC_PEER_CONNECTED) + 100
     /\ peer_state p' = BTC_PEER_DEAD
     /\ closed (peer_parser p') = true
     /\ sock_closed (peer_socket p') = true
     /\ peer_fee_rate p'
        = peer_fee_rate (Sample.peer 0 true BTC_PEER_CONNECTED)
     /\ am_banned
          (pool_addrman (btc_peer_on_feefilter Sample.consts Sample.pool1 0 (-1)))
        = peer_addr (Sample.peer 0 true BTC_PEER_CONNECTED)
          :: am_banned (pool_addrman Sample.pool1))
  /\ (0 <= -1 <= BTC_MAX_MONEY Sample.consts ->
      find_peer 0 (btc_peer_on_feefilter Sample.consts Sample.pool1 0 (-1))
      = Some (set_peer_fee_rate (-1) (Sample.peer 0 true BTC_PEER_CONNECTED))
      /\ pool_addrman (btc_peer_on_feefilter Sample.consts Sample.pool1 0 (-1))
         = pool_addrman Sample.pool1).
Proof.
  apply (feefilter_rate_or_ban Sample.consts Sample.pool1 0
           (Sample.peer 0 true BTC_PEER_CONNECTED) (-1)).
  - reflexivity.
  - reflexivity.
  - cbn. lia.
Defined.

(** ** Timeouts *)

Ltac split_ifs :=
  repeat match goal with
         | |- context [if ?b then _ else _] => destruct b eqn:?
         end.

Ltac bool_to_Z :=
  repeat match goal with
         | H : (_ && _) = true |- _ => apply andb_true_iff in H; destruct H
         | H : (_ || _) = false |- _ => apply orb_false_iff in H; destruct H
         | H : negb _ = true |- _ => apply negb_true_iff in H
         | H : negb _ = false |- _ => apply negb_false_iff in H
         | H : (_ >? _) = true |- _ => apply Z.gtb_lt in H
         | H : (_ >? _) = false |- _ => rewrite Z.gtb_ltb in H; apply Z.ltb_ge in H
         | H : (_ =? _) = true |- _ => apply Z.eqb_eq in H
         | H : (_ =? _) = false |- _ => apply Z.eqb_neq in H
         end.

(** C6, as the code has it.  Once more than 60 seconds have passed since the
    connect time of a peer, more than 20 minutes without a send close it at
    the evaluation of the stall timer, whatever its protocol version, and a
    peer is closed for not having been sent to only past these two bounds:
    the threshold for sends is never multiplied.  The factor 4 for versions
    up to [BTC_NET_PONG_VERSION] is applied to the receive threshold, and to
    it only: more than 20 minutes without a receive, 80 minutes for such a
    version, close the peer, and a peer is closed for not having been heard
    from only past the bound that its version gives. *)
Theorem send_stall_closes (K : btc_consts) (synced : bool) (now : Z)
  (p : btc_peer) :
  let mult := if peer_version p <=? BTC_NET_PONG_VERSION K then 4 else 1 in
  (peer_time p + 60000 < now -> peer_last_send p + 20 * 60000 < now ->
   exists r, btc_peer_maybe_timeout K synced now p = (Some r, btc_peer_close p))
  /\ (fst (btc_peer_maybe_timeout K synced now p) = Some STALL_SEND ->
      peer_time p + 60000 < now /\ peer_last_send p + 20 * 60000 < now)
  /\ (peer_time p + 60000 < now ->
      peer_last_recv p + 20 * 60000 * mult < now ->
      exists r,
        btc_peer_maybe_timeout K synced now p = (Some r, btc_peer_close p))
  /\ (fst (btc_peer_maybe_timeout K synced now p) = Some STALL_RECV ->
      peer_time p + 60000 < now
      /\ peer_last_recv p + 20 * 60000 * mult < now
      /\ now <= peer_last_send p + 20 * 60000).
Proof.
  intros mult. unfold mult, btc_peer_maybe_timeout. split; [|split; [|split]].
  - intros H1 H2. split_ifs; try (eexists; reflexivity); bool_to_Z; lia.
  - split_ifs; cbn [fst]; intros H; try discriminate; bool_to_Z; lia.
  - intros H1 H2. split_ifs; try (eexists; reflexivity); bool_to_Z; lia.
  - split_ifs; cbn [fst]; intros H; try discriminate; bool_to_Z; lia.
Qed.

Lemma send_stall_closes_witness :
  (exists r,
     btc_peer_maybe_timeout Sample.consts true 1300000
       (Sample.old_peer 1300000)
     = (Some r, btc_peer_close (Sample.old_peer 1300000)))
  /\ (peer_time (Sample.old_peer 1300000) + 60000 < 1300000
      /\ peer_last_send (Sample.old_peer 1300000) + 20 * 60000 < 1300000)
  /\ (exists r,
        btc_peer_maybe_timeout Sample.consts true 4900000
          (Sample.silent_peer 4900000)
        = (Some r, btc_peer_close (Sample.silent_peer 4900000)))
  /\ (peer_time (Sample.silent_peer 4900000) + 60000 < 4900000
      /\ peer_last_recv (Sample.silent_peer 4900000) + 20 * 60000 * 4
         < 4900000
      /\ 4900000 <= peer_last_send (Sample.silent_peer 4900000) + 20 * 60000).
Proof.
  destruct (send_stall_closes Sample.consts true 1300000
              (Sample.old_peer 1300000)) as (H1 & H2 & _).
  destruct (send_stall_closes Sample.consts true 4900000
              (Sample.silent_peer 4900000)) as (_ & _ & H3 & H4).
  split; [apply H1; vm_compute; reflexivity|].
  split; [apply H2; reflexivity|].
  split; [apply H3; vm_compute; reflexivity|].
  apply H4. reflexivity.
Defined.

(** C6, as the specification words it, fails: for a peer whose version is
    [BTC_NET_PONG_VERSION] the threshold is not four times twenty minutes.
    Connected at 1000 ms and last sent to at 2000 ms, it is closed for the
    missing send at 1300000 ms, after 21 minutes and 38 seconds, long before
    the 80 minutes are over. *)
Lemma send_stall_not_multiplied :
  peer_version (Sample.old_peer 1300000)
    <= BTC_NET_PONG_VERSION Sample.consts
  /\ 1300000 <= peer_last_send (Sample.old_peer 1300000) + 4 * (20 * 60000)
  /\ btc_peer_maybe_timeout Sample.consts true 1300000
       (Sample.old_peer 1300000)
     = (Some STALL_SEND, btc_peer_close (Sample.old_peer 1300000)).
Proof.
  split; [vm_compute; discriminate|].
  split; [vm_compute; discriminate|]. reflexivity.
Qed.

(** The factor at work on the receive side.  A peer of the version
    [BTC_NET_PONG_VERSION], connected at 1000 ms, last heard from at 2000 ms
    and written to a second ago: at 1300000 ms, more than 21 minutes after
    the last receive, it is left alone; at 4900000 ms, more than 80 minutes
    after, it is closed for the missing receive. *)
Example recv_stall_multiplied :
  peer_version (Sample.silent_peer 1300000)
    <= BTC_NET_PONG_VERSION Sample.consts
  /\ peer_last_recv (Sample.silent_peer 1300000) + 20 * 60000 < 1300000
  /\ btc_peer_maybe_timeout Sample.consts true 1300000
       (Sample.silent_peer 1300000)
     = (None, Sample.silent_peer 1300000)
  /\ peer_last_recv (Sample.silent_peer 4900000) + 4 * (20 * 60000) < 4900000
  /\ btc_peer_maybe_timeout Sample.consts true 4900000
       (Sample.silent_peer 4900000)
     = (Some STALL_RECV, btc_peer_close (Sample.silent_peer 4900000)).
Proof.
  split; [vm_compute; discriminate|].
  split; [vm_compute; reflexivity|].
  split; [reflexivity|].
  split; [vm_compute; reflexivity|]. reflexivity.
Qed.

(** ** Requests while the chain is not synced *)

Lemma upd_peer_id (id : Z) (f : btc_peer -> btc_peer) (pl : btc_pool) :
  (forall q, f q = q) -> upd_peer id f pl = pl.
Proof.
  intros Hf. unfold upd_peer.
  replace (map (fun q => if peer_id q =? id then f q else q) (pool_peers pl))
    with (pool_peers pl).
  - destruct pl; reflexivity.
  - induction (pool_peers pl) as [|q l IH]; cbn [map]; [reflexivity|].
    rewrite <- IH, Hf. destruct (peer_id q =? id); reflexivity.
Qed.

(** C10.  While the chain is not synced, a [getblocks], a [getheaders] or a
    [mempool] request changes nothing at all: the peer that sent it (hence
    also what was written to its socket, its state and its ban score) and
    the pool come out of the handler, and out of the dispatch of the
    message, as they went in.  The close of a peer that asks for the mempool
    of a pool without BIP37 happens on a synced chain, and only there. *)
Theorem unsynced_requests_ignored (K : btc_consts) (C : msg_codec)
  (other : btc_msg -> btc_pool -> Z -> Z -> option btc_pool)
  (pl : btc_pool) (id now : Z) (locator : list hash) (stop : hash) :
  btc_chain_synced (pool_chain pl) = false ->
  (forall p,
     btc_pool_on_getblocks C (pool_chain pl) now p locator stop = p
     /\ btc_pool_on_getheaders C (pool_chain pl) now p locator stop = p
     /\ btc_pool_on_mempool C (pool_chain pl) (pool_mempool pl)
          (pool_bip37_enabled pl) now p = p)
  /\ btc_peer_on_msg K C other pl id (BTC_MSG_GETBLOCKS locator stop) now
     = Some pl
  /\ btc_peer_on_msg K C other pl id (BTC_MSG_GETHEADERS locator stop) now
     = Some pl
  /\ btc_peer_on_msg K C other pl id BTC_MSG_MEMPOOL now = Some pl
  /\ (forall ch mp p,
        btc_chain_synced ch = true ->
        btc_pool_on_mempool C ch mp false now p = btc_peer_close p).
Proof.
  intros Hs.
  assert (H1 : forall p,
             btc_pool_on_getblocks C (pool_chain pl) now p locator stop = p)
    by (intros p; unfold btc_pool_on_getblocks; rewrite Hs; reflexivity).
  assert (H2 : forall p,
             btc_pool_on_getheaders C (pool_chain pl) now p locator stop = p)
    by (intros p; unfold btc_pool_on_getheaders; rewrite Hs; reflexivity).
  assert (H3 : forall p,
             btc_pool_on_mempool C (pool_chain pl) (pool_mempool pl)
               (pool_bip37_enabled pl) now p = p)
    by (intros p; unfold btc_pool_on_mempool; rewrite Hs; reflexivity).
  assert (H4 : forall ch mp p,
             btc_chain_synced ch = true ->
             btc_pool_on_mempool C ch mp false now p = btc_peer_close p)
    by (intros ch mp p Hc; unfold btc_pool_on_mempool; rewrite Hc;
        reflexivity).
  split; [intros p; auto|].
  unfold btc_peer_on_msg, btc_pool_on_msg.
  destruct (peer_is_dead pl id); repeat split;
    try reflexivity; try exact H4;
    f_equal; apply upd_peer_id; assumption.
Qed.

Lemma unsynced_requests_ignored_witness :
  (forall p,
     btc_pool_on_getblocks Sample.codec (pool_chain Sample.pool2) 5000 p
       [Sample.hash_n 1] btc_hash_zero = p
     /\ btc_pool_on_getheaders Sample.codec (pool_chain Sample.pool2) 5000 p
          [Sample.hash_n 1] btc_hash_zero = p
     /\ btc_pool_on_mempool Sample.codec (pool_chain Sample.pool2)
          (pool_mempool Sample.pool2) (pool_bip37_enabled Sample.pool2) 5000 p
        = p)
  /\ btc_peer_on_msg Sample.consts Sample.codec Sample.other Sample.pool2 0
       (BTC_MSG_GETBLOCKS [Sample.hash_n 1] btc_hash_zero) 5000
     = Some Sample.pool2
  /\ btc_peer_on_msg Sample.consts Sample.codec Sample.other Sample.pool2 0
       (BTC_MSG_GETHEADERS [Sample.hash_n 1] btc_hash_zero) 5000
     = Some Sample.pool2
  /\ btc_peer_on_msg Sample.consts Sample.codec Sample.other Sample.pool2 0
       BTC_MSG_MEMPOOL 5000 = Some Sample.pool2
  /\ (forall ch mp p,
        btc_chain_synced ch = true ->
        btc_pool_on_mempool Sample.codec ch mp false 5000 p
        = btc_peer_close p).
Proof.
  apply (unsynced_requests_ignored Sample.consts Sample.codec Sample.other
           Sample.pool2 0 5000 [Sample.hash_n 1] btc_hash_zero).
  reflexivity.
Defined.

(** ** The answer to [getblocks] *)

Section Walk.
Variable ch : btc_chain.
Variable stop : option btc_entry.






End Walk.

(** ** Sends leave the continuation hash alone *)





(** ** What a send leaves on the socket *)

Lemma fold_cons_rev {A B : Type} (f : A -> B) (l : list A) (acc : list B) :
  fold_left (fun a x => f x :: a) l acc = rev (map f l) ++ acc.
Proof.
  revert acc. induction l as [|x l IH]; intros acc; cbn; [reflexivity|].
  rewrite IH, <- app_assoc. reflexivity.
Qed.

(** One [btc_peer_sendmsg] is one write: the frame of the message is on the
    socket when the write is taken, and the peer is closed when it fails. *)
Lemma sendmsg_socket (C : msg_codec) (now : Z) (p : btc_peer) (m : btc_msg) :
  sock_nwrites (peer_socket (btc_peer_sendmsg C now p m))
  = S (sock_nwrites (peer_socket p))
  /\ sock_rc (peer_socket (btc_peer_sendmsg C now p m))
     = sock_rc (peer_socket p)
  /\ peer_inv_filter (btc_peer_sendmsg C now p m) = peer_inv_filter p
  /\ (sock_rc (peer_socket p) (sock_nwrites (peer_socket p)) <> -1 ->
      sock_written (peer_socket (btc_peer_sendmsg C now p m))
      = sock_written (peer_socket p)
        ++ [btc_frame (net_magic (peer_network p)) (msg_cmd C m)
              (btc_msg_export C m)]
      /\ peer_state (btc_peer_sendmsg C now p m) = peer_state p)
  /\ (sock_rc (peer_socket p) (sock_nwrites (peer_socket p)) = -1 ->
      sock_written (peer_socket (btc_peer_sendmsg C now p m))
      = sock_written (peer_socket p)
      /\ peer_state (btc_peer_sendmsg C now p m) = BTC_PEER_DEAD).
Proof.
  unfold btc_peer_sendmsg, btc_peer_send, btc_peer_write, btc_socket_write.
  destruct (sock_rc (peer_socket p) (sock_nwrites (peer_socket p)) =? -1)
    eqn:E.
  - apply Z.eqb_eq in E.
    split; [reflexivity|]. split; [reflexivity|]. split; [reflexivity|].
    split; [intros H; contradiction|]. intros _. split; reflexivity.
  - apply Z.eqb_neq in E.
    split; [reflexivity|]. split; [reflexivity|]. split; [reflexivity|].
    split; [|intros H; contradiction]. intros _. split; reflexivity.
Qed.

(** [btc_peer_send_inv]: the hashes of the items enter the filter of the
    peer, the last one first, and the [inv] is written. *)
Lemma send_inv_socket (C : msg_codec) (now : Z) (p : btc_peer)
  (items : list btc_invitem) :
  sock_nwrites (peer_socket (btc_peer_send_inv C now p items))
  = S (sock_nwrites (peer_socket p))
  /\ sock_rc (peer_socket (btc_peer_send_inv C now p items))
     = sock_rc (peer_socket p)
  /\ peer_inv_filter (btc_peer_send_inv C now p items)
     = rev (map inv_hash items) ++ peer_inv_filter p
  /\ (sock_rc (peer_socket p) (sock_nwrites (peer_socket p)) <> -1 ->
      sock_written (peer_socket (btc_peer_send_inv C now p items))
      = sock_written (peer_socket p)
        ++ [btc_frame (net_magic (peer_network p))
              (msg_cmd C (BTC_MSG_INV items))
              (btc_msg_export C (BTC_MSG_INV items))]
      /\ peer_state (btc_peer_send_inv C now p items) = peer_state p)
  /\ (sock_rc (peer_socket p) (sock_nwrites (peer_socket p)) = -1 ->
      sock_written (peer_socket (btc_peer_send_inv C now p items))
      = sock_written (peer_socket p)
      /\ peer_state (btc_peer_send_inv C now p items) = BTC_PEER_DEAD).
Proof.
  unfold btc_peer_send_inv.
  destruct (sendmsg_socket C now
              (set_peer_inv_filter
                 (fold_left (fun f item => inv_hash item :: f) items
                    (peer_inv_filter p)) p) (BTC_MSG_INV items))
    as (H1 & H2 & H3 & H4 & H5).
  cbn [peer_socket peer_inv_filter peer_network peer_state
       set_peer_inv_filter] in H1, H2, H3, H4, H5.
  split; [exact H1|]. split; [exact H2|].
  split; [rewrite H3; apply fold_cons_rev|].
  split; [exact H4|exact H5].
Qed.



(** A chain of height 600 asked from height 1 on: the answer has the 500
    hashes of the heights 2 to 501, and the hash of height 501 is the
    continuation hash. *)
Example getblocks_truncated :
  let p := btc_pool_on_getblocks Sample.codec (Sample.chain true 600) 5000
             (Sample.peer 0 true BTC_PEER_CONNECTED) [Sample.hash_n 1]
             btc_hash_zero in
  peer_hash_continue p = Sample.hash_n 501
  /\ length (peer_inv_filter p) = 500%nat.
Proof. vm_compute. split; reflexivity. Qed.

(** ** The headers chain *)





Lemma last_snoc_node (l : list btc_hdrnode) (n : btc_hdrnode) :
  last (l ++ [n]) = Some n.
Proof. apply last_snoc. Qed.


(** ** What leaves the headers chain alone *)




(** ** The loop over a [headers] message *)



(** ** Shifting and appending go through *)






(** The batch after the first checkpoint.  The blocks of the first batch
    come one by one and leave the pool as [Sample.checkpoint_pool] has it,
    with [header_next] on the head; the next batch reaches the checkpoint of
    height 6, the head is shifted from under [header_next], and the chain
    is the three new nodes. *)
Example checkpoint_pool_reached :
  match btc_pool_on_headers Sample.consts Sample.codec Sample.loader_pool 0
          [Sample.header (Sample.hash_n 0) (Sample.hash_n 1);
           Sample.header (Sample.hash_n 1) (Sample.hash_n 2);
           Sample.header (Sample.hash_n 2) (Sample.hash_n 3)] 5000 with
  | Some pl1 =>
      match btc_pool_resolve_chain Sample.consts Sample.codec pl1 0
              (Sample.hash_n 1) 5100 with
      | Some pl2 =>
          match btc_pool_resolve_chain Sample.consts Sample.codec pl2 0
                  (Sample.hash_n 2) 5200 with
          | Some pl3 =>
              option_map headers_state
                (btc_pool_resolve_chain Sample.consts Sample.codec pl3 0
                   (Sample.hash_n 3) 5300)
          | None => None
          end
      | None => None
      end
  | None => None
  end = Some (headers_state Sample.checkpoint_pool).
Proof. vm_compute. reflexivity. Qed.

Example second_checkpoint_batch :
  option_map
    (fun pl' => (map node_height (pool_header_chain pl'),
                 pool_header_next pl'))
    (btc_pool_on_headers Sample.consts Sample.codec Sample.checkpoint_pool 0
       Sample.next_headers 5400)
  = Some ([4; 5; 6], Some (HDR_LIVE 2)).
Proof. vm_compute. reflexivity. Qed.

(** ** A header that misses the checkpoint *)

Lemma append_nodes_cons (pl : btc_pool) (n : btc_hdrnode)
  (ns : list btc_hdrnode) :
  append_nodes
    (set_pool_header_chain (pool_header_chain pl ++ [n])
       (set_pool_header_next
          match pool_header_next pl with
          | None => Some (HDR_LIVE (length (pool_header_chain pl)))
          | Some r => Some r
          end pl)) ns
  = append_nodes pl (n :: ns).
Proof.
  destruct ns as [|m ns]; [reflexivity|].
  unfold append_nodes. destruct pl. cbn.
  rewrite <- app_assoc. cbn [app].
  match goal with
  | |- context [match ?x with Some _ => _ | None => _ end] =>
      is_var x; destruct x
  end; reflexivity.
Qed.

Lemma append_nodes_peers (pl : btc_pool) (ns : list btc_hdrnode) :
  pool_peers (append_nodes pl ns) = pool_peers pl.
Proof. destruct ns; reflexivity. Qed.

Lemma append_nodes_addrman (pl : btc_pool) (ns : list btc_hdrnode) :
  pool_addrman (append_nodes pl ns) = pool_addrman pl.
Proof. destruct ns; reflexivity. Qed.

Lemma append_nodes_chain (pl : btc_pool) (ns : list btc_hdrnode) :
  pool_header_chain (append_nodes pl ns) = pool_header_chain pl ++ ns.
Proof. destruct ns; cbn; [rewrite app_nil_r|]; reflexivity. Qed.

Lemma headers_loop_wrong_checkpoint (id : Z) (acc : list btc_header) :
  forall (pl : btc_pool) (cp : bool) (node tail : btc_hdrnode)
         (tip : btc_checkpoint) (hdr : btc_header) (rest : list btc_header),
    last (pool_header_chain pl) = Some tail ->
    pool_header_tip pl = Some tip ->
    Forall (fun h => hdr_verify h = true) (acc ++ [hdr]) ->
    chained (node_hash tail) (acc ++ [hdr]) ->
    node_height tail + Z.of_nat (length acc) + 1 = chk_height tip ->
    hdr_hash hdr <> chk_hash tip ->
    headers_loop pl id (acc ++ hdr :: rest) cp node
    = Some (Returned
              (upd_peer id btc_peer_close
                 (append_nodes pl (nodes_of (node_height tail) acc)))).
Proof.
  induction acc as [|h acc IH];
    intros pl cp node tail tip hdr rest Ht Htip Hv Hc Hh Hne;
    cbn [app headers_loop]; rewrite Ht;
    cbn [app] in Hv; apply Forall_cons in Hv; destruct Hv as [Hv1 Hv];
    cbn [app chained] in Hc; destruct Hc as [Hc1 Hc];
    rewrite Hv1; cbn [negb];
    unfold btc_hash_equal at 1;
    rewrite (bool_decide_eq_true_2 _ Hc1); cbn [negb]; rewrite Htip.
  - cbn [length] in Hh.
    replace (node_height tail + 1 =? chk_height tip) with true
      by (symmetry; apply Z.eqb_eq; lia).
    unfold btc_hash_equal.
    rewrite (bool_decide_eq_false_2 _ Hne). reflexivity.
  - cbn [length] in Hh.
    replace (node_height tail + 1 =? chk_height tip) with false
      by (symmetry; apply Z.eqb_neq; lia).
    cbn [andb]. rewrite orb_false_r.
    set (n := {| node_hash := hdr_hash h;
                 node_height := node_height tail + 1 |}).
    rewrite (IH _ cp n n tip hdr rest).
    + rewrite append_nodes_cons. reflexivity.
    + cbn. apply last_snoc.
    + exact Htip.
    + exact Hv.
    + exact Hc.
    + cbn [node_height n]. lia.
    + exact Hne.
Qed.
(** C2, amended.  In checkpoint mode, a batch of at most 2000 headers from
    the loader whose headers verify and link up to one at the height of
    [header_tip] with another hash than [header_tip]'s closes the loader
    and does no more than that: the ban score of the loader is what it was,
    the address manager is untouched (nothing is banned), and the headers
    that came before the wrong one stay appended to the headers chain. *)
Theorem wrong_checkpoint_closes (K : btc_consts) (C : msg_codec)
  (pl : btc_pool) (id now : Z) (p : btc_peer) (tail : btc_hdrnode)
  (tip : btc_checkpoint) (acc : list btc_header) (hdr : btc_header)
  (rest : list btc_header) :
  find_peer id pl = Some p ->
  pool_checkpoints pl = true ->
  peer_loader p = true ->
  (length (acc ++ hdr :: rest) <= 2000)%nat ->
  last (pool_header_chain pl) = Some tail ->
  pool_header_tip pl = Some tip ->
  Forall (fun h => hdr_verify h = true) (acc ++ [hdr]) ->
  chained (node_hash tail) (acc ++ [hdr]) ->
  node_height tail + Z.of_nat (length acc) + 1 = chk_height tip ->
  hdr_hash hdr <> chk_hash tip ->
  exists pl' q,
    btc_pool_on_headers K C pl id (acc ++ hdr :: rest) now = Some pl'
    /\ find_peer id pl' = Some q
    /\ peer_state q = BTC_PEER_DEAD
    /\ closed (peer_parser q) = true
    /\ peer_ban_score q = peer_ban_score p
    /\ pool_addrman pl' = pool_addrman pl
    /\ pool_header_chain pl'
       = pool_header_chain pl ++ nodes_of (node_height tail) acc.
Proof.
  intros Hp Hcp Hl Hlen Ht Htip Hv Hc Hh Hne.
  set (pl0 := upd_peer id (set_peer_gh_time (-1)) pl).
  exists (upd_peer id btc_peer_close
            (append_nodes pl0 (nodes_of (node_height tail) acc))),
         (btc_peer_close (set_peer_gh_time (-1) p)).
  split.
  - unfold btc_pool_on_headers. rewrite Hp. fold pl0.
    change (pool_checkpoints pl0) with (pool_checkpoints pl).
    change (pool_header_chain pl0) with (pool_header_chain pl).
    rewrite Hcp, Hl. cbn [negb].
    replace (Nat.eqb (length (acc ++ hdr :: rest)) 0) with false
      by (symmetry; apply Nat.eqb_neq; rewrite length_app; cbn; lia).
    replace (Nat.ltb 2000 (length (acc ++ hdr :: rest))) with false
      by (symmetry; apply Nat.ltb_ge; exact Hlen).
    destruct (pool_header_chain pl) as [|head l] eqn:Ech; [discriminate|].
    rewrite (headers_loop_wrong_checkpoint id acc pl0 false head tail tip
               hdr rest); try assumption.
    + reflexivity.
    + change (pool_header_chain pl0) with (pool_header_chain pl).
      rewrite Ech. exact Ht.
  - split.
    + rewrite find_peer_upd by reflexivity.
      unfold find_peer at 1. rewrite append_nodes_peers.
      fold (find_peer id pl0). unfold pl0.
      rewrite (find_peer_upd_same id _ pl p) by (reflexivity || assumption).
      cbn [option_map]. change (peer_id (set_peer_gh_time (-1) p))
        with (peer_id p).
      rewrite (find_peer_id _ _ _ Hp), Z.eqb_refl. reflexivity.
    + repeat split.
      * change (pool_addrman (append_nodes pl0 (nodes_of (node_height tail) acc))
                = pool_addrman pl).
        rewrite append_nodes_addrman. reflexivity.
      * change (pool_header_chain
                  (append_nodes pl0 (nodes_of (node_height tail) acc))
                = pool_header_chain pl ++ nodes_of (node_height tail) acc).
        rewrite append_nodes_chain. reflexivity.
Qed.

Lemma wrong_checkpoint_closes_witness :
  exists pl' q,
    btc_pool_on_headers Sample.consts Sample.codec Sample.loader_pool 0
      ([Sample.header (Sample.hash_n 0) (Sample.hash_n 1);
        Sample.header (Sample.hash_n 1) (Sample.hash_n 2)]
       ++ Sample.header (Sample.hash_n 2) (Sample.hash_n 33) :: []) 5000
    = Some pl'
    /\ find_peer 0 pl' = Some q
    /\ peer_state q = BTC_PEER_DEAD
    /\ closed (peer_parser q) = true
    /\ peer_ban_score q
       = peer_ban_score
           (set_peer_loader true (Sample.peer 0 true BTC_PEER_CONNECTED))
    /\ pool_addrman pl' = pool_addrman Sample.loader_pool
    /\ pool_header_chain pl'
       = pool_header_chain Sample.loader_pool
         ++ nodes_of 0 [Sample.header (Sample.hash_n 0) (Sample.hash_n 1);
                        Sample.header (Sample.hash_n 1) (Sample.hash_n 2)].
Proof.
  apply (wrong_checkpoint_closes Sample.consts Sample.codec
           Sample.loader_pool 0 5000
           (set_peer_loader true (Sample.peer 0 true BTC_PEER_CONNECTED))
           {| node_hash := Sample.hash_n 0; node_height := 0 |}
           {| chk_height := 3; chk_hash := Sample.hash_n 3 |}
           [Sample.header (Sample.hash_n 0) (Sample.hash_n 1);
            Sample.header (Sample.hash_n 1) (Sample.hash_n 2)]
           (Sample.header (Sample.hash_n 2) (Sample.hash_n 33)) []).
  - reflexivity.
  - reflexivity.
  - reflexivity.
  - cbn. lia.
  - reflexivity.
  - reflexivity.
  - repeat constructor.
  - cbn. repeat split.
  - reflexivity.
  - vm_compute. discriminate.
Defined.
(** C2, as the specification words it, fails: the loader that sends a header
    with the wrong hash at the height of the checkpoint is closed, but its
    ban score stays 0 and its address is not banned. *)
Lemma wrong_checkpoint_no_ban :
  pool_checkpoints Sample.loader_pool = true
  /\ option_map peer_loader (find_peer 0 Sample.loader_pool) = Some true
  /\ match btc_pool_on_headers Sample.consts Sample.codec Sample.loader_pool
             0 Sample.wrong_checkpoint 5000 with
     | Some pl' =>
         match find_peer 0 pl' with
         | Some q =>
             peer_state q = BTC_PEER_DEAD
             /\ peer_ban_score q = 0
             /\ btc_addrman_is_banned (pool_addrman pl') (peer_addr q) = false
         | None => False
         end
     | None => False
     end.
Proof.
  split; [reflexivity|]. split; [reflexivity|].
  vm_compute. repeat split.
Qed.

(** ** The loader *)

Lemma write_ident (now : Z) (p : btc_peer) (data : list byte) :
  peer_id (snd (btc_peer_write now p data)) = peer_id p
  /\ peer_loader (snd (btc_peer_write now p data)) = peer_loader p
  /\ peer_outbound (snd (btc_peer_write now p data)) = peer_outbound p.
Proof.
  unfold btc_peer_write, btc_socket_write.
  destruct (sock_rc (peer_socket p) (sock_nwrites (peer_socket p)) =? -1);
    repeat split; reflexivity.
Qed.

Lemma sendmsg_ident (C : msg_codec) (now : Z) (p : btc_peer) (m : btc_msg) :
  peer_id (btc_peer_sendmsg C now p m) = peer_id p
  /\ peer_loader (btc_peer_sendmsg C now p m) = peer_loader p
  /\ peer_outbound (btc_peer_sendmsg C now p m) = peer_outbound p.
Proof. apply write_ident. Qed.

Lemma send_mempool_ident (K : btc_consts) (C : msg_codec) (now : Z)
  (p : btc_peer) :
  peer_id (btc_peer_send_mempool K C now p) = peer_id p
  /\ peer_loader (btc_peer_send_mempool K C now p) = peer_loader p
  /\ peer_outbound (btc_peer_send_mempool K C now p) = peer_outbound p.
Proof.
  unfold btc_peer_send_mempool.
  destruct (_ =? 0); [repeat split; reflexivity|apply sendmsg_ident].
Qed.

Lemma find_peer_upd_at (id : Z) (f : btc_peer -> btc_peer) (pl : btc_pool)
  (p : btc_peer) :
  find_peer id pl = Some p -> peer_id (f p) = id ->
  find_peer id (upd_peer id f pl) = Some (f p).
Proof.
  unfold find_peer, upd_peer. cbn [pool_peers set_pool_peers].
  intros Hp Hf. induction (pool_peers pl) as [|x l IH]; [discriminate|].
  cbn [find map] in *. destruct (peer_id x =? id) eqn:E.
  - injection Hp as ->. rewrite Hf, Z.eqb_refl. reflexivity.
  - rewrite E. apply IH. exact Hp.
Qed.

(** What [btc_pool_send_locator] leaves as it was: which peer is the loader,
    the state of the headers chain, and who the peer [id] is. *)
Lemma send_locator_loader (K : btc_consts) (C : msg_codec) (pl : btc_pool)
  (id : Z) (locator : list hash) (now : Z) (p : btc_peer) :
  find_peer id pl = Some p ->
  (pool_checkpoints pl = true -> is_Some (pool_header_tip pl)) ->
  exists b pl' q,
    btc_pool_send_locator K C pl id locator now = Some (b, pl')
    /\ pool_load pl' = pool_load pl
    /\ headers_state pl' = headers_state pl
    /\ find_peer id pl' = Some q
    /\ peer_loader q = peer_loader p
    /\ peer_outbound q = peer_outbound p.
Proof.
  intros Hp Htip. unfold btc_pool_send_locator. rewrite Hp.
  pose proof (find_peer_id _ _ _ Hp) as Hid.
  destruct (negb (btc_pool_is_syncable pl p)).
  { exists false, pl, p. repeat split; assumption. }
  set (p1 := if _ && _ then btc_peer_send_mempool K C now p else p).
  assert (H1 : peer_id p1 = peer_id p /\ peer_loader p1 = peer_loader p
                /\ peer_outbound p1 = peer_outbound p).
  { unfold p1. destruct (_ && _); [apply send_mempool_ident|auto]. }
  destruct H1 as (H1i & H1l & H1o).
  set (p2 := set_peer_block_time now (set_peer_syncing true p1)).
  destruct (pool_checkpoints pl) eqn:Ecp.
  - destruct (Htip eq_refl) as [tip Et]. rewrite Et.
    set (q := btc_peer_send_getheaders C now p2 locator
                (Some (chk_hash tip))).
    destruct (sendmsg_ident C now (set_peer_gh_time now p2)
                (BTC_MSG_GETHEADERS locator (chk_hash tip)))
      as (Hqi & Hql & Hqo).
    exists true, (upd_peer id (fun _ => q) pl), q.
    split; [reflexivity|]. split; [reflexivity|].
    split; [unfold headers_state; cbn; rewrite Ecp, Et; reflexivity|].
    split.
    + apply (find_peer_upd_at id (fun _ => q) pl p Hp).
      unfold q, btc_peer_send_getheaders. rewrite Hqi.
      cbn. rewrite H1i. exact Hid.
    + unfold q, btc_peer_send_getheaders. rewrite Hql, Hqo. cbn. auto.
  - set (q := btc_peer_send_getblocks C now p2 locator None).
    destruct (sendmsg_ident C now (set_peer_gb_time now p2)
                (BTC_MSG_GETBLOCKS locator btc_hash_zero))
      as (Hqi & Hql & Hqo).
    exists true, (upd_peer id (fun _ => q) pl), q.
    split; [reflexivity|]. split; [reflexivity|].
    split; [unfold headers_state; cbn; rewrite Ecp; reflexivity|].
    split.
    + apply (find_peer_upd_at id (fun _ => q) pl p Hp).
      unfold q, btc_peer_send_getblocks. rewrite Hqi.
      cbn. rewrite H1i. exact Hid.
    + unfold q, btc_peer_send_getblocks. rewrite Hql, Hqo. cbn. auto.
Qed.

Lemma send_sync_loader (K : btc_consts) (C : msg_codec) (pl : btc_pool)
  (id now : Z) (p : btc_peer) :
  find_peer id pl = Some p ->
  (pool_checkpoints pl = true -> is_Some (pool_header_tip pl)) ->
  exists b pl' q,
    btc_pool_send_sync K C pl id now = Some (b, pl')
    /\ pool_load pl' = pool_load pl
    /\ headers_state pl' = headers_state pl
    /\ find_peer id pl' = Some q
    /\ peer_loader q = peer_loader p
    /\ peer_outbound q = peer_outbound p.
Proof.
  intros Hp Htip. unfold btc_pool_send_sync. rewrite Hp.
  destruct (peer_syncing p);
    [exists false, pl, p; repeat split; assumption|].
  destruct (negb (btc_pool_is_syncable pl p));
    [exists false, pl, p; repeat split; assumption|].
  destruct (send_locator_loader K C pl id
              (btc_chain_get_locator (pool_chain pl) None) now p Hp Htip)
    as (b & pl' & q & -> & H).
  exists true, pl', q. split; [reflexivity|exact H].
Qed.
(** [btc_pool_set_loader] on an outbound peer of a pool without a loader:
    the peer has the loader flag and the pool points to it; the headers
    chain is not touched. *)
Lemma set_loader_sets (K : btc_consts) (C : msg_codec) (pl : btc_pool)
  (id now : Z) (p : btc_peer) :
  find_peer id pl = Some p ->
  peer_outbound p = true ->
  peer_loader p = false ->
  pool_load pl = None ->
  (pool_checkpoints pl = true -> is_Some (pool_header_tip pl)) ->
  exists pl' q,
    btc_pool_set_loader K C pl id now = Some pl'
    /\ pool_load pl' = Some id
    /\ headers_state pl' = headers_state pl
    /\ find_peer id pl' = Some q
    /\ peer_loader q = true
    /\ peer_outbound q = true.
Proof.
  intros Hp Ho Hl Hload Htip. unfold btc_pool_set_loader.
  rewrite Hp, Ho, Hl, Hload. cbn [negb].
  rewrite bool_decide_eq_false_2 by (intros [x Hx]; discriminate).
  set (pl1 := set_pool_load (Some id) (upd_peer id (set_peer_loader true) pl)).
  assert (Hp1 : find_peer id pl1 = Some (set_peer_loader true p)).
  { apply (find_peer_upd_same id (set_peer_loader true) pl p);
      [reflexivity|exact Hp]. }
  destruct (send_sync_loader K C pl1 id now _ Hp1 Htip)
    as (b & pl' & q & -> & Hld & Hh & Hq & Hql & Hqo).
  exists pl', q. split; [reflexivity|].
  split; [exact Hld|]. split; [exact Hh|]. split; [exact Hq|].
  split; [exact Hql|]. rewrite Hqo. exact Ho.
Qed.

Lemma find_first_by_id (l : list btc_peer) (P : btc_peer -> bool)
  (p : btc_peer) :
  NoDup (map peer_id l) -> find P l = Some p ->
  find (fun q => peer_id q =? peer_id p) l = Some p.
Proof.
  intros Hn Hf. apply find_some in Hf. destruct Hf as [Hin _].
  induction l as [|x l IH]; [destruct Hin|].
  cbn [map] in Hn. apply NoDup_cons in Hn. destruct Hn as [Hx Hn].
  cbn [find]. destruct (peer_id x =? peer_id p) eqn:E.
  - destruct Hin as [->|Hin]; [reflexivity|].
    apply Z.eqb_eq in E. exfalso. apply Hx. rewrite E.
    apply list_elem_of_In, in_map, Hin.
  - destruct Hin as [->|Hin]; [rewrite Z.eqb_refl in E; discriminate|].
    apply IH; assumption.
Qed.

(** [btc_pool_add_loader] when some peer is outbound: the first of them
    becomes the loader, whatever its state. *)
Lemma add_loader_repurposes (K : btc_consts) (C : msg_codec) (pl : btc_pool)
  (tnow : Z) (d : dial) (now : Z) (p : btc_peer) :
  pool_load pl = None ->
  NoDup (map peer_id (pool_peers pl)) ->
  (forall q, In q (pool_peers pl) -> peer_loader q = false) ->
  (pool_checkpoints pl = true -> is_Some (pool_header_tip pl)) ->
  find peer_outbound (pool_peers pl) = Some p ->
  exists pl' q,
    btc_pool_add_loader K C pl tnow d now = Some (true, pl')
    /\ pool_load pl' = Some (peer_id p)
    /\ headers_state pl' = headers_state pl
    /\ find_peer (peer_id p) pl' = Some q
    /\ peer_loader q = true
    /\ peer_outbound q = true.
Proof.
  intros Hload Hn Hnl Htip Hf. unfold btc_pool_add_loader.
  rewrite Hload, bool_decide_eq_false_2 by (intros [x Hx]; discriminate).
  rewrite Hf.
  pose proof (find_first_by_id _ _ _ Hn Hf) as Hp.
  pose proof (find_some _ _ Hf) as [Hin Ho].
  destruct (set_loader_sets K C pl (peer_id p) now p Hp Ho (Hnl p Hin)
              Hload Htip) as (pl' & q & -> & H).
  exists pl', q. split; [reflexivity|exact H].
Qed.

Lemma get_addr_loop_free (pl : btc_pool) (tnow : Z) (n i : nat)
  (a : btc_netaddr) :
  get_addr_loop pl tnow n i = Some a -> btc_peers_has pl a = false.
Proof.
  revert i. induction n as [|n IH]; intros i; cbn [get_addr_loop];
    [discriminate|].
  destruct (am_get (pool_addrman pl) i) as [entry|]; [|discriminate].
  destruct (btc_peers_has pl (ae_addr entry)) eqn:E.
  - cbn [orb]. apply IH.
  - cbn [orb].
    match goal with
    | |- (if ?c then _ else _) = _ -> _ => destruct c
    end; [apply IH|].
    intros H. injection H as <-. exact E.
Qed.

Lemma find_snoc_fresh (l : list btc_peer) (P : btc_peer -> bool)
  (x : btc_peer) :
  find P l = None -> P x = true -> find P (l ++ [x]) = Some x.
Proof.
  intros Hn Hx. induction l as [|y l IH]; cbn [app find] in *.
  - rewrite Hx. reflexivity.
  - destruct (P y); [discriminate|]. apply IH. exact Hn.
Qed.
(** [btc_pool_add_loader] when no peer is outbound: a peer is dialled at
    the address that [btc_pool_get_addr] finds, and the new peer is the
    loader. *)
Lemma add_loader_dials (K : btc_consts) (C : msg_codec) (pl : btc_pool)
  (tnow : Z) (d : dial) (now : Z) (addr : btc_netaddr) (s : btc_socket)
  (nonce : Z) :
  pool_load pl = None ->
  (pool_checkpoints pl = true -> is_Some (pool_header_tip pl)) ->
  find peer_outbound (pool_peers pl) = None ->
  find_peer (pool_id pl) pl = None ->
  btc_pool_get_addr pl tnow = Some addr ->
  dial_socket d = Some s ->
  btc_nonces_alloc (pool_nonces pl) (dial_nonces d) = Some nonce ->
  exists pl' q,
    btc_pool_add_loader K C pl tnow d now = Some (true, pl')
    /\ pool_load pl' = Some (pool_id pl)
    /\ headers_state pl' = headers_state pl
    /\ find_peer (pool_id pl) pl' = Some q
    /\ peer_loader q = true
    /\ peer_outbound q = true.
Proof.
  intros Hload Htip Hf Hfresh Ha Hs Hnonce. unfold btc_pool_add_loader.
  rewrite Hload, bool_decide_eq_false_2 by (intros [x Hx]; discriminate).
  rewrite Hf, Ha.
  unfold btc_pool_create_outbound, btc_peer_create. rewrite Hs.
  cbn [pool_nonces set_pool_addrman set_pool_id].
  rewrite Hnonce.
  match goal with
  | |- context [btc_peers_add ?a ?b] => set (pl1 := a); set (peer := b)
  end.
  assert (Hadd : btc_peers_add pl1 peer
                 = Some (set_pool_outbound (pool_outbound pl + 1)
                           (set_pool_peers (pool_peers pl ++ [peer]) pl1))).
  { unfold btc_peers_add.
    change (btc_peers_has pl1 (peer_addr peer)) with (btc_peers_has pl addr).
    rewrite (get_addr_loop_free _ _ _ _ _ Ha).
    change (find_peer (peer_id peer) pl1) with (find_peer (pool_id pl) pl).
    rewrite Hfresh, bool_decide_eq_false_2 by (intros [x Hx]; discriminate).
    reflexivity. }
  rewrite Hadd.
  set (pl2 := set_pool_outbound _ _).
  assert (Hp : find_peer (peer_id peer) pl2 = Some peer).
  { unfold find_peer. cbn [pl2 pool_peers set_pool_outbound set_pool_peers].
    apply find_snoc_fresh; [exact Hfresh|apply Z.eqb_refl]. }
  destruct (set_loader_sets K C pl2 (peer_id peer) now peer Hp eq_refl
              eq_refl Hload Htip) as (pl' & q & -> & H).
  exists pl', q. split; [reflexivity|exact H].
Qed.

(** ** The headers chain when a peer disconnects *)

Lemma send_locator_frame (K : btc_consts) (C : msg_codec) (pl pl' : btc_pool)
  (id : Z) (locator : list hash) (now : Z) (b : bool) :
  btc_pool_send_locator K C pl id locator now = Some (b, pl') ->
  headers_state pl' = headers_state pl /\ pool_load pl' = pool_load pl.
Proof.
  unfold btc_pool_send_locator.
  repeat match goal with
         | |- context [match ?x with _ => _ end] => destruct x
         end; try discriminate;
    intros H; injection H as <- <-; split; reflexivity.
Qed.

Lemma resync_loop_frame (K : btc_consts) (C : msg_codec) (force : bool)
  (locator : list hash) (now : Z) (ids : list Z) :
  forall pl pl',
    resync_loop K C pl force locator now ids = Some pl' ->
    headers_state pl' = headers_state pl /\ pool_load pl' = pool_load pl.
Proof.
  induction ids as [|id ids IH]; intros pl pl'; cbn [resync_loop].
  - intros H. injection H as <-. split; reflexivity.
  - destruct (find_peer id pl) as [p|]; [|apply IH].
    destruct (negb (peer_outbound p)); [apply IH|].
    destruct (negb force && peer_syncing p); [apply IH|].
    destruct (btc_pool_send_locator K C pl id locator now)
      as [[b pl1]|] eqn:E; [|discriminate].
    apply send_locator_frame in E. destruct E as [E1 E2].
    intros H. apply IH in H. rewrite <- E1, <- E2. exact H.
Qed.

Lemma remove_peer_frame (pl pl' : btc_pool) (id : Z) :
  btc_pool_remove_peer pl id = Some pl' ->
  headers_state pl' = headers_state pl
  /\ (pool_load pl = Some id -> pool_load pl' = None).
Proof.
  unfold btc_pool_remove_peer, btc_peers_remove.
  destruct (find_peer id pl) as [p|]; [|discriminate].
  destruct (negb _); [discriminate|].
  destruct (bool_decide (pool_load pl = Some id)) eqn:El.
  - destruct (peer_loader p); [|discriminate].
    cbn -[remove_keys].
    repeat match goal with
           | |- context [match ?x with _ => _ end] => destruct x
           end; try discriminate;
      intros H; injection H as <-; split; reflexivity.
  - apply bool_decide_eq_false_1 in El. cbn -[remove_keys].
    repeat match goal with
           | |- context [match ?x with _ => _ end] => destruct x
           end; try discriminate;
      intros H; injection H as <-; (split; [reflexivity|contradiction]).
Qed.
Lemma reset_chain_load (pl pl' : btc_pool) :
  btc_pool_reset_chain pl = Some pl' -> pool_load pl' = pool_load pl.
Proof.
  unfold btc_pool_reset_chain.
  repeat match goal with
         | |- context [match ?x with _ => _ end] => destruct x
         end; try discriminate;
    intros H; injection H as <-; reflexivity.
Qed.

Lemma on_disconnect_headers (K : btc_consts) (C : msg_codec)
  (pl pl' : btc_pool) (id now : Z) (p : btc_peer) :
  find_peer id pl = Some p ->
  btc_pool_on_disconnect K C pl id now = Some pl' ->
  (pool_load pl = Some id -> pool_load pl' = None)
  /\ exists pl1,
       btc_pool_remove_peer pl id = Some pl1
       /\ if peer_loader p && pool_checkpoints pl
          then exists pl2,
                 btc_pool_reset_chain pl1 = Some pl2
                 /\ headers_state pl' = headers_state pl2
          else headers_state pl' = headers_state pl.
Proof.
  intros Hp. unfold btc_pool_on_disconnect. rewrite Hp.
  destruct (btc_pool_remove_peer pl id) as [pl1|] eqn:Er; [|discriminate].
  destruct (remove_peer_frame _ _ _ Er) as [Hh Hl].
  assert (Hcp : pool_checkpoints pl1 = pool_checkpoints pl)
    by (unfold headers_state in Hh; congruence).
  rewrite Hcp.
  destruct (if peer_loader p && pool_checkpoints pl
            then btc_pool_reset_chain pl1 else Some pl1) as [pl2|] eqn:E2;
    [|discriminate].
  set (pl3 := set_pool_nonces _ pl2).
  assert (H3 : forall pl4,
             (if btc_chain_synced (pool_chain pl3)
                 && Nat.ltb 0 (size (peer_block_map p))
              then btc_pool_resync K C pl3 true now else Some pl3)
             = Some pl4 ->
             headers_state pl4 = headers_state pl2
             /\ pool_load pl4 = pool_load pl2).
  { intros pl4.
    destruct (btc_chain_synced (pool_chain pl3)
              && Nat.ltb 0 (size (peer_block_map p))).
    - unfold btc_pool_resync. intros H.
      apply resync_loop_frame in H. exact H.
    - intros H. injection H as <-. split; reflexivity. }
  intros H. apply H3 in H. destruct H as [H4 H5]. split.
  - intros Hld. rewrite H5. destruct (peer_loader p && pool_checkpoints pl).
    + rewrite (reset_chain_load _ _ E2). apply Hl, Hld.
    + injection E2 as <-. apply Hl, Hld.
  - exists pl1. split; [reflexivity|].
    destruct (peer_loader p && pool_checkpoints pl).
    + exists pl2. split; [exact E2|exact H4].
    + injection E2 as <-. rewrite H4. exact Hh.
Qed.

(** C7, amended.  When a peer disconnects, the headers chain is reset if
    that peer was the loader and the pool is in checkpoint mode, and is left
    as it was otherwise; the pool has no loader once its loader has
    disconnected.  When the pool has no loader at a refill,
    [btc_pool_add_loader] makes the first outbound peer of the list the
    loader, whatever the state of that peer; only when no peer is outbound
    does it dial one, at the address that [btc_pool_get_addr] finds, and
    make the new peer the loader.  Setting the loader leaves the headers
    chain as it is. *)
Theorem loader_replacement (K : btc_consts) (C : msg_codec) :
  (forall (pl pl' : btc_pool) (id now : Z) (p : btc_peer),
      find_peer id pl = Some p ->
      btc_pool_on_disconnect K C pl id now = Some pl' ->
      (pool_load pl = Some id -> pool_load pl' = None)
      /\ exists pl1,
           btc_pool_remove_peer pl id = Some pl1
           /\ if peer_loader p && pool_checkpoints pl
              then exists pl2,
                     btc_pool_reset_chain pl1 = Some pl2
                     /\ headers_state pl' = headers_state pl2
              else headers_state pl' = headers_state pl)
  /\ (forall (pl : btc_pool) (tnow : Z) (d : dial) (now : Z),
         pool_load pl = None ->
         NoDup (map peer_id (pool_peers pl)) ->
         (forall q, In q (pool_peers pl) -> peer_loader q = false) ->
         (pool_checkpoints pl = true -> is_Some (pool_header_tip pl)) ->
         match find peer_outbound (pool_peers pl) with
         | Some p =>
             exists pl' q,
               btc_pool_add_loader K C pl tnow d now = Some (true, pl')
               /\ pool_load pl' = Some (peer_id p)
               /\ headers_state pl' = headers_state pl
               /\ find_peer (peer_id p) pl' = Some q
               /\ peer_loader q = true
               /\ peer_outbound q = true
         | None =>
             match btc_pool_get_addr pl tnow with
             | None => btc_pool_add_loader K C pl tnow d now = Some (false, pl)
             | Some addr =>
                 forall (s : btc_socket) (nonce : Z),
                   dial_socket d = Some s ->
                   btc_nonces_alloc (pool_nonces pl) (dial_nonces d)
                   = Some nonce ->
                   find_peer (pool_id pl) pl = None ->
                   exists pl' q,
                     btc_pool_add_loader K C pl tnow d now = Some (true, pl')
                     /\ pool_load pl' = Some (pool_id pl)
                     /\ headers_state pl' = headers_state pl
                     /\ find_peer (pool_id pl) pl' = Some q
                     /\ peer_loader q = true
                     /\ peer_outbound q = true
             end
         end).
Proof.
  split.
  - intros pl pl' id now p. apply on_disconnect_headers.
  - intros pl tnow d now Hload Hn Hnl Htip.
    destruct (find peer_outbound (pool_peers pl)) as [p|] eqn:Ef.
    + apply add_loader_repurposes; assumption.
    + destruct (btc_pool_get_addr pl tnow) as [addr|] eqn:Ea.
      * intros s nonce Hs Hnonce Hfresh.
        apply (add_loader_dials K C pl tnow d now addr s nonce);
          assumption.
      * unfold btc_pool_add_loader.
        rewrite Hload, bool_decide_eq_false_2
          by (intros [x Hx]; discriminate).
        rewrite Ef, Ea. reflexivity.
Qed.
Lemma loader_replacement_witness :
  (match btc_pool_on_disconnect Sample.consts Sample.codec
           Sample.loader_pool 0 5000 with
   | Some pl' =>
       pool_load pl' = None
       /\ exists pl1 pl2,
            btc_pool_remove_peer Sample.loader_pool 0 = Some pl1
            /\ btc_pool_reset_chain pl1 = Some pl2
            /\ headers_state pl' = headers_state pl2
   | None => False
   end)
  /\ exists pl' q,
       btc_pool_add_loader Sample.consts Sample.codec Sample.waiting_pool
         0 {| dial_socket := None; dial_nonces := [] |} 5000
       = Some (true, pl')
       /\ pool_load pl' = Some 0
       /\ headers_state pl' = headers_state Sample.waiting_pool
       /\ find_peer 0 pl' = Some q
       /\ peer_loader q = true
       /\ peer_outbound q = true.
Proof.
  destruct (loader_replacement Sample.consts Sample.codec) as [H1 H2].
  split.
  - assert (E : bool_decide
                  (is_Some (btc_pool_on_disconnect Sample.consts Sample.codec
                              Sample.loader_pool 0 5000)) = true)
      by (vm_compute; reflexivity).
    apply bool_decide_eq_true_1 in E. destruct E as [pl' E]. rewrite E.
    destruct (H1 Sample.loader_pool pl' 0 5000
                (set_peer_loader true (Sample.peer 0 true BTC_PEER_CONNECTED))
                eq_refl E) as [Hl (pl1 & Hr & pl2 & Hreset & Hh)].
    split; [apply Hl; reflexivity|].
    exists pl1, pl2. auto.
  - apply (H2 Sample.waiting_pool 0 {| dial_socket := None; dial_nonces := [] |}
             5000).
    + reflexivity.
    + apply NoDup_ListNoDup. vm_compute. repeat constructor; cbn; intuition lia.
    + intros q [<-|[<-|[]]]; reflexivity.
    + intros H. discriminate.
Defined.

(** C7, as the specification words it, fails: of two outbound peers, the
    first still connecting and the second connected, the pool without a
    loader makes the first one the loader. *)
Lemma loader_not_connected :
  option_map (fun q => (peer_outbound q, peer_state q))
    (find_peer 0 Sample.waiting_pool) = Some (true, BTC_PEER_CONNECTING)
  /\ option_map (fun q => (peer_outbound q, peer_state q))
       (find_peer 1 Sample.waiting_pool) = Some (true, BTC_PEER_CONNECTED)
  /\ pool_load Sample.waiting_pool = None
  /\ option_map (fun r => (fst r, pool_load (snd r)))
       (btc_pool_add_loader Sample.consts Sample.codec Sample.waiting_pool 0
          {| dial_socket := None; dial_nonces := [] |} 5000)
     = Some (true, Some 0).
Proof.
  split; [reflexivity|]. split; [reflexivity|]. split; [reflexivity|].
  vm_compute. reflexivity.
Qed.

(** ** The request tables: the correspondence *)

Lemma nodup_fst_inj (vs : list (Z * gset hash)) (i : Z) (A B : gset hash) :
  List.NoDup (map fst vs) -> In (i, A) vs -> In (i, B) vs -> A = B.
Proof.
  induction vs as [|v vs IH]; intros Hn HA HB; [destruct HA|].
  cbn [map] in Hn. apply List.NoDup_cons_iff in Hn. destruct Hn as [Hv Hn].
  destruct HA as [->|HA], HB as [HB|HB].
  - congruence.
  - exfalso. apply Hv. apply (in_map fst) in HB. exact HB.
  - subst v. exfalso. apply Hv. apply (in_map fst) in HA. exact HA.
  - apply IH; assumption.
Qed.

Lemma upd_view_fst (id : Z) (D : gset hash) (vs : list (Z * gset hash)) :
  map fst (upd_view id (id, D) vs) = map fst vs.
Proof.
  unfold upd_view. rewrite map_map. apply map_ext. intros w.
  destruct (fst w =? id) eqn:E; [apply Z.eqb_eq in E; cbn; congruence|].
  reflexivity.
Qed.

(** Writing the table of one peer: its keys go from [D0] to [D]; the set
    loses the keys that the peer gives up and takes those of [D]; the keys
    that are new to the peer were in no table before. *)
Lemma corr_upd (set set' : gset hash) (vs : list (Z * gset hash)) (id : Z)
  (D0 D : gset hash) :
  corr set vs -> In (id, D0) vs ->
  (forall h, h ∈ set' <-> (h ∈ set /\ h ∉ D0) \/ h ∈ D) ->
  (forall h, h ∈ D -> h ∉ D0 -> h ∉ set) ->
  corr set' (upd_view id (id, D) vs).
Proof.
  intros (Hn & Hs & Hu) Hin Hset Hnew.
  assert (Hid : forall w, In w vs -> fst w = id -> w = (id, D0)).
  { intros [i A] Hw Hi. cbn in Hi. subst i. f_equal.
    apply (nodup_fst_inj vs id); assumption. }
  split; [rewrite upd_view_fst; exact Hn|]. split.
  - intros h. rewrite Hset. unfold upd_view. split.
    + intros [[Hh Hh0]|Hh].
      * apply Hs in Hh. destruct Hh as (v & Hv & Hhv).
        exists v. split; [|exact Hhv]. apply in_map_iff. exists v.
        split; [|exact Hv]. destruct (fst v =? id) eqn:E; [|reflexivity].
        apply Z.eqb_eq in E. rewrite (Hid v Hv E) in Hhv. contradiction.
      * exists (id, D). split; [|exact Hh]. apply in_map_iff.
        exists (id, D0). split; [|exact Hin]. cbn. rewrite Z.eqb_refl.
        reflexivity.
    + intros (v' & Hv' & Hh). apply in_map_iff in Hv'.
      destruct Hv' as (w & <- & Hw). destruct (fst w =? id) eqn:E.
      * right. exact Hh.
      * left. split; [apply Hs; exists w; auto|]. intros Hh0.
        apply Z.eqb_neq in E. apply E.
        apply (Hu h w (id, D0)); assumption.
  - intros h v' w' Hv' Hw' Hhv Hhw. unfold upd_view in Hv', Hw'.
    apply in_map_iff in Hv', Hw'.
    destruct Hv' as (v & <- & Hv), Hw' as (w & <- & Hw).
    destruct (fst v =? id) eqn:Ev, (fst w =? id) eqn:Ew.
    + reflexivity.
    + exfalso. apply Z.eqb_neq in Ew.
      assert (Hh0 : h ∉ D0)
        by (intros Hh0; apply Ew; apply (Hu h w (id, D0)); assumption).
      apply (Hnew h Hhv Hh0). apply Hs. exists w. auto.
    + exfalso. apply Z.eqb_neq in Ev.
      assert (Hh0 : h ∉ D0)
        by (intros Hh0; apply Ev; apply (Hu h v (id, D0)); assumption).
      apply (Hnew h Hhw Hh0). apply Hs. exists v. auto.
    + apply (Hu h); assumption.
Qed.

Lemma nodup_map_filter {A B : Type} (f : A -> B) (P : A -> bool)
  (l : list A) :
  List.NoDup (map f l) -> List.NoDup (map f (List.filter P l)).
Proof.
  induction l as [|x l IH]; cbn [map List.filter]; [auto|].
  intros Hn. apply List.NoDup_cons_iff in Hn. destruct Hn as [Hx Hn].
  destruct (P x); [|apply IH, Hn]. cbn [map]. constructor; [|apply IH, Hn].
  intros Hin. apply Hx. apply in_map_iff in Hin.
  destruct Hin as (y & <- & Hy). apply filter_In in Hy.
  apply in_map, Hy.
Qed.

(** Removing a peer takes its keys out of the set. *)
Lemma corr_remove (set : gset hash) (vs : list (Z * gset hash)) (id : Z)
  (D0 : gset hash) :
  corr set vs -> In (id, D0) vs ->
  corr (set ∖ D0) (List.filter (fun v => negb (fst v =? id)) vs).
Proof.
  intros (Hn & Hs & Hu) Hin. split; [apply nodup_map_filter, Hn|]. split.
  - intros h. rewrite elem_of_difference, Hs. split.
    + intros [(v & Hv & Hh) Hh0]. exists v. split; [|exact Hh].
      apply filter_In. split; [exact Hv|].
      destruct (fst v =? id) eqn:E; [|reflexivity]. exfalso.
      apply Z.eqb_eq in E. destruct v as [i A]. cbn in E. subst i.
      rewrite (nodup_fst_inj vs id A D0 Hn Hv Hin) in Hh. contradiction.
    + intros (v & Hv & Hh). apply filter_In in Hv. destruct Hv as [Hv E].
      split; [exists v; auto|]. intros Hh0.
      apply negb_true_iff, Z.eqb_neq in E. apply E.
      apply (Hu h v (id, D0)); assumption.
  - intros h v w Hv Hw. apply filter_In in Hv, Hw.
    apply Hu; [apply Hv|apply Hw].
Qed.
(** A new peer with an empty table. *)
Lemma corr_add (set : gset hash) (vs : list (Z * gset hash)) (id : Z) :
  corr set vs -> ~ In id (map fst vs) -> corr set (vs ++ [(id, ∅)]).
Proof.
  intros (Hn & Hs & Hu) Hid. split.
  - rewrite map_app. cbn [map fst].
    apply List.NoDup_app; [exact Hn|repeat constructor; intros []|].
    intros a Ha [<-|[]]. contradiction.
  - split.
    + intros h. rewrite Hs. split.
      * intros (v & Hv & Hh). exists v. split; [|exact Hh].
        apply in_or_app. left. exact Hv.
      * intros (v & Hv & Hh). apply in_app_or in Hv.
        destruct Hv as [Hv|[<-|[]]]; [exists v; auto|].
        cbn in Hh. apply elem_of_empty in Hh. destruct Hh.
    + intros h v w Hv Hw Hhv Hhw. apply in_app_or in Hv, Hw.
      destruct Hv as [Hv|[<-|[]]];
        [|cbn in Hhv; apply elem_of_empty in Hhv; destruct Hhv].
      destruct Hw as [Hw|[<-|[]]];
        [|cbn in Hhw; apply elem_of_empty in Hhw; destruct Hhw].
      apply (Hu h); assumption.
Qed.

(** ** The correspondence in the pool *)

Lemma table_eq_dec (t t' : table) : {t = t'} + {t <> t'}.
Proof. decide equality. Qed.

Lemma views_ids (t : table) (pl : btc_pool) :
  map fst (views t pl) = map peer_id (pool_peers pl).
Proof. unfold views. rewrite map_map. reflexivity. Qed.

Lemma tables_ok_ids (pl : btc_pool) :
  tables_ok pl -> List.NoDup (map peer_id (pool_peers pl)).
Proof.
  intros H. destruct (H BLOCKS) as [Hn _]. rewrite views_ids in Hn.
  exact Hn.
Qed.

Lemma nodup_map_inj {A B : Type} (f : A -> B) (l : list A) (x y : A) :
  List.NoDup (map f l) -> In x l -> In y l -> f x = f y -> x = y.
Proof.
  induction l as [|z l IH]; intros Hn Hx Hy E; [destruct Hx|].
  cbn [map] in Hn. apply List.NoDup_cons_iff in Hn. destruct Hn as [Hz Hn].
  destruct Hx as [->|Hx], Hy as [->|Hy].
  - reflexivity.
  - exfalso. apply Hz. rewrite E. apply in_map, Hy.
  - exfalso. apply Hz. rewrite <- E. apply in_map, Hx.
  - apply IH; assumption.
Qed.

Lemma find_peer_in (id : Z) (pl : btc_pool) (p : btc_peer) :
  find_peer id pl = Some p -> In p (pool_peers pl) /\ peer_id p = id.
Proof.
  unfold find_peer. intros H. apply find_some in H.
  destruct H as [H1 H2]. apply Z.eqb_eq in H2. auto.
Qed.

Lemma find_peer_view (t : table) (id : Z) (pl : btc_pool) (p : btc_peer) :
  find_peer id pl = Some p -> In (id, peer_tab t p) (views t pl).
Proof.
  intros H. apply find_peer_in in H. destruct H as [H <-].
  apply (in_map (view t)), H.
Qed.

Lemma views_upd_peer (t : table) (id : Z) (f : btc_peer -> btc_peer)
  (pl : btc_pool) (p : btc_peer) :
  List.NoDup (map peer_id (pool_peers pl)) ->
  find_peer id pl = Some p ->
  views t (upd_peer id f pl) = upd_view id (view t (f p)) (views t pl).
Proof.
  intros Hn Hp. destruct (find_peer_in _ _ _ Hp) as [Hin Hid].
  unfold views, upd_peer, upd_view. cbn [pool_peers set_pool_peers].
  rewrite !map_map. apply map_ext_in. intros q Hq. cbn [view fst].
  destruct (peer_id q =? id) eqn:E; [|reflexivity].
  apply Z.eqb_eq in E.
  rewrite (nodup_map_inj peer_id _ q p Hn Hq Hin); congruence.
Qed.

Lemma upd_peer_none (id : Z) (f : btc_peer -> btc_peer) (pl : btc_pool) :
  find_peer id pl = None ->
  pool_peers (upd_peer id f pl) = pool_peers pl.
Proof.
  unfold find_peer, upd_peer. cbn [pool_peers set_pool_peers]. intros H.
  rewrite <- (map_id (pool_peers pl)) at 2. apply map_ext_in.
  intros q Hq. rewrite (find_none _ _ H q Hq). reflexivity.
Qed.

Lemma upd_view_same (id : Z) (D : gset hash) (vs : list (Z * gset hash)) :
  List.NoDup (map fst vs) -> In (id, D) vs -> upd_view id (id, D) vs = vs.
Proof.
  intros Hn Hin. unfold upd_view.
  rewrite <- (map_id vs) at 2. apply map_ext_in. intros [i A] Hw.
  cbn [fst]. destruct (i =? id) eqn:E; [|reflexivity].
  apply Z.eqb_eq in E. subst i. f_equal.
  apply (nodup_fst_inj vs id); assumption.
Qed.

Lemma same_tables_refl (pl : btc_pool) : same_tables pl pl.
Proof. intros t. split; reflexivity. Qed.

Lemma same_tables_trans (pl1 pl2 pl3 : btc_pool) :
  same_tables pl1 pl2 -> same_tables pl2 pl3 -> same_tables pl1 pl3.
Proof.
  intros H1 H2 t. destruct (H1 t) as [A1 B1], (H2 t) as [A2 B2].
  split; congruence.
Qed.
Lemma tables_ok_same (pl pl' : btc_pool) :
  tables_ok pl -> same_tables pl pl' -> tables_ok pl'.
Proof.
  intros H Hs t. destruct (Hs t) as [-> ->]. apply H.
Qed.

(** A pool with the same peers and the same sets. *)
Lemma same_tables_fields (pl pl' : btc_pool) :
  pool_peers pl' = pool_peers pl ->
  (forall t, pool_set t pl' = pool_set t pl) ->
  same_tables pl pl'.
Proof.
  intros Hp Hs t. split; [apply Hs|]. unfold views. rewrite Hp.
  reflexivity.
Qed.

(** A write to a peer that leaves its id and its tables. *)
Lemma same_tables_upd (id : Z) (f : btc_peer -> btc_peer) (pl : btc_pool) :
  List.NoDup (map peer_id (pool_peers pl)) ->
  (forall p t, find_peer id pl = Some p -> view t (f p) = view t p) ->
  same_tables pl (upd_peer id f pl).
Proof.
  intros Hn Hf t. split; [destruct t; reflexivity|].
  destruct (find_peer id pl) as [p|] eqn:Hp.
  - rewrite (views_upd_peer t id f pl p Hn Hp), (Hf p t eq_refl).
    unfold view. destruct (find_peer_in _ _ _ Hp) as [_ ->].
    apply upd_view_same.
    + rewrite views_ids. exact Hn.
    + apply find_peer_view, Hp.
  - unfold views. rewrite upd_peer_none by exact Hp. reflexivity.
Qed.

(** Writing the table [t0] of the peer [id], and the set [t0] with it. *)
Lemma tables_ok_upd (t0 : table) (pl pl' : btc_pool) (id : Z)
  (f : btc_peer -> btc_peer) (p : btc_peer) :
  tables_ok pl ->
  find_peer id pl = Some p ->
  peer_id (f p) = id ->
  pool_peers pl' = pool_peers (upd_peer id f pl) ->
  (forall t, t <> t0 ->
             peer_tab t (f p) = peer_tab t p
             /\ pool_set t pl' = pool_set t pl) ->
  (forall h, h ∈ pool_set t0 pl'
             <-> (h ∈ pool_set t0 pl /\ h ∉ peer_tab t0 p)
                 \/ h ∈ peer_tab t0 (f p)) ->
  (forall h, h ∈ peer_tab t0 (f p) -> h ∉ peer_tab t0 p ->
             h ∉ pool_set t0 pl) ->
  tables_ok pl'.
Proof.
  intros Hok Hp Hid Hpeers Hother Hset Hnew t.
  pose proof (tables_ok_ids pl Hok) as Hn.
  assert (Hv : views t pl'
               = upd_view id (id, peer_tab t (f p)) (views t pl)).
  { unfold views at 1. rewrite Hpeers.
    fold (views t (upd_peer id f pl)).
    rewrite (views_upd_peer t id f pl p Hn Hp). unfold view.
    rewrite Hid. reflexivity. }
  rewrite Hv. destruct (table_eq_dec t t0) as [->|Ht].
  - apply (corr_upd (pool_set t0 pl) _ _ id (peer_tab t0 p)).
    + apply Hok.
    + apply find_peer_view, Hp.
    + exact Hset.
    + exact Hnew.
  - destruct (Hother t Ht) as [-> ->].
    rewrite upd_view_same.
    + apply Hok.
    + rewrite views_ids. exact Hn.
    + apply find_peer_view, Hp.
Qed.

(** The keys of a peer are in the set. *)
Lemma tables_ok_sub (t : table) (pl : btc_pool) (id : Z) (p : btc_peer) :
  tables_ok pl -> find_peer id pl = Some p ->
  peer_tab t p ⊆ pool_set t pl.
Proof.
  intros Hok Hp h Hh. destruct (Hok t) as (_ & Hs & _). apply Hs.
  exists (id, peer_tab t p). split; [apply find_peer_view, Hp|exact Hh].
Qed.

(** New keys [N] for the peer [id], none of them in the set. *)
Lemma tables_ok_insert (t0 : table) (pl pl' : btc_pool) (id : Z)
  (f : btc_peer -> btc_peer) (p : btc_peer) (N : gset hash) :
  tables_ok pl ->
  find_peer id pl = Some p ->
  peer_id (f p) = id ->
  pool_peers pl' = pool_peers (upd_peer id f pl) ->
  (forall t, t <> t0 ->
             peer_tab t (f p) = peer_tab t p
             /\ pool_set t pl' = pool_set t pl) ->
  peer_tab t0 (f p) = N ∪ peer_tab t0 p ->
  pool_set t0 pl' = N ∪ pool_set t0 pl ->
  N ## pool_set t0 pl ->
  tables_ok pl'.
Proof.
  intros Hok Hp Hid Hpeers Hother Htab Hset Hdis.
  pose proof (tables_ok_sub t0 pl id p Hok Hp) as Hsub.
  apply (tables_ok_upd t0 pl pl' id f p); try assumption.
  - intros h. rewrite Htab, Hset, !elem_of_union.
    specialize (Hsub h). destruct (decide (h ∈ peer_tab t0 p)); tauto.
  - intros h. rewrite Htab, elem_of_union. intros [Hh|Hh] Hh0 Hs.
    + apply (Hdis h Hh Hs).
    + contradiction.
Qed.
(** The key [h] of the peer [id] is deleted, from its table and from the
    set. *)
Lemma tables_ok_delete (t0 : table) (pl pl' : btc_pool) (id : Z)
  (f : btc_peer -> btc_peer) (p : btc_peer) (h : hash) :
  tables_ok pl ->
  find_peer id pl = Some p ->
  peer_id (f p) = id ->
  pool_peers pl' = pool_peers (upd_peer id f pl) ->
  (forall t, t <> t0 ->
             peer_tab t (f p) = peer_tab t p
             /\ pool_set t pl' = pool_set t pl) ->
  h ∈ peer_tab t0 p ->
  peer_tab t0 (f p) = peer_tab t0 p ∖ {[h]} ->
  pool_set t0 pl' = pool_set t0 pl ∖ {[h]} ->
  tables_ok pl'.
Proof.
  intros Hok Hp Hid Hpeers Hother Hh Htab Hset.
  pose proof (tables_ok_sub t0 pl id p Hok Hp) as Hsub.
  apply (tables_ok_upd t0 pl pl' id f p); try assumption.
  - intros h'. rewrite Htab, Hset, !elem_of_difference, !elem_of_singleton.
    specialize (Hsub h').
    destruct (decide (h' ∈ peer_tab t0 p)) as [Hin|Hout].
    + split; [tauto|]. intros [[_ Hn]|[_ Hne]]; [contradiction|].
      split; [apply Hsub; assumption|exact Hne].
    + split; [tauto|]. intros [[Hs _]|[Hin _]]; [|contradiction].
      split; [exact Hs|]. intros ->. contradiction.
  - intros h'. rewrite Htab, elem_of_difference. intros [Hin _] Hout.
    contradiction.
Qed.

(** ** What leaves the tables of a peer alone *)

Lemma close_view (t : table) (p : btc_peer) :
  view t (btc_peer_close p) = view t p.
Proof. destruct t; reflexivity. Qed.

Lemma write_view (t : table) (now : Z) (p : btc_peer) (data : list byte) :
  view t (snd (btc_peer_write now p data)) = view t p.
Proof.
  unfold btc_peer_write, btc_socket_write.
  destruct (sock_rc (peer_socket p) (sock_nwrites (peer_socket p)) =? -1);
    destruct t; reflexivity.
Qed.

Lemma sendmsg_view (C : msg_codec) (t : table) (now : Z) (p : btc_peer)
  (m : btc_msg) :
  view t (btc_peer_sendmsg C now p m) = view t p.
Proof. apply write_view. Qed.

Lemma send_getblocks_view (C : msg_codec) (t : table) (now : Z)
  (p : btc_peer) (locator : list hash) (stop : option hash) :
  view t (btc_peer_send_getblocks C now p locator stop) = view t p.
Proof.
  unfold btc_peer_send_getblocks. rewrite sendmsg_view.
  destruct t; reflexivity.
Qed.

Lemma send_getheaders_view (C : msg_codec) (t : table) (now : Z)
  (p : btc_peer) (locator : list hash) (stop : option hash) :
  view t (btc_peer_send_getheaders C now p locator stop) = view t p.
Proof.
  unfold btc_peer_send_getheaders. rewrite sendmsg_view.
  destruct t; reflexivity.
Qed.

Lemma send_mempool_view (K : btc_consts) (C : msg_codec) (t : table)
  (now : Z) (p : btc_peer) :
  view t (btc_peer_send_mempool K C now p) = view t p.
Proof.
  unfold btc_peer_send_mempool.
  destruct (_ =? 0); [reflexivity|apply sendmsg_view].
Qed.

(** A write to a peer by a function that leaves the id and the tables of
    every peer. *)
Lemma same_tables_upd_all (id : Z) (f : btc_peer -> btc_peer)
  (pl : btc_pool) :
  (forall q t, view t (f q) = view t q) ->
  same_tables pl (upd_peer id f pl).
Proof.
  intros Hf t. split; [destruct t; reflexivity|].
  unfold views, upd_peer. cbn [pool_peers set_pool_peers].
  rewrite map_map. apply map_ext. intros q.
  destruct (peer_id q =? id); [apply Hf|reflexivity].
Qed.

Lemma same_tables_ban (pl : btc_pool) (addr : btc_netaddr) :
  same_tables pl (btc_pool_ban pl addr).
Proof.
  unfold btc_pool_ban. destruct (btc_peers_get pl addr) as [q|].
  - apply (same_tables_trans _
             (set_pool_addrman
                (btc_addrman_remove (btc_addrman_ban (pool_addrman pl) addr)
                   addr) pl)).
    + apply same_tables_fields; [reflexivity|destruct t; reflexivity].
    + apply same_tables_upd_all. intros. apply close_view.
  - apply same_tables_fields; [reflexivity|destruct t; reflexivity].
Qed.

Lemma same_tables_increase_ban (pl : btc_pool) (id score : Z) :
  same_tables pl (snd (btc_peer_increase_ban pl id score)).
Proof.
  unfold btc_peer_increase_ban.
  set (pl1 := upd_peer id _ pl).
  assert (H1 : same_tables pl pl1).
  { apply same_tables_upd_all. intros q t. destruct t; reflexivity. }
  destruct (find_peer id pl1) as [p|]; [|exact H1].
  destruct (peer_ban_score p >=? 100); [|exact H1].
  cbn [snd]. apply (same_tables_trans _ pl1); [exact H1|].
  apply same_tables_ban.
Qed.
(** ** Requests *)

Lemma request_loop_spec (synced : bool) (step : Z) (type : btc_invtype)
  (hashes : list hash) :
  forall (set : gset hash) (tab : gmap hash Z) (now : Z)
         (inv : list btc_invitem),
  exists N,
    (request_loop synced step type hashes set tab now inv).1.1 = N ∪ set
    /\ dom (request_loop synced step type hashes set tab now inv).1.2
       = N ∪ dom tab
    /\ N ## set.
Proof.
  induction hashes as [|h hashes IH]; intros set tab now inv;
    cbn [request_loop].
  - exists ∅. cbn. rewrite !union_empty_l_L. split; [reflexivity|].
    split; [reflexivity|]. apply disjoint_empty_l.
  - destruct (bool_decide (h ∈ set)) eqn:E; [apply IH|].
    apply bool_decide_eq_false_1 in E.
    destruct (IH ({[h]} ∪ set) (<[h := now]> tab)
                (if synced then now + step else now)
                (inv ++ [{| inv_type := type; inv_hash := h |}]))
      as (N & H1 & H2 & H3).
    exists (N ∪ {[h]}). rewrite H1, H2, dom_insert_L.
    split; [apply (assoc_L (∪))|]. split; [apply (assoc_L (∪))|].
    apply disjoint_union_l. split.
    + apply disjoint_union_r in H3. apply H3.
    + apply disjoint_singleton_l. exact E.
Qed.

Lemma request_blocks_ok (K : btc_consts) (C : msg_codec) (pl : btc_pool)
  (id : Z) (hashes : list hash) (now : Z) :
  tables_ok pl -> tables_ok (btc_pool_request_blocks K C pl id hashes now).
Proof.
  intros Hok. unfold btc_pool_request_blocks.
  destruct (find_peer id pl) as [p|] eqn:Hp; [|exact Hok].
  destruct (negb _); [exact Hok|].
  destruct (request_loop_spec (btc_chain_synced (pool_chain pl)) 100
              (btc_peer_block_type K (pool_bip152_enabled pl) p) hashes
              (pool_block_map pl) (peer_block_map p) now [])
    as (N & H1 & H2 & H3).
  destruct (request_loop _ _ _ _ _ _ _ _) as [[set tab] inv].
  cbn [fst snd] in H1, H2.
  set (pl1 := set_pool_block_map set
                (upd_peer id (set_peer_block_map tab) pl)).
  assert (Hok1 : tables_ok pl1).
  { apply (tables_ok_insert BLOCKS pl pl1 id (set_peer_block_map tab) p N);
      try assumption; try reflexivity.
    - apply (find_peer_in _ _ _ Hp).
    - intros [| |] Ht; try contradiction; split; reflexivity. }
  destruct (Nat.eqb (length inv) 0); [exact Hok1|].
  destruct (_ >=? _).
  - apply (tables_ok_same pl1); [exact Hok1|].
    apply same_tables_upd_all. intros. apply close_view.
  - apply (tables_ok_same pl1); [exact Hok1|].
    apply same_tables_upd_all. intros. apply sendmsg_view.
Qed.

Lemma request_txs_ok (K : btc_consts) (C : msg_codec) (pl : btc_pool)
  (id : Z) (hashes : list hash) (now : Z) :
  tables_ok pl -> tables_ok (btc_pool_request_txs K C pl id hashes now).
Proof.
  intros Hok. unfold btc_pool_request_txs.
  destruct (find_peer id pl) as [p|] eqn:Hp; [|exact Hok].
  destruct (negb _); [exact Hok|].
  destruct (request_loop_spec (btc_chain_synced (pool_chain pl)) 50
              (btc_peer_tx_type K p) hashes
              (pool_tx_map pl) (peer_tx_map p) now [])
    as (N & H1 & H2 & H3).
  destruct (request_loop _ _ _ _ _ _ _ _) as [[set tab] inv].
  cbn [fst snd] in H1, H2.
  set (pl1 := set_pool_tx_map set (upd_peer id (set_peer_tx_map tab) pl)).
  assert (Hok1 : tables_ok pl1).
  { apply (tables_ok_insert TXS pl pl1 id (set_peer_tx_map tab) p N);
      try assumption; try reflexivity.
    - apply (find_peer_in _ _ _ Hp).
    - intros [| |] Ht; try contradiction; split; reflexivity. }
  destruct (Nat.eqb (length inv) 0); [exact Hok1|].
  destruct (_ >=? _).
  - apply (tables_ok_same pl1); [exact Hok1|].
    apply same_tables_upd_all. intros. apply close_view.
  - apply (tables_ok_same pl1); [exact Hok1|].
    apply same_tables_upd_all. intros. apply sendmsg_view.
Qed.

(** ** Resolving *)

Lemma resolve_block_ok (pl pl' : btc_pool) (id : Z) (h : hash) (b : bool) :
  tables_ok pl -> btc_pool_resolve_block pl id h = Some (b, pl') ->
  tables_ok pl'.
Proof.
  intros Hok. unfold btc_pool_resolve_block.
  destruct (find_peer id pl) as [p|] eqn:Hp;
    [|intros H; injection H as <- <-; exact Hok].
  destruct (peer_block_map p !! h) as [x|] eqn:Eh;
    [|intros H; injection H as <- <-; exact Hok].
  destruct (bool_decide (h ∈ pool_block_map pl)); [|discriminate].
  intros H. injection H as <- <-.
  apply (tables_ok_delete BLOCKS pl _ id
           (set_peer_block_map (delete h (peer_block_map p))) p h);
    try assumption; try reflexivity.
  - apply (find_peer_in _ _ _ Hp).
  - intros [| |] Ht; try contradiction; split; reflexivity.
  - apply elem_of_dom. exists x. exact Eh.
  - apply dom_delete_L.
Qed.
Lemma resolve_tx_ok (pl pl' : btc_pool) (id : Z) (h : hash) (b : bool) :
  tables_ok pl -> btc_pool_resolve_tx pl id h = Some (b, pl') ->
  tables_ok pl'.
Proof.
  intros Hok. unfold btc_pool_resolve_tx.
  destruct (find_peer id pl) as [p|] eqn:Hp;
    [|intros H; injection H as <- <-; exact Hok].
  destruct (peer_tx_map p !! h) as [x|] eqn:Eh;
    [|intros H; injection H as <- <-; exact Hok].
  destruct (bool_decide (h ∈ pool_tx_map pl)); [|discriminate].
  intros H. injection H as <- <-.
  apply (tables_ok_delete TXS pl _ id
           (set_peer_tx_map (delete h (peer_tx_map p))) p h);
    try assumption; try reflexivity.
  - apply (find_peer_in _ _ _ Hp).
  - intros [| |] Ht; try contradiction; split; reflexivity.
  - apply elem_of_dom. exists x. exact Eh.
  - apply dom_delete_L.
Qed.

Lemma resolve_item_ok (pl pl' : btc_pool) (id : Z) (item : btc_invitem)
  (b : bool) :
  tables_ok pl -> btc_pool_resolve_item pl id item = Some (b, pl') ->
  tables_ok pl'.
Proof.
  intros Hok. unfold btc_pool_resolve_item.
  destruct (inv_type item);
    try apply (resolve_tx_ok _ _ _ _ _ Hok);
    try apply (resolve_block_ok _ _ _ _ _ Hok).
  intros H. injection H as <- <-. exact Hok.
Qed.

Lemma on_notfound_ok (id : Z) (items : list btc_invitem) :
  forall pl pl',
    tables_ok pl -> btc_pool_on_notfound pl id items = Some pl' ->
    tables_ok pl'.
Proof.
  induction items as [|item items IH]; intros pl pl' Hok;
    cbn [btc_pool_on_notfound].
  - intros H. injection H as <-. exact Hok.
  - destruct (btc_pool_resolve_item pl id item) as [[b pl1]|] eqn:E;
      [|discriminate].
    apply (resolve_item_ok _ _ _ _ _ Hok) in E. destruct b.
    + apply IH, E.
    + intros H. injection H as <-. apply (tables_ok_same pl1); [exact E|].
      apply same_tables_upd_all. intros. apply close_view.
Qed.

(** ** Compact blocks *)

Lemma cmpctblock_unrequested_ok (pl pl' : btc_pool) (id : Z) (h : hash)
  (now : Z) :
  tables_ok pl -> cmpctblock_unrequested pl id h now = Some pl' ->
  tables_ok pl'.
Proof.
  intros Hok. unfold cmpctblock_unrequested.
  destruct (find_peer id pl) as [p|] eqn:Hp;
    [|intros H; injection H as <-; exact Hok].
  destruct (peer_block_map p !! h);
    [intros H; injection H as <-; exact Hok|].
  destruct (negb _).
  { intros H. injection H as <-. apply (tables_ok_same pl); [exact Hok|].
    apply same_tables_upd_all. intros. apply close_view. }
  destruct (bool_decide (h ∈ pool_block_map pl)) eqn:E; [discriminate|].
  apply bool_decide_eq_false_1 in E.
  intros H. injection H as <-.
  apply (tables_ok_insert BLOCKS pl _ id
           (fun q =>
              set_peer_block_map (<[h := now]> (peer_block_map q))
                (set_peer_inv_filter (h :: peer_inv_filter q) q)) p {[h]});
    try assumption; try reflexivity.
  - apply (find_peer_in _ _ _ Hp).
  - intros [| |] Ht; try contradiction; split; reflexivity.
  - apply dom_insert_L.
  - apply disjoint_singleton_l. exact E.
Qed.

Lemma cmpctblock_store_ok (pl pl' : btc_pool) (id : Z) (h : hash)
  (now : Z) :
  tables_ok pl -> cmpctblock_store pl id h now = Some pl' ->
  tables_ok pl'.
Proof.
  intros Hok. unfold cmpctblock_store.
  destruct (find_peer id pl) as [p|] eqn:Hp;
    [|intros H; injection H as <-; exact Hok].
  destruct (bool_decide (is_Some _));
    [intros H; injection H as <-; exact Hok|].
  destruct (bool_decide (h ∈ pool_compact_map pl)) eqn:E;
    [intros H; injection H as <-; exact Hok|].
  apply bool_decide_eq_false_1 in E.
  destruct (_ >=? 15).
  { intros H. injection H as <-. apply (tables_ok_same pl); [exact Hok|].
    apply same_tables_upd_all. intros. apply close_view. }
  intros H. injection H as <-.
  apply (tables_ok_insert COMPACT pl _ id
           (set_peer_compact_map (<[h := now]> (peer_compact_map p))) p
           {[h]});
    try assumption; try reflexivity.
  - apply (find_peer_in _ _ _ Hp).
  - intros [| |] Ht; try contradiction; split; reflexivity.
  - apply dom_insert_L.
  - apply disjoint_singleton_l. exact E.
Qed.
Lemma blocktxn_take_ok (pl pl' : btc_pool) (id : Z) (h : hash) :
  tables_ok pl -> blocktxn_take pl id h = Some pl' -> tables_ok pl'.
Proof.
  intros Hok. unfold blocktxn_take.
  destruct (find_peer id pl) as [p|] eqn:Hp;
    [|intros H; injection H as <-; exact Hok].
  destruct (peer_compact_map p !! h) as [x|] eqn:Eh;
    [|intros H; injection H as <-; exact Hok].
  destruct (bool_decide (h ∈ pool_compact_map pl)); [|discriminate].
  intros H. injection H as <-.
  apply (tables_ok_delete COMPACT pl _ id
           (set_peer_compact_map (delete h (peer_compact_map p))) p h);
    try assumption; try reflexivity.
  - apply (find_peer_in _ _ _ Hp).
  - intros [| |] Ht; try contradiction; split; reflexivity.
  - apply elem_of_dom. exists x. exact Eh.
  - apply dom_delete_L.
Qed.

(** ** Peers that come and go *)

Lemma peers_add_ok (pl pl' : btc_pool) (peer : btc_peer) :
  (forall t, peer_tab t peer = ∅) ->
  tables_ok pl -> btc_peers_add pl peer = Some pl' -> tables_ok pl'.
Proof.
  intros Hempty Hok. unfold btc_peers_add.
  destruct (btc_peers_has pl (peer_addr peer)); [discriminate|].
  destruct (bool_decide (is_Some (find_peer (peer_id peer) pl))) eqn:E;
    [discriminate|].
  apply bool_decide_eq_false_1 in E.
  assert (Hadd : forall t,
             corr (pool_set t pl)
               (map (view t) (pool_peers pl ++ [peer]))).
  { intros t. rewrite map_app. cbn [map].
    change (view t peer) with (peer_id peer, peer_tab t peer).
    rewrite Hempty. fold (views t pl). apply corr_add; [apply Hok|].
    rewrite views_ids. intros Hin. apply in_map_iff in Hin.
    destruct Hin as (q & Hq & Hin). apply E. unfold find_peer.
    destruct (find (fun q0 => peer_id q0 =? peer_id peer) (pool_peers pl))
      eqn:Ef; [eexists; reflexivity|].
    apply (find_none _ _ Ef q) in Hin. apply Z.eqb_neq in Hin.
    contradiction. }
  intros H. injection H as <-. intros t.
  destruct (peer_outbound peer), t;
    first [exact (Hadd BLOCKS)|exact (Hadd TXS)|exact (Hadd COMPACT)].
Qed.

Lemma views_filter (t : table) (id : Z) (l : list btc_peer) :
  map (view t) (List.filter (fun q => negb (peer_id q =? id)) l)
  = List.filter (fun v => negb (fst v =? id)) (map (view t) l).
Proof.
  induction l as [|q l IH]; [reflexivity|].
  cbn [List.filter map view fst].
  destruct (negb (peer_id q =? id)); cbn [map]; rewrite IH; reflexivity.
Qed.

Lemma peers_remove_fields (pl pl' : btc_pool) (id : Z) :
  btc_peers_remove pl id = Some pl' ->
  pool_peers pl'
  = List.filter (fun q => negb (peer_id q =? id)) (pool_peers pl)
  /\ forall t, pool_set t pl' = pool_set t pl.
Proof.
  unfold btc_peers_remove.
  destruct (find_peer id pl) as [p|]; [|discriminate].
  destruct (negb _); [discriminate|].
  destruct (bool_decide (pool_load pl = Some id));
    [destruct (peer_loader p); [|discriminate]|];
    destruct (peer_outbound p); intros H; injection H as <-;
    (split; [reflexivity|intros t; destruct t; reflexivity]).
Qed.

Lemma remove_peer_ok (pl pl' : btc_pool) (id : Z) :
  tables_ok pl -> btc_pool_remove_peer pl id = Some pl' -> tables_ok pl'.
Proof.
  intros Hok. unfold btc_pool_remove_peer.
  destruct (find_peer id pl) as [p|] eqn:Hp; [|discriminate].
  destruct (btc_peers_remove pl id) as [pl1|] eqn:Er; [|discriminate].
  destruct (peers_remove_fields _ _ _ Er) as [Hpeers Hsets].
  unfold remove_keys.
  destruct (bool_decide (dom (peer_block_map p) ⊆ pool_block_map pl1));
    [|discriminate].
  destruct (bool_decide (dom (peer_tx_map p) ⊆ pool_tx_map pl1));
    [|discriminate].
  destruct (bool_decide (dom (peer_compact_map p) ⊆ pool_compact_map pl1));
    [|discriminate].
  intros H. injection H as <-. intros t.
  replace (views t _)
    with (List.filter (fun v => negb (fst v =? id)) (views t pl)).
  2:{ unfold views.
      cbn [pool_peers set_pool_compact_map set_pool_tx_map
             set_pool_block_map].
      rewrite Hpeers. symmetry. apply views_filter. }
  replace (pool_set t _) with (pool_set t pl ∖ peer_tab t p).
  2:{ rewrite <- (Hsets t). destruct t; reflexivity. }
  apply corr_remove; [apply Hok|apply find_peer_view, Hp].
Qed.

(** ** An [inv] *)

Lemma blockinv_loop_same (C : msg_codec) (id now : Z) (hashes : list hash) :
  forall pl out pl' out',
    blockinv_loop C pl id hashes out now = Some (pl', out') ->
    same_tables pl pl'.
Proof.
  induction hashes as [|h hashes IH]; intros pl out pl' out';
    cbn [blockinv_loop].
  - intros H. injection H as <- <-. apply same_tables_refl.
  - destruct (btc_chain_has_invalid (pool_chain pl) h); [apply IH|].
    destruct (btc_chain_has_orphan (pool_chain pl) h).
    { unfold btc_pool_resolve_orphan.
      destruct (btc_chain_get_orphan_root (pool_chain pl) h);
        [|discriminate].
      intros H. apply IH in H.
      refine (same_tables_trans _ _ _ _ H).
      apply same_tables_upd_all. intros. apply send_getblocks_view. }
    destruct (negb (btc_chain_has_hash (pool_chain pl) h)); [apply IH|].
    destruct (Nat.eqb (length hashes) 0); [|apply IH].
    intros H. apply IH in H.
    refine (same_tables_trans _ _ _ _ H).
    apply same_tables_upd_all. intros. apply send_getblocks_view.
Qed.
Lemma on_blockinv_ok (K : btc_consts) (C : msg_codec) (pl pl' : btc_pool)
  (id : Z) (hashes : list hash) (now : Z) :
  tables_ok pl -> btc_pool_on_blockinv K C pl id hashes now = Some pl' ->
  tables_ok pl'.
Proof.
  intros Hok. unfold btc_pool_on_blockinv.
  destruct (find_peer id pl) as [p|];
    [|intros H; injection H as <-; exact Hok].
  destruct (Nat.eqb (length hashes) 0); [discriminate|].
  set (pl0 := upd_peer id (set_peer_gb_time (-1)) pl).
  assert (Hok0 : tables_ok pl0).
  { apply (tables_ok_same pl); [exact Hok|].
    apply same_tables_upd_all. intros q t. destruct t; reflexivity. }
  destruct (_ && _); [intros H; injection H as <-; exact Hok0|].
  destruct (pool_checkpoints pl0);
    [intros H; injection H as <-; exact Hok0|].
  destruct (blockinv_loop C pl0 id hashes [] now) as [[pl1 out]|] eqn:E;
    [|discriminate].
  apply blockinv_loop_same in E.
  intros H. injection H as <-. apply request_blocks_ok.
  apply (tables_ok_same pl0); assumption.
Qed.

Lemma on_inv_ok (K : btc_consts) (C : msg_codec) (pl pl' : btc_pool)
  (id : Z) (items : list btc_invitem) (now : Z) :
  tables_ok pl -> btc_pool_on_inv K C pl id items now = Some pl' ->
  tables_ok pl'.
Proof.
  intros Hok. unfold btc_pool_on_inv.
  destruct (_ >? _).
  { intros H. injection H as <-. apply (tables_ok_same pl); [exact Hok|].
    apply same_tables_increase_ban. }
  set (pl0 := upd_peer id _ pl).
  assert (Hok0 : tables_ok pl0).
  { apply (tables_ok_same pl); [exact Hok|].
    apply same_tables_upd_all. intros q t. destruct t; reflexivity. }
  destruct (if Nat.ltb 0 (length (inv_hashes BTC_INV_BLOCK items))
            then btc_pool_on_blockinv K C pl0 id
                   (inv_hashes BTC_INV_BLOCK items) now
            else Some pl0) as [pl1|] eqn:E; [|discriminate].
  assert (Hok1 : tables_ok pl1).
  { destruct (Nat.ltb 0 (length (inv_hashes BTC_INV_BLOCK items))).
    - apply (on_blockinv_ok K C pl0 pl1 id _ now Hok0 E).
    - injection E as <-. exact Hok0. }
  destruct (Nat.ltb 0 (length (inv_hashes BTC_INV_TX items)));
    [|intros H; injection H as <-; exact Hok1].
  unfold btc_pool_on_txinv.
  destruct (Nat.eqb _ 0); [discriminate|].
  destruct (negb _); intros H; injection H as <-; [exact Hok1|].
  apply request_txs_ok, Hok1.
Qed.

(** ** A peer disconnects *)

Lemma send_locator_ok (K : btc_consts) (C : msg_codec) (pl pl' : btc_pool)
  (id : Z) (locator : list hash) (now : Z) (b : bool) :
  tables_ok pl ->
  btc_pool_send_locator K C pl id locator now = Some (b, pl') ->
  tables_ok pl'.
Proof.
  intros Hok. pose proof (tables_ok_ids pl Hok) as Hn.
  unfold btc_pool_send_locator.
  destruct (find_peer id pl) as [p|] eqn:Hp;
    [|intros H; injection H as <- <-; exact Hok].
  destruct (negb (btc_pool_is_syncable pl p));
    [intros H; injection H as <- <-; exact Hok|].
  set (p1 := if _ && _ then btc_peer_send_mempool K C now p else p).
  assert (H1 : forall t, view t p1 = view t p).
  { intros t. unfold p1. destruct (_ && _);
      [apply send_mempool_view|reflexivity]. }
  set (p2 := set_peer_block_time now (set_peer_syncing true p1)).
  assert (H2 : forall t, view t p2 = view t p).
  { intros t. rewrite <- H1. destruct t; reflexivity. }
  destruct (pool_checkpoints pl).
  - destruct (pool_header_tip pl) as [tip|]; [|discriminate].
    intros H. injection H as <- <-.
    apply (tables_ok_same pl); [exact Hok|].
    apply same_tables_upd; [exact Hn|]. intros p0 t Hp0.
    rewrite Hp in Hp0. injection Hp0 as <-.
    rewrite send_getheaders_view. apply H2.
  - intros H. injection H as <- <-.
    apply (tables_ok_same pl); [exact Hok|].
    apply same_tables_upd; [exact Hn|]. intros p0 t Hp0.
    rewrite Hp in Hp0. injection Hp0 as <-.
    rewrite send_getblocks_view. apply H2.
Qed.

Lemma resync_loop_ok (K : btc_consts) (C : msg_codec) (force : bool)
  (locator : list hash) (now : Z) (ids : list Z) :
  forall pl pl',
    tables_ok pl -> resync_loop K C pl force locator now ids = Some pl' ->
    tables_ok pl'.
Proof.
  induction ids as [|id ids IH]; intros pl pl' Hok; cbn [resync_loop].
  - intros H. injection H as <-. exact Hok.
  - destruct (find_peer id pl) as [p|]; [|apply IH, Hok].
    destruct (negb (peer_outbound p)); [apply IH, Hok|].
    destruct (negb force && peer_syncing p); [apply IH, Hok|].
    destruct (btc_pool_send_locator K C pl id locator now)
      as [[b pl1]|] eqn:E; [|discriminate].
    apply IH. apply (send_locator_ok K C pl pl1 id locator now b Hok E).
Qed.
Lemma reset_chain_same (pl pl' : btc_pool) :
  btc_pool_reset_chain pl = Some pl' -> same_tables pl pl'.
Proof.
  unfold btc_pool_reset_chain.
  repeat match goal with
         | |- context [match ?x with _ => _ end] => destruct x
         end; try discriminate;
    intros H; injection H as <-;
    (apply same_tables_fields; [reflexivity|destruct t; reflexivity]).
Qed.

Lemma on_disconnect_ok (K : btc_consts) (C : msg_codec) (pl pl' : btc_pool)
  (id now : Z) :
  tables_ok pl -> btc_pool_on_disconnect K C pl id now = Some pl' ->
  tables_ok pl'.
Proof.
  intros Hok. unfold btc_pool_on_disconnect.
  destruct (find_peer id pl) as [p|]; [|discriminate].
  destruct (btc_pool_remove_peer pl id) as [pl1|] eqn:Er; [|discriminate].
  apply (remove_peer_ok _ _ _ Hok) in Er.
  destruct (if peer_loader p && pool_checkpoints pl1
            then btc_pool_reset_chain pl1 else Some pl1) as [pl2|] eqn:E2;
    [|discriminate].
  assert (Hok2 : tables_ok pl2).
  { destruct (peer_loader p && pool_checkpoints pl1).
    - apply (tables_ok_same pl1); [exact Er|].
      apply reset_chain_same, E2.
    - injection E2 as <-. exact Er. }
  set (pl3 := set_pool_nonces _ pl2).
  assert (Hok3 : tables_ok pl3).
  { apply (tables_ok_same pl2); [exact Hok2|].
    apply same_tables_fields; [reflexivity|destruct t; reflexivity]. }
  destruct (btc_chain_synced (pool_chain pl3)
            && Nat.ltb 0 (size (peer_block_map p))).
  - unfold btc_pool_resync. apply resync_loop_ok, Hok3.
  - intros H. injection H as <-. exact Hok3.
Qed.

(** ** The invariant *)

Lemma table_step_ok (K : btc_consts) (C : msg_codec) (pl pl' : btc_pool) :
  tables_ok pl -> table_step K C pl pl' -> tables_ok pl'.
Proof.
  intros Hok Hstep. destruct Hstep.
  - eapply peers_add_ok; eassumption.
  - apply request_blocks_ok, Hok.
  - apply request_txs_ok, Hok.
  - eapply on_inv_ok; eassumption.
  - eapply resolve_block_ok; eassumption.
  - eapply resolve_tx_ok; eassumption.
  - eapply on_notfound_ok; eassumption.
  - eapply cmpctblock_unrequested_ok; eassumption.
  - eapply cmpctblock_store_ok; eassumption.
  - eapply blocktxn_take_ok; eassumption.
  - eapply remove_peer_ok; eassumption.
  - eapply on_disconnect_ok; eassumption.
  - eapply tables_ok_same; eassumption.
Qed.

Lemma reachable_ok (K : btc_consts) (C : msg_codec) (pl : btc_pool) :
  reachable K C pl -> tables_ok pl.
Proof.
  induction 1 as [pl Hp Hs|pl pl' _ IH Hstep].
  - intros t. unfold views. rewrite Hp, Hs. split; [constructor|].
    split.
    + intros h. split; [intros Hh; apply elem_of_empty in Hh; destruct Hh|].
      intros (v & [] & _).
    + intros h v w [].
  - apply (table_step_ok K C pl pl' IH Hstep).
Qed.

Lemma tables_ok_owner (pl : btc_pool) (t : table) (h : hash) :
  tables_ok pl -> h ∈ pool_set t pl -> one_owner t pl h.
Proof.
  intros Hok Hh. pose proof (tables_ok_ids pl Hok) as Hn.
  destruct (Hok t) as (_ & Hs & Hu). apply Hs in Hh.
  destruct Hh as (v & Hv & Hh). unfold views in Hv.
  apply in_map_iff in Hv. destruct Hv as (p & <- & Hp).
  exists p. split; [exact Hp|]. split; [exact Hh|]. intros q Hq Hhq.
  apply (nodup_map_inj peer_id (pool_peers pl) q p Hn Hq Hp).
  apply (Hu h (view t q) (view t p)); try assumption;
    apply (in_map (view t)); assumption.
Qed.

(** C1.  In every state that the pool reaches, a hash in the set
    [block_map] of the pool is a key of the table [block_map] of exactly
    one peer, and every key of the table of a peer is in the set; the same
    for [tx_map] and [compact_map].  Every step through the tables
    (requesting blocks or transactions, an [inv], resolving a block or a
    transaction, a [notfound], the compact blocks, adding and removing a
    peer, a disconnect) leads to a state where this holds again. *)
Theorem request_tables_owned (K : btc_consts) (C : msg_codec)
  (pl : btc_pool) :
  reachable K C pl ->
  (forall t h, h ∈ pool_set t pl -> one_owner t pl h)
  /\ (forall t p h,
         In p (pool_peers pl) -> h ∈ peer_tab t p -> h ∈ pool_set t pl)
  /\ (forall pl',
         table_step K C pl pl' ->
         (forall t h, h ∈ pool_set t pl' -> one_owner t pl' h)
         /\ (forall t p h,
                In p (pool_peers pl') -> h ∈ peer_tab t p ->
                h ∈ pool_set t pl')).
Proof.
  intros Hr.
  assert (Hkeys : forall pl0, tables_ok pl0 ->
             forall t p h,
               In p (pool_peers pl0) -> h ∈ peer_tab t p ->
               h ∈ pool_set t pl0).
  { intros pl0 Hok t p h Hp Hh. destruct (Hok t) as (_ & Hs & _).
    apply Hs. exists (view t p). split; [|exact Hh].
    apply (in_map (view t)), Hp. }
  pose proof (reachable_ok K C pl Hr) as Hok.
  split; [intros t h; apply tables_ok_owner, Hok|].
  split; [apply Hkeys, Hok|].
  intros pl' Hstep.
  pose proof (table_step_ok K C pl pl' Hok Hstep) as Hok'.
  split; [intros t h; apply tables_ok_owner, Hok'|apply Hkeys, Hok'].
Qed.
Lemma request_tables_owned_witness :
  reachable Sample.consts Sample.codec Sample.requested_pool
  /\ Sample.hash_n 7 ∈ pool_set BLOCKS Sample.requested_pool
  /\ one_owner BLOCKS Sample.requested_pool (Sample.hash_n 7).
Proof.
  assert (Hr : reachable Sample.consts Sample.codec Sample.requested_pool).
  { unfold Sample.requested_pool. eapply reach_step; [|apply step_request_blocks].
    eapply reach_step.
    - apply (reach_init _ _ (Sample.pool [] (Sample.chain true 5)));
        [reflexivity|intros t; destruct t; reflexivity].
    - apply (step_add _ _ _ _ (Sample.peer 0 true BTC_PEER_CONNECTED)).
      + intros t. destruct t; apply dom_empty_L.
      + reflexivity. }
  assert (Hh : Sample.hash_n 7 ∈ pool_set BLOCKS Sample.requested_pool).
  { refine (bool_decide_unpack _ _). vm_compute. exact I. }
  split; [exact Hr|]. split; [exact Hh|].
  destruct (request_tables_owned Sample.consts Sample.codec
              Sample.requested_pool Hr) as [H1 _].
  apply H1, Hh.
Defined.

(** * More of the pool *)

(** ** The list of peers *)

Lemma netaddr_eqb_refl (a : btc_netaddr) : netaddr_eqb a a = true.
Proof.
  unfold netaddr_eqb. rewrite bool_decide_eq_true_2 by reflexivity.
  apply Z.eqb_refl.
Qed.

Lemma find_app_none {A : Type} (P : A -> bool) (l l' : list A) :
  find P l = None -> find P (l ++ l') = find P l'.
Proof.
  induction l as [|x l IH]; cbn [app find]; [reflexivity|].
  destruct (P x); [discriminate|exact IH].
Qed.

Lemma find_app_some {A : Type} (P : A -> bool) (l l' : list A) (x : A) :
  find P l = Some x -> find P (l ++ l') = Some x.
Proof.
  induction l as [|y l IH]; cbn [app find]; [discriminate|].
  destruct (P y); [auto|exact IH].
Qed.

Lemma peers_has_false (pl : btc_pool) (a : btc_netaddr) :
  btc_peers_has pl a = false -> btc_peers_get pl a = None.
Proof.
  unfold btc_peers_has. intros H. apply bool_decide_eq_false_1 in H.
  destruct (btc_peers_get pl a); [exfalso; apply H; eexists|]; reflexivity.
Qed.

Lemma peers_add_some (pl pl' : btc_pool) (peer : btc_peer) :
  btc_peers_add pl peer = Some pl' ->
  btc_peers_get pl (peer_addr peer) = None
  /\ find_peer (peer_id peer) pl = None
  /\ pl' = (if peer_outbound peer
            then set_pool_outbound (pool_outbound pl + 1)
                   (set_pool_peers (pool_peers pl ++ [peer]) pl)
            else set_pool_inbound (pool_inbound pl + 1)
                   (set_pool_peers (pool_peers pl ++ [peer]) pl)).
Proof.
  unfold btc_peers_add.
  destruct (btc_peers_has pl (peer_addr peer)) eqn:Ea; [discriminate|].
  destruct (bool_decide (is_Some (find_peer (peer_id peer) pl))) eqn:Ei;
    [discriminate|].
  apply bool_decide_eq_false_1 in Ei.
  intros H. injection H as <-. split; [apply peers_has_false, Ea|].
  split; [|reflexivity].
  destruct (find_peer (peer_id peer) pl); [exfalso; apply Ei; eexists|];
    reflexivity.
Qed.

Lemma peers_add_peers (pl pl' : btc_pool) (peer : btc_peer) :
  btc_peers_add pl peer = Some pl' ->
  pool_peers pl' = pool_peers pl ++ [peer].
Proof.
  intros H. apply peers_add_some in H. destruct H as (_ & _ & ->).
  destruct (peer_outbound peer); reflexivity.
Qed.

Lemma peers_add_finds (pl pl' : btc_pool) (peer : btc_peer) :
  btc_peers_add pl peer = Some pl' ->
  find_peer (peer_id peer) pl' = Some peer
  /\ btc_peers_get pl' (peer_addr peer) = Some peer.
Proof.
  intros H. pose proof (peers_add_peers _ _ _ H) as Hpeers.
  apply peers_add_some in H. destruct H as (Ha & Hi & _).
  unfold find_peer, btc_peers_get. rewrite Hpeers. split.
  - rewrite find_app_none by exact Hi.
    cbn [find]. rewrite Z.eqb_refl. reflexivity.
  - rewrite find_app_none by exact Ha.
    cbn [find]. rewrite netaddr_eqb_refl. reflexivity.
Qed.

Lemma filter_id_none (id : Z) (l : list btc_peer) :
  find (fun q => peer_id q =? id) l = None ->
  List.filter (fun q => negb (peer_id q =? id)) l = l.
Proof.
  induction l as [|q l IH]; [reflexivity|]. cbn [find List.filter].
  destruct (peer_id q =? id); [discriminate|].
  cbn [negb]. intros H. f_equal. apply IH, H.
Qed.

(** X1.  [btc_peers_add] aborts exactly when the address or the id of the
    peer is in the list already.  Otherwise the peer is found under its id
    and under its address, the other ids and addresses answer as before, and
    one of the two counters has grown by one. *)
Theorem peers_add_lookup (pl : btc_pool) (peer : btc_peer) :
  (btc_peers_add pl peer = None
   <-> is_Some (btc_peers_get pl (peer_addr peer))
       \/ is_Some (find_peer (peer_id peer) pl))
  /\ forall pl',
       btc_peers_add pl peer = Some pl' ->
       find_peer (peer_id peer) pl' = Some peer
       /\ btc_peers_get pl' (peer_addr peer) = Some peer
       /\ btc_peers_has pl' (peer_addr peer) = true
       /\ (forall id, id <> peer_id peer ->
                      find_peer id pl' = find_peer id pl)
       /\ (forall a, netaddr_eqb (peer_addr peer) a = false ->
                     btc_peers_get pl' a = btc_peers_get pl a)
       /\ pool_outbound pl'
          = pool_outbound pl + (if peer_outbound peer then 1 else 0)
       /\ pool_inbound pl'
          = pool_inbound pl + (if peer_outbound peer then 0 else 1).
Proof.
  split.
  - unfold btc_peers_add, btc_peers_has.
    destruct (bool_decide (is_Some (btc_peers_get pl (peer_addr peer))))
      eqn:Ea.
    + apply bool_decide_eq_true_1 in Ea. split; auto.
    + apply bool_decide_eq_false_1 in Ea.
      destruct (bool_decide (is_Some (find_peer (peer_id peer) pl))) eqn:Ei.
      * apply bool_decide_eq_true_1 in Ei. split; auto.
      * apply bool_decide_eq_false_1 in Ei.
        split; [discriminate|]. intros [H|H]; contradiction.
  - intros pl' H. pose proof (peers_add_peers _ _ _ H) as Hpeers.
    destruct (peers_add_finds _ _ _ H) as [Hfind Hget].
    apply peers_add_some in H. destruct H as (Ha & Hi & Hpl').
    split; [exact Hfind|].
    split; [exact Hget|]. split.
    { unfold btc_peers_has. apply bool_decide_eq_true_2.
      rewrite Hget. eexists. reflexivity. }
    split.
    { intros id Hid. unfold find_peer. rewrite Hpeers.
      destruct (find (fun q => peer_id q =? id) (pool_peers pl)) as [q|]
        eqn:E.
      - apply find_app_some. exact E.
      - rewrite find_app_none by exact E. cbn [find].
        destruct (peer_id peer =? id) eqn:E'; [|reflexivity].
        apply Z.eqb_eq in E'. congruence. }
    split.
    { intros a Hne. unfold btc_peers_get. rewrite Hpeers.
      destruct (find (fun q => netaddr_eqb (peer_addr q) a) (pool_peers pl))
        as [q|] eqn:E.
      - apply find_app_some. exact E.
      - rewrite find_app_none by exact E. cbn [find]. rewrite Hne.
        reflexivity. }
    rewrite Hpl'. destruct (peer_outbound peer); cbn; split; lia.
Qed.

(** X2.  Removing the peer that was just added gives the pool back as it
    was: [btc_peers_remove] undoes [btc_peers_add]. *)
Theorem peers_add_remove (pl pl' : btc_pool) (peer : btc_peer) :
  btc_peers_add pl peer = Some pl' ->
  pool_load pl <> Some (peer_id peer) ->
  btc_peers_remove pl' (peer_id peer) = Some pl.
Proof.
  intros H Hload.
  destruct (peers_add_finds _ _ _ H) as [Hf Hg].
  pose proof (peers_add_peers _ _ _ H) as Hpeers.
  apply peers_add_some in H. destruct H as (Ha & Hi & Hpl').
  unfold btc_peers_remove. rewrite Hf, Hg. cbn [fmap option_fmap option_map].
  rewrite bool_decide_eq_true_2 by reflexivity. cbn [negb].
  assert (Hfilter : List.filter (fun q => negb (peer_id q =? peer_id peer))
                      (pool_peers pl') = pool_peers pl).
  { rewrite Hpeers, List.filter_app. cbn [List.filter].
    rewrite Z.eqb_refl. cbn [negb]. rewrite app_nil_r.
    apply filter_id_none, Hi. }
  rewrite Hfilter.
  assert (Hl' : pool_load pl' = pool_load pl)
    by (rewrite Hpl'; destruct (peer_outbound peer); reflexivity).
  rewrite Hl', bool_decide_eq_false_2 by exact Hload.
  rewrite Hpl'. destruct pl.
  destruct (peer_outbound peer); cbn; rewrite Z.add_simpl_r; reflexivity.
Qed.

Lemma peers_add_remove_witness :
  btc_peers_remove Sample.two_pool 1 = Some Sample.joined_pool.
Proof.
  apply (peers_add_remove Sample.joined_pool Sample.two_pool
           (Sample.peer 1 true BTC_PEER_CONNECTED));
    [reflexivity|discriminate].
Defined.

Lemma nodup_find_none (id : Z) (x : btc_peer) (l : list btc_peer) :
  List.NoDup (map peer_id (x :: l)) -> peer_id x = id ->
  find (fun q => peer_id q =? id) l = None.
Proof.
  intros Hn Hx. cbn [map] in Hn. apply List.NoDup_cons_iff in Hn.
  destruct Hn as [Hx' _].
  destruct (find (fun q => peer_id q =? id) l) as [q|] eqn:E;
    [|reflexivity].
  apply find_some in E. destruct E as [E1 E2]. apply Z.eqb_eq in E2.
  exfalso. apply Hx'. rewrite Hx, <- E2. apply in_map, E1.
Qed.

Lemma filter_remove_count (P : btc_peer -> bool) (id : Z) (p : btc_peer)
  (l : list btc_peer) :
  List.NoDup (map peer_id l) ->
  find (fun q => peer_id q =? id) l = Some p ->
  Z.of_nat (length (List.filter P
                      (List.filter (fun q => negb (peer_id q =? id)) l)))
  = Z.of_nat (length (List.filter P l)) - (if P p then 1 else 0).
Proof.
  induction l as [|x l IH]; intros Hn Hf; [discriminate|].
  cbn [find] in Hf. cbn [List.filter].
  destruct (peer_id x =? id) eqn:E.
  - injection Hf as ->. apply Z.eqb_eq in E. cbn [negb].
    rewrite (filter_id_none id l) by (apply (nodup_find_none id p); assumption).
    destruct (P p); cbn [length]; lia.
  - cbn [negb List.filter]. cbn [map] in Hn.
    apply List.NoDup_cons_iff in Hn. destruct Hn as [_ Hn].
    specialize (IH Hn Hf). destruct (P x); cbn [length]; lia.
Qed.

Lemma peers_ok_add (pl pl' : btc_pool) (peer : btc_peer) :
  peers_ok pl -> btc_peers_add pl peer = Some pl' -> peers_ok pl'.
Proof.
  intros (Hn & Ho & Hi) H.
  pose proof (peers_add_peers _ _ _ H) as Hpeers.
  apply peers_add_some in H. destruct H as (_ & Hfresh & Hpl').
  unfold peers_ok. rewrite Hpeers, map_app, !List.filter_app, !length_app.
  split.
  - apply List.NoDup_app; [exact Hn|repeat constructor; intros []|].
    intros a Ha [<-|[]]. apply in_map_iff in Ha.
    destruct Ha as (q & Hq & Hin). unfold find_peer in Hfresh.
    apply (find_none _ _ Hfresh q) in Hin. apply Z.eqb_neq in Hin.
    contradiction.
  - rewrite Hpl'. cbn [List.filter].
    destruct (peer_outbound peer); cbn; split; lia.
Qed.

Lemma peers_ok_remove (pl pl' : btc_pool) (id : Z) :
  peers_ok pl -> btc_peers_remove pl id = Some pl' -> peers_ok pl'.
Proof.
  intros (Hn & Ho & Hi). unfold btc_peers_remove.
  destruct (find_peer id pl) as [p|] eqn:Hp; [|discriminate].
  destruct (negb _); [discriminate|].
  pose proof (filter_remove_count peer_outbound id p (pool_peers pl) Hn Hp)
    as Hco.
  pose proof (filter_remove_count (fun q => negb (peer_outbound q)) id p
                (pool_peers pl) Hn Hp) as Hci.
  assert (Hn' : List.NoDup
                  (map peer_id
                     (List.filter (fun q => negb (peer_id q =? id))
                        (pool_peers pl))))
    by (apply nodup_map_filter, Hn).
  cbn beta in Hco, Hci.
  destruct (bool_decide (pool_load pl = Some id));
    [destruct (peer_loader p); [|discriminate]|];
    destruct (peer_outbound p); intros H; injection H as <-;
    (split; [exact Hn'|];
     cbn [pool_outbound pool_inbound pool_peers set_pool_outbound
            set_pool_inbound set_pool_peers set_pool_load];
     rewrite Hco, Hci; cbn [negb]; split; lia).
Qed.

(** ** What the invariants of the list do not see *)

Lemma same_flags_refl (pl : btc_pool) : same_flags pl pl.
Proof. repeat split. Qed.

Lemma same_flags_trans (pl1 pl2 pl3 : btc_pool) :
  same_flags pl1 pl2 -> same_flags pl2 pl3 -> same_flags pl1 pl3.
Proof.
  intros (A1 & A2 & A3 & A4 & A5) (B1 & B2 & B3 & B4 & B5).
  repeat split; congruence.
Qed.

Lemma same_flags_fields (pl pl' : btc_pool) :
  pool_peers pl' = pool_peers pl ->
  pool_outbound pl' = pool_outbound pl ->
  pool_inbound pl' = pool_inbound pl ->
  pool_max_outbound pl' = pool_max_outbound pl ->
  pool_load pl' = pool_load pl ->
  same_flags pl pl'.
Proof. intros Hp; repeat split; try assumption. rewrite Hp. reflexivity. Qed.

Lemma flags_ids (l : list btc_peer) :
  map peer_id l = map (fun v : Z * bool * bool => fst (fst v))
                    (map peer_flags l).
Proof. rewrite map_map. reflexivity. Qed.

Lemma filter_out_length (l : list btc_peer) :
  length (List.filter peer_outbound l)
  = length (List.filter (fun v : Z * bool * bool => snd (fst v))
              (map peer_flags l)).
Proof.
  induction l as [|q l IH]; [reflexivity|].
  cbn [map List.filter peer_flags fst snd].
  destruct (peer_outbound q); cbn [length]; rewrite IH; reflexivity.
Qed.

Lemma filter_in_length (l : list btc_peer) :
  length (List.filter (fun q => negb (peer_outbound q)) l)
  = length (List.filter (fun v : Z * bool * bool => negb (snd (fst v)))
              (map peer_flags l)).
Proof.
  induction l as [|q l IH]; [reflexivity|].
  cbn [map List.filter peer_flags fst snd].
  destruct (peer_outbound q); cbn [length negb]; rewrite IH; reflexivity.
Qed.

Lemma peers_ok_same (pl pl' : btc_pool) :
  peers_ok pl -> same_flags pl pl' -> peers_ok pl'.
Proof.
  intros (Hn & Hco & Hci) (Hf & Ho & Hi & _). unfold peers_ok.
  rewrite Ho, Hi, Hco, Hci.
  rewrite (filter_out_length (pool_peers pl')),
    (filter_out_length (pool_peers pl)),
    (filter_in_length (pool_peers pl')),
    (filter_in_length (pool_peers pl)), Hf.
  split; [|split; reflexivity].
  rewrite flags_ids, Hf, <- flags_ids. exact Hn.
Qed.

Lemma in_flags (l l' : list btc_peer) (q : btc_peer) :
  map peer_flags l' = map peer_flags l -> In q l' ->
  exists q0, In q0 l /\ peer_flags q0 = peer_flags q.
Proof.
  intros Hf Hq. apply (in_map peer_flags) in Hq. rewrite Hf in Hq.
  apply in_map_iff in Hq. destruct Hq as (q0 & E & Hq0). eauto.
Qed.

Lemma loader_ok_same (pl pl' : btc_pool) :
  loader_ok pl -> same_flags pl pl' -> loader_ok pl'.
Proof.
  intros (Hn & Hl & Hp) (Hf & _ & _ & _ & Hload). unfold loader_ok.
  rewrite Hload. split; [rewrite flags_ids, Hf, <- flags_ids; exact Hn|].
  split.
  - intros q Hq. destruct (in_flags _ _ q Hf Hq) as (q0 & Hq0 & E).
    unfold peer_flags in E. injection E as E1 E2 E3.
    rewrite <- E3, <- E1. apply Hl, Hq0.
  - intros id Hid. destruct (Hp id Hid) as (q & Hq & E).
    destruct (in_flags _ _ q (eq_sym Hf) Hq) as (q0 & Hq0 & E0).
    exists q0. split; [exact Hq0|]. unfold peer_flags in E0.
    injection E0 as E1 _ _. congruence.
Qed.

Lemma same_flags_upd (id : Z) (f : btc_peer -> btc_peer) (pl : btc_pool) :
  List.NoDup (map peer_id (pool_peers pl)) ->
  (forall p, find_peer id pl = Some p -> peer_flags (f p) = peer_flags p) ->
  same_flags pl (upd_peer id f pl).
Proof.
  intros Hn Hf. split; [|repeat split].
  unfold upd_peer. cbn [pool_peers set_pool_peers].
  rewrite map_map. apply map_ext_in. intros q Hq.
  destruct (peer_id q =? id) eqn:E; [|reflexivity].
  apply Z.eqb_eq in E. apply Hf. unfold find_peer.
  destruct (find (fun q0 => peer_id q0 =? id) (pool_peers pl)) as [p|]
    eqn:Ef.
  - f_equal. apply find_some in Ef. destruct Ef as [Hp Ep].
    apply Z.eqb_eq in Ep.
    apply (nodup_map_inj peer_id (pool_peers pl) p q Hn Hp Hq). congruence.
  - apply (find_none _ _ Ef q) in Hq. apply Z.eqb_neq in Hq. contradiction.
Qed.

Lemma sendmsg_flags (C : msg_codec) (now : Z) (p : btc_peer) (m : btc_msg) :
  peer_flags (btc_peer_sendmsg C now p m) = peer_flags p.
Proof.
  unfold peer_flags.
  destruct (sendmsg_ident C now p m) as (-> & -> & ->). reflexivity.
Qed.

Lemma send_locator_same (K : btc_consts) (C : msg_codec)
  (pl pl' : btc_pool) (id : Z) (locator : list hash) (now : Z) (b : bool) :
  List.NoDup (map peer_id (pool_peers pl)) ->
  btc_pool_send_locator K C pl id locator now = Some (b, pl') ->
  same_flags pl pl'.
Proof.
  intros Hn. unfold btc_pool_send_locator.
  destruct (find_peer id pl) as [p|] eqn:Hp;
    [|intros H; injection H as <- <-; apply same_flags_refl].
  destruct (negb (btc_pool_is_syncable pl p));
    [intros H; injection H as <- <-; apply same_flags_refl|].
  set (p1 := if _ && _ then btc_peer_send_mempool K C now p else p).
  assert (H1 : peer_flags p1 = peer_flags p).
  { unfold p1. destruct (_ && _); [|reflexivity]. unfold peer_flags.
    destruct (send_mempool_ident K C now p) as (-> & -> & ->).
    reflexivity. }
  set (p2 := set_peer_block_time now (set_peer_syncing true p1)).
  destruct (pool_checkpoints pl).
  - destruct (pool_header_tip pl) as [tip|]; [|discriminate].
    intros H. injection H as <- <-.
    apply same_flags_upd; [exact Hn|]. intros p0 Hp0.
    rewrite Hp in Hp0. injection Hp0 as <-.
    unfold btc_peer_send_getheaders. rewrite sendmsg_flags. exact H1.
  - intros H. injection H as <- <-.
    apply same_flags_upd; [exact Hn|]. intros p0 Hp0.
    rewrite Hp in Hp0. injection Hp0 as <-.
    unfold btc_peer_send_getblocks. rewrite sendmsg_flags. exact H1.
Qed.

Lemma send_sync_same (K : btc_consts) (C : msg_codec) (pl pl' : btc_pool)
  (id now : Z) (b : bool) :
  List.NoDup (map peer_id (pool_peers pl)) ->
  btc_pool_send_sync K C pl id now = Some (b, pl') ->
  same_flags pl pl'.
Proof.
  intros Hn. unfold btc_pool_send_sync.
  destruct (find_peer id pl) as [p|];
    [|intros H; injection H as <- <-; apply same_flags_refl].
  destruct (peer_syncing p);
    [intros H; injection H as <- <-; apply same_flags_refl|].
  destruct (negb (btc_pool_is_syncable pl p));
    [intros H; injection H as <- <-; apply same_flags_refl|].
  destruct (btc_pool_send_locator K C pl id _ now) as [[b1 pl1]|] eqn:E;
    [|discriminate].
  intros H. injection H as <- <-.
  apply (send_locator_same K C pl pl1 id _ now b1 Hn E).
Qed.

Lemma same_flags_ids (pl pl' : btc_pool) :
  same_flags pl pl' ->
  List.NoDup (map peer_id (pool_peers pl)) ->
  List.NoDup (map peer_id (pool_peers pl')).
Proof.
  intros (Hf & _) Hn. rewrite flags_ids, Hf, <- flags_ids. exact Hn.
Qed.

Lemma upd_ids (id : Z) (f : btc_peer -> btc_peer) (l : list btc_peer) :
  (forall q, peer_id (f q) = peer_id q) ->
  map peer_id (map (fun q => if peer_id q =? id then f q else q) l)
  = map peer_id l.
Proof.
  intros Hf. rewrite map_map. apply map_ext. intros q.
  destruct (peer_id q =? id); [apply Hf|reflexivity].
Qed.

Lemma upd_out_length (id : Z) (f : btc_peer -> btc_peer)
  (l : list btc_peer) :
  (forall q, peer_outbound (f q) = peer_outbound q) ->
  length (List.filter peer_outbound
            (map (fun q => if peer_id q =? id then f q else q) l))
  = length (List.filter peer_outbound l)
  /\ length (List.filter (fun q => negb (peer_outbound q))
               (map (fun q => if peer_id q =? id then f q else q) l))
     = length (List.filter (fun q => negb (peer_outbound q)) l).
Proof.
  intros Hf. induction l as [|q l [IH1 IH2]]; [split; reflexivity|].
  cbn [map List.filter].
  replace (peer_outbound (if peer_id q =? id then f q else q))
    with (peer_outbound q)
    by (destruct (peer_id q =? id); [rewrite Hf|]; reflexivity).
  destruct (peer_outbound q); cbn [negb length]; rewrite IH1, IH2;
    split; reflexivity.
Qed.

Lemma set_loader_peers_ok (K : btc_consts) (C : msg_codec)
  (pl pl' : btc_pool) (id now : Z) :
  peers_ok pl ->
  btc_pool_set_loader K C pl id now = Some pl' ->
  peers_ok pl'
  /\ pool_outbound pl' = pool_outbound pl
  /\ pool_max_outbound pl' = pool_max_outbound pl
  /\ pool_load pl' = Some id.
Proof.
  intros Hok. unfold btc_pool_set_loader.
  destruct (find_peer id pl) as [p|]; [|discriminate].
  destruct (negb (peer_outbound p)); [discriminate|].
  destruct (bool_decide (is_Some (pool_load pl))); [discriminate|].
  destruct (peer_loader p); [discriminate|].
  set (pl1 := set_pool_load (Some id) (upd_peer id (set_peer_loader true) pl)).
  assert (Hok1 : peers_ok pl1).
  { destruct Hok as (Hn & Ho & Hi). unfold peers_ok, pl1, upd_peer.
    cbn [pool_peers pool_outbound pool_inbound set_pool_load set_pool_peers].
    destruct (upd_out_length id (set_peer_loader true) (pool_peers pl))
      as [-> ->]; [reflexivity|].
    rewrite upd_ids by reflexivity. auto. }
  destruct (btc_pool_send_sync K C pl1 id now) as [[b pl2]|] eqn:E;
    [|discriminate].
  intros H. injection H as <-.
  pose proof (send_sync_same K C pl1 pl2 id now b (proj1 Hok1) E) as Hs.
  split; [apply (peers_ok_same pl1); assumption|].
  destruct Hs as (_ & -> & _ & -> & ->). repeat split.
Qed.

(** ** Dialling *)

Ltac keep_ok H :=
  split; [exact H|];
  repeat split; try reflexivity; try assumption; try lia;
  try discriminate; auto.

Lemma find_none_filter {A : Type} (P : A -> bool) (l : list A) :
  find P l = None -> List.filter P l = [].
Proof.
  induction l as [|x l IH]; [reflexivity|]. cbn [find List.filter].
  destruct (P x); [discriminate|exact IH].
Qed.

Lemma create_outbound_fields (pl pl1 : btc_pool) (addr : btc_netaddr)
  (d : dial) (now : Z) (r : option btc_peer) :
  btc_pool_create_outbound pl addr d now = Some (r, pl1) ->
  pool_peers pl1 = pool_peers pl
  /\ pool_outbound pl1 = pool_outbound pl
  /\ pool_inbound pl1 = pool_inbound pl
  /\ pool_max_outbound pl1 = pool_max_outbound pl
  /\ pool_load pl1 = pool_load pl
  /\ forall peer, r = Some peer ->
                  peer_outbound peer = true /\ peer_loader peer = false.
Proof.
  unfold btc_pool_create_outbound, btc_peer_create.
  destruct (dial_socket d) as [s|].
  - destruct (btc_nonces_alloc _ _) as [nonce|]; [|discriminate].
    intros H. injection H as <- <-. repeat split; try reflexivity.
    + injection H as <-. reflexivity.
    + injection H as <-. reflexivity.
  - intros H. injection H as <- <-. repeat split; try reflexivity;
      discriminate.
Qed.

Lemma add_outbound_ok (pl pl' : btc_pool) (tnow : Z) (d : dial) (now : Z)
  (b : bool) :
  peers_ok pl ->
  pool_outbound pl <= pool_max_outbound pl ->
  btc_pool_add_outbound pl tnow d now = Some (b, pl') ->
  peers_ok pl'
  /\ pool_outbound pl <= pool_outbound pl' <= pool_max_outbound pl
  /\ pool_max_outbound pl' = pool_max_outbound pl
  /\ pool_load pl' = pool_load pl.
Proof.
  intros Hok Hle. unfold btc_pool_add_outbound.
  destruct (pool_outbound pl >=? pool_max_outbound pl) eqn:E;
    [intros H; injection H as <- <-; keep_ok Hok|].
  assert (Hlt : pool_outbound pl < pool_max_outbound pl).
  { destruct (Z.geb_spec (pool_outbound pl) (pool_max_outbound pl));
      [discriminate|assumption]. }
  destruct (negb _); [intros H; injection H as <- <-; keep_ok Hok|].
  destruct (btc_pool_get_addr pl tnow) as [addr|];
    [|intros H; injection H as <- <-; keep_ok Hok].
  destruct (btc_pool_create_outbound pl addr d now) as [[r pl1]|] eqn:Ec;
    [|discriminate].
  destruct (create_outbound_fields _ _ _ _ _ _ Ec)
    as (Hp & Ho & Hi & Hm & Hl & Hr).
  assert (Hok1 : peers_ok pl1).
  { apply (peers_ok_same pl); [exact Hok|].
    apply same_flags_fields; assumption. }
  destruct r as [peer|].
  - destruct (btc_peers_add pl1 peer) as [pl2|] eqn:Ea; [|discriminate].
    intros H. injection H as <- <-.
    split; [apply (peers_ok_add pl1 pl2 peer Hok1 Ea)|].
    destruct (Hr peer eq_refl) as [Hout _].
    apply peers_add_some in Ea. destruct Ea as (_ & _ & ->).
    rewrite Hout. cbn. rewrite Ho, Hm, Hl. repeat split; auto; lia.
  - intros H. injection H as <- <-. rewrite Ho, Hm, Hl. keep_ok Hok1.
Qed.

Lemma fill_loop_ok (tnow : Z) (dials : nat -> dial) (now : Z) (need : nat) :
  forall (pl pl' : btc_pool) (i : nat),
    peers_ok pl ->
    pool_outbound pl <= pool_max_outbound pl ->
    fill_loop pl tnow dials now need i = Some pl' ->
    peers_ok pl'
    /\ pool_outbound pl <= pool_outbound pl' <= pool_max_outbound pl
    /\ pool_max_outbound pl' = pool_max_outbound pl
    /\ pool_load pl' = pool_load pl.
Proof.
  induction need as [|need IH]; intros pl pl' i Hok Hle; cbn [fill_loop].
  - intros H. injection H as <-. keep_ok Hok.
  - destruct (btc_pool_add_outbound pl tnow (dials i) now) as [[b pl1]|]
      eqn:E; [|discriminate].
    destruct (add_outbound_ok _ _ _ _ _ _ Hok Hle E)
      as (Hok1 & Ho1 & Hm1 & Hl1).
    intros H. apply IH in H; [|exact Hok1|lia].
    destruct H as (Hok2 & Ho2 & Hm2 & Hl2).
    rewrite Hm2, Hl2, Hm1, Hl1. keep_ok Hok2.
Qed.

Lemma add_loader_ok (K : btc_consts) (C : msg_codec) (pl pl' : btc_pool)
  (tnow : Z) (d : dial) (now : Z) (b : bool) :
  peers_ok pl ->
  pool_outbound pl <= pool_max_outbound pl ->
  1 <= pool_max_outbound pl ->
  btc_pool_add_loader K C pl tnow d now = Some (b, pl') ->
  peers_ok pl'
  /\ pool_outbound pl <= pool_outbound pl' <= pool_max_outbound pl
  /\ pool_max_outbound pl' = pool_max_outbound pl
  /\ (b = true -> is_Some (pool_load pl')).
Proof.
  intros Hok Hle Hmax. unfold btc_pool_add_loader.
  destruct (bool_decide (is_Some (pool_load pl))); [discriminate|].
  destruct (find peer_outbound (pool_peers pl)) as [p|] eqn:Ef.
  - destruct (btc_pool_set_loader K C pl (peer_id p) now) as [pl1|] eqn:E;
      [|discriminate].
    intros H. injection H as <- <-.
    destruct (set_loader_peers_ok K C pl pl1 _ now Hok E)
      as (A & B1 & B2 & B3).
    rewrite B1, B2, B3. keep_ok A.
  - destruct (btc_pool_get_addr pl tnow) as [addr|];
      [|intros H; injection H as <- <-; keep_ok Hok].
    destruct (btc_pool_create_outbound pl addr d now) as [[r pl1]|] eqn:Ec;
      [|discriminate].
    destruct (create_outbound_fields _ _ _ _ _ _ Ec)
      as (Hp & Ho & Hi & Hm & Hl & Hr).
    assert (Hok1 : peers_ok pl1).
    { apply (peers_ok_same pl); [exact Hok|].
      apply same_flags_fields; assumption. }
    assert (Hzero : pool_outbound pl = 0).
    { destruct Hok as (_ & -> & _).
      rewrite (find_none_filter _ _ Ef). reflexivity. }
    destruct r as [peer|].
    + destruct (btc_peers_add pl1 peer) as [pl2|] eqn:Ea; [|discriminate].
      pose proof (peers_ok_add pl1 pl2 peer Hok1 Ea) as Hok2.
      destruct (btc_pool_set_loader K C pl2 (peer_id peer) now) as [pl3|]
        eqn:E; [|discriminate].
      intros H. injection H as <- <-.
      destruct (set_loader_peers_ok K C pl2 pl3 _ now Hok2 E)
        as (A & B1 & B2 & B3).
      destruct (Hr peer eq_refl) as [Hout _].
      apply peers_add_some in Ea. destruct Ea as (_ & _ & Hpl2).
      rewrite Hout in Hpl2.
      assert (Ho2 : pool_outbound pl2 = pool_outbound pl + 1)
        by (rewrite Hpl2; cbn; rewrite Ho; reflexivity).
      assert (Hm2 : pool_max_outbound pl2 = pool_max_outbound pl)
        by (rewrite Hpl2; cbn; exact Hm).
      rewrite B1, B2, B3, Ho2, Hm2. keep_ok A.
    + intros H. injection H as <- <-. rewrite Ho, Hm. keep_ok Hok1.
Qed.

(** X3.  The counters of the list of peers count the outbound and the
    inbound peers of the list, whose ids are all different, and adding and
    removing a peer keeps it so.  With that, [btc_pool_fill_outbound] never
    lets the number of outbound peers fall or pass [max_outbound], and when
    it reports success the pool has a loader. *)
Theorem fill_outbound_bound (K : btc_consts) (C : msg_codec) (pl : btc_pool) :
  peers_ok pl ->
  (forall peer pl', btc_peers_add pl peer = Some pl' -> peers_ok pl')
  /\ (forall id pl', btc_peers_remove pl id = Some pl' -> peers_ok pl')
  /\ (forall tnow dials now b pl',
         pool_outbound pl <= pool_max_outbound pl ->
         1 <= pool_max_outbound pl ->
         btc_pool_fill_outbound K C pl tnow dials now = Some (b, pl') ->
         peers_ok pl'
         /\ pool_outbound pl <= pool_outbound pl' <= pool_max_outbound pl
         /\ pool_max_outbound pl' = pool_max_outbound pl
         /\ (b = true -> is_Some (pool_load pl'))).
Proof.
  intros Hok.
  split; [intros peer pl'; apply peers_ok_add, Hok|].
  split; [intros id pl'; apply peers_ok_remove, Hok|].
  intros tnow dials now b pl' Hle Hmax. unfold btc_pool_fill_outbound.
  destruct (if bool_decide (is_Some (pool_load pl)) then Some (true, pl)
            else btc_pool_add_loader K C pl tnow (dials O) now)
    as [[b1 pl1]|] eqn:E1; [|discriminate].
  assert (H1 : peers_ok pl1
               /\ pool_outbound pl <= pool_outbound pl1
                  <= pool_max_outbound pl
               /\ pool_max_outbound pl1 = pool_max_outbound pl
               /\ (b1 = true -> is_Some (pool_load pl1))).
  { destruct (bool_decide (is_Some (pool_load pl))) eqn:El.
    - injection E1 as <- <-. apply bool_decide_eq_true_1 in El.
      keep_ok Hok.
    - apply (add_loader_ok K C pl pl1 tnow (dials O) now b1); assumption. }
  destruct H1 as (Hok1 & Ho1 & Hm1 & Hl1).
  destruct b1; [|intros H; injection H as <- <-; keep_ok Hok1].
  destruct (pool_outbound pl1 >=? pool_max_outbound pl1);
    [intros H; injection H as <- <-; keep_ok Hok1|].
  destruct (_ =? 0); [intros H; injection H as <- <-; keep_ok Hok1|].
  destruct (fill_loop pl1 tnow dials now _ 1) as [pl2|] eqn:E2;
    [|discriminate].
  intros H. injection H as <- <-.
  destruct (fill_loop_ok _ _ _ _ _ _ _ Hok1 ltac:(lia) E2)
    as (Hok2 & Ho2 & Hm2 & Hl2).
  rewrite Hm2, Hl2. keep_ok Hok2.
Qed.

Lemma peers_ok_dialing : peers_ok Sample.dialing_pool.
Proof.
  split; [|split; reflexivity].
  cbn. constructor; [intros []|constructor].
Qed.

Lemma fill_outbound_bound_witness :
  peers_ok Sample.dialing_pool
  /\ exists b pl',
       btc_pool_fill_outbound Sample.consts Sample.codec Sample.dialing_pool
         1000 Sample.dials 5000 = Some (b, pl')
       /\ peers_ok pl'
       /\ pool_outbound Sample.dialing_pool <= pool_outbound pl'
          <= pool_max_outbound Sample.dialing_pool
       /\ pool_max_outbound pl' = pool_max_outbound Sample.dialing_pool
       /\ (b = true -> is_Some (pool_load pl')).
Proof.
  split; [exact peers_ok_dialing|].
  assert (E : bool_decide
                (is_Some (btc_pool_fill_outbound Sample.consts Sample.codec
                            Sample.dialing_pool 1000 Sample.dials 5000))
              = true) by (vm_compute; reflexivity).
  apply bool_decide_eq_true_1 in E. destruct E as [[b pl'] E].
  exists b, pl'. split; [exact E|].
  destruct (fill_outbound_bound Sample.consts Sample.codec
              Sample.dialing_pool peers_ok_dialing) as (_ & _ & H).
  apply (H 1000 Sample.dials 5000 b pl'); [cbn; lia|cbn; lia|exact E].
Defined.

(** ** Addresses *)

Lemma get_addr_loop_sound (pl : btc_pool) (tnow : Z) (n : nat) :
  forall (i : nat) (a : btc_netaddr),
    get_addr_loop pl tnow n i = Some a ->
    exists (j : nat) (entry : btc_addrent),
      (i <= j < i + n)%nat
      /\ am_get (pool_addrman pl) j = Some entry
      /\ ae_addr entry = a
      /\ btc_peers_has pl a = false
      /\ btc_addrman_has_local (pool_addrman pl) a = false
      /\ btc_addrman_is_banned (pool_addrman pl) a = false
      /\ na_is_valid a = true
      /\ Z.land (na_services a) (pool_required_services pl)
         = pool_required_services pl
      /\ na_is_onion a = false
      /\ ((j < 30)%nat -> 600 <= tnow - ae_last_attempt entry)
      /\ ((j < 50)%nat -> na_port a = net_port (pool_network pl)).
Proof.
  induction n as [|n IH]; intros i a; cbn [get_addr_loop]; [discriminate|].
  destruct (am_get (pool_addrman pl) i) as [entry|] eqn:Eg; [|discriminate].
  match goal with
  | |- (if ?c then _ else _) = _ -> _ => destruct c eqn:Ec
  end.
  - intros H. apply IH in H. destruct H as (j & e & Hj & H).
    exists j, e. split; [lia|exact H].
  - intros H. injection H as <-.
    repeat (apply orb_false_iff in Ec; destruct Ec as [Ec ?]).
    exists i, entry. split; [lia|]. split; [exact Eg|].
    split; [reflexivity|]. split; [assumption|]. split; [assumption|].
    split; [assumption|].
    split; [apply negb_false_iff; assumption|].
    split; [apply Z.eqb_eq, negb_false_iff; assumption|].
    split; [assumption|]. split.
    + intros Hlt. apply Nat.ltb_lt in Hlt.
      match goal with
      | Hx : (_ <? 30)%nat && _ = false |- _ =>
          rewrite Hlt in Hx; cbn [andb] in Hx; apply Z.ltb_ge in Hx
      end.
      assumption.
    + intros Hlt. apply Nat.ltb_lt in Hlt.
      match goal with
      | Hx : (_ <? 50)%nat && _ = false |- _ =>
          rewrite Hlt in Hx; cbn [andb] in Hx;
          apply negb_false_iff, Z.eqb_eq in Hx
      end.
      assumption.
Qed.

(** X4.  An address that [btc_pool_get_addr] returns is the address of one
    of the first hundred entries that the address manager hands out; no
    peer is connected to it, it is not a local address, not banned, valid,
    not an onion address, and offers the required services; in the first 30
    tries its last attempt is at least 600 seconds back, in the first 50 its
    port is the port of the network. *)
Theorem get_addr_filters (pl : btc_pool) (tnow : Z) (a : btc_netaddr) :
  btc_pool_get_addr pl tnow = Some a ->
  exists (j : nat) (entry : btc_addrent),
    (j < 100)%nat
    /\ am_get (pool_addrman pl) j = Some entry
    /\ ae_addr entry = a
    /\ btc_peers_has pl a = false
    /\ btc_addrman_has_local (pool_addrman pl) a = false
    /\ btc_addrman_is_banned (pool_addrman pl) a = false
    /\ na_is_valid a = true
    /\ Z.land (na_services a) (pool_required_services pl)
       = pool_required_services pl
    /\ na_is_onion a = false
    /\ ((j < 30)%nat -> 600 <= tnow - ae_last_attempt entry)
    /\ ((j < 50)%nat -> na_port a = net_port (pool_network pl)).
Proof.
  unfold btc_pool_get_addr. intros H.
  apply get_addr_loop_sound in H. destruct H as (j & e & Hj & H).
  exists j, e. split; [lia|exact H].
Qed.

Lemma get_addr_filters_witness :
  exists (j : nat) (entry : btc_addrent),
    (j < 100)%nat
    /\ am_get (pool_addrman Sample.dialing_pool) j = Some entry
    /\ ae_addr entry = Sample.addr 2
    /\ btc_peers_has Sample.dialing_pool (Sample.addr 2) = false
    /\ btc_addrman_has_local (pool_addrman Sample.dialing_pool)
         (Sample.addr 2) = false
    /\ btc_addrman_is_banned (pool_addrman Sample.dialing_pool)
         (Sample.addr 2) = false
    /\ na_is_valid (Sample.addr 2) = true
    /\ Z.land (na_services (Sample.addr 2))
         (pool_required_services Sample.dialing_pool)
       = pool_required_services Sample.dialing_pool
    /\ na_is_onion (Sample.addr 2) = false
    /\ ((j < 30)%nat -> 600 <= 1000 - ae_last_attempt entry)
    /\ ((j < 50)%nat ->
        na_port (Sample.addr 2) = net_port (pool_network Sample.dialing_pool)).
Proof.
  apply (get_addr_filters Sample.dialing_pool 1000 (Sample.addr 2)).
  vm_compute. reflexivity.
Defined.

(** ** Ban scores *)

Lemma upd_peer_twice (id : Z) (f g : btc_peer -> btc_peer) (pl : btc_pool) :
  (forall q, peer_id (g q) = peer_id q) ->
  upd_peer id f (upd_peer id g pl) = upd_peer id (fun q => f (g q)) pl.
Proof.
  intros Hg. unfold upd_peer. cbn [pool_peers set_pool_peers].
  rewrite map_map.
  replace (map (fun x => if peer_id (if peer_id x =? id then g x else x)
                              =? id
                         then f (if peer_id x =? id then g x else x)
                         else if peer_id x =? id then g x else x)
             (pool_peers pl))
    with (map (fun q => if peer_id q =? id then f (g q) else q)
            (pool_peers pl)).
  - destruct pl; reflexivity.
  - apply map_ext. intros q. destruct (peer_id q =? id) eqn:E.
    + rewrite Hg, E. reflexivity.
    + rewrite E. reflexivity.
Qed.

Lemma upd_peer_ext (id : Z) (f g : btc_peer -> btc_peer) (pl : btc_pool) :
  (forall q, f q = g q) -> upd_peer id f pl = upd_peer id g pl.
Proof.
  intros H. unfold upd_peer. f_equal. apply map_ext. intros q.
  rewrite H. reflexivity.
Qed.

(** X5.  Ban scores add up: while the threshold of 100 is not reached, two
    increases of the ban score of a peer come to the same as one increase
    by the sum, in the state of the pool they leave and in the answer
    whether the peer was banned. *)
Theorem ban_scores_add (pl : btc_pool) (id a b : Z) (p : btc_peer) :
  find_peer id pl = Some p ->
  peer_ban_score p + a < 100 ->
  btc_peer_increase_ban (snd (btc_peer_increase_ban pl id a)) id b
  = btc_peer_increase_ban pl id (a + b).
Proof.
  intros Hp Hlt.
  set (ga := fun q => set_peer_ban_score (peer_ban_score q + a) q).
  set (gb := fun q => set_peer_ban_score (peer_ban_score q + b) q).
  set (gab := fun q => set_peer_ban_score (peer_ban_score q + (a + b)) q).
  assert (H1 : btc_peer_increase_ban pl id a = (false, upd_peer id ga pl)).
  { unfold btc_peer_increase_ban. fold ga.
    rewrite (find_peer_upd_same id ga pl p) by (reflexivity || assumption).
    change (peer_ban_score (ga p)) with (peer_ban_score p + a).
    replace (peer_ban_score p + a >=? 100) with false; [reflexivity|].
    symmetry. rewrite Z.geb_leb. apply Z.leb_gt. exact Hlt. }
  rewrite H1. cbn [snd]. unfold btc_peer_increase_ban at 1 2.
  fold gb. fold gab.
  rewrite (upd_peer_twice id gb ga pl) by reflexivity.
  rewrite (upd_peer_ext id (fun q => gb (ga q)) gab pl).
  - reflexivity.
  - intros q. unfold gb, ga, gab.
    replace (peer_ban_score q + (a + b)) with (peer_ban_score q + a + b)
      by lia.
    reflexivity.
Qed.

Lemma ban_scores_add_witness :
  btc_peer_increase_ban (snd (btc_peer_increase_ban Sample.pool1 0 10)) 0 20
  = btc_peer_increase_ban Sample.pool1 0 (10 + 20).
Proof.
  apply (ban_scores_add Sample.pool1 0 10 20
           (Sample.peer 0 true BTC_PEER_CONNECTED)); [reflexivity|cbn; lia].
Defined.

(** ** Starting the sync *)

Lemma write_syncing (now : Z) (p : btc_peer) (data : list byte) :
  peer_syncing (snd (btc_peer_write now p data)) = peer_syncing p.
Proof.
  unfold btc_peer_write, btc_socket_write.
  destruct (sock_rc (peer_socket p) (sock_nwrites (peer_socket p)) =? -1);
    reflexivity.
Qed.

(** A call of [btc_pool_send_sync] that did not abort either answered 0
    and left the pool as it was, or answered 1 and left the peer with its
    [syncing] flag set. *)
Lemma send_sync_cases (K : btc_consts) (C : msg_codec) (pl pl1 : btc_pool)
  (id now : Z) (b : bool) :
  btc_pool_send_sync K C pl id now = Some (b, pl1) ->
  (b = false /\ pl1 = pl
   /\ forall now', btc_pool_send_sync K C pl id now' = Some (false, pl))
  \/ (b = true
      /\ exists q, find_peer id pl1 = Some q /\ peer_syncing q = true).
Proof.
  unfold btc_pool_send_sync.
  destruct (find_peer id pl) as [p|] eqn:Hp.
  2:{ intros H. injection H as <- <-. left. repeat split. }
  destruct (peer_syncing p) eqn:Es.
  { intros H. injection H as <- <-. left. repeat split. }
  destruct (negb (btc_pool_is_syncable pl p)) eqn:Ey.
  { intros H. injection H as <- <-. left. repeat split. }
  unfold btc_pool_send_locator. rewrite Hp, Ey.
  pose proof (find_peer_id _ _ _ Hp) as Hid.
  set (p1 := if _ && _ then btc_peer_send_mempool K C now p else p).
  assert (H1 : peer_id p1 = id).
  { unfold p1. destruct (_ && _); [|exact Hid].
    destruct (send_mempool_ident K C now p) as (-> & _). exact Hid. }
  set (p2 := set_peer_block_time now (set_peer_syncing true p1)).
  destruct (pool_checkpoints pl).
  - destruct (pool_header_tip pl) as [tip|]; [|discriminate].
    intros H. injection H as <- <-. right. split; [reflexivity|].
    eexists. split.
    + apply (find_peer_upd_at id _ pl p Hp).
      unfold btc_peer_send_getheaders.
      destruct (sendmsg_ident C now (set_peer_gh_time now p2)
                  (BTC_MSG_GETHEADERS (btc_chain_get_locator (pool_chain pl)
                                         None) (chk_hash tip)))
        as (-> & _). exact H1.
    + unfold btc_peer_send_getheaders, btc_peer_sendmsg, btc_peer_send.
      rewrite write_syncing. reflexivity.
  - intros H. injection H as <- <-. right. split; [reflexivity|].
    eexists. split.
    + apply (find_peer_upd_at id _ pl p Hp).
      unfold btc_peer_send_getblocks.
      destruct (sendmsg_ident C now (set_peer_gb_time now p2)
                  (BTC_MSG_GETBLOCKS (btc_chain_get_locator (pool_chain pl)
                                        None) btc_hash_zero))
        as (-> & _). exact H1.
    + unfold btc_peer_send_getblocks, btc_peer_sendmsg, btc_peer_send.
      rewrite write_syncing. reflexivity.
Qed.

(** X6.  [btc_pool_send_sync] asks a peer once.  A call that answers 1
    leaves the peer with its [syncing] flag set, and a call that answers 0
    leaves the pool as it was.  In whatever pool the peer has the flag
    set, a call for it answers 0 and changes nothing, at any time; so a
    second call on the pool that a first call left, whatever the first
    call did, sends nothing and changes nothing. *)
Theorem send_sync_once (K : btc_consts) (C : msg_codec) (pl pl1 : btc_pool)
  (id now now' : Z) (b : bool) :
  btc_pool_send_sync K C pl id now = Some (b, pl1) ->
  btc_pool_send_sync K C pl1 id now' = Some (false, pl1)
  /\ (b = true ->
      exists q, find_peer id pl1 = Some q /\ peer_syncing q = true)
  /\ (b = false -> pl1 = pl)
  /\ (forall (pl2 : btc_pool) (q : btc_peer) (t : Z),
        find_peer id pl2 = Some q -> peer_syncing q = true ->
        btc_pool_send_sync K C pl2 id t = Some (false, pl2)).
Proof.
  intros H.
  assert (Hflag : forall (pl2 : btc_pool) (q : btc_peer) (t : Z),
            find_peer id pl2 = Some q -> peer_syncing q = true ->
            btc_pool_send_sync K C pl2 id t = Some (false, pl2)).
  { intros pl2 q t Hq Hs. unfold btc_pool_send_sync. rewrite Hq, Hs.
    reflexivity. }
  destruct (send_sync_cases K C pl pl1 id now b H)
    as [(-> & -> & Hagain)|(-> & q & Hq & Hs)].
  - split; [apply Hagain|]. split; [discriminate|].
    split; [reflexivity|exact Hflag].
  - split; [exact (Hflag pl1 q now' Hq Hs)|].
    split; [intros _; exists q; split; assumption|].
    split; [discriminate|exact Hflag].
Qed.

Lemma send_sync_once_witness :
  exists pl1 q,
    btc_pool_send_sync Sample.consts Sample.codec Sample.pool1 0 5000
    = Some (true, pl1)
    /\ btc_pool_send_sync Sample.consts Sample.codec pl1 0 6000
       = Some (false, pl1)
    /\ find_peer 0 pl1 = Some q /\ peer_syncing q = true.
Proof.
  assert (E : bool_decide
                (fst <$> btc_pool_send_sync Sample.consts Sample.codec
                           Sample.pool1 0 5000 = Some true) = true)
    by (vm_compute; reflexivity).
  apply bool_decide_eq_true_1 in E.
  destruct (btc_pool_send_sync Sample.consts Sample.codec Sample.pool1 0 5000)
    as [[b pl1]|] eqn:Es; [|discriminate].
  cbn in E. injection E as ->.
  destruct (send_sync_once Sample.consts Sample.codec Sample.pool1 pl1 0 5000
              6000 true Es) as (H1 & H2 & _).
  destruct (H2 eq_refl) as (q & Hq & Hs).
  exists pl1, q. split; [reflexivity|]. split; [exact H1|].
  split; [exact Hq|exact Hs].
Defined.

(** ** The loader *)

Lemma in_upd (id : Z) (f : btc_peer -> btc_peer) (l : list btc_peer)
  (q' : btc_peer) :
  In q' (map (fun q => if peer_id q =? id then f q else q) l) ->
  exists q, In q l /\ q' = if peer_id q =? id then f q else q.
Proof.
  intros H. apply in_map_iff in H. destruct H as (q & <- & Hq). eauto.
Qed.

(** Setting the flag of the peer [id] and pointing the pool to it, in a
    pool that has no loader. *)
Lemma loader_ok_set (pl : btc_pool) (id : Z) (p : btc_peer) :
  loader_ok pl -> pool_load pl = None -> find_peer id pl = Some p ->
  loader_ok (set_pool_load (Some id)
               (upd_peer id (set_peer_loader true) pl)).
Proof.
  intros (Hn & Hl & Hp) Hnone Hf. unfold loader_ok, upd_peer.
  cbn [pool_peers pool_load set_pool_load set_pool_peers].
  split; [rewrite upd_ids by reflexivity; exact Hn|]. split.
  - intros q' Hq'. apply in_upd in Hq'. destruct Hq' as (q & Hq & ->).
    destruct (peer_id q =? id) eqn:E.
    + apply Z.eqb_eq in E. cbn. rewrite E. split; reflexivity.
    + apply Z.eqb_neq in E. split.
      * intros Hq1. apply (Hl q Hq) in Hq1. congruence.
      * intros Hq1. injection Hq1 as Hq1. congruence.
  - intros i Hi. injection Hi as <-.
    destruct (find_peer_in _ _ _ Hf) as [Hin Hid].
    exists (set_peer_loader true p). split; [|exact Hid].
    apply in_map_iff. exists p. rewrite Hid, Z.eqb_refl. auto.
Qed.

Lemma set_loader_ok (K : btc_consts) (C : msg_codec) (pl pl' : btc_pool)
  (id now : Z) :
  loader_ok pl -> btc_pool_set_loader K C pl id now = Some pl' ->
  loader_ok pl'.
Proof.
  intros Hok. unfold btc_pool_set_loader.
  destruct (find_peer id pl) as [p|] eqn:Hp; [|discriminate].
  destruct (negb (peer_outbound p)); [discriminate|].
  destruct (bool_decide (is_Some (pool_load pl))) eqn:El; [discriminate|].
  apply bool_decide_eq_false_1 in El.
  destruct (peer_loader p); [discriminate|].
  assert (Hnone : pool_load pl = None)
    by (destruct (pool_load pl); [exfalso; apply El; eexists|]; reflexivity).
  pose proof (loader_ok_set pl id p Hok Hnone Hp) as Hok1.
  destruct (btc_pool_send_sync K C _ id now) as [[b pl2]|] eqn:E;
    [|discriminate].
  intros H. injection H as <-.
  apply (loader_ok_same _ pl2 Hok1).
  apply (send_sync_same K C _ pl2 id now b (proj1 Hok1) E).
Qed.

Lemma loader_ok_add (pl pl' : btc_pool) (peer : btc_peer) :
  loader_ok pl -> peer_loader peer = false ->
  btc_peers_add pl peer = Some pl' -> loader_ok pl'.
Proof.
  intros (Hn & Hl & Hp) Hflag H.
  pose proof (peers_add_peers _ _ _ H) as Hpeers.
  apply peers_add_some in H. destruct H as (_ & Hfresh & Hpl').
  assert (Hload : pool_load pl' = pool_load pl)
    by (rewrite Hpl'; destruct (peer_outbound peer); reflexivity).
  assert (Hnew : forall q, In q (pool_peers pl) -> peer_id q <> peer_id peer).
  { intros q Hq. unfold find_peer in Hfresh.
    apply (find_none _ _ Hfresh q) in Hq. apply Z.eqb_neq in Hq. exact Hq. }
  unfold loader_ok. rewrite Hpeers, Hload. split.
  - rewrite map_app. apply List.NoDup_app;
      [exact Hn|repeat constructor; intros []|].
    intros a Ha [<-|[]]. apply in_map_iff in Ha.
    destruct Ha as (q & Hq & Hin). apply (Hnew q Hin Hq).
  - split.
    + intros q Hq. apply in_app_or in Hq. destruct Hq as [Hq|[<-|[]]].
      * apply Hl, Hq.
      * rewrite Hflag. split; [discriminate|]. intros Hi.
        destruct (Hp _ Hi) as (q & Hq & E). exfalso.
        apply (Hnew q Hq E).
    + intros i Hi. destruct (Hp i Hi) as (q & Hq & E).
      exists q. split; [apply in_or_app; left; exact Hq|exact E].
Qed.

Lemma loader_ok_remove (pl pl' : btc_pool) (id : Z) :
  loader_ok pl -> btc_peers_remove pl id = Some pl' -> loader_ok pl'.
Proof.
  intros (Hn & Hl & Hp). unfold btc_peers_remove.
  destruct (find_peer id pl) as [p|] eqn:Hf; [|discriminate].
  destruct (negb _); [discriminate|].
  set (l' := List.filter (fun q => negb (peer_id q =? id)) (pool_peers pl)).
  assert (Hin : forall q, In q l' <-> In q (pool_peers pl) /\ peer_id q <> id).
  { intros q. unfold l'. rewrite filter_In, negb_true_iff, Z.eqb_neq.
    reflexivity. }
  assert (Hn' : List.NoDup (map peer_id l'))
    by (apply nodup_map_filter, Hn).
  destruct (bool_decide (pool_load pl = Some id)) eqn:El.
  - apply bool_decide_eq_true_1 in El.
    destruct (peer_loader p); [|discriminate].
    assert (Hres : loader_ok (set_pool_load None (set_pool_peers l' pl))).
    { split; [exact Hn'|]. split.
      - intros q Hq. apply Hin in Hq. destruct Hq as [Hq Hne].
        cbn [pool_load set_pool_load]. split; [|discriminate].
        intros Hq1. apply (Hl q Hq) in Hq1. congruence.
      - intros i Hi. discriminate. }
    destruct Hres as (A & B & D).
    destruct (peer_outbound p); intros H; injection H as <-;
      (split; [exact A|]; split; assumption).
  - apply bool_decide_eq_false_1 in El.
    assert (Hres : loader_ok (set_pool_peers l' pl)).
    { split; [exact Hn'|]. split.
      - intros q Hq. apply Hin in Hq. destruct Hq as [Hq Hne].
        apply (Hl q Hq).
      - intros i Hi. cbn [pool_load set_pool_peers] in Hi.
        destruct (Hp i Hi) as (q & Hq & E). exists q.
        split; [|exact E]. apply Hin. split; [exact Hq|]. congruence. }
    destruct Hres as (A & B & D).
    destruct (peer_outbound p); intros H; injection H as <-;
      (split; [exact A|]; split; assumption).
Qed.

Lemma loader_ok_fields (pl pl' : btc_pool) :
  pool_peers pl' = pool_peers pl -> pool_load pl' = pool_load pl ->
  loader_ok pl -> loader_ok pl'.
Proof.
  intros Hp Hl H. unfold loader_ok. rewrite Hp, Hl. exact H.
Qed.

Lemma remove_peer_loader_ok (pl pl' : btc_pool) (id : Z) :
  loader_ok pl -> btc_pool_remove_peer pl id = Some pl' -> loader_ok pl'.
Proof.
  intros Hok. unfold btc_pool_remove_peer.
  destruct (find_peer id pl) as [p|]; [|discriminate].
  destruct (btc_peers_remove pl id) as [pl1|] eqn:Er; [|discriminate].
  apply (loader_ok_remove _ _ _ Hok) in Er.
  destruct (remove_keys _ _); [|discriminate].
  destruct (remove_keys _ _); [|discriminate].
  destruct (remove_keys _ _); [|discriminate].
  intros H. injection H as <-.
  apply (loader_ok_fields pl1); [reflexivity|reflexivity|exact Er].
Qed.

Lemma resync_loop_same (K : btc_consts) (C : msg_codec) (force : bool)
  (locator : list hash) (now : Z) (ids : list Z) :
  forall pl pl',
    List.NoDup (map peer_id (pool_peers pl)) ->
    resync_loop K C pl force locator now ids = Some pl' ->
    same_flags pl pl'.
Proof.
  induction ids as [|id ids IH]; intros pl pl' Hn; cbn [resync_loop].
  - intros H. injection H as <-. apply same_flags_refl.
  - destruct (find_peer id pl) as [p|]; [|apply IH, Hn].
    destruct (negb (peer_outbound p)); [apply IH, Hn|].
    destruct (negb force && peer_syncing p); [apply IH, Hn|].
    destruct (btc_pool_send_locator K C pl id locator now)
      as [[b pl1]|] eqn:E; [|discriminate].
    apply (send_locator_same K C pl pl1 id locator now b Hn) in E.
    intros H. apply IH in H; [|apply (same_flags_ids pl); assumption].
    apply (same_flags_trans pl pl1); assumption.
Qed.

Lemma reset_chain_fields (pl pl' : btc_pool) :
  btc_pool_reset_chain pl = Some pl' ->
  pool_peers pl' = pool_peers pl /\ pool_load pl' = pool_load pl.
Proof.
  unfold btc_pool_reset_chain.
  repeat match goal with
         | |- context [match ?x with _ => _ end] => destruct x
         end; try discriminate;
    intros H; injection H as <-; split; reflexivity.
Qed.

Lemma on_disconnect_loader_ok (K : btc_consts) (C : msg_codec)
  (pl pl' : btc_pool) (id now : Z) :
  loader_ok pl -> btc_pool_on_disconnect K C pl id now = Some pl' ->
  loader_ok pl'.
Proof.
  intros Hok. unfold btc_pool_on_disconnect.
  destruct (find_peer id pl) as [p|]; [|discriminate].
  destruct (btc_pool_remove_peer pl id) as [pl1|] eqn:Er; [|discriminate].
  apply (remove_peer_loader_ok _ _ _ Hok) in Er.
  destruct (if peer_loader p && pool_checkpoints pl1
            then btc_pool_reset_chain pl1 else Some pl1) as [pl2|] eqn:E2;
    [|discriminate].
  assert (Hok2 : loader_ok pl2).
  { destruct (peer_loader p && pool_checkpoints pl1).
    - destruct (reset_chain_fields _ _ E2) as [A B].
      apply (loader_ok_fields pl1); assumption.
    - injection E2 as <-. exact Er. }
  set (pl3 := set_pool_nonces _ pl2).
  assert (Hok3 : loader_ok pl3)
    by (apply (loader_ok_fields pl2); [reflexivity|reflexivity|exact Hok2]).
  destruct (btc_chain_synced (pool_chain pl3)
            && Nat.ltb 0 (size (peer_block_map p))).
  - unfold btc_pool_resync. intros H.
    apply resync_loop_same in H; [|apply Hok3].
    apply (loader_ok_same pl3); assumption.
  - intros H. injection H as <-. exact Hok3.
Qed.

Lemma add_loader_loader_ok (K : btc_consts) (C : msg_codec)
  (pl pl' : btc_pool) (tnow : Z) (d : dial) (now : Z) (b : bool) :
  loader_ok pl ->
  btc_pool_add_loader K C pl tnow d now = Some (b, pl') -> loader_ok pl'.
Proof.
  intros Hok. unfold btc_pool_add_loader.
  destruct (bool_decide (is_Some (pool_load pl))); [discriminate|].
  destruct (find peer_outbound (pool_peers pl)) as [p|].
  - destruct (btc_pool_set_loader K C pl (peer_id p) now) as [pl1|] eqn:E;
      [|discriminate].
    intros H. injection H as <- <-. apply (set_loader_ok K C pl _ _ now Hok E).
  - destruct (btc_pool_get_addr pl tnow) as [addr|];
      [|intros H; injection H as <- <-; exact Hok].
    destruct (btc_pool_create_outbound pl addr d now) as [[r pl1]|] eqn:Ec;
      [|discriminate].
    destruct (create_outbound_fields _ _ _ _ _ _ Ec)
      as (Hp & _ & _ & _ & Hl & Hr).
    assert (Hok1 : loader_ok pl1)
      by (apply (loader_ok_fields pl); assumption).
    destruct r as [peer|]; [|intros H; injection H as <- <-; exact Hok1].
    destruct (btc_peers_add pl1 peer) as [pl2|] eqn:Ea; [|discriminate].
    destruct (Hr peer eq_refl) as [_ Hflag].
    pose proof (loader_ok_add pl1 pl2 peer Hok1 Hflag Ea) as Hok2.
    destruct (btc_pool_set_loader K C pl2 (peer_id peer) now) as [pl3|]
      eqn:E; [|discriminate].
    intros H. injection H as <- <-.
    apply (set_loader_ok K C pl2 _ _ now Hok2 E).
Qed.

Lemma on_complete_sync_ok (K : btc_consts) (C : msg_codec)
  (pl pl' : btc_pool) (id now : Z) :
  loader_ok pl -> on_complete_sync K C pl id now = Some pl' ->
  loader_ok pl'.
Proof.
  intros Hok. unfold on_complete_sync.
  destruct (find_peer id pl) as [p|];
    [|intros H; injection H as <-; exact Hok].
  destruct (negb (peer_outbound p)); [intros H; injection H as <-; exact Hok|].
  destruct (btc_pool_send_sync K C pl id now) as [[b pl1]|] eqn:E;
    [|discriminate].
  assert (Hok1 : loader_ok pl1).
  { apply (loader_ok_same pl); [exact Hok|].
    apply (send_sync_same K C pl pl1 id now b (proj1 Hok) E). }
  destruct (find_peer id pl1) as [p1|]; [|discriminate].
  cbn zeta.
  match goal with
  | |- match ?d with _ => _ end = _ -> _ => destruct d as [pl2|] eqn:Ed
  end; [|discriminate].
  assert (Hok2 : loader_ok pl2).
  { destruct (negb (peer_loader p1)); [|injection Ed as <-; exact Hok1].
    destruct (pool_load pl1) as [lid|] eqn:El;
      [|injection Ed as <-; exact Hok1].
    destruct (find_peer lid pl1) as [l|]; [|discriminate].
    destruct (negb _); injection Ed as <-; [|exact Hok1].
    destruct Hok1 as (Hn & Hl & Hp). unfold loader_ok, upd_peer.
    cbn [pool_peers pool_load set_pool_load set_pool_peers].
    split; [rewrite upd_ids by reflexivity; exact Hn|]. split.
    - intros q' Hq'. apply in_upd in Hq'. destruct Hq' as (q & Hq & ->).
      split; [|discriminate]. destruct (peer_id q =? lid) eqn:Eq.
      + cbn. discriminate.
      + intros Hq1. apply (Hl q Hq) in Hq1. rewrite El in Hq1.
        injection Hq1 as Hq1. apply Z.eqb_neq in Eq. congruence.
    - discriminate. }
  destruct (bool_decide (is_Some (pool_load pl2)));
    [intros H; injection H as <-; exact Hok2|].
  apply (set_loader_ok K C pl2 pl' id now Hok2).
Qed.

(** X7.  At most one peer is the loader, and [peers.load] is that peer:
    when the loader flags and [peers.load] agree in a pool whose peers have
    different ids, no two peers have the flag, and setting or dialling a
    loader, adding and removing a peer, a disconnect and a completed
    handshake leave them in agreement. *)
Theorem one_loader (K : btc_consts) (C : msg_codec) (pl : btc_pool) :
  loader_ok pl ->
  (forall q q', In q (pool_peers pl) -> In q' (pool_peers pl) ->
                peer_loader q = true -> peer_loader q' = true -> q = q')
  /\ (forall id now pl',
         btc_pool_set_loader K C pl id now = Some pl' -> loader_ok pl')
  /\ (forall tnow d now b pl',
         btc_pool_add_loader K C pl tnow d now = Some (b, pl') ->
         loader_ok pl')
  /\ (forall peer pl',
         peer_loader peer = false -> btc_peers_add pl peer = Some pl' ->
         loader_ok pl')
  /\ (forall id pl', btc_pool_remove_peer pl id = Some pl' -> loader_ok pl')
  /\ (forall id now pl',
         btc_pool_on_disconnect K C pl id now = Some pl' -> loader_ok pl')
  /\ (forall id now pl',
         on_complete_sync K C pl id now = Some pl' -> loader_ok pl').
Proof.
  intros Hok. split.
  { destruct Hok as (Hn & Hl & _). intros q q' Hq Hq' H1 H2.
    apply (Hl q Hq) in H1. apply (Hl q' Hq') in H2.
    apply (nodup_map_inj peer_id (pool_peers pl) q q' Hn Hq Hq').
    congruence. }
  split; [intros id now pl'; apply set_loader_ok, Hok|].
  split; [intros tnow d now b pl'; apply add_loader_loader_ok, Hok|].
  split; [intros peer pl'; apply loader_ok_add, Hok|].
  split; [intros id pl'; apply remove_peer_loader_ok, Hok|].
  split; [intros id now pl'; apply on_disconnect_loader_ok, Hok|].
  intros id now pl'. apply on_complete_sync_ok, Hok.
Qed.

Lemma loader_ok_sample : loader_ok Sample.loader_pool.
Proof.
  split; [cbn; constructor; [intros []|constructor]|].
  split.
  - intros q [<-|[]]. cbn. split; reflexivity.
  - intros id H. cbn in H. injection H as <-.
    eexists. split; [left; reflexivity|reflexivity].
Qed.

Lemma one_loader_witness :
  loader_ok Sample.loader_pool
  /\ (forall q q', In q (pool_peers Sample.loader_pool) ->
                   In q' (pool_peers Sample.loader_pool) ->
                   peer_loader q = true -> peer_loader q' = true -> q = q')
  /\ (forall id now pl',
         btc_pool_on_disconnect Sample.consts Sample.codec Sample.loader_pool
           id now = Some pl' -> loader_ok pl').
Proof.
  split; [exact loader_ok_sample|].
  destruct (one_loader Sample.consts Sample.codec Sample.loader_pool
              loader_ok_sample) as (H1 & _ & _ & _ & _ & H6 & _).
  split; [exact H1|exact H6].
Defined.

(** ** Requests, once more *)

Lemma request_loop_known (synced : bool) (step : Z) (type : btc_invtype)
  (hashes : list hash) (set : gset hash) (tab : gmap hash Z) (now : Z)
  (inv : list btc_invitem) :
  (forall h, In h hashes -> h ∈ set) ->
  request_loop synced step type hashes set tab now inv = (set, tab, inv).
Proof.
  induction hashes as [|h hashes IH]; intros Hall; cbn [request_loop];
    [reflexivity|].
  rewrite bool_decide_eq_true_2 by (apply Hall; left; reflexivity).
  apply IH. intros h' Hh'. apply Hall. right. exact Hh'.
Qed.

Lemma request_loop_covers (synced : bool) (step : Z) (type : btc_invtype)
  (hashes : list hash) :
  forall (set : gset hash) (tab : gmap hash Z) (now : Z)
         (inv : list btc_invitem),
    set ⊆ (request_loop synced step type hashes set tab now inv).1.1
    /\ forall h, In h hashes ->
                 h ∈ (request_loop synced step type hashes set tab now
                        inv).1.1.
Proof.
  induction hashes as [|h hashes IH]; intros set tab now inv;
    cbn [request_loop].
  - split; [reflexivity|intros h []].
  - destruct (bool_decide (h ∈ set)) eqn:E.
    + apply bool_decide_eq_true_1 in E.
      destruct (IH set tab now inv) as [H1 H2]. split; [exact H1|].
      intros h' [<-|Hh']; [apply H1, E|apply H2, Hh'].
    + destruct (IH ({[h]} ∪ set) (<[h := now]> tab)
                  (if synced then now + step else now)
                  (inv ++ [{| inv_type := type; inv_hash := h |}]))
        as [H1 H2].
      split.
      * intros x Hx. apply H1. apply elem_of_union. right. exact Hx.
      * intros h' [<-|Hh']; [|apply H2, Hh'].
        apply H1. apply elem_of_union. left. apply elem_of_singleton.
        reflexivity.
Qed.

Lemma upd_peer_fix (id : Z) (f : btc_peer -> btc_peer) (pl : btc_pool) :
  (forall q, In q (pool_peers pl) -> peer_id q = id -> f q = q) ->
  upd_peer id f pl = pl.
Proof.
  intros Hf. unfold upd_peer.
  replace (map (fun q => if peer_id q =? id then f q else q) (pool_peers pl))
    with (pool_peers pl).
  - destruct pl; reflexivity.
  - rewrite <- (map_id (pool_peers pl)) at 1. apply map_ext_in.
    intros q Hq. destruct (peer_id q =? id) eqn:E; [|reflexivity].
    apply Z.eqb_eq in E. symmetry. apply Hf; assumption.
Qed.

Lemma set_block_map_same (q : btc_peer) :
  set_peer_block_map (peer_block_map q) q = q.
Proof. destruct q; reflexivity. Qed.

Lemma set_pool_block_map_same (pl : btc_pool) :
  set_pool_block_map (pool_block_map pl) pl = pl.
Proof. destruct pl; reflexivity. Qed.

Lemma write_block_map (now : Z) (p : btc_peer) (data : list byte) :
  peer_block_map (snd (btc_peer_write now p data)) = peer_block_map p
  /\ peer_id (snd (btc_peer_write now p data)) = peer_id p.
Proof.
  unfold btc_peer_write, btc_socket_write.
  destruct (sock_rc (peer_socket p) (sock_nwrites (peer_socket p)) =? -1);
    split; reflexivity.
Qed.

(** A second run of [btc_pool_request_blocks] in a pool whose set holds
    the hashes and where the table of every peer [id] is [tab]. *)
Lemma request_blocks_again (K : btc_consts) (C : msg_codec) (pl : btc_pool)
  (id : Z) (hashes : list hash) (now : Z) (tab : gmap hash Z) :
  (forall h, In h hashes -> h ∈ pool_block_map pl) ->
  (forall q, In q (pool_peers pl) -> peer_id q = id ->
             peer_block_map q = tab) ->
  btc_pool_request_blocks K C pl id hashes now = pl.
Proof.
  intros Hall Htab. unfold btc_pool_request_blocks.
  destruct (find_peer id pl) as [p|] eqn:Hp; [|reflexivity].
  destruct (negb _); [reflexivity|].
  rewrite request_loop_known by exact Hall. cbn [length Nat.eqb].
  rewrite upd_peer_fix.
  - apply set_pool_block_map_same.
  - intros q Hq Hid. destruct (find_peer_in _ _ _ Hp) as [Hin Hpid].
    rewrite (Htab p Hin Hpid), <- (Htab q Hq Hid).
    apply set_block_map_same.
Qed.

(** X8.  Requesting the same blocks from the same peer a second time
    changes nothing and sends nothing: the hashes are in the set of the
    pool by then, under whatever peer. *)
Theorem request_blocks_twice (K : btc_consts) (C : msg_codec)
  (pl : btc_pool) (id : Z) (hashes : list hash) (now now' : Z) :
  btc_pool_request_blocks K C
    (btc_pool_request_blocks K C pl id hashes now) id hashes now'
  = btc_pool_request_blocks K C pl id hashes now.
Proof.
  remember (btc_pool_request_blocks K C pl id hashes now) as r eqn:Er.
  unfold btc_pool_request_blocks in Er.
  destruct (find_peer id pl) as [p|] eqn:Hp.
  2:{ subst r. unfold btc_pool_request_blocks. rewrite Hp. reflexivity. }
  destruct (negb (state_eqb (peer_state p) BTC_PEER_CONNECTED)) eqn:Es.
  { subst r. unfold btc_pool_request_blocks. rewrite Hp, Es. reflexivity. }
  destruct (request_loop_covers (btc_chain_synced (pool_chain pl)) 100
              (btc_peer_block_type K (pool_bip152_enabled pl) p) hashes
              (pool_block_map pl) (peer_block_map p) now []) as [_ Hcov].
  destruct (request_loop _ _ _ _ _ _ _ _) as [[set tab] inv].
  cbn [fst] in Hcov.
  assert (Hagain : forall f : btc_peer -> btc_peer,
             (forall q, peer_block_map (f q) = peer_block_map q) ->
             btc_pool_request_blocks K C
               (upd_peer id f
                  (set_pool_block_map set
                     (upd_peer id (set_peer_block_map tab) pl)))
               id hashes now'
             = upd_peer id f
                 (set_pool_block_map set
                    (upd_peer id (set_peer_block_map tab) pl))).
  { intros f Hf. apply (request_blocks_again K C _ id hashes now' tab).
    - exact Hcov.
    - intros q' Hq' Hid. unfold upd_peer in Hq'.
      cbn [pool_peers set_pool_peers set_pool_block_map] in Hq'.
      apply in_map_iff in Hq'. destruct Hq' as (q1 & <- & Hq1).
      apply in_map_iff in Hq1. destruct Hq1 as (q0 & <- & Hq0).
      destruct (peer_id q0 =? id) eqn:E0.
      + cbn [peer_id set_peer_block_map]. rewrite E0, Hf. reflexivity.
      + rewrite E0 in *. apply Z.eqb_neq in E0. contradiction. }
  destruct (Nat.eqb (length inv) 0).
  - subst r.
    rewrite <- (upd_peer_fix id (fun q => q)
                  (set_pool_block_map set
                     (upd_peer id (set_peer_block_map tab) pl)))
      by reflexivity.
    apply Hagain. reflexivity.
  - destruct (_ >=? _); subst r.
    + apply Hagain. reflexivity.
    + apply Hagain. intros q. unfold btc_peer_send_getdata, btc_peer_sendmsg,
        btc_peer_send. apply write_block_map.
Qed.

Lemma close_block_map (p : btc_peer) :
  peer_block_map (btc_peer_close p) = peer_block_map p
  /\ peer_id (btc_peer_close p) = peer_id p.
Proof. split; reflexivity. Qed.

(** What [btc_pool_request_blocks] leaves for one new hash: the set and the
    table of the peer have it. *)
Lemma request_blocks_one (K : btc_consts) (C : msg_codec) (pl : btc_pool)
  (id : Z) (h : hash) (now : Z) (p : btc_peer) :
  find_peer id pl = Some p ->
  peer_state p = BTC_PEER_CONNECTED ->
  h ∉ pool_block_map pl ->
  exists q,
    find_peer id (btc_pool_request_blocks K C pl id [h] now) = Some q
    /\ peer_block_map q = <[h := now]> (peer_block_map p)
    /\ pool_block_map (btc_pool_request_blocks K C pl id [h] now)
       = {[h]} ∪ pool_block_map pl.
Proof.
  intros Hp Hs Hh. unfold btc_pool_request_blocks. rewrite Hp, Hs.
  cbn [state_eqb negb request_loop].
  rewrite bool_decide_eq_false_2 by exact Hh.
  cbn [app length Nat.eqb].
  set (tab := <[h := now]> (peer_block_map p)).
  set (pl1 := set_pool_block_map ({[h]} ∪ pool_block_map pl)
                (upd_peer id (set_peer_block_map tab) pl)).
  assert (H1 : find_peer id pl1 = Some (set_peer_block_map tab p)).
  { apply (find_peer_upd_same id (set_peer_block_map tab) pl p);
      [reflexivity|exact Hp]. }
  destruct (_ >=? _).
  - exists (btc_peer_close (set_peer_block_map tab p)).
    split; [|split; reflexivity].
    apply (find_peer_upd_same id btc_peer_close pl1 _); [reflexivity|].
    exact H1.
  - set (inv := [{| inv_type := btc_peer_block_type K
                                   (pool_bip152_enabled pl) p;
                   inv_hash := h |}]).
    exists (btc_peer_send_getdata C now (set_peer_block_map tab p) inv).
    split; [|split; [|reflexivity]].
    + apply (find_peer_upd_same id
               (fun q => btc_peer_send_getdata C now q inv) pl1 _);
        [|exact H1].
      intros q. apply write_block_map.
    + unfold btc_peer_send_getdata, btc_peer_sendmsg, btc_peer_send.
      match goal with
      | |- peer_block_map (snd (btc_peer_write ?n ?q ?d)) = _ =>
          destruct (write_block_map n q d) as [-> _]
      end.
      reflexivity.
Qed.

(** X9.  A block that is requested and then arrives leaves the tables as
    they were: [btc_pool_resolve_block] undoes what
    [btc_pool_request_blocks] entered for the hash, in the set of the pool
    and in the table of the peer. *)
Theorem request_resolve (K : btc_consts) (C : msg_codec) (pl : btc_pool)
  (id : Z) (h : hash) (now : Z) (p : btc_peer) :
  find_peer id pl = Some p ->
  peer_state p = BTC_PEER_CONNECTED ->
  h ∉ pool_block_map pl ->
  peer_block_map p !! h = None ->
  exists pl2 q,
    btc_pool_resolve_block (btc_pool_request_blocks K C pl id [h] now) id h
    = Some (true, pl2)
    /\ pool_block_map pl2 = pool_block_map pl
    /\ find_peer id pl2 = Some q
    /\ peer_block_map q = peer_block_map p.
Proof.
  intros Hp Hs Hh Hnone.
  destruct (request_blocks_one K C pl id h now p Hp Hs Hh)
    as (q1 & Hq1 & Htab & Hset).
  set (r := btc_pool_request_blocks K C pl id [h] now) in *.
  unfold btc_pool_resolve_block. rewrite Hq1, Htab, lookup_insert_eq.
  rewrite bool_decide_eq_true_2
    by (rewrite Hset; apply elem_of_union; left;
        apply elem_of_singleton; reflexivity).
  eexists. eexists. split; [reflexivity|]. split.
  - cbn [pool_block_map set_pool_block_map]. rewrite Hset.
    apply set_eq. intros x.
    rewrite elem_of_difference, elem_of_union, elem_of_singleton.
    split; [tauto|]. intros Hx. split; [right; exact Hx|].
    intros ->. contradiction.
  - split.
    + apply (find_peer_upd_same id _ r q1); [reflexivity|exact Hq1].
    + cbn [peer_block_map set_peer_block_map].
      rewrite delete_insert_id by exact Hnone. reflexivity.
Qed.

Lemma request_resolve_witness :
  exists pl2 q,
    btc_pool_resolve_block
      (btc_pool_request_blocks Sample.consts Sample.codec Sample.pool1 0
         [Sample.hash_n 7] 5000) 0 (Sample.hash_n 7) = Some (true, pl2)
    /\ pool_block_map pl2 = pool_block_map Sample.pool1
    /\ find_peer 0 pl2 = Some q
    /\ peer_block_map q
       = peer_block_map (Sample.peer 0 true BTC_PEER_CONNECTED).
Proof.
  apply (request_resolve Sample.consts Sample.codec Sample.pool1 0
           (Sample.hash_n 7) 5000 (Sample.peer 0 true BTC_PEER_CONNECTED)).
  - reflexivity.
  - reflexivity.
  - apply not_elem_of_empty.
  - apply lookup_empty.
Defined.

Lemma find_peer_upd_other (id id' : Z) (f : btc_peer -> btc_peer)
  (pl : btc_pool) (p : btc_peer) :
  (forall q, peer_id (f q) = peer_id q) ->
  id' <> id -> find_peer id' pl = Some p ->
  find_peer id' (upd_peer id f pl) = Some p.
Proof.
  intros Hf Hne Hp. rewrite find_peer_upd by exact Hf. rewrite Hp.
  cbn [option_map]. rewrite (find_peer_id _ _ _ Hp).
  destruct (id' =? id) eqn:E; [apply Z.eqb_eq in E; contradiction|].
  reflexivity.
Qed.

(** X10.  A hash that one peer was asked for cannot be requested from
    another peer: the request is dropped without a trace.  Once the first
    peer has answered [notfound], the hash is free again, and a request to
    the other peer enters it in the table of that peer. *)
Theorem notfound_frees_request (K : btc_consts) (C : msg_codec)
  (pl : btc_pool) (a b : Z) (h : hash) (now : Z) (pa pb : btc_peer) :
  tables_ok pl ->
  find_peer a pl = Some pa ->
  find_peer b pl = Some pb ->
  a <> b ->
  peer_state pb = BTC_PEER_CONNECTED ->
  is_Some (peer_block_map pa !! h) ->
  btc_pool_request_blocks K C pl b [h] now = pl
  /\ exists pl1 qb,
       btc_pool_on_notfound pl a [{| inv_type := BTC_INV_BLOCK;
                                     inv_hash := h |}] = Some pl1
       /\ (h ∉ pool_block_map pl1)
       /\ find_peer b (btc_pool_request_blocks K C pl1 b [h] now) = Some qb
       /\ h ∈ pool_block_map (btc_pool_request_blocks K C pl1 b [h] now)
       /\ peer_block_map qb !! h = Some now.
Proof.
  intros Hok Ha Hb Hne Hs [x Hx].
  pose proof (tables_ok_ids pl Hok) as Hn.
  assert (Hin : h ∈ pool_block_map pl).
  { apply (tables_ok_sub BLOCKS pl a pa Hok Ha).
    apply elem_of_dom. exists x. exact Hx. }
  split.
  - apply (request_blocks_again K C pl b [h] now (peer_block_map pb)).
    + intros h' [<-|[]]. exact Hin.
    + intros q Hq Hid. f_equal.
      destruct (find_peer_in _ _ _ Hb) as [Hpb Hidb].
      apply (nodup_map_inj peer_id (pool_peers pl) q pb Hn Hq Hpb).
      congruence.
  - set (pl1 := set_pool_block_map (pool_block_map pl ∖ {[h]})
                  (upd_peer a
                     (set_peer_block_map (delete h (peer_block_map pa)))
                     pl)).
    assert (Hnf : btc_pool_on_notfound pl a
                    [{| inv_type := BTC_INV_BLOCK; inv_hash := h |}]
                  = Some pl1).
    { cbn [btc_pool_on_notfound]. unfold btc_pool_resolve_item.
      cbn [inv_type inv_hash]. unfold btc_pool_resolve_block.
      rewrite Ha, Hx, bool_decide_eq_true_2 by exact Hin. reflexivity. }
    assert (Hfree : h ∉ pool_block_map pl1).
    { cbn [pl1 pool_block_map set_pool_block_map].
      rewrite elem_of_difference, elem_of_singleton. tauto. }
    assert (Hb1 : find_peer b pl1 = Some pb).
    { apply (find_peer_upd_other a b _ pl pb);
        [reflexivity|congruence|exact Hb]. }
    destruct (request_blocks_one K C pl1 b h now pb Hb1 Hs Hfree)
      as (qb & Hqb & Htab & Hset).
    exists pl1, qb. split; [exact Hnf|]. split; [exact Hfree|].
    split; [exact Hqb|]. split.
    + rewrite Hset. apply elem_of_union. left. apply elem_of_singleton.
      reflexivity.
    + rewrite Htab. apply lookup_insert_eq.
Qed.

Lemma tables_ok_shared : tables_ok Sample.shared_pool.
Proof.
  apply (reachable_ok Sample.consts Sample.codec).
  unfold Sample.shared_pool.
  eapply reach_step; [|apply step_request_blocks].
  eapply reach_step.
  - eapply reach_step.
    + apply (reach_init _ _ (Sample.pool [] (Sample.chain true 5)));
        [reflexivity|intros t; destruct t; reflexivity].
    + apply (step_add _ _ _ Sample.joined_pool
               (Sample.peer 0 true BTC_PEER_CONNECTED)).
      * intros t. destruct t; apply dom_empty_L.
      * reflexivity.
  - apply (step_add _ _ _ _ (Sample.peer 1 true BTC_PEER_CONNECTED)).
    + intros t. destruct t; apply dom_empty_L.
    + reflexivity.
Qed.

Lemma notfound_frees_request_witness :
  btc_pool_request_blocks Sample.consts Sample.codec Sample.shared_pool 1
    [Sample.hash_n 7] 6000 = Sample.shared_pool
  /\ exists pl1 qb,
       btc_pool_on_notfound Sample.shared_pool 0
         [{| inv_type := BTC_INV_BLOCK; inv_hash := Sample.hash_n 7 |}]
       = Some pl1
       /\ (Sample.hash_n 7 ∉ pool_block_map pl1)
       /\ find_peer 1
            (btc_pool_request_blocks Sample.consts Sample.codec pl1 1
               [Sample.hash_n 7] 6000) = Some qb
       /\ Sample.hash_n 7
          ∈ pool_block_map
              (btc_pool_request_blocks Sample.consts Sample.codec pl1 1
                 [Sample.hash_n 7] 6000)
       /\ peer_block_map qb !! Sample.hash_n 7 = Some 6000.
Proof.
  assert (Ea : bool_decide
                 (is_Some (find_peer 0 Sample.shared_pool
                           ≫= fun q => peer_block_map q !! Sample.hash_n 7))
               = true) by (vm_compute; reflexivity).
  apply bool_decide_eq_true_1 in Ea.
  destruct (find_peer 0 Sample.shared_pool) as [pa|] eqn:Ha;
    [|destruct Ea; discriminate].
  cbn [mbind option_bind] in Ea.
  apply (notfound_frees_request Sample.consts Sample.codec
           Sample.shared_pool 0 1 (Sample.hash_n 7) 6000 pa
           (Sample.peer 1 true BTC_PEER_CONNECTED)).
  - exact tables_ok_shared.
  - exact Ha.
  - reflexivity.
  - lia.
  - reflexivity.
  - exact Ea.
Defined.

(** ** Headers served from the chain *)

Section HeaderWalk.
Variable ch : btc_chain.
Variable stop : option btc_entry.

Lemma header_walk_linked (n : nat) (e : option btc_entry) :
  linked ch e (header_walk ch stop n e).
Proof.
  revert e. induction n as [|n IH]; intros [x|]; cbn; try exact I.
  split; [reflexivity|]. destruct (is_stop stop x); [exact I|apply IH].
Qed.

Lemma header_walk_length (n : nat) (e : option btc_entry) :
  (length (header_walk ch stop n e) <= n)%nat.
Proof.
  revert e. induction n as [|n IH]; intros [x|]; cbn; try lia.
  destruct (is_stop stop x); cbn; [lia|]. specialize (IH (entry_next ch x)).
  lia.
Qed.

Lemma header_walk_inner (n : nat) (e : option btc_entry) :
  Forall (fun x => is_stop stop x = false)
    (removelast (header_walk ch stop n e)).
Proof.
  revert e. induction n as [|n IH]; intros [x|]; cbn [header_walk];
    try (cbn; constructor).
  destruct (is_stop stop x) eqn:E; [cbn; constructor|].
  specialize (IH (entry_next ch x)).
  destruct (header_walk ch stop n (entry_next ch x)) as [|y w] eqn:Ew;
    [cbn; constructor|].
  change (removelast (x :: y :: w)) with (x :: removelast (y :: w)).
  constructor; assumption.
Qed.

Lemma header_walk_end (n : nat) (e : option btc_entry) :
  (length (header_walk ch stop n e) < n)%nat ->
  match last (header_walk ch stop n e) with
  | None => e = None
  | Some x => is_stop stop x = true \/ entry_next ch x = None
  end.
Proof.
  revert e. induction n as [|n IH]; intros e Hl; [cbn in Hl; lia|].
  destruct e as [x|]; [|reflexivity]. cbn [header_walk] in *.
  destruct (is_stop stop x) eqn:E; [left; exact E|].
  cbn [length] in Hl. specialize (IH (entry_next ch x) ltac:(lia)).
  destruct (header_walk ch stop n (entry_next ch x)) as [|y w] eqn:Ew.
  - right. exact IH.
  - rewrite last_cons. destruct (last (y :: w)) eqn:El; [exact IH|].
    apply last_None in El. discriminate.
Qed.

Lemma getheaders_loop_walk (fuel : nat) (e : option btc_entry)
  (blocks : list btc_header) :
  (length blocks + fuel = 2000)%nat ->
  getheaders_loop ch stop fuel e blocks
  = blocks ++ map entry_header (header_walk ch stop fuel e).
Proof.
  revert e blocks. induction fuel as [|fuel IH]; intros e blocks Hl.
  - destruct e; cbn; rewrite app_nil_r; reflexivity.
  - destruct e as [x|]; cbn [getheaders_loop header_walk];
      [|cbn; rewrite app_nil_r; reflexivity].
    destruct (is_stop stop x); [reflexivity|].
    rewrite length_app. cbn [length].
    destruct (Nat.eqb (length blocks + 1) 2000) eqn:E.
    + apply Nat.eqb_eq in E. assert (fuel = 0%nat) as -> by lia.
      destruct (entry_next ch x); reflexivity.
    + rewrite IH by (rewrite length_app; cbn [length]; lia).
      cbn [map]. rewrite <- app_assoc. reflexivity.
Qed.

End HeaderWalk.

Lemma is_stop_self (e : btc_entry) : is_stop (Some e) e = true.
Proof.
  unfold is_stop, entry_eqb, btc_hash_equal. apply bool_decide_eq_true_2.
  reflexivity.
Qed.

(** X11.  The answer to a [getheaders] on a synced chain is one [headers]
    message with the headers of a contiguous run of the main chain, at most
    2000 of them.  The run starts after the entry found for the locator, or
    at the stop block itself when the locator is empty; no entry but the
    last is the stop block, and a run of fewer than 2000 ends with the stop
    block or with the tip.  Unlike a [getblocks], the stop block is part of
    the answer: an empty locator is answered with the header of the stop
    block alone, or with no header when the chain does not have it.  The
    message is one write on the socket of the peer: when the socket takes
    it, the frame of the [headers] message stands behind what was written
    before and the peer stays in its state; when the write fails nothing
    is added and the peer is closed.  While the chain is not synced nothing
    is sent. *)
Theorem getheaders_walk (C : msg_codec) (ch : btc_chain) (now : Z)
  (p : btc_peer) (locator : list hash) (stop : hash) :
  let stop_entry := btc_chain_by_hash ch stop in
  let start := match locator with
               | [] => stop_entry
               | _ => match btc_chain_find_locator ch locator with
                      | Some e => entry_next ch e
                      | None => None
                      end
               end in
  let w := header_walk ch stop_entry 2000 start in
  let r := btc_pool_on_getheaders C ch now p locator stop in
  let m := BTC_MSG_HEADERS (map entry_header w) in
  (btc_chain_synced ch = false -> r = p)
  /\ (btc_chain_synced ch = true ->
      r = btc_peer_send_headers C now p (map entry_header w))
  /\ linked ch start w
  /\ (length w <= 2000)%nat
  /\ Forall (fun x => is_stop stop_entry x = false) (removelast w)
  /\ ((length w < 2000)%nat ->
      match last w with
      | None => start = None
      | Some x => is_stop stop_entry x = true \/ entry_next ch x = None
      end)
  /\ (locator = [] ->
      w = match stop_entry with Some e => [e] | None => [] end)
  /\ (btc_chain_synced ch = true ->
      sock_nwrites (peer_socket r) = S (sock_nwrites (peer_socket p))
      /\ (sock_rc (peer_socket p) (sock_nwrites (peer_socket p)) <> -1 ->
          sock_written (peer_socket r)
          = sock_written (peer_socket p)
            ++ [btc_frame (net_magic (peer_network p)) (msg_cmd C m)
                  (btc_msg_export C m)]
          /\ peer_state r = peer_state p)
      /\ (sock_rc (peer_socket p) (sock_nwrites (peer_socket p)) = -1 ->
          sock_written (peer_socket r) = sock_written (peer_socket p)
          /\ peer_state r = BTC_PEER_DEAD)).
Proof.
  intros stop_entry start w r m.
  assert (Hr : btc_chain_synced ch = true ->
               r = btc_peer_send_headers C now p (map entry_header w)).
  { intros Hs. unfold r, btc_pool_on_getheaders. rewrite Hs. cbn [negb].
    assert (E : (if Nat.ltb 0 (length locator)
                 then (match btc_chain_find_locator ch locator with
                       | Some e => entry_next ch e
                       | None => None
                       end, btc_chain_by_hash ch stop)
                 else (btc_chain_by_hash ch stop, btc_chain_by_hash ch stop))
                = (start, stop_entry)).
    { unfold start, stop_entry. destruct locator; reflexivity. }
    rewrite E.
    rewrite (getheaders_loop_walk ch stop_entry 2000 start [] eq_refl).
    reflexivity. }
  split;
    [intros Hs; unfold r, btc_pool_on_getheaders; rewrite Hs; reflexivity|].
  split; [exact Hr|].
  split; [apply header_walk_linked|].
  split; [apply header_walk_length|].
  split; [apply header_walk_inner|].
  split; [apply header_walk_end|].
  split.
  { intros ->. unfold w, start. destruct stop_entry as [e|]; [|reflexivity].
    cbn [header_walk]. rewrite is_stop_self. reflexivity. }
  intros Hs. rewrite (Hr Hs). unfold btc_peer_send_headers.
  destruct (sendmsg_socket C now p m) as (H1 & _ & _ & H4 & H5).
  split; [exact H1|]. split; [exact H4|exact H5].
Qed.

Lemma getheaders_walk_witness :
  let r := btc_pool_on_getheaders Sample.codec (Sample.chain true 5) 5000
             (Sample.peer 0 true BTC_PEER_CONNECTED) [Sample.hash_n 2]
             (Sample.hash_n 4) in
  let hs := [Sample.header (Sample.hash_n 2) (Sample.hash_n 3);
             Sample.header (Sample.hash_n 3) (Sample.hash_n 4)] in
  sock_written (peer_socket r)
  = [btc_frame Sample.magic_main
       (msg_cmd Sample.codec (BTC_MSG_HEADERS hs))
       (btc_msg_export Sample.codec (BTC_MSG_HEADERS hs))]
  /\ peer_state r = BTC_PEER_CONNECTED.
Proof.
  intros r hs.
  destruct (getheaders_walk Sample.codec (Sample.chain true 5) 5000
              (Sample.peer 0 true BTC_PEER_CONNECTED) [Sample.hash_n 2]
              (Sample.hash_n 4))
    as (_ & _ & _ & _ & _ & _ & _ & H).
  destruct (H eq_refl) as (_ & Hw & _).
  destruct Hw as (H1 & H2); [cbn; discriminate|].
  split; [exact H1|exact H2].
Defined.

(** ** The queue of [getdata] items *)

Lemma write_sending (now : Z) (p : btc_peer) (data : list byte) :
  peer_sending (snd (btc_peer_write now p data)) = peer_sending p.
Proof.
  unfold btc_peer_write, btc_socket_write.
  destruct (sock_rc (peer_socket p) (sock_nwrites (peer_socket p)) =? -1);
    reflexivity.
Qed.

Lemma sendmsg_sending (C : msg_codec) (now : Z) (p : btc_peer) (m : btc_msg) :
  peer_sending (btc_peer_sendmsg C now p m) = peer_sending p.
Proof. apply write_sending. Qed.

Lemma flush_serve_sending (C : msg_codec) (ch : btc_chain) (mp : btc_mempool)
  (now : Z) (p : btc_peer) (nf : list btc_invitem) (item : btc_invitem) :
  peer_sending (fst (btc_peer_flush_serve C ch mp now p nf item))
  = peer_sending p.
Proof.
  unfold btc_peer_flush_serve, btc_peer_send_cmpctblock.
  repeat match goal with
         | |- context [match ?x with _ => _ end] => destruct x
         end;
    cbn [fst]; try reflexivity;
    try apply sendmsg_sending; apply write_sending.
Qed.

Lemma flush_item_sending (C : msg_codec) (ch : btc_chain) (mp : btc_mempool)
  (now : Z) (p : btc_peer) (nf : list btc_invitem) (item : btc_invitem) :
  peer_sending (fst (btc_peer_flush_item C ch mp now p nf item))
  = peer_sending p.
Proof.
  unfold btc_peer_flush_item.
  pose proof (flush_serve_sending C ch mp now p nf item) as Hs.
  destruct (btc_peer_flush_serve C ch mp now p nf item) as [p1 nf1].
  cbn [fst] in *.
  destruct (btc_hash_equal (inv_hash item) (peer_hash_continue p1));
    [|exact Hs].
  unfold btc_peer_send_inv_1. cbn [peer_sending set_peer_hash_continue].
  rewrite sendmsg_sending. exact Hs.
Qed.



(** ** What serving a [getdata] writes *)

Lemma wrote_refl (p : btc_peer) : wrote p p [].
Proof.
  unfold wrote. rewrite app_nil_r, Nat.add_0_r. repeat split.
Qed.

Lemma wrote_trans (p q r : btc_peer) (a b : list (list byte)) :
  wrote p q a -> wrote q r b -> wrote p r (a ++ b).
Proof.
  intros (A1 & A2 & A3 & A4 & A5 & A6 & A7 & A8)
         (B1 & B2 & B3 & B4 & B5 & B6 & B7 & B8).
  unfold wrote. rewrite B1, A1, B2, A2, length_app, <- app_assoc.
  repeat split; try congruence. lia.
Qed.

Lemma wrote_accepting (p q : btc_peer) (a : list (list byte)) :
  wrote p q a -> accepting p -> accepting q.
Proof.
  intros (_ & _ & H & _) Ha n. rewrite H. apply Ha.
Qed.

Lemma write_wrote (now : Z) (p : btc_peer) (data : list byte) :
  accepting p -> wrote p (snd (btc_peer_write now p data)) [data].
Proof.
  intros Ha. unfold btc_peer_write, btc_socket_write.
  destruct (sock_rc (peer_socket p) (sock_nwrites (peer_socket p)) =? -1)
    eqn:E; [apply Z.eqb_eq in E; exfalso; exact (Ha _ E)|].
  unfold wrote. cbn [snd peer_socket set_peer_last_send set_peer_socket
                     sock_written sock_nwrites sock_rc sock_buffered
                     set_sock_written set_sock_nwrites peer_state
                     peer_network peer_compact_witness peer_id length].
  rewrite Nat.add_1_r. repeat split.
Qed.

Lemma sendmsg_wrote (C : msg_codec) (now : Z) (p : btc_peer) (m : btc_msg) :
  accepting p ->
  wrote p (btc_peer_sendmsg C now p m)
    [btc_frame (net_magic (peer_network p)) (msg_cmd C m)
       (btc_msg_export C m)].
Proof. apply write_wrote. Qed.















(** ** The framer on any input *)

Lemma read32le_nonneg (data : list byte) : 0 <= read32le data.
Proof.
  unfold read32le, nth_byte.
  pose proof (byte_to_Z_range (nth 0 data x00)).
  pose proof (byte_to_Z_range (nth 1 data x00)).
  pose proof (byte_to_Z_range (nth 2 data x00)).
  pose proof (byte_to_Z_range (nth 3 data x00)).
  lia.
Qed.

Lemma parse_header_ok (p : btc_parser) (data : list byte) :
  parser_ok p -> has_header p = false ->
  parser_ok (snd (btc_parser_parse_header p data))
  /\ closed (snd (btc_parser_parse_header p data)) = closed p
  /\ magic (snd (btc_parser_parse_header p data)) = magic p
  /\ pending (snd (btc_parser_parse_header p data)) = pending p.
Proof.
  intros [Hw Hh] Hn. unfold parser_ok, btc_parser_parse_header.
  pose proof (read32le_nonneg (skipn 16 data)) as Hr.
  repeat match goal with
         | |- context [if ?b then _ else _] => destruct b eqn:?
         end; cbn; repeat split; auto; try lia; try discriminate.
Qed.

Section TraceLoop.
Context {M : Type}.
Variable import : list byte -> list byte -> option M.

Local Abbreviation St := (btc_parser * list (parser_event M))%type.
Local Abbreviation wp := (fun (p : btc_parser) (s : St) => (p, snd s)).
Local Abbreviation emit := (fun (m : M) (s : St) =>
                          Some (fst s, snd s ++ [Emitted m])).
Local Abbreviation fail := (fun s : St => Some (fst s, snd s ++ [Failed])).
Local Abbreviation step := (btc_parser_feed_step import fst wp emit fail).
Local Abbreviation loop := (btc_parser_feed_loop import fst wp emit fail).

Lemma trace_step_ok (s : St) (ptr : list byte) :
  parser_ok (fst s) ->
  waiting (fst s) <= Z.of_nat (length ptr) ->
  exists s2,
    step s ptr = Some (s2, skipn (Z.to_nat (waiting (fst s))) ptr)
    /\ parser_ok (fst s2)
    /\ closed (fst s2) = closed (fst s)
    /\ magic (fst s2) = magic (fst s)
    /\ (exists ev, snd s2 = snd s ++ ev)
    /\ (turns s2 (skipn (Z.to_nat (waiting (fst s))) ptr) < turns s ptr)%nat.
Proof.
  destruct s as [p ev]. cbn [fst snd]. intros Hok Hlen.
  pose proof Hok as [Hw Hh].
  unfold btc_parser_feed_step, btc_parser_parse, turns. cbn [fst snd].
  assert (Hf : length (firstn (Z.to_nat (waiting p)) ptr)
               = Z.to_nat (waiting p)).
  { rewrite length_firstn. lia. }
  rewrite Hf.
  destruct (Z.of_nat (Z.to_nat (waiting p)) >? BTC_NET_MAX_MESSAGE) eqn:E;
    [apply Z.gtb_lt in E; lia|].
  destruct (has_header p) eqn:Ehh; cbn [negb].
  - assert (Hs : (length (skipn (Z.to_nat (waiting p)) ptr) <= length ptr)%nat)
      by (rewrite length_skipn; lia).
    assert (Hok1 : parser_ok (set_has_header false (set_waiting 24 p))).
    { split; cbn; [unfold BTC_NET_MAX_MESSAGE; lia|reflexivity]. }
    destruct (negb (read32le (btc_hash256 (firstn (Z.to_nat (waiting p)) ptr))
                    =? checksum p)).
    + destruct (closed p) eqn:Ec; cbn [fst snd closed set_has_header
                                         set_waiting]; rewrite ?Ec;
        eexists; (split; [reflexivity|]); cbn [fst snd];
        (split; [exact Hok1|]); cbn;
        repeat split; auto; try (eexists; reflexivity); try lia.
      exists []. rewrite app_nil_r. reflexivity.
    + destruct (import (cmd p) (firstn (Z.to_nat (waiting p)) ptr)).
      * eexists; (split; [reflexivity|]); cbn [fst snd];
          (split; [exact Hok1|]); cbn;
          repeat split; auto; try (eexists; reflexivity); try lia.
      * destruct (closed p) eqn:Ec; cbn [fst snd closed set_has_header
                                           set_waiting]; rewrite ?Ec;
          eexists; (split; [reflexivity|]); cbn [fst snd];
          (split; [exact Hok1|]); cbn;
          repeat split; auto; try (eexists; reflexivity); try lia.
        exists []. rewrite app_nil_r. reflexivity.
  - specialize (Hh eq_refl). rewrite Hh in *.
    change (Z.to_nat 24) with 24%nat in *. cbn [Nat.eqb negb].
    destruct (parse_header_ok p (firstn 24 ptr) Hok Ehh)
      as (Hok1 & Hc1 & Hm1 & _).
    assert (Hs : (length (skipn 24 ptr) + 24 = length ptr)%nat)
      by (rewrite length_skipn; lia).
    destruct (btc_parser_parse_header p (firstn 24 ptr)) as [ok p1].
    cbn [fst snd] in *.
    destruct ok.
    + eexists; (split; [reflexivity|]); cbn [fst snd].
      repeat split; auto; try apply Hok1.
      * exists []. rewrite app_nil_r. reflexivity.
      * destruct (has_header p1); lia.
    + destruct (closed p1) eqn:Ec1;
        (eexists; (split; [reflexivity|]); cbn [fst snd];
         repeat split; auto; try apply Hok1; try congruence;
         try (destruct (has_header p1); lia)).
      * exists []. rewrite app_nil_r. reflexivity.
      * eexists; reflexivity.
Qed.

Lemma trace_loop_total (fuel : nat) :
  forall (s : St) (ptr : list byte),
    parser_ok (fst s) ->
    (turns s ptr < fuel)%nat ->
    exists s' rest,
      loop fuel s ptr = Ok (s', rest)
      /\ parser_ok (fst s')
      /\ closed (fst s') = closed (fst s)
      /\ magic (fst s') = magic (fst s)
      /\ (exists ev, snd s' = snd s ++ ev)
      /\ (exists used, ptr = used ++ rest)
      /\ (closed (fst s') = false ->
          Z.of_nat (length rest) < waiting (fst s')).
Proof.
  induction fuel as [|fuel IH]; intros s ptr Hok Hf; [lia|].
  cbn [btc_parser_feed_loop].
  destruct (closed (fst s)) eqn:Ec; cbn [orb].
  { exists s, ptr. split; [reflexivity|]. split; [exact Hok|].
    split; [congruence|]. split; [reflexivity|].
    split; [exists []; rewrite app_nil_r; reflexivity|].
    split; [exists []; reflexivity|]. rewrite Ec. discriminate. }
  destruct (Z.of_nat (length ptr) <? waiting (fst s)) eqn:El.
  { exists s, ptr. split; [reflexivity|]. split; [exact Hok|].
    split; [congruence|]. split; [reflexivity|].
    split; [exists []; rewrite app_nil_r; reflexivity|].
    split; [exists []; reflexivity|]. intros _. apply Z.ltb_lt in El. lia. }
  apply Z.ltb_ge in El.
  destruct (trace_step_ok s ptr Hok El)
    as (s2 & Hst & Hok2 & Hc2 & Hm2 & [ev2 Hev2] & Ht).
  rewrite Hst.
  assert (Hlt : (turns s2 (skipn (Z.to_nat (waiting (fst s))) ptr) < fuel)%nat)
    by lia.
  destruct (IH s2 _ Hok2 Hlt)
    as (s' & rest & Hl & Hok' & Hc' & Hm' & [ev' Hev'] & [used Hu] & Hr).
  exists s', rest. split; [exact Hl|]. split; [exact Hok'|].
  split; [congruence|]. split; [congruence|].
  split; [exists (ev2 ++ ev'); rewrite Hev', Hev2, app_assoc; reflexivity|].
  split; [|exact Hr].
  exists (firstn (Z.to_nat (waiting (fst s))) ptr ++ used).
  rewrite <- app_assoc, <- Hu. symmetry. apply firstn_skipn.
Qed.

Lemma trace_loop_more (fuel : nat) :
  forall (fuel' : nat) (s : St) (ptr : list byte) r,
    loop fuel s ptr = Ok r -> (fuel <= fuel')%nat -> loop fuel' s ptr = Ok r.
Proof.
  induction fuel as [|fuel IH]; intros fuel' s ptr r Hl Hf.
  - cbn [btc_parser_feed_loop] in Hl.
    destruct fuel'; cbn [btc_parser_feed_loop];
      destruct (closed (fst s) || (Z.of_nat (length ptr) <? waiting (fst s)));
      try exact Hl; discriminate.
  - destruct fuel' as [|fuel']; [lia|].
    cbn [btc_parser_feed_loop] in *.
    destruct (closed (fst s) || (Z.of_nat (length ptr) <? waiting (fst s)));
      [exact Hl|].
    destruct (step s ptr) as [[s2 rest]|]; [|discriminate].
    apply IH; [exact Hl|lia].
Qed.

Lemma trace_step_app (s : St) (ptr extra : list byte) :
  waiting (fst s) <= Z.of_nat (length ptr) ->
  0 <= waiting (fst s) ->
  step s (ptr ++ extra)
  = match step s ptr with
    | Some (s2, rest) => Some (s2, rest ++ extra)
    | None => None
    end.
Proof.
  intros Hl H0. unfold btc_parser_feed_step.
  rewrite firstn_app, skipn_app.
  replace (Z.to_nat (waiting (fst s)) - length ptr)%nat with 0%nat by lia.
  cbn [firstn skipn]. rewrite app_nil_r.
  destruct (btc_parser_parse import fst wp emit s
              (firstn (Z.to_nat (waiting (fst s))) ptr)) as [[ok s1]|];
    [|reflexivity].
  destruct ok; [reflexivity|].
  destruct (closed (fst s1)); reflexivity.
Qed.

Lemma trace_loop_app (fuel : nat) :
  forall (s s1 : St) (ptr rest extra : list byte) (fuel' : nat) r,
    parser_ok (fst s) ->
    loop fuel s ptr = Ok (s1, rest) ->
    loop fuel' s1 (rest ++ extra) = Ok r ->
    loop (fuel + fuel') s (ptr ++ extra) = Ok r.
Proof.
  induction fuel as [|fuel IH]; intros s s1 ptr rest extra fuel' r Hok Hl Hr.
  - cbn [btc_parser_feed_loop] in Hl.
    destruct (closed (fst s) || (Z.of_nat (length ptr) <? waiting (fst s)));
      [|discriminate].
    injection Hl as <- <-. exact Hr.
  - cbn [btc_parser_feed_loop] in Hl.
    destruct (closed (fst s)) eqn:Ec; cbn [orb] in Hl.
    { injection Hl as <- <-.
      apply (trace_loop_more fuel'); [exact Hr|lia]. }
    destruct (Z.of_nat (length ptr) <? waiting (fst s)) eqn:El.
    { injection Hl as <- <-.
      apply (trace_loop_more fuel'); [exact Hr|lia]. }
    apply Z.ltb_ge in El.
    destruct (trace_step_ok s ptr Hok El)
      as (s2 & Hst & Hok2 & _).
    rewrite Hst in Hl.
    change (S fuel + fuel')%nat with (S (fuel + fuel')).
    cbn [btc_parser_feed_loop]. rewrite Ec. cbn [orb].
    destruct (Z.of_nat (length (ptr ++ extra)) <? waiting (fst s)) eqn:El2.
    { apply Z.ltb_lt in El2. rewrite length_app in El2. lia. }
    rewrite trace_step_app by (destruct Hok; lia). rewrite Hst.
    apply (IH s2 s1 _ rest); assumption.
Qed.

End TraceLoop.

Section TraceFeed.
Context {M : Type}.
Variable import : list byte -> list byte -> option M.

Local Abbreviation St := (btc_parser * list (parser_event M))%type.
Local Abbreviation wp := (fun (p : btc_parser) (s : St) => (p, snd s)).
Local Abbreviation emit := (fun (m : M) (s : St) =>
                          Some (fst s, snd s ++ [Emitted m])).
Local Abbreviation fail := (fun s : St => Some (fst s, snd s ++ [Failed])).
Local Abbreviation step := (btc_parser_feed_step import fst wp emit fail).
Local Abbreviation loop := (btc_parser_feed_loop import fst wp emit fail).
Local Abbreviation repend :=
  (fun (x : list byte) (s : St) => (set_pending x (fst s), snd s)).

(** The loop reads the bytes through [ptr]; the field [pending] is carried
    along untouched. *)
Lemma parse_header_pending (x : list byte) (p : btc_parser)
  (data : list byte) :
  btc_parser_parse_header (set_pending x p) data
  = (fst (btc_parser_parse_header p data),
     set_pending x (snd (btc_parser_parse_header p data))).
Proof.
  unfold btc_parser_parse_header.
  cbn [magic cmd set_pending set_cmd].
  repeat match goal with
         | |- context [if ?b then _ else _] => destruct b
         end; reflexivity.
Qed.

Lemma trace_step_pending (x : list byte) (s : St) (ptr : list byte) :
  step (repend x s) ptr
  = match step s ptr with
    | Some (s2, rest) => Some (repend x s2, rest)
    | None => None
    end.
Proof.
  destruct s as [p ev].
  unfold btc_parser_feed_step, btc_parser_parse.
  cbn [fst snd waiting has_header set_pending checksum cmd].
  destruct (Z.of_nat (length (firstn (Z.to_nat (waiting p)) ptr))
            >? BTC_NET_MAX_MESSAGE); [reflexivity|].
  destruct (has_header p); cbn [negb].
  - destruct (negb (read32le (btc_hash256
                                (firstn (Z.to_nat (waiting p)) ptr))
                    =? checksum p)).
    + cbn [fst snd closed set_pending set_has_header set_waiting].
      destruct (closed p); reflexivity.
    + destruct (import (cmd p) (firstn (Z.to_nat (waiting p)) ptr));
        [reflexivity|].
      cbn [fst snd closed set_pending set_has_header set_waiting].
      destruct (closed p); reflexivity.
  - destruct (negb (Nat.eqb (length (firstn (Z.to_nat (waiting p)) ptr)) 24));
      [reflexivity|].
    rewrite parse_header_pending.
    destruct (btc_parser_parse_header p (firstn (Z.to_nat (waiting p)) ptr))
      as [ok p1].
    cbn [fst snd]. destruct ok; [reflexivity|].
    cbn [closed set_pending]. destruct (closed p1); reflexivity.
Qed.

Lemma trace_loop_pending (x : list byte) (fuel : nat) :
  forall (s : St) (ptr : list byte),
    loop fuel (repend x s) ptr
    = match loop fuel s ptr with
      | Ok (s', rest) => Ok (repend x s', rest)
      | Abort => Abort
      | Fuel => Fuel
      end.
Proof.
  induction fuel as [|fuel IH]; intros s ptr; cbn [btc_parser_feed_loop];
    cbn [fst snd closed waiting set_pending];
    destruct (closed (fst s) || (Z.of_nat (length ptr) <? waiting (fst s)));
    try reflexivity.
  rewrite trace_step_pending.
  destruct (step s ptr) as [[s2 rest]|]; [apply IH|reflexivity].
Qed.

(** One call of [btc_parser_feed], in terms of the loop run on the state as
    it was given. *)
Lemma trace_feed_open (s : St) (data : list byte) :
  closed (fst s) = false ->
  trace_feed import s data
  = match loop (2 * length (pending (fst s) ++ data) + 2) s
            (pending (fst s) ++ data) with
    | Ok (s', rest) => Ok (repend rest s')
    | Abort => Abort
    | Fuel => Fuel
    end.
Proof.
  intros Hc. unfold trace_feed, btc_parser_feed, btc_parser_append.
  rewrite Hc. cbn [fst snd pending set_pending].
  rewrite (trace_loop_pending (pending (fst s) ++ data) _ s).
  destruct (loop (2 * length (pending (fst s) ++ data) + 2) s
              (pending (fst s) ++ data)) as [[s' rest]| |]; reflexivity.
Qed.

Lemma trace_feed_closed (s : St) (data : list byte) :
  closed (fst s) = true ->
  trace_feed import s data = Ok (repend (pending (fst s)) s).
Proof.
  intros Hc. unfold trace_feed, btc_parser_feed, btc_parser_append.
  rewrite Hc.
  rewrite (feed_loop_done import fst wp emit fail _ s (pending (fst s)))
    by (left; exact Hc).
  reflexivity.
Qed.

Lemma trace_feed_run (s : St) (data : list byte) :
  parser_ok (fst s) -> closed (fst s) = false ->
  exists s' rest,
    loop (2 * length (pending (fst s) ++ data) + 2) s
      (pending (fst s) ++ data) = Ok (s', rest)
    /\ trace_feed import s data = Ok (repend rest s')
    /\ parser_ok (fst s')
    /\ closed (fst s') = false
    /\ magic (fst s') = magic (fst s)
    /\ (exists ev, snd s' = snd s ++ ev)
    /\ (exists used, pending (fst s) ++ data = used ++ rest)
    /\ Z.of_nat (length rest) < waiting (fst s').
Proof.
  intros Hok Hc.
  destruct (trace_loop_total import
              (2 * length (pending (fst s) ++ data) + 2) s
              (pending (fst s) ++ data) Hok)
    as (s' & rest & Hl & Hok' & Hc' & Hm' & Hev & Hu & Hr).
  { unfold turns. destruct (has_header (fst s)); lia. }
  exists s', rest. split; [exact Hl|].
  split; [rewrite trace_feed_open, Hl by exact Hc; reflexivity|].
  rewrite Hc in Hc'. split; [exact Hok'|]. split; [exact Hc'|].
  split; [exact Hm'|]. split; [exact Hev|]. split; [exact Hu|].
  apply Hr. exact Hc'.
Qed.

End TraceFeed.

(** X14.  Fed any bytes, a parser that waits for a header or for a body of
    at most 32 MiB (as [btc_parser_init] sets it up) runs to the end: no
    [CHECK] of [btc_parser_parse] fails and the loop stops.  The parser is
    in such a state again; the events reported before are still there,
    with the new ones after them; and an open parser has consumed a prefix
    of the bytes it held and was given, keeping fewer bytes than the chunk
    it waits for, so less than 32 MiB. *)
Theorem feed_total {M : Type} (import : list byte -> list byte -> option M)
  (s : btc_parser * list (parser_event M)) (data : list byte) :
  parser_ok (fst s) ->
  exists s',
    trace_feed import s data = Ok s'
    /\ parser_ok (fst s')
    /\ closed (fst s') = closed (fst s)
    /\ magic (fst s') = magic (fst s)
    /\ (exists ev, snd s' = snd s ++ ev)
    /\ (closed (fst s) = false ->
        (exists used, pending (fst s) ++ data = used ++ pending (fst s'))
        /\ Z.of_nat (length (pending (fst s'))) < waiting (fst s')
        /\ Z.of_nat (length (pending (fst s'))) < BTC_NET_MAX_MESSAGE).
Proof.
  intros Hok. destruct (closed (fst s)) eqn:Hc.
  - exists (set_pending (pending (fst s)) (fst s), snd s).
    split; [apply trace_feed_closed; exact Hc|].
    split; [exact Hok|]. split; [exact Hc|]. split; [reflexivity|].
    split; [exists []; rewrite app_nil_r; reflexivity|discriminate].
  - destruct (trace_feed_run import s data Hok Hc)
      as (s' & rest & _ & Hf & Hok' & Hc' & Hm' & Hev & Hu & Hr).
    exists (set_pending rest (fst s'), snd s').
    split; [exact Hf|]. split; [exact Hok'|]. split; [exact Hc'|].
    split; [exact Hm'|]. split; [exact Hev|]. intros _.
    cbn [fst pending set_pending waiting].
    split; [exact Hu|]. split; [exact Hr|]. destruct Hok' as [[_ Hw] _]. lia.
Qed.

Lemma parser_ok_init (mg : Z) : parser_ok (btc_parser_init mg).
Proof. split; [cbn; unfold BTC_NET_MAX_MESSAGE; lia|reflexivity]. Qed.

Lemma feed_total_witness :
  exists s',
    trace_feed (btc_msg_import Sample.codec)
      (btc_parser_init Sample.magic_main, []) Sample.junk_then_feefilter
    = Ok s'
    /\ parser_ok (fst s')
    /\ closed (fst s') = false
    /\ magic (fst s') = Sample.magic_main
    /\ (exists ev, snd s' = [] ++ ev)
    /\ (false = false ->
        (exists used,
           [] ++ Sample.junk_then_feefilter = used ++ pending (fst s'))
        /\ Z.of_nat (length (pending (fst s'))) < waiting (fst s')
        /\ Z.of_nat (length (pending (fst s'))) < BTC_NET_MAX_MESSAGE).
Proof.
  apply (feed_total (btc_msg_import Sample.codec)
           (btc_parser_init Sample.magic_main, [])
           Sample.junk_then_feefilter).
  apply parser_ok_init.
Defined.

(** X15.  The framer does not depend on how the stream is cut into calls:
    feeding [a] and then [b] leaves the parser and the list of events
    exactly as feeding [a ++ b] at once does. *)
Theorem feed_chunks {M : Type} (import : list byte -> list byte -> option M)
  (s : btc_parser * list (parser_event M)) (a b : list byte) :
  parser_ok (fst s) ->
  exists s1 s2,
    trace_feed import s a = Ok s1
    /\ trace_feed import s1 b = Ok s2
    /\ trace_feed import s (a ++ b) = Ok s2.
Proof.
  intros Hok. destruct (closed (fst s)) eqn:Hc.
  - exists (set_pending (pending (fst s)) (fst s), snd s),
           (set_pending (pending (fst s)) (fst s), snd s).
    split; [apply trace_feed_closed; exact Hc|].
    split; [|apply trace_feed_closed; exact Hc].
    rewrite trace_feed_closed by exact Hc. reflexivity.
  - destruct (trace_feed_run import s a Hok Hc)
      as (t1 & rest1 & Hl1 & Hf1 & Hok1 & Hc1 & _).
    destruct (trace_feed_run import (set_pending rest1 (fst t1), snd t1) b
                Hok1 Hc1) as (t2 & rest2 & Hl2 & Hf2 & _).
    exists (set_pending rest1 (fst t1), snd t1),
           (set_pending rest2 (fst t2), snd t2).
    split; [exact Hf1|]. split; [exact Hf2|].
    destruct (trace_feed_run import s (a ++ b) Hok Hc)
      as (t & rest & Hl & Hf & _).
    rewrite Hf.
    cbn [fst snd] in Hl2.
    change (pending (set_pending rest1 (fst t1))) with rest1 in Hl2.
    rewrite (trace_loop_pending import rest1 _ t1) in Hl2.
    destruct (btc_parser_feed_loop import fst
                (fun p q => (p, snd q))
                (fun m q => Some (fst q, snd q ++ [Emitted m]))
                (fun q => Some (fst q, snd q ++ [Failed]))
                (2 * length (rest1 ++ b) + 2) t1 (rest1 ++ b))
      as [[u2 r2]| |] eqn:Hl2'; try discriminate.
    injection Hl2 as <- <-.
    pose proof (trace_loop_app import _ s t1 _ rest1 b _ (u2, r2) Hok Hl1 Hl2')
      as Hab.
    rewrite <- app_assoc in Hab.
    apply (trace_loop_more import _
             (2 * length (pending (fst s) ++ a) + 2
              + (2 * length (rest1 ++ b) + 2)
              + (2 * length (pending (fst s) ++ a ++ b) + 2))) in Hab;
      [|lia].
    apply (trace_loop_more import _
             (2 * length (pending (fst s) ++ a) + 2
              + (2 * length (rest1 ++ b) + 2)
              + (2 * length (pending (fst s) ++ a ++ b) + 2))) in Hl;
      [|lia].
    rewrite Hab in Hl. injection Hl as <- <-. reflexivity.
Qed.

Lemma feed_chunks_witness :
  exists s1 s2,
    trace_feed (btc_msg_import Sample.codec)
      (btc_parser_init Sample.magic_main, []) (repeat x00 30) = Ok s1
    /\ trace_feed (btc_msg_import Sample.codec) s1
         (btc_frame Sample.magic_main Sample.cmd_mempool []) = Ok s2
    /\ trace_feed (btc_msg_import Sample.codec)
         (btc_parser_init Sample.magic_main, [])
         (repeat x00 30 ++ btc_frame Sample.magic_main Sample.cmd_mempool [])
       = Ok s2.
Proof.
  apply (feed_chunks (btc_msg_import Sample.codec)
           (btc_parser_init Sample.magic_main, [])).
  apply parser_ok_init.
Defined.

(** X16.  A frame whose payload was altered on the way (same length, but
    the first four bytes of its double SHA-256 are no longer the checksum
    of the header) is not delivered: a fresh parser reports one error and no
    message, whatever the decoder would make of the bytes, and waits for
    the next header with nothing pending. *)
Theorem corrupt_payload_rejected {M : Type}
  (import : list byte -> list byte -> option M) (mg : Z)
  (c body body' : list byte) :
  0 <= mg < 2 ^ 32 ->
  cmd_well_formed c ->
  Z.of_nat (length body) <= BTC_NET_MAX_MESSAGE ->
  length body' = length body ->
  read32le (btc_hash256 body') <> read32le (btc_hash256 body) ->
  exists p,
    trace_feed import (btc_parser_init mg, [])
      (firstn 24 (btc_frame mg c body) ++ body') = Ok (p, [Failed])
    /\ waiting p = 24 /\ has_header p = false /\ pending p = []
    /\ closed p = false.
Proof.
  intros Hm Hc Hb Hl Hsum.
  set (hd := firstn 24 (btc_frame mg c body)).
  assert (Lhd : length hd = 24%nat).
  { unfold hd, btc_frame. rewrite length_firstn, !length_app,
      !uint32_write_length, length_firstn, hash256_length, repeat_length.
    destruct Hc. lia. }
  eexists. split.
  - unfold trace_feed, btc_parser_feed, btc_parser_append.
    cbn [fst snd closed btc_parser_init pending set_pending app].
    replace (2 * length (hd ++ body') + 2)%nat
      with (S (S (2 * length (hd ++ body')))) by lia.
    rewrite feed_loop_turn.
    2:{ reflexivity. }
    2:{ cbn [fst waiting set_pending btc_parser_init].
        rewrite length_app, Lhd, Nat2Z.inj_add. lia. }
    unfold btc_parser_feed_step at 1, btc_parser_parse at 1.
    cbn [fst snd waiting set_pending btc_parser_init has_header negb].
    change (Z.to_nat 24) with 24%nat.
    rewrite (firstn_app_exact 24 hd body' Lhd), Lhd. cbn [Nat.eqb negb].
    destruct (Z.of_nat 24 >? BTC_NET_MAX_MESSAGE) eqn:E24;
      [apply Z.gtb_lt in E24; unfold BTC_NET_MAX_MESSAGE in E24; lia|].
    pose proof (parse_header_frame
                  (set_pending (hd ++ body') (btc_parser_init mg)) c body
                  Hm Hc Hb) as Eh.
    change (magic (set_pending (hd ++ body') (btc_parser_init mg))) with mg
      in Eh.
    fold hd in Eh. rewrite Eh.
    rewrite (skipn_app_exact 24 hd body' Lhd).
    rewrite feed_loop_turn.
    2:{ reflexivity. }
    2:{ cbn. lia. }
    unfold btc_parser_feed_step at 1, btc_parser_parse at 1.
    cbn [fst snd waiting has_header set_has_header set_checksum set_waiting
         set_cmd set_pending btc_parser_init negb checksum cmd closed].
    rewrite Nat2Z.id, <- Hl, firstn_all, skipn_all.
    destruct (Z.of_nat (length body') >? BTC_NET_MAX_MESSAGE) eqn:Eb;
      [apply Z.gtb_lt in Eb; lia|].
    destruct (read32le (btc_hash256 body') =? read32le (btc_hash256 body))
      eqn:Es; [apply Z.eqb_eq in Es; contradiction|].
    cbn [negb fst snd closed set_has_header set_checksum set_waiting
         set_cmd set_pending btc_parser_init].
    rewrite feed_loop_done by (right; cbn; lia).
    cbn [fst snd app]. reflexivity.
  - cbn. repeat split; reflexivity.
Qed.

Lemma corrupt_payload_rejected_witness :
  exists p,
    trace_feed (btc_msg_import Sample.codec)
      (btc_parser_init Sample.magic_main, [])
      (firstn 24 (btc_frame Sample.magic_main Sample.cmd_feefilter
                    (btc_msg_export Sample.codec (BTC_MSG_FEEFILTER 1000)))
       ++ btc_msg_export Sample.codec (BTC_MSG_FEEFILTER 1001))
    = Ok (p, [Failed])
    /\ waiting p = 24 /\ has_header p = false /\ pending p = []
    /\ closed p = false.
Proof.
  apply (corrupt_payload_rejected (btc_msg_import Sample.codec)
           Sample.magic_main Sample.cmd_feefilter
           (btc_msg_export Sample.codec (BTC_MSG_FEEFILTER 1000))
           (btc_msg_export Sample.codec (BTC_MSG_FEEFILTER 1001))).
  - unfold Sample.magic_main. lia.
  - split; [cbn; lia|].
    repeat constructor; vm_compute; discriminate.
  - vm_compute. discriminate.
  - reflexivity.
  - vm_compute. discriminate.
Defined.

(** ** The mempool, announced *)

Lemma inv_batches_concat (n : nat) (l : list btc_invitem) :
  forall acc, concat (inv_batches n acc l) = acc ++ l.
Proof.
  induction l as [|x l IH]; intros acc; cbn [inv_batches].
  - destruct acc; cbn; rewrite ?app_nil_r; reflexivity.
  - destruct (Nat.eqb (length (acc ++ [x])) n).
    + cbn [concat]. rewrite IH, <- app_assoc. reflexivity.
    + rewrite IH, <- app_assoc. reflexivity.
Qed.

Lemma inv_batches_bound (n : nat) (l : list btc_invitem) :
  forall acc,
    (length acc < n)%nat ->
    Forall (fun b => (0 < length b <= n)%nat) (inv_batches n acc l).
Proof.
  induction l as [|x l IH]; intros acc Hacc; cbn [inv_batches].
  - destruct acc; cbn; constructor; [cbn in *; lia|constructor].
  - destruct (Nat.eqb (length (acc ++ [x])) n) eqn:E.
    + apply Nat.eqb_eq in E. constructor; [lia|].
      apply IH. cbn. lia.
    + apply Nat.eqb_neq in E. apply IH.
      rewrite length_app in *. cbn [length] in *. lia.
Qed.

Lemma mempool_loop_batches (C : msg_codec) (now : Z) (entries : list btc_tx) :
  forall (p : btc_peer) (items : list btc_invitem),
    (let '(p1, it) := mempool_loop C now p entries items in
     if Nat.ltb 0 (length it) then btc_peer_send_inv C now p1 it else p1)
    = fold_left (btc_peer_send_inv C now)
        (inv_batches 1000 items (map tx_item entries)) p.
Proof.
  induction entries as [|t entries IH]; intros p items;
    cbn [mempool_loop map inv_batches].
  - destruct (Nat.ltb 0 (length items)); reflexivity.
  - fold (tx_item t).
    destruct (Nat.eqb (length (items ++ [tx_item t])) 1000).
    + cbn [fold_left]. apply IH.
    + apply IH.
Qed.

(** Several [inv] messages in a row: each is one write, and the hashes of
    all of them enter the filter of the peer. *)
Lemma send_invs_socket (C : msg_codec) (now : Z)
  (batches : list (list btc_invitem)) :
  forall p : btc_peer,
    sock_nwrites (peer_socket (fold_left (btc_peer_send_inv C now) batches p))
    = (sock_nwrites (peer_socket p) + length batches)%nat
    /\ peer_inv_filter (fold_left (btc_peer_send_inv C now) batches p)
       = rev (map inv_hash (concat batches)) ++ peer_inv_filter p
    /\ (accepting p ->
        wrote p (fold_left (btc_peer_send_inv C now) batches p)
          (map (fun b => btc_frame (net_magic (peer_network p))
                           (msg_cmd C (BTC_MSG_INV b))
                           (btc_msg_export C (BTC_MSG_INV b))) batches)).
Proof.
  induction batches as [|b batches IH]; intros p; cbn [fold_left].
  - cbn [concat map rev app length]. rewrite Nat.add_0_r.
    split; [reflexivity|]. split; [reflexivity|]. intros _. apply wrote_refl.
  - destruct (IH (btc_peer_send_inv C now p b)) as (H1 & H2 & H3).
    destruct (send_inv_socket C now p b) as (S1 & _ & S3 & _).
    split; [rewrite H1, S1; cbn [length]; lia|].
    split.
    { rewrite H2, S3. cbn [concat]. rewrite map_app, rev_app_distr.
      rewrite <- app_assoc. reflexivity. }
    intros Ha.
    assert (Hw : wrote p (btc_peer_send_inv C now p b)
                   [btc_frame (net_magic (peer_network p))
                      (msg_cmd C (BTC_MSG_INV b))
                      (btc_msg_export C (BTC_MSG_INV b))]).
    { unfold btc_peer_send_inv.
      exact (sendmsg_wrote C now
               (set_peer_inv_filter
                  (fold_left (fun f item => inv_hash item :: f) b
                     (peer_inv_filter p)) p) (BTC_MSG_INV b) Ha). }
    specialize (H3 (wrote_accepting _ _ _ Hw Ha)).
    assert (En : peer_network (btc_peer_send_inv C now p b) = peer_network p).
    { destruct Hw as (_ & _ & _ & _ & _ & E & _). exact E. }
    rewrite En in H3.
    exact (wrote_trans _ _ _ _ _ Hw H3).
Qed.

(** X17.  Asked for the mempool on a synced chain with BIP 37 enabled, the
    pool announces every transaction of the mempool exactly once and in
    order, in [inv] messages of at most 1000 items, none of them empty:
    each message is one write on the socket of the peer, the hashes of all
    the transactions enter its inventory filter, the last one first, and on
    a socket that takes every write the frames of the [inv] messages stand
    behind what was written before, in order, and the peer stays in its
    state.  With BIP 37 disabled the peer is closed and nothing is written,
    and while the chain is not synced the request is ignored. *)
Theorem mempool_batches (C : msg_codec) (ch : btc_chain) (mp : btc_mempool)
  (bip37_enabled : bool) (now : Z) (p : btc_peer) :
  let batches := inv_batches 1000 [] (map tx_item (mp_entries mp)) in
  let r := btc_pool_on_mempool C ch mp bip37_enabled now p in
  concat batches = map tx_item (mp_entries mp)
  /\ Forall (fun b => (0 < length b <= 1000)%nat) batches
  /\ r = (if negb (btc_chain_synced ch) then p
          else if negb bip37_enabled then btc_peer_close p
          else fold_left (btc_peer_send_inv C now) batches p)
  /\ (btc_chain_synced ch = false -> r = p)
  /\ (btc_chain_synced ch = true -> bip37_enabled = false ->
      peer_state r = BTC_PEER_DEAD
      /\ sock_closed (peer_socket r) = true
      /\ sock_written (peer_socket r) = sock_written (peer_socket p)
      /\ peer_inv_filter r = peer_inv_filter p)
  /\ (btc_chain_synced ch = true -> bip37_enabled = true ->
      sock_nwrites (peer_socket r)
      = (sock_nwrites (peer_socket p) + length batches)%nat
      /\ peer_inv_filter r
         = rev (map tx_hash (mp_entries mp)) ++ peer_inv_filter p
      /\ (accepting p ->
          sock_written (peer_socket r)
          = sock_written (peer_socket p)
            ++ map (fun b => btc_frame (net_magic (peer_network p))
                               (msg_cmd C (BTC_MSG_INV b))
                               (btc_msg_export C (BTC_MSG_INV b))) batches
          /\ peer_state r = peer_state p)).
Proof.
  intros batches r.
  assert (Hc : concat batches = map tx_item (mp_entries mp))
    by apply (inv_batches_concat 1000 _ []).
  assert (Hr : r = (if negb (btc_chain_synced ch) then p
                    else if negb bip37_enabled then btc_peer_close p
                    else fold_left (btc_peer_send_inv C now) batches p)).
  { unfold r, btc_pool_on_mempool.
    destruct (negb (btc_chain_synced ch)); [reflexivity|].
    destruct (negb bip37_enabled); [reflexivity|].
    apply (mempool_loop_batches C now (mp_entries mp) p []). }
  split; [exact Hc|].
  split; [apply inv_batches_bound; cbn; lia|].
  split; [exact Hr|].
  split; [intros Hs; rewrite Hr, Hs; reflexivity|].
  split.
  { intros Hs Hb. rewrite Hr, Hs, Hb. cbn [negb].
    split; [reflexivity|]. split; [reflexivity|]. split; reflexivity. }
  intros Hs Hb. rewrite Hr, Hs, Hb. cbn [negb].
  destruct (send_invs_socket C now batches p) as (H1 & H2 & H3).
  split; [exact H1|].
  split.
  { rewrite H2, Hc, map_map. cbn [tx_item inv_hash]. reflexivity. }
  intros Ha. destruct (H3 Ha) as (W1 & _ & _ & _ & W5 & _).
  split; [exact W1|exact W5].
Qed.

Lemma mempool_batches_witness :
  let mp := {| mp_entries := [{| tx_hash := Sample.hash_n 7; tx_raw := [] |};
                              {| tx_hash := Sample.hash_n 8; tx_raw := [] |}];
               btc_mempool_has_reject := fun _ => false |} in
  let items := [{| inv_type := BTC_INV_TX; inv_hash := Sample.hash_n 7 |};
                {| inv_type := BTC_INV_TX; inv_hash := Sample.hash_n 8 |}] in
  let r := btc_pool_on_mempool Sample.codec (Sample.chain true 5) mp true
             5000 (Sample.peer 0 true BTC_PEER_CONNECTED) in
  peer_inv_filter r = [Sample.hash_n 8; Sample.hash_n 7]
  /\ sock_written (peer_socket r)
     = [btc_frame Sample.magic_main
          (msg_cmd Sample.codec (BTC_MSG_INV items))
          (btc_msg_export Sample.codec (BTC_MSG_INV items))]
  /\ peer_state r = BTC_PEER_CONNECTED.
Proof.
  intros mp items r.
  destruct (mempool_batches Sample.codec (Sample.chain true 5) mp true 5000
              (Sample.peer 0 true BTC_PEER_CONNECTED))
    as (_ & _ & _ & _ & _ & H).
  destruct (H eq_refl eq_refl) as (_ & Hf & Hw).
  destruct Hw as (H1 & H2); [intros n; cbn; discriminate|].
  split; [exact Hf|]. split; [exact H1|exact H2].
Defined.

(** ** Compact blocks in waiting *)

(** X18.  A compact block that could not be filled is stored for the peer
    and the pool, and the [blocktxn] that completes it takes it out again:
    the set of the pool and the table of the peer are then as they were
    before.  A peer that holds 15 such blocks already is closed instead,
    and nothing is stored. *)
Theorem compact_store_take (pl : btc_pool) (id : Z) (h : hash) (now : Z)
  (p : btc_peer) :
  find_peer id pl = Some p ->
  peer_compact_map p !! h = None ->
  h ∉ pool_compact_map pl ->
  (Z.of_nat (size (peer_compact_map p)) < 15 ->
   exists pl1 pl2 q1 q2,
     cmpctblock_store pl id h now = Some pl1
     /\ find_peer id pl1 = Some q1
     /\ peer_compact_map q1 !! h = Some now
     /\ h ∈ pool_compact_map pl1
     /\ blocktxn_take pl1 id h = Some pl2
     /\ pool_compact_map pl2 = pool_compact_map pl
     /\ find_peer id pl2 = Some q2
     /\ peer_compact_map q2 = peer_compact_map p)
  /\ (15 <= Z.of_nat (size (peer_compact_map p)) ->
      cmpctblock_store pl id h now = Some (upd_peer id btc_peer_close pl)).
Proof.
  intros Hp Hn Hh.
  assert (E1 : bool_decide (is_Some (peer_compact_map p !! h)) = false).
  { apply bool_decide_eq_false_2. rewrite Hn. intros [x Hx]. discriminate. }
  assert (E2 : bool_decide (h ∈ pool_compact_map pl) = false)
    by (apply bool_decide_eq_false_2; exact Hh).
  split.
  - intros Hsz.
    set (tab := <[h := now]> (peer_compact_map p)).
    set (pl1 := set_pool_compact_map ({[h]} ∪ pool_compact_map pl)
                  (upd_peer id (set_peer_compact_map tab) pl)).
    assert (Hst : cmpctblock_store pl id h now = Some pl1).
    { unfold cmpctblock_store. rewrite Hp, E1, E2.
      destruct (Z.of_nat (size (peer_compact_map p)) >=? 15) eqn:E;
        [apply Z.geb_le in E; lia|reflexivity]. }
    assert (H1 : find_peer id pl1 = Some (set_peer_compact_map tab p)).
    { apply (find_peer_upd_same id (set_peer_compact_map tab) pl p);
        [reflexivity|exact Hp]. }
    assert (Hin : h ∈ pool_compact_map pl1).
    { cbn [pl1 pool_compact_map set_pool_compact_map].
      apply elem_of_union. left. apply elem_of_singleton. reflexivity. }
    set (pl2 := set_pool_compact_map (pool_compact_map pl1 ∖ {[h]})
                  (upd_peer id
                     (set_peer_compact_map
                        (delete h (peer_compact_map
                                     (set_peer_compact_map tab p)))) pl1)).
    exists pl1, pl2, (set_peer_compact_map tab p),
      (set_peer_compact_map
         (delete h (peer_compact_map (set_peer_compact_map tab p)))
         (set_peer_compact_map tab p)).
    split; [exact Hst|]. split; [exact H1|].
    split; [apply lookup_insert_eq|]. split; [exact Hin|].
    split.
    { unfold blocktxn_take. rewrite H1.
      cbn [peer_compact_map set_peer_compact_map]. unfold tab.
      rewrite lookup_insert_eq.
      rewrite bool_decide_eq_true_2 by exact Hin. reflexivity. }
    split.
    { cbn [pl2 pl1 pool_compact_map set_pool_compact_map].
      apply set_eq. intros x.
      rewrite elem_of_difference, elem_of_union, !elem_of_singleton.
      split; [intros [[->|Hx] Hne]; [contradiction|exact Hx]|].
      intros Hx. split; [right; exact Hx|]. intros ->. contradiction. }
    split.
    { apply (find_peer_upd_same id _ pl1 _); [reflexivity|exact H1]. }
    cbn [peer_compact_map set_peer_compact_map]. unfold tab.
    rewrite delete_insert_id by exact Hn. reflexivity.
  - intros Hsz. unfold cmpctblock_store. rewrite Hp, E1, E2.
    destruct (Z.of_nat (size (peer_compact_map p)) >=? 15) eqn:E;
      [reflexivity|]. rewrite Z.geb_leb in E. apply Z.leb_gt in E. lia.
Qed.

Lemma compact_store_take_witness :
  exists pl1 pl2 q1 q2,
    cmpctblock_store Sample.pool1 0 (Sample.hash_n 7) 5000 = Some pl1
    /\ find_peer 0 pl1 = Some q1
    /\ peer_compact_map q1 !! Sample.hash_n 7 = Some 5000
    /\ Sample.hash_n 7 ∈ pool_compact_map pl1
    /\ blocktxn_take pl1 0 (Sample.hash_n 7) = Some pl2
    /\ pool_compact_map pl2 = pool_compact_map Sample.pool1
    /\ find_peer 0 pl2 = Some q2
    /\ peer_compact_map q2
       = peer_compact_map (Sample.peer 0 true BTC_PEER_CONNECTED).
Proof.
  destruct (compact_store_take Sample.pool1 0 (Sample.hash_n 7) 5000
              (Sample.peer 0 true BTC_PEER_CONNECTED)) as [H _].
  - reflexivity.
  - apply lookup_empty.
  - apply not_elem_of_empty.
  - apply H. cbn. rewrite map_size_empty. lia.
Defined.

(** X19.  No peer ever holds more than 15 compact blocks in waiting: the
    bound is kept by every compact block that is stored. *)
Theorem compact_bound (pl pl' : btc_pool) (id : Z) (h : hash) (now : Z) :
  (forall q, In q (pool_peers pl) ->
             Z.of_nat (size (peer_compact_map q)) <= 15) ->
  cmpctblock_store pl id h now = Some pl' ->
  forall q, In q (pool_peers pl') ->
            Z.of_nat (size (peer_compact_map q)) <= 15.
Proof.
  intros Hall. unfold cmpctblock_store.
  destruct (find_peer id pl) as [p|] eqn:Hp;
    [|intros H; injection H as <-; exact Hall].
  destruct (bool_decide (is_Some (peer_compact_map p !! h))) eqn:E1;
    [intros H; injection H as <-; exact Hall|].
  destruct (bool_decide (h ∈ pool_compact_map pl));
    [intros H; injection H as <-; exact Hall|].
  apply bool_decide_eq_false_1 in E1.
  assert (Hn : peer_compact_map p !! h = None).
  { destruct (peer_compact_map p !! h) eqn:E; [|reflexivity].
    exfalso. apply E1. eexists. reflexivity. }
  destruct (Z.of_nat (size (peer_compact_map p)) >=? 15) eqn:Es;
    intros H; injection H as <-; intros q Hq;
    cbn [pool_peers set_pool_compact_map upd_peer set_pool_peers] in Hq;
    apply in_map_iff in Hq; destruct Hq as (q0 & <- & Hq0);
    destruct (peer_id q0 =? id); try (apply Hall; exact Hq0).
  - exact (Hall q0 Hq0).
  - cbn [peer_compact_map set_peer_compact_map].
    rewrite map_size_insert_None by exact Hn.
    rewrite Z.geb_leb in Es. apply Z.leb_gt in Es. lia.
Qed.

Lemma compact_bound_witness :
  exists pl',
    cmpctblock_store Sample.pool1 0 (Sample.hash_n 7) 5000 = Some pl'
    /\ forall q, In q (pool_peers pl') ->
                 Z.of_nat (size (peer_compact_map q)) <= 15.
Proof.
  assert (E : bool_decide
                (is_Some (cmpctblock_store Sample.pool1 0 (Sample.hash_n 7)
                            5000)) = true) by (vm_compute; reflexivity).
  apply bool_decide_eq_true_1 in E. destruct E as [pl' E].
  exists pl'. split; [exact E|].
  apply (compact_bound Sample.pool1 pl' 0 (Sample.hash_n 7) 5000);
    [|exact E].
  intros q [<-|[]]. cbn. rewrite map_size_empty. lia.
Defined.

(** ** Announced transactions *)

Lemma request_loop_only (synced : bool) (step : Z) (type : btc_invtype)
  (hashes : list hash) :
  forall (set : gset hash) (tab : gmap hash Z) (now : Z)
         (inv : list btc_invitem) (h : hash),
    h ∈ (request_loop synced step type hashes set tab now inv).1.1 ->
    h ∈ set \/ In h hashes.
Proof.
  induction hashes as [|x hashes IH]; intros set tab now inv h;
    cbn [request_loop]; [intros H; left; exact H|].
  destruct (bool_decide (x ∈ set)).
  - intros H. destruct (IH _ _ _ _ _ H) as [H1|H1];
      [left; exact H1|right; right; exact H1].
  - intros H. destruct (IH _ _ _ _ _ H) as [H1|H1].
    + apply elem_of_union in H1. destruct H1 as [H1|H1];
        [|left; exact H1].
      apply elem_of_singleton in H1. right. left. symmetry. exact H1.
    + right. right. exact H1.
Qed.

Lemma request_txs_set (K : btc_consts) (C : msg_codec) (pl : btc_pool)
  (id : Z) (hashes : list hash) (now : Z) :
  pool_tx_map (btc_pool_request_txs K C pl id hashes now)
  = match find_peer id pl with
    | None => pool_tx_map pl
    | Some p =>
        if negb (state_eqb (peer_state p) BTC_PEER_CONNECTED)
        then pool_tx_map pl
        else (request_loop (btc_chain_synced (pool_chain pl)) 50
                (btc_peer_tx_type K p) hashes (pool_tx_map pl)
                (peer_tx_map p) now []).1.1
    end.
Proof.
  unfold btc_pool_request_txs.
  destruct (find_peer id pl) as [p|]; [|reflexivity].
  destruct (negb (state_eqb (peer_state p) BTC_PEER_CONNECTED));
    [reflexivity|].
  destruct (request_loop _ _ _ _ _ _ _ _) as [[set tab] inv].
  cbn [fst].
  destruct (Nat.eqb (length inv) 0); [reflexivity|].
  destruct (_ >=? _); reflexivity.
Qed.

(** X20.  An [inv] of transactions makes the pool ask only for what it
    does not know: the hashes it newly waits for are announced ones that
    are neither in the mempool nor among the recent rejects, and none is
    added while the chain is not synced.  From a connected peer, every
    such hash is waited for afterwards.  An empty list fails the
    [CHECK]. *)
Theorem txinv_requests_unknown (K : btc_consts) (C : msg_codec)
  (pl : btc_pool) (id : Z) (hashes : list hash) (now : Z) :
  (hashes = [] -> btc_pool_on_txinv K C pl id hashes now = None)
  /\ (hashes <> [] ->
      exists pl',
        btc_pool_on_txinv K C pl id hashes now = Some pl'
        /\ pool_tx_map pl ⊆ pool_tx_map pl'
        /\ (forall h, h ∈ pool_tx_map pl' ->
                      h ∈ pool_tx_map pl
                      \/ (In h hashes /\ btc_pool_has_tx pl h = false
                          /\ btc_chain_synced (pool_chain pl) = true))
        /\ (forall p h,
              btc_chain_synced (pool_chain pl) = true ->
              find_peer id pl = Some p ->
              peer_state p = BTC_PEER_CONNECTED ->
              In h hashes -> btc_pool_has_tx pl h = false ->
              h ∈ pool_tx_map pl')).
Proof.
  split; [intros ->; reflexivity|].
  intros Hne. unfold btc_pool_on_txinv.
  destruct hashes as [|h0 rest]; [contradiction|].
  cbn [length Nat.eqb].
  set (hs := h0 :: rest).
  destruct (btc_chain_synced (pool_chain pl)) eqn:Hs; cbn [negb].
  - eexists. split; [reflexivity|].
    rewrite request_txs_set.
    destruct (find_peer id pl) as [p|] eqn:Hp.
    2:{ split; [reflexivity|]. split; [intros h Hh; left; exact Hh|].
        intros p h _ Hp'. discriminate. }
    destruct (state_eqb (peer_state p) BTC_PEER_CONNECTED) eqn:Est;
      cbn [negb].
    2:{ split; [reflexivity|]. split; [intros h Hh; left; exact Hh|].
        intros p' h _ Hp' Hst. injection Hp' as <-. rewrite Hst in Est.
        discriminate. }
    rewrite Hs.
    split; [apply request_loop_covers|].
    split.
    + intros h Hh. apply request_loop_only in Hh.
      destruct Hh as [Hh|Hh]; [left; exact Hh|].
      apply filter_In in Hh. destruct Hh as [Hin Hf].
      right. split; [exact Hin|]. split; [|reflexivity].
      destruct (btc_pool_has_tx pl h); [discriminate|reflexivity].
    + intros p' h _ _ _ Hin Hf. apply request_loop_covers.
      apply filter_In. split; [exact Hin|]. rewrite Hf. reflexivity.
  - exists pl. split; [reflexivity|]. split; [reflexivity|].
    split; [intros h Hh; left; exact Hh|].
    intros p h Hf. discriminate.
Qed.

(** ** What a removed peer leaves behind *)

Lemma find_filter_other (id id' : Z) (l : list btc_peer) :
  id' <> id ->
  find (fun q => peer_id q =? id')
    (List.filter (fun q => negb (peer_id q =? id)) l)
  = find (fun q => peer_id q =? id') l.
Proof.
  intros Hne. induction l as [|q l IH]; [reflexivity|].
  cbn [List.filter find].
  destruct (peer_id q =? id) eqn:E; cbn [negb find].
  - apply Z.eqb_eq in E.
    destruct (peer_id q =? id') eqn:E'; [|exact IH].
    apply Z.eqb_eq in E'. congruence.
  - destruct (peer_id q =? id'); [reflexivity|exact IH].
Qed.

Lemma find_filter_same (id : Z) (l : list btc_peer) :
  find (fun q => peer_id q =? id)
    (List.filter (fun q => negb (peer_id q =? id)) l) = None.
Proof.
  induction l as [|q l IH]; [reflexivity|]. cbn [List.filter].
  destruct (peer_id q =? id) eqn:E; cbn [negb find]; [exact IH|].
  rewrite E. exact IH.
Qed.

(** X21.  Removing a peer releases its requests: the sets of the pool lose
    exactly the hashes of the tables of the peer (blocks, transactions and
    compact blocks), the id is no longer found, and the other peers are
    found as before. *)
Theorem remove_peer_releases (pl pl' : btc_pool) (id : Z) (p : btc_peer) :
  find_peer id pl = Some p ->
  btc_pool_remove_peer pl id = Some pl' ->
  pool_block_map pl' = pool_block_map pl ∖ dom (peer_block_map p)
  /\ pool_tx_map pl' = pool_tx_map pl ∖ dom (peer_tx_map p)
  /\ pool_compact_map pl' = pool_compact_map pl ∖ dom (peer_compact_map p)
  /\ dom (peer_block_map p) ⊆ pool_block_map pl
  /\ find_peer id pl' = None
  /\ (forall id', id' <> id -> find_peer id' pl' = find_peer id' pl).
Proof.
  intros Hp. unfold btc_pool_remove_peer. rewrite Hp.
  destruct (btc_peers_remove pl id) as [pl1|] eqn:Er; [|discriminate].
  destruct (peers_remove_fields _ _ _ Er) as [Hpeers Hsets].
  pose proof (Hsets BLOCKS) as Hb. pose proof (Hsets TXS) as Ht.
  pose proof (Hsets COMPACT) as Hc. cbn [pool_set] in Hb, Ht, Hc.
  unfold remove_keys.
  destruct (bool_decide (dom (peer_block_map p) ⊆ pool_block_map pl1))
    eqn:E1; [|discriminate].
  destruct (bool_decide (dom (peer_tx_map p) ⊆ pool_tx_map pl1));
    [|discriminate].
  destruct (bool_decide (dom (peer_compact_map p) ⊆ pool_compact_map pl1));
    [|discriminate].
  intros H. injection H as <-.
  cbn [pool_block_map pool_tx_map pool_compact_map set_pool_compact_map
       set_pool_tx_map set_pool_block_map].
  rewrite Hb, Ht, Hc.
  split; [reflexivity|]. split; [reflexivity|]. split; [reflexivity|].
  split; [apply bool_decide_eq_true_1 in E1; rewrite <- Hb; exact E1|].
  unfold find_peer.
  cbn [pool_peers set_pool_compact_map set_pool_tx_map set_pool_block_map].
  rewrite Hpeers.
  split; [apply find_filter_same|].
  intros id' Hne. apply find_filter_other. exact Hne.
Qed.

Lemma remove_peer_releases_witness :
  exists p pl',
    find_peer 0 Sample.requested_pool = Some p
    /\ btc_pool_remove_peer Sample.requested_pool 0 = Some pl'
    /\ pool_block_map pl'
       = pool_block_map Sample.requested_pool ∖ dom (peer_block_map p)
    /\ pool_tx_map pl'
       = pool_tx_map Sample.requested_pool ∖ dom (peer_tx_map p)
    /\ pool_compact_map pl'
       = pool_compact_map Sample.requested_pool ∖ dom (peer_compact_map p)
    /\ dom (peer_block_map p) ⊆ pool_block_map Sample.requested_pool
    /\ find_peer 0 pl' = None
    /\ (forall id', id' <> 0 ->
                    find_peer id' pl' = find_peer id' Sample.requested_pool).
Proof.
  assert (Ep : bool_decide (is_Some (find_peer 0 Sample.requested_pool))
               = true) by (vm_compute; reflexivity).
  apply bool_decide_eq_true_1 in Ep. destruct Ep as [p Ep].
  assert (Er : bool_decide
                 (is_Some (btc_pool_remove_peer Sample.requested_pool 0))
               = true) by (vm_compute; reflexivity).
  apply bool_decide_eq_true_1 in Er. destruct Er as [pl' Er].
  exists p, pl'. split; [exact Ep|]. split; [exact Er|].
  exact (remove_peer_releases Sample.requested_pool pl' 0 p Ep Er).
Defined.

(** ** Announced blocks *)

Lemma blockinv_loop_out (C : msg_codec) (id now : Z) (hashes : list hash) :
  forall pl out pl' out',
    blockinv_loop C pl id hashes out now = Some (pl', out') ->
    pool_chain pl' = pool_chain pl
    /\ pool_block_map pl' = pool_block_map pl
    /\ forall h, In h out' ->
                 In h out
                 \/ (In h hashes
                     /\ btc_chain_has_hash (pool_chain pl) h = false
                     /\ btc_chain_has_invalid (pool_chain pl) h = false
                     /\ btc_chain_has_orphan (pool_chain pl) h = false).
Proof.
  induction hashes as [|x hashes IH]; intros pl out pl' out';
    cbn [blockinv_loop].
  - intros H. injection H as <- <-. repeat split. intros h Hh. left. exact Hh.
  - destruct (btc_chain_has_invalid (pool_chain pl) x) eqn:Ei.
    { intros H. destruct (IH _ _ _ _ H) as (H1 & H2 & H3).
      split; [exact H1|]. split; [exact H2|].
      intros h Hh. destruct (H3 h Hh) as [Ho|(Hin & Hr)];
        [left; exact Ho|right; split; [right; exact Hin|exact Hr]]. }
    destruct (btc_chain_has_orphan (pool_chain pl) x) eqn:Eo.
    { unfold btc_pool_resolve_orphan.
      destruct (btc_chain_get_orphan_root (pool_chain pl) x) as [root|];
        [|discriminate].
      intros H. destruct (IH _ _ _ _ H) as (H1 & H2 & H3).
      split; [exact H1|]. split; [exact H2|].
      intros h Hh. destruct (H3 h Hh) as [Ho|(Hin & Hr)];
        [left; exact Ho|right; split; [right; exact Hin|exact Hr]]. }
    destruct (btc_chain_has_hash (pool_chain pl) x) eqn:Eh; cbn [negb].
    + destruct (Nat.eqb (length hashes) 0);
        intros H; destruct (IH _ _ _ _ H) as (H1 & H2 & H3);
        (split; [exact H1|]); (split; [exact H2|]);
        intros h Hh; (destruct (H3 h Hh) as [Ho|(Hin & Hr)];
          [left; exact Ho|right; split; [right; exact Hin|exact Hr]]).
    + intros H. destruct (IH _ _ _ _ H) as (H1 & H2 & H3).
      split; [exact H1|]. split; [exact H2|].
      intros h Hh. destruct (H3 h Hh) as [Ho|(Hin & Hr)].
      * apply in_app_or in Ho. destruct Ho as [Ho|[<-|[]]];
          [left; exact Ho|].
        right. split; [left; reflexivity|]. repeat split; assumption.
      * right. split; [right; exact Hin|exact Hr].
Qed.

Lemma request_blocks_set (K : btc_consts) (C : msg_codec) (pl : btc_pool)
  (id : Z) (hashes : list hash) (now : Z) :
  pool_block_map (btc_pool_request_blocks K C pl id hashes now)
  = match find_peer id pl with
    | None => pool_block_map pl
    | Some p =>
        if negb (state_eqb (peer_state p) BTC_PEER_CONNECTED)
        then pool_block_map pl
        else (request_loop (btc_chain_synced (pool_chain pl)) 100
                (btc_peer_block_type K (pool_bip152_enabled pl) p) hashes
                (pool_block_map pl) (peer_block_map p) now []).1.1
    end.
Proof.
  unfold btc_pool_request_blocks.
  destruct (find_peer id pl) as [p|]; [|reflexivity].
  destruct (negb (state_eqb (peer_state p) BTC_PEER_CONNECTED));
    [reflexivity|].
  destruct (request_loop _ _ _ _ _ _ _ _) as [[set tab] inv].
  cbn [fst].
  destruct (Nat.eqb (length inv) 0); [reflexivity|].
  destruct (_ >=? _); reflexivity.
Qed.

(** X22.  An [inv] of blocks makes the pool ask only for blocks it does not
    have: the hashes it newly waits for were announced, and the chain
    neither has them, nor holds them as orphans, nor knows them as
    invalid.  Nothing is requested in checkpoint mode, nor from a peer that
    is not the loader while the chain is not synced; and no hash the pool
    waits for is dropped. *)
Theorem blockinv_requests_unknown (K : btc_consts) (C : msg_codec)
  (pl pl' : btc_pool) (id : Z) (hashes : list hash) (now : Z) :
  btc_pool_on_blockinv K C pl id hashes now = Some pl' ->
  pool_block_map pl ⊆ pool_block_map pl'
  /\ forall h,
       h ∈ pool_block_map pl' ->
       h ∈ pool_block_map pl
       \/ (In h hashes
           /\ btc_chain_has_hash (pool_chain pl) h = false
           /\ btc_chain_has_invalid (pool_chain pl) h = false
           /\ btc_chain_has_orphan (pool_chain pl) h = false
           /\ pool_checkpoints pl = false
           /\ exists p,
                find_peer id pl = Some p
                /\ (btc_chain_synced (pool_chain pl) = true
                    \/ peer_loader p = true)).
Proof.
  unfold btc_pool_on_blockinv.
  destruct (find_peer id pl) as [p|] eqn:Hp.
  2:{ intros H. injection H as <-. split; [reflexivity|].
      intros h Hh. left. exact Hh. }
  destruct (Nat.eqb (length hashes) 0); [discriminate|].
  set (pl0 := upd_peer id (set_peer_gb_time (-1)) pl).
  change (pool_chain pl0) with (pool_chain pl).
  change (pool_checkpoints pl0) with (pool_checkpoints pl).
  destruct (negb (btc_chain_synced (pool_chain pl)) && negb (peer_loader p))
    eqn:Es.
  { intros H. injection H as <-. split; [reflexivity|].
    intros h Hh. left. exact Hh. }
  destruct (pool_checkpoints pl) eqn:Ec.
  { intros H. injection H as <-. split; [reflexivity|].
    intros h Hh. left. exact Hh. }
  destruct (blockinv_loop C pl0 id hashes [] now) as [[pl1 out]|] eqn:E;
    [|discriminate].
  destruct (blockinv_loop_out C id now hashes pl0 [] pl1 out E)
    as (H1 & H2 & H3).
  change (pool_chain pl0) with (pool_chain pl) in H1, H3.
  change (pool_block_map pl0) with (pool_block_map pl) in H2.
  intros H. injection H as <-. rewrite request_blocks_set.
  destruct (find_peer id pl1) as [p1|].
  2:{ rewrite H2. split; [reflexivity|]. intros h Hh. left. exact Hh. }
  destruct (negb (state_eqb (peer_state p1) BTC_PEER_CONNECTED)).
  { rewrite H2. split; [reflexivity|]. intros h Hh. left. exact Hh. }
  rewrite H2. split; [apply request_loop_covers|].
  intros h Hh. apply request_loop_only in Hh.
  destruct Hh as [Hh|Hh]; [left; exact Hh|].
  destruct (H3 h Hh) as [[]|(Hin & Hh1 & Hh2 & Hh3)].
  right. split; [exact Hin|]. split; [exact Hh1|]. split; [exact Hh2|].
  split; [exact Hh3|]. split; [reflexivity|].
  exists p. split; [reflexivity|].
  destruct (btc_chain_synced (pool_chain pl)); [left; reflexivity|].
  destruct (peer_loader p); [right; reflexivity|discriminate].
Qed.

Lemma blockinv_requests_unknown_witness :
  exists pl',
    btc_pool_on_blockinv Sample.consts Sample.codec Sample.pool1 0
      [Sample.hash_n 3; Sample.hash_n 7] 5000 = Some pl'
    /\ pool_block_map Sample.pool1 ⊆ pool_block_map pl'
    /\ forall h,
         h ∈ pool_block_map pl' ->
         h ∈ pool_block_map Sample.pool1
         \/ (In h [Sample.hash_n 3; Sample.hash_n 7]
             /\ btc_chain_has_hash (pool_chain Sample.pool1) h = false
             /\ btc_chain_has_invalid (pool_chain Sample.pool1) h = false
             /\ btc_chain_has_orphan (pool_chain Sample.pool1) h = false
             /\ pool_checkpoints Sample.pool1 = false
             /\ exists p,
                  find_peer 0 Sample.pool1 = Some p
                  /\ (btc_chain_synced (pool_chain Sample.pool1) = true
                      \/ peer_loader p = true)).
Proof.
  assert (E : bool_decide
                (is_Some (btc_pool_on_blockinv Sample.consts Sample.codec
                            Sample.pool1 0
                            [Sample.hash_n 3; Sample.hash_n 7] 5000))
              = true) by (vm_compute; reflexivity).
  apply bool_decide_eq_true_1 in E. destruct E as [pl' E].
  exists pl'. split; [exact E|].
  exact (blockinv_requests_unknown Sample.consts Sample.codec Sample.pool1
           pl' 0 [Sample.hash_n 3; Sample.hash_n 7] 5000 E).
Defined.

(** ** Requests that stall *)

Lemma stalled_spec (now limit : Z) (m : gmap hash Z) :
  stalled now limit m = true
  <-> exists h t, m !! h = Some t /\ t + limit < now.
Proof.
  unfold stalled. rewrite existsb_exists. split.
  - intros ([h t] & Hin & Hgt). exists h, t. split.
    + apply elem_of_map_to_list. apply list_elem_of_In. exact Hin.
    + apply Z.gtb_lt in Hgt. exact Hgt.
  - intros (h & t & Hm & Hlt). exists (h, t). split.
    + apply list_elem_of_In. apply elem_of_map_to_list. exact Hm.
    + apply Z.gtb_lt. exact Hlt.
Qed.

(** X23.  On a synced chain, or for a peer that is not syncing, a request
    that is too old closes the peer at the next evaluation of the stall
    timer: a block or a transaction asked for more than 120 seconds ago, a
    compact block waiting for its transactions for more than 30 seconds.
    Conversely a peer is closed for a stalled transaction or compact block
    only if it has such a request, and a peer that is left alone has no
    such request (nor is it changed). *)
Theorem request_stall (K : btc_consts) (synced : bool) (now : Z)
  (p : btc_peer) :
  (synced = true \/ peer_syncing p = false ->
   (exists h t,
      (peer_block_map p !! h = Some t \/ peer_tx_map p !! h = Some t)
      /\ t + 120000 < now)
   \/ (exists h t, peer_compact_map p !! h = Some t /\ t + 30000 < now) ->
   exists r,
     btc_peer_maybe_timeout K synced now p = (Some r, btc_peer_close p))
  /\ (fst (btc_peer_maybe_timeout K synced now p) = Some STALL_TX ->
      exists h t, peer_tx_map p !! h = Some t /\ t + 120000 < now)
  /\ (fst (btc_peer_maybe_timeout K synced now p) = Some STALL_BLOCKTXN ->
      exists h t, peer_compact_map p !! h = Some t /\ t + 30000 < now)
  /\ (fst (btc_peer_maybe_timeout K synced now p) = None ->
      snd (btc_peer_maybe_timeout K synced now p) = p
      /\ (synced = true \/ peer_syncing p = false ->
          forall h t,
            (peer_block_map p !! h = Some t -> now <= t + 120000)
            /\ (peer_tx_map p !! h = Some t -> now <= t + 120000)
            /\ (peer_compact_map p !! h = Some t -> now <= t + 30000))).
Proof.
  assert (Hquiet : forall limit m,
             stalled now limit m = false ->
             forall h t, m !! h = Some t -> now <= t + limit).
  { intros limit m Hs h t Hm.
    destruct (Z_le_gt_dec now (t + limit)) as [Hle|Hgt]; [exact Hle|].
    assert (Ht : stalled now limit m = true)
      by (apply stalled_spec; exists h, t; split; [exact Hm|lia]).
    congruence. }
  assert (Hgate : synced = true \/ peer_syncing p = false ->
                  synced || negb (peer_syncing p) = true).
  { intros [->| ->]; [reflexivity|]. destruct synced; reflexivity. }
  unfold btc_peer_maybe_timeout. split; [|split; [|split]].
  - intros Hg Hold. specialize (Hgate Hg). rewrite Hgate. cbn [andb].
    assert (Hst : stalled now 120000 (peer_block_map p) = true
                  \/ stalled now 120000 (peer_tx_map p) = true
                  \/ stalled now 30000 (peer_compact_map p) = true).
    { destruct Hold as [(h & t & [Hm|Hm] & Hlt)|(h & t & Hm & Hlt)].
      - left. apply stalled_spec. exists h, t. split; assumption.
      - right. left. apply stalled_spec. exists h, t. split; assumption.
      - right. right. apply stalled_spec. exists h, t. split; assumption. }
    split_ifs; try (eexists; reflexivity);
      destruct Hst as [Hst|[Hst|Hst]]; congruence.
  - split_ifs; cbn [fst]; intros H; try discriminate.
    bool_to_Z. apply stalled_spec. assumption.
  - split_ifs; cbn [fst]; intros H; try discriminate.
    bool_to_Z. apply stalled_spec. assumption.
  - split_ifs; cbn [fst snd]; intros H; try discriminate;
      (split; [reflexivity|]); intros Hg; specialize (Hgate Hg);
      rewrite Hgate in *; cbn [andb] in *;
      intros h t; repeat split; apply Hquiet; assumption.
Qed.
